(** * libdvbdab: DAB demultiplexing and reassembly pipeline

    A shallow embedding of the parts of libdvbdab that turn transport-stream
    payloads into ETI-NI frames and ensemble descriptions, together with the
    properties of the pipeline stated in the design specification.

    Conventions of the embedding.
    - A byte buffer ([const uint8_t*] plus a length) is a [list Z]; the
      length is the length of the list.  A pointer into a buffer is the
      suffix of the buffer that starts there.
    - Machine integers are [Z]; every conversion to a narrower unsigned
      type is written out as a reduction modulo a power of two.
    - [std::map] is a [gmap]; where the source iterates a map, the
      embedding walks its keys in increasing order, as [std::map] does.
    - A callback invocation is an element of an output list, in call order.
    - A struct member that the source leaves uninitialised is [None]. *)

From stdpp Require Import gmap list sorting.
From Stdlib Require Import ZArith Lia.

Local Open Scope Z_scope.

(** ** Bytes and big-endian reads *)

Abbreviation bytes := (list Z).

Infix ".&" := Z.land (at level 40, left associativity) : Z_scope.
Infix ".|" := Z.lor (at level 50, left associativity) : Z_scope.
Infix ".^" := Z.lxor (at level 50, left associativity) : Z_scope.

Definition is_byte (b : Z) : Prop := 0 <= b < 256.

(** [p[i]] for a pointer [p] into a buffer.  Every use below is guarded by
    the same length test as in the source; the default is never relied on. *)
Definition at_ (p : bytes) (i : Z) : Z :=
  if i <? 0 then 0 else nth (Z.to_nat i) p 0.

(** [p + i] *)
Definition advance (p : bytes) (i : Z) : bytes := drop (Z.to_nat i) p.

(** the [n] bytes at [p] *)
Definition slice (p : bytes) (n : Z) : bytes := take (Z.to_nat n) p.

Definition u8 (x : Z) : Z := x mod 256.
Definition u16 (x : Z) : Z := x mod 65536.
Definition u32 (x : Z) : Z := x mod 4294967296.

Definition len_ (p : bytes) : Z := Z.of_nat (length p).

(** ** dab_parser.h: constants *)

Definition ETI_NI_FSYNC0 : Z := 0xFFF8C549.
Definition ETI_NI_FSYNC1 : Z := 0xFF073AB6.
Definition ETI_NI_RAW_SIZE : Z := 6144.
Definition TS_PACKET_SIZE : Z := 188.
Definition TS_HEADER_SIZE : Z := 4.
Definition TS_BODY_SIZE : Z := 184.

(** ** parsers/udp_extractor.cpp *)

Module UdpTuple.
(** What [extractUdpFromIpv4] hands back on success: the destination and
    the payload as an offset into the datagram plus a length. *)
Record t := mk {
  dst_ip : Z;
  dst_port : Z;
  payload_ptr : Z;
  payload_len : Z
}.
End UdpTuple.

Definition extractUdpFromIpv4 (ip_packet : bytes) : option UdpTuple.t :=
  let len := len_ ip_packet in
  if len <? 28 then None
  else if negb (at_ ip_packet 0 ≫ 4 =? 4) then None
  else if negb (at_ ip_packet 9 =? 17) then None
  else
    let dst_ip := u32 ((at_ ip_packet 16 ≪ 24) .| (at_ ip_packet 17 ≪ 16)
                       .| (at_ ip_packet 18 ≪ 8) .| at_ ip_packet 19) in
    let ip_hdr := (at_ ip_packet 0 .& 0x0F) * 4 in
    if (ip_hdr <? 20) || (len <? ip_hdr + 8) then None
    else
      let udp := advance ip_packet ip_hdr in
      let dst_port := u16 ((at_ udp 2 ≪ 8) .| at_ udp 3) in
      let udp_len := (at_ udp 4 ≪ 8) .| at_ udp 5 in
      if udp_len <? 8 then None
      else Some (UdpTuple.mk dst_ip dst_port (ip_hdr + 8) (udp_len - 8)).

(** ** etina_pipeline.cpp, stage 1 *)

Definition OFFSET_DETECTION_PACKET_COUNT : Z := 5.

Module EtinaOffsetState.
Record t := mk {
  packet_count : Z;
  min_ff_count : Z;
  detected_offset : Z
}.
Definition init : t := mk 0 255 (-1).
End EtinaOffsetState.

Fixpoint count_leading_ff (data : bytes) : Z :=
  match data with
  | b :: rest => if b =? 0xFF then 1 + count_leading_ff rest else 0
  | [] => 0
  end.

(** The result is the stripped payload, or [None] for a null pointer. *)
Definition etina_strip_padding (state : EtinaOffsetState.t) (payload : bytes)
  : EtinaOffsetState.t * option bytes :=
  let len := len_ payload in
  if 0 <=? EtinaOffsetState.detected_offset state then
    let offset := EtinaOffsetState.detected_offset state in
    if len <=? offset then (state, None)
    else (state, Some (advance payload offset))
  else
    let ff_count := count_leading_ff payload in
    let min_ff :=
      if ff_count <? EtinaOffsetState.min_ff_count state then ff_count
      else EtinaOffsetState.min_ff_count state in
    let packet_count := EtinaOffsetState.packet_count state + 1 in
    if OFFSET_DETECTION_PACKET_COUNT <=? packet_count then
      let state' := EtinaOffsetState.mk packet_count min_ff min_ff in
      if len <=? min_ff then (state', None)
      else (state', Some (advance payload min_ff))
    else
      (EtinaOffsetState.mk packet_count min_ff
         (EtinaOffsetState.detected_offset state), None).

(** Stage 1 over a sequence of payloads: the final state and, per payload,
    what was handed to stage 2. *)
Fixpoint strip_all (state : EtinaOffsetState.t) (payloads : list bytes)
  : EtinaOffsetState.t * list (option bytes) :=
  match payloads with
  | [] => (state, [])
  | p :: rest =>
      let '(state1, out) := etina_strip_padding state p in
      let '(state2, outs) := strip_all state1 rest in
      (state2, out :: outs)
  end.

(** ** parsers/gse_parser.cpp *)

Definition GSE_FRAGMENT_ID_COUNT : nat := 256.

(** [v.resize(n)]: keeps the first [n] elements, fills up with zeros. *)
Definition resize (v : bytes) (n : Z) : bytes :=
  take (Z.to_nat n) (v ++ replicate (Z.to_nat n) 0).

(** [memcpy(dst + pos, src, n)] for a destination that holds [pos + n]
    bytes; every call below sits behind that test. *)
Definition memcpy_at (dst : bytes) (pos : Z) (src : bytes) (n : Z) : bytes :=
  take (Z.to_nat pos) dst ++ slice src n ++ drop (Z.to_nat (pos + n)) dst.

Module GseFragment.
Record t := mk {
  data : bytes;
  total_length : Z;
  current_pos : Z;
  active : bool
}.
Definition init : t := mk [] 0 0 false.
End GseFragment.

Module GseParser.
Record t := mk {
  fragments_ : list GseFragment.t;
  packet_count_ : Z;
  fragment_count_ : Z
}.

Definition init : t :=
  mk (replicate GSE_FRAGMENT_ID_COUNT GseFragment.init) 0 0.

Definition frag (st : t) (frag_id : Z) : GseFragment.t :=
  default GseFragment.init (fragments_ st !! Z.to_nat frag_id).

Definition set_frag (st : t) (frag_id : Z) (f : GseFragment.t) : t :=
  mk (<[Z.to_nat frag_id := f]> (fragments_ st))
     (packet_count_ st) (fragment_count_ st).

Definition bump_packets (st : t) : t :=
  mk (fragments_ st) (packet_count_ st + 1) (fragment_count_ st).

Definition bump_fragments (st : t) : t :=
  mk (fragments_ st) (packet_count_ st) (fragment_count_ st + 1).

(** The IPv4 datagram passed to [callback_], if any. *)
Definition emitIpv4Packet (ip_data : bytes) (len : Z) : list bytes :=
  if len <? 20 then []
  else if negb (at_ ip_data 0 ≫ 4 =? 4) then []
  else
    let ip_total_len := u16 ((at_ ip_data 2 ≪ 8) .| at_ ip_data 3) in
    let ip_total_len := if len <? ip_total_len then u16 len else ip_total_len in
    [slice ip_data ip_total_len].

Fixpoint try_labels (data : bytes) (len : Z) (label_lens : list Z) : list bytes :=
  match label_lens with
  | [] => []
  | label_len :: rest =>
      let ip_offset := 2 in
      if len <? ip_offset + label_len + 20 then try_labels data len rest
      else
        let ip_start := advance data (ip_offset + label_len) in
        if at_ ip_start 0 .& 0xF0 =? 0x40
        then emitIpv4Packet ip_start (len - ip_offset - label_len)
        else try_labels data len rest
  end.

Definition handleCompleteGsePayload (data : bytes) (len : Z) : list bytes :=
  if len <? 4 then []
  else
    let protocol := u16 ((at_ data 0 ≪ 8) .| at_ data 1) in
    if negb (protocol =? 0x0800) then []
    else try_labels data len [0; 3; 6].

(** Result: the new state, [Some consumed] for [true] and [None] for
    [false], and the datagrams emitted through the callback. *)
Definition processGsePacket (st : t) (data : bytes) (len : Z)
  : t * option Z * list bytes :=
  if len <? 2 then (st, None, [])
  else
    let gse_header := at_ data 0 in
    let gse_len := u16 (((gse_header .& 0x0f) ≪ 8) .| at_ data 1) in
    if gse_header .& 0xf0 =? 0 then (st, None, [])
    else
      let consumed := gse_len + 2 in
      if len <? consumed then (st, None, [])
      else
        let start := (gse_header ≫ 7) .& 1 =? 1 in
        let stop := (gse_header ≫ 6) .& 1 =? 1 in
        if start && stop then
          (bump_packets st, Some consumed,
           handleCompleteGsePayload (advance data 2) gse_len)
        else if start && negb stop then
          if gse_len <? 7 then (st, Some consumed, [])
          else
            let frag_id := at_ data 2 in
            let total_len := u16 ((at_ data 3 ≪ 8) .| at_ data 4) in
            let lt := (gse_header ≫ 4) .& 3 in
            let label_len := if lt =? 0 then 6 else if lt =? 1 then 3 else 0 in
            let proto_offset := 5 + label_len in
            if gse_len + 2 <? proto_offset + 2 then (st, Some consumed, [])
            else
              let protocol :=
                u16 ((at_ data proto_offset ≪ 8) .| at_ data (proto_offset + 1)) in
              if negb (protocol =? 0x0800) then (st, Some consumed, [])
              else if (2000 <? total_len) || (total_len <? 28)
              then (st, Some consumed, [])
              else
                let old := frag st frag_id in
                let d0 := resize (GseFragment.data old) (total_len + 2) in
                let d1 := <[0%nat := u8 (gse_header .| 0xC0)]> d0 in
                let d2 := <[1%nat := at_ data 1]> d1 in
                let payload_len := gse_len - 3 in
                let f :=
                  if 2 + payload_len <=? len_ d2 then
                    GseFragment.mk (memcpy_at d2 2 (advance data 5) payload_len)
                      (total_len + 2) (2 + payload_len) true
                  else
                    GseFragment.mk d2 (total_len + 2) 0 false in
                (bump_fragments (set_frag st frag_id f), Some consumed, [])
        else if negb start && negb stop then
          if gse_len <? 1 then (st, Some consumed, [])
          else
            let frag_id := at_ data 2 in
            let old := frag st frag_id in
            if negb (GseFragment.active old) then (st, Some consumed, [])
            else
              let payload_len := gse_len - 1 in
              let f :=
                if GseFragment.current_pos old + payload_len
                     <=? len_ (GseFragment.data old) then
                  GseFragment.mk
                    (memcpy_at (GseFragment.data old) (GseFragment.current_pos old)
                       (advance data 3) payload_len)
                    (GseFragment.total_length old)
                    (GseFragment.current_pos old + payload_len) true
                else old in
              (bump_fragments (set_frag st frag_id f), Some consumed, [])
        else
          if gse_len <? 5 then (st, Some consumed, [])
          else
            let frag_id := at_ data 2 in
            let old := frag st frag_id in
            if negb (GseFragment.active old) then (st, Some consumed, [])
            else
              let payload_len := gse_len - 5 in
              let f :=
                if GseFragment.current_pos old + payload_len
                     <=? len_ (GseFragment.data old) then
                  GseFragment.mk
                    (memcpy_at (GseFragment.data old) (GseFragment.current_pos old)
                       (advance data 3) payload_len)
                    (GseFragment.total_length old)
                    (GseFragment.current_pos old + payload_len) true
                else old in
              let out :=
                handleCompleteGsePayload (advance (GseFragment.data f) 2)
                  (GseFragment.current_pos f - 2) in
              let f' :=
                GseFragment.mk (GseFragment.data f) (GseFragment.total_length f)
                  (GseFragment.current_pos f) false in
              (bump_fragments (set_frag (bump_packets st) frag_id f'),
               Some consumed, out).

(** A sequence of whole GSE packets, each handed to [processGsePacket]
    with its own length, as the feed loops do once a packet is complete. *)
Fixpoint process_packets (st : t) (packets : list bytes) : t * list bytes :=
  match packets with
  | [] => (st, [])
  | p :: rest =>
      let '(st1, _, out) := processGsePacket st p (len_ p) in
      let '(st2, outs) := process_packets st1 rest in
      (st2, out ++ outs)
  end.
End GseParser.

(** Packets handed one after the other to a stage that returns at most one
    result per packet: the final state and the results, in order. *)
Fixpoint feed_each {S R} (step : S -> bytes -> S * option R) (st : S)
    (pkts : list bytes) : S * list R :=
  match pkts with
  | [] => (st, [])
  | pkt :: rest =>
      let '(st1, out) := step st pkt in
      let '(st2, outs) := feed_each step st1 rest in
      (st2, option_list out ++ outs)
  end.

(** ** dab_parser.cpp: PF fragment reassembly *)

Module PF_Header.
(** The optional members [rsk], [rsz], [source] and [dest] are never
    written by [parse_pf_header] and never read. *)
Record t := mk {
  pseq : Z;
  findex : Z;
  fcount : Z;
  fec : bool;
  addr : bool;
  plen : Z
}.
End PF_Header.

Module PF_Collector.
Record t := mk {
  pseq : Z;
  fcount : Z;
  fragments_collected : Z;
  processed : bool;
  fragments : gmap Z bytes
}.
Definition init : t := mk 0 0 0 false ∅.
End PF_Collector.

(** The keys of a [std::map] in iteration order. *)
Definition keys_in_order {V} (m : gmap Z V) : list Z :=
  merge_sort Z.le (elements (dom m)).

(** [for (i = from; i < from + n; i++)] over a fragment map, appending every
    fragment found to [acc]; stops at the first missing index when
    [stop_at_gap] is set, skips it otherwise.  The boolean tells whether the
    loop ran to its end. *)
Fixpoint gather (stop_at_gap : bool) (frags : gmap Z bytes) (from : Z) (n : nat)
    (acc : bytes) : bytes * bool :=
  match n with
  | O => (acc, true)
  | S n' =>
      match frags !! from with
      | Some d => gather stop_at_gap frags (from + 1) n' (acc ++ d)
      | None =>
          if stop_at_gap then (acc, false)
          else gather stop_at_gap frags (from + 1) n' acc
      end
  end.

Module PF_Reassembler.
(** [af_buffer_] is a [std::vector]: [None] as long as it has no storage,
    which is when [data()] is the null pointer, and its bytes otherwise. *)
Record t := mk {
  collectors_ : gmap Z PF_Collector.t;
  af_buffer_ : option bytes
}.

Definition reset : t := mk ∅ None.

(** [af_buffer_.clear()] followed by the inserts that append [af] in all:
    [clear] keeps the storage, and an insert of no bytes allocates none. *)
Definition refill (buf : option bytes) (af : bytes) : option bytes :=
  match af, buf with
  | [], None => None
  | _, _ => Some af
  end.

Fixpoint cleanup_walk (keys : list Z) (m : gmap Z PF_Collector.t)
  : gmap Z PF_Collector.t :=
  match keys with
  | [] => m
  | k :: rest =>
      if (8 <? size m)%nat then
        match m !! k with
        | Some c =>
            if PF_Collector.processed c then cleanup_walk rest (delete k m)
            else cleanup_walk rest m
        | None => cleanup_walk rest m
        end
      else m
  end.

Definition cleanup_old_collectors (m : gmap Z PF_Collector.t)
  : gmap Z PF_Collector.t :=
  if (16 <? size m)%nat then cleanup_walk (keys_in_order m) m else m.

Definition parse_pf_header (pkt : bytes) (len : Z) : option PF_Header.t :=
  if (len <? 14) || negb (at_ pkt 0 =? 0x50) || negb (at_ pkt 1 =? 0x46)
  then None
  else
    let pseq := u16 ((at_ pkt 2 ≪ 8) .| at_ pkt 3) in
    let findex := u32 ((at_ pkt 4 ≪ 16) .| (at_ pkt 5 ≪ 8) .| at_ pkt 6) in
    let fcount := u32 ((at_ pkt 7 ≪ 16) .| (at_ pkt 8 ≪ 8) .| at_ pkt 9) in
    let fec_addr_plen := u16 ((at_ pkt 10 ≪ 8) .| at_ pkt 11) in
    let fec := (fec_addr_plen ≫ 15) .& 1 =? 1 in
    let addr := (fec_addr_plen ≫ 14) .& 1 =? 1 in
    let plen := fec_addr_plen .& 0x3FFF in
    if len - 14 <? plen then None
    else Some (PF_Header.mk pseq findex fcount fec addr plen).

(** Result: the new state and the pointer returned, with the [af_len]
    bytes it points to; [None] for a null pointer. *)
Definition add_fragment (st : t) (hdr : PF_Header.t) (pkt : bytes) (len : Z)
  : t * option bytes :=
  let hdr_size :=
    12 + (if PF_Header.fec hdr then 2 else 0)
       + (if PF_Header.addr hdr then 4 else 0) + 2 in
  if len <? hdr_size + PF_Header.plen hdr then (st, None)
  else
    let payload := advance pkt hdr_size in
    let c0 := default PF_Collector.init
                (collectors_ st !! PF_Header.pseq hdr) in
    let c :=
      if (PF_Collector.fcount c0 =? 0) || PF_Collector.processed c0
      then PF_Collector.mk (PF_Header.pseq hdr) (PF_Header.fcount hdr) 0 false ∅
      else c0 in
    let stored := mk (<[PF_Header.pseq hdr := c]> (collectors_ st)) (af_buffer_ st) in
    if PF_Collector.fcount c <=? PF_Header.findex hdr then (stored, None)
    else if bool_decide (is_Some (PF_Collector.fragments c !! PF_Header.findex hdr))
    then (stored, None)
    else
      let c1 :=
        PF_Collector.mk (PF_Collector.pseq c) (PF_Collector.fcount c)
          (u32 (PF_Collector.fragments_collected c + 1)) false
          (<[PF_Header.findex hdr := slice payload (PF_Header.plen hdr)]>
             (PF_Collector.fragments c)) in
      if PF_Collector.fragments_collected c1 <? PF_Collector.fcount c1 then
        (mk (<[PF_Header.pseq hdr := c1]> (collectors_ st)) (af_buffer_ st), None)
      else
        let c2 :=
          PF_Collector.mk (PF_Collector.pseq c1) (PF_Collector.fcount c1)
            (PF_Collector.fragments_collected c1) true
            (PF_Collector.fragments c1) in
        let m2 := <[PF_Header.pseq hdr := c2]> (collectors_ st) in
        let '(af, whole) :=
          gather true (PF_Collector.fragments c2) 0
            (Z.to_nat (PF_Collector.fcount c2)) [] in
        let buf := refill (af_buffer_ st) af in
        if whole then (mk (cleanup_old_collectors m2) buf, buf)
        else (mk m2 buf, None).

(** The reassembly half of [DABStreamParser::handle_pf_packet]. *)
Definition feed_packet (st : t) (pkt : bytes) : t * option bytes :=
  match parse_pf_header pkt (len_ pkt) with
  | None => (st, None)
  | Some hdr => add_fragment st hdr pkt (len_ pkt)
  end.

(** PF packets fed one after the other: the AF packets that came out. *)
Definition feed_all (st : t) (pkts : list bytes) : t * list bytes :=
  feed_each feed_packet st pkts.
End PF_Reassembler.

(** ** edi_parser.cpp: PF fragment reassembly in [EdiParser::feed] *)

Module PfCollector.
Record t := mk {
  pseq : Z;
  fcount : Z;
  fragments : gmap Z bytes
}.
Definition init : t := mk 0 0 ∅.
End PfCollector.

Module EdiParser_PF.
(** [EdiParser::feed] up to its call of [handleAfPacket]: the collectors
    after the call and the AF packet handed to [handleAfPacket], if any. *)
Definition feed (pf_collectors_ : gmap Z PfCollector.t) (data : bytes)
  : gmap Z PfCollector.t * option bytes :=
  let len := len_ data in
  if (len <? 14) || negb (at_ data 0 =? 0x50) || negb (at_ data 1 =? 0x46)
  then (pf_collectors_, None)
  else
    let pseq := u16 ((at_ data 2 ≪ 8) .| at_ data 3) in
    let findex := u32 ((at_ data 4 ≪ 16) .| (at_ data 5 ≪ 8) .| at_ data 6) in
    let fcount := u32 ((at_ data 7 ≪ 16) .| (at_ data 8 ≪ 8) .| at_ data 9) in
    let fec_flag := (at_ data 10 ≫ 7) .& 1 in
    let addr_flag := (at_ data 10 ≫ 6) .& 1 in
    let plen := u16 (((at_ data 10 .& 0x3F) ≪ 8) .| at_ data 11) in
    let hdr_size :=
      14 + (if fec_flag =? 0 then 0 else 2) + (if addr_flag =? 0 then 0 else 4) in
    if (fcount =? 0) || (256 <? fcount) || (fcount <=? findex)
       || (len <? hdr_size + plen)
    then (pf_collectors_, None)
    else
      let c0 := default PfCollector.init (pf_collectors_ !! pseq) in
      let c :=
        if negb (PfCollector.pseq c0 =? pseq) || negb (PfCollector.fcount c0 =? fcount)
        then PfCollector.mk pseq fcount ∅
        else c0 in
      let c1 :=
        match PfCollector.fragments c !! findex with
        | Some _ => c
        | None =>
            PfCollector.mk (PfCollector.pseq c) (PfCollector.fcount c)
              (<[findex := slice (advance data hdr_size) plen]>
                 (PfCollector.fragments c))
        end in
      if Z.of_nat (size (PfCollector.fragments c1)) =? PfCollector.fcount c1 then
        let af :=
          fst (gather false (PfCollector.fragments c1) 0
                 (Z.to_nat (PfCollector.fcount c1)) []) in
        (delete pseq (<[pseq := c1]> pf_collectors_), Some af)
      else (<[pseq := c1]> pf_collectors_, None).

Definition feed_all (m : gmap Z PfCollector.t) (pkts : list bytes)
  : gmap Z PfCollector.t * list bytes :=
  feed_each feed m pkts.
End EdiParser_PF.

(** ** dab_parser.cpp: tables and helpers *)

Definition crc16_table : list Z := [
    0x0000; 0x1021; 0x2042; 0x3063; 0x4084; 0x50a5; 0x60c6; 0x70e7;
    0x8108; 0x9129; 0xa14a; 0xb16b; 0xc18c; 0xd1ad; 0xe1ce; 0xf1ef;
    0x1231; 0x0210; 0x3273; 0x2252; 0x52b5; 0x4294; 0x72f7; 0x62d6;
    0x9339; 0x8318; 0xb37b; 0xa35a; 0xd3bd; 0xc39c; 0xf3ff; 0xe3de;
    0x2462; 0x3443; 0x0420; 0x1401; 0x64e6; 0x74c7; 0x44a4; 0x5485;
    0xa56a; 0xb54b; 0x8528; 0x9509; 0xe5ee; 0xf5cf; 0xc5ac; 0xd58d;
    0x3653; 0x2672; 0x1611; 0x0630; 0x76d7; 0x66f6; 0x5695; 0x46b4;
    0xb75b; 0xa77a; 0x9719; 0x8738; 0xf7df; 0xe7fe; 0xd79d; 0xc7bc;
    0x48c4; 0x58e5; 0x6886; 0x78a7; 0x0840; 0x1861; 0x2802; 0x3823;
    0xc9cc; 0xd9ed; 0xe98e; 0xf9af; 0x8948; 0x9969; 0xa90a; 0xb92b;
    0x5af5; 0x4ad4; 0x7ab7; 0x6a96; 0x1a71; 0x0a50; 0x3a33; 0x2a12;
    0xdbfd; 0xcbdc; 0xfbbf; 0xeb9e; 0x9b79; 0x8b58; 0xbb3b; 0xab1a;
    0x6ca6; 0x7c87; 0x4ce4; 0x5cc5; 0x2c22; 0x3c03; 0x0c60; 0x1c41;
    0xedae; 0xfd8f; 0xcdec; 0xddcd; 0xad2a; 0xbd0b; 0x8d68; 0x9d49;
    0x7e97; 0x6eb6; 0x5ed5; 0x4ef4; 0x3e13; 0x2e32; 0x1e51; 0x0e70;
    0xff9f; 0xefbe; 0xdfdd; 0xcffc; 0xbf1b; 0xaf3a; 0x9f59; 0x8f78;
    0x9188; 0x81a9; 0xb1ca; 0xa1eb; 0xd10c; 0xc12d; 0xf14e; 0xe16f;
    0x1080; 0x00a1; 0x30c2; 0x20e3; 0x5004; 0x4025; 0x7046; 0x6067;
    0x83b9; 0x9398; 0xa3fb; 0xb3da; 0xc33d; 0xd31c; 0xe37f; 0xf35e;
    0x02b1; 0x1290; 0x22f3; 0x32d2; 0x4235; 0x5214; 0x6277; 0x7256;
    0xb5ea; 0xa5cb; 0x95a8; 0x8589; 0xf56e; 0xe54f; 0xd52c; 0xc50d;
    0x34e2; 0x24c3; 0x14a0; 0x0481; 0x7466; 0x6447; 0x5424; 0x4405;
    0xa7db; 0xb7fa; 0x8799; 0x97b8; 0xe75f; 0xf77e; 0xc71d; 0xd73c;
    0x26d3; 0x36f2; 0x0691; 0x16b0; 0x6657; 0x7676; 0x4615; 0x5634;
    0xd94c; 0xc96d; 0xf90e; 0xe92f; 0x99c8; 0x89e9; 0xb98a; 0xa9ab;
    0x5844; 0x4865; 0x7806; 0x6827; 0x18c0; 0x08e1; 0x3882; 0x28a3;
    0xcb7d; 0xdb5c; 0xeb3f; 0xfb1e; 0x8bf9; 0x9bd8; 0xabbb; 0xbb9a;
    0x4a75; 0x5a54; 0x6a37; 0x7a16; 0x0af1; 0x1ad0; 0x2ab3; 0x3a92;
    0xfd2e; 0xed0f; 0xdd6c; 0xcd4d; 0xbdaa; 0xad8b; 0x9de8; 0x8dc9;
    0x7c26; 0x6c07; 0x5c64; 0x4c45; 0x3ca2; 0x2c83; 0x1ce0; 0x0cc1;
    0xef1f; 0xff3e; 0xcf5d; 0xdf7c; 0xaf9b; 0xbfba; 0x8fd9; 0x9ff8;
    0x6e17; 0x7e36; 0x4e55; 0x5e74; 0x2e93; 0x3eb2; 0x0ed1; 0x1ef0
  ].

Definition read_16b (p : bytes) : Z := u16 ((at_ p 0 ≪ 8) .| at_ p 1).
Definition read_24b (p : bytes) : Z :=
  u32 ((at_ p 0 ≪ 16) .| (at_ p 1 ≪ 8) .| at_ p 2).
Definition read_32b (p : bytes) : Z :=
  u32 ((at_ p 0 ≪ 24) .| (at_ p 1 ≪ 16) .| (at_ p 2 ≪ 8) .| at_ p 3).

Definition uep_bitrates : list Z := [
    32; 32; 32; 32; 32; 48; 48; 48; 48; 48; 56; 56; 56; 56; 64; 64; 64; 64; 64; 64; 64; 80; 80; 80; 80; 80; 80; 96; 96; 96; 96; 96; 96; 112; 112; 112; 112; 128; 128; 128; 128; 128; 128; 128; 160; 160; 160; 160; 160; 160; 192; 192; 192; 192; 192; 192; 192; 224; 224; 224; 224; 224; 256; 256; 256
  ].

Definition get_eep_bitrate (subchsz protlvl : Z) : Z :=
  if protlvl =? 0 then subchsz / 12 * 8
  else if protlvl =? 1 then subchsz / 8 * 8
  else if protlvl =? 2 then subchsz / 6 * 8
  else if protlvl =? 3 then subchsz / 4 * 8
  else if protlvl =? 4 then subchsz / 27 * 8
  else if protlvl =? 5 then subchsz / 21 * 8
  else if protlvl =? 6 then subchsz / 18 * 8
  else if protlvl =? 7 then subchsz / 15 * 8
  else 0.

(** The loop stops at the first NUL. *)
Fixpoint latin1_to_utf8 (src : bytes) : bytes :=
  match src with
  | [] => []
  | c :: rest =>
      if c =? 0 then []
      else if c <? 0x80 then c :: latin1_to_utf8 rest
      else u8 (0xC0 .| (c ≫ 6)) :: u8 (0x80 .| (c .& 0x3F)) :: latin1_to_utf8 rest
  end.

(** [while (end >= 0 && (label[end] == ' ' || label[end] == 0)) label[end--] = 0],
    on the label read back to front. *)
Fixpoint blank_tail (rev_label : bytes) : bytes :=
  match rev_label with
  | [] => []
  | c :: rest =>
      if (c =? 32) || (c =? 0) then 0 :: blank_tail rest else rev_label
  end.

Definition label_to_utf8 (data : bytes) : bytes :=
  latin1_to_utf8 (rev (blank_tail (rev (slice data 16)))).

Definition crc16_update (crc b : Z) : Z :=
  u16 ((crc ≪ 8) .^ nth (Z.to_nat ((crc ≫ 8) .^ b)) crc16_table 0).

Definition crc16_table_driven (data : bytes) (len : Z) : Z :=
  fold_left crc16_update (slice data len) 0xFFFF .^ 0xFFFF.

(** ** dab_parser.h: ensemble model *)

Module DABService.
(** [build_ensemble] declares a [DABService] without initialising it; the
    members after [label] are written only when the sub-channel is found. *)
Record t := mk {
  sid : Z;
  label : bytes;
  bitrate : option Z;
  subchannel_id : option Z;
  start_addr : option Z;
  subchannel_size : option Z;
  dabplus : option bool;
  protection_level : option Z;
  eep_protection : option bool
}.
End DABService.

Module DABEnsemble.
Record t := mk {
  eid : Z;
  label : bytes;
  services : list DABService.t
}.
Definition init : t := mk 0 [] [].
End DABEnsemble.

Module ETI_FC.
Record t := mk { fct : Z; ficf : Z; nst : Z; fp : Z; mid : Z; fl : Z }.
End ETI_FC.

Definition parse_fc (p : bytes) : ETI_FC.t :=
  let val := read_32b p in
  ETI_FC.mk ((val ≫ 24) .& 0xFF) ((val ≫ 23) .& 0x01) ((val ≫ 16) .& 0x7F)
            ((val ≫ 13) .& 0x07) ((val ≫ 11) .& 0x03) (val .& 0x7FF).

Module SubChannel.
(** FIG 0/1 fills [protlvl] only in the long form and [uep_indx] only in
    the short form. *)
Record t := mk {
  subchid : Z;
  startaddr : Z;
  subchsz : Z;
  bitrate : Z;
  eepprot : Z;
  protlvl : option Z;
  uep_indx : option Z;
  dabplus : Z
}.
Definition set_dabplus (sc : t) (v : Z) : t :=
  mk (subchid sc) (startaddr sc) (subchsz sc) (bitrate sc) (eepprot sc)
     (protlvl sc) (uep_indx sc) v.
End SubChannel.

Module ServiceInfo.
Record t := mk { sid : Z; primary_subch : Z; secondary_subch : Z }.
End ServiceInfo.

Module PacketModeInfo.
Record t := mk { subchid : Z; packet_addr : Z; dscty : Z; dg_flag : bool }.
End PacketModeInfo.

(** [size_t] arithmetic *)
Definition usize (x : Z) : Z := x mod 2 ^ 64.

(** How many keys of a map satisfy a test, as the counting loops over
    [service_map_] do. *)
Definition count_keys {V} (test : Z -> bool) (m : gmap Z V) : Z :=
  Z.of_nat (length (List.filter test (keys_in_order m))).

Definition map_size {V} (m : gmap Z V) : Z := Z.of_nat (size m).

(** ** dab_parser.cpp: FIC/FIG parser *)

Module DABParser.

(** The members written by the FIG handlers. *)
Record tables := mk_tables {
  subchannels_ : gmap Z SubChannel.t;
  service_map_ : gmap Z ServiceInfo.t;
  packet_mode_map_ : gmap Z PacketModeInfo.t;
  service_labels_ : gmap Z bytes;
  ensemble_label_ : bytes;
  ensemble_id_ : Z
}.

(** The parser.  Left out: the log-only counters other than
    [eti_call_count_], the label timestamps, and [last_label_count_] and
    [label_stable_frames_], which are only ever reset. *)
Record t := mk {
  fig : tables;
  labelled_ : bool;
  basic_ready_ : bool;
  ensemble_ : DABEnsemble.t;
  last_basic_service_count_ : Z;
  basic_stable_frames_ : Z;
  last_service_count_ : Z;
  stable_frames_ : Z;
  eti_call_count_ : Z
}.

(** The state after the constructor, which calls [reset]. *)
Definition init : t :=
  mk (mk_tables ∅ ∅ ∅ ∅ [] 0) false false DABEnsemble.init 0 0 0 0 0.

Definition is_complete (s : t) : bool := labelled_ s.
Definition is_basic_ready (s : t) : bool := basic_ready_ s.
Definition get_ensemble (s : t) : DABEnsemble.t := ensemble_ s.

Definition set_subchannels (T : tables) m : tables :=
  mk_tables m (service_map_ T) (packet_mode_map_ T) (service_labels_ T)
    (ensemble_label_ T) (ensemble_id_ T).
Definition set_service_map (T : tables) m : tables :=
  mk_tables (subchannels_ T) m (packet_mode_map_ T) (service_labels_ T)
    (ensemble_label_ T) (ensemble_id_ T).
Definition set_packet_mode_map (T : tables) m : tables :=
  mk_tables (subchannels_ T) (service_map_ T) m (service_labels_ T)
    (ensemble_label_ T) (ensemble_id_ T).
Definition set_service_labels (T : tables) m : tables :=
  mk_tables (subchannels_ T) (service_map_ T) (packet_mode_map_ T) m
    (ensemble_label_ T) (ensemble_id_ T).
Definition set_ensemble_label (T : tables) l : tables :=
  mk_tables (subchannels_ T) (service_map_ T) (packet_mode_map_ T)
    (service_labels_ T) l (ensemble_id_ T).
Definition set_ensemble_id (T : tables) e : tables :=
  mk_tables (subchannels_ T) (service_map_ T) (packet_mode_map_ T)
    (service_labels_ T) (ensemble_label_ T) e.

(** FIG 0/1, the [while (pos + 3 <= len)] loop. *)
Fixpoint fig_0_1 (fuel : nat) (subch : gmap Z SubChannel.t) (data : bytes)
    (len pos : Z) : gmap Z SubChannel.t :=
  match fuel with
  | O => subch
  | S fuel' =>
      if len <? pos + 3 then subch
      else
        let subchid := (at_ data pos ≫ 2) .& 0x3F in
        let startaddr := ((at_ data pos .& 0x03) ≪ 8) .| at_ data (pos + 1) in
        let form := (at_ data (pos + 2) ≫ 7) .& 0x01 in
        let dabplus :=
          match subch !! subchid with
          | Some old => SubChannel.dabplus old
          | None => 0
          end in
        if form =? 0 then
          let table_index := at_ data (pos + 2) .& 0x3F in
          let sc :=
            SubChannel.mk subchid startaddr 0
              (nth (Z.to_nat table_index) uep_bitrates 0) 0 None
              (Some table_index) dabplus in
          fig_0_1 fuel' (<[subchid := sc]> subch) data len (pos + 3)
        else if len <? pos + 4 then subch
        else
          let subchsz := ((at_ data (pos + 2) .& 0x03) ≪ 8) .| at_ data (pos + 3) in
          let protlvl := (at_ data (pos + 2) ≫ 2) .& 0x03 in
          let option := (at_ data (pos + 2) ≫ 4) .& 0x07 in
          let protlvl' := protlvl + (if option =? 0 then 0 else 4) in
          let sc :=
            SubChannel.mk subchid startaddr subchsz
              (get_eep_bitrate subchsz protlvl') 1 (Some protlvl') None dabplus in
          fig_0_1 fuel' (<[subchid := sc]> subch) data len (pos + 4)
  end.

(** FIG 0/2, the component loop of one service:
    [for (i = 0; i < num_components && pos + 2 <= len; i++)]. *)
Fixpoint fig_0_2_components (n : nat) (subch : gmap Z SubChannel.t)
    (info : ServiceInfo.t) (data : bytes) (len pos : Z)
  : gmap Z SubChannel.t * ServiceInfo.t * Z :=
  match n with
  | O => (subch, info, pos)
  | S n' =>
      if len <? pos + 2 then (subch, info, pos)
      else
        let tmid := (at_ data pos ≫ 6) .& 0x03 in
        let subchid := (at_ data (pos + 1) ≫ 2) .& 0x3F in
        let primary := (at_ data (pos + 1) ≫ 1) .& 0x01 in
        if tmid =? 0 then
          let ascty := at_ data pos .& 0x3F in
          let subch' :=
            match subch !! subchid with
            | Some sc =>
                <[subchid := SubChannel.set_dabplus sc (if ascty =? 63 then 1 else 0)]>
                  subch
            | None => subch
            end in
          let info' :=
            if negb (primary =? 0) && (ServiceInfo.primary_subch info <? 0) then
              ServiceInfo.mk (ServiceInfo.sid info) subchid
                (ServiceInfo.secondary_subch info)
            else if ServiceInfo.secondary_subch info <? 0 then
              ServiceInfo.mk (ServiceInfo.sid info)
                (ServiceInfo.primary_subch info) subchid
            else info in
          fig_0_2_components n' subch' info' data len (pos + 2)
        else if tmid =? 1 then
          let info' :=
            if negb (primary =? 0) && (ServiceInfo.primary_subch info <? 0) then
              ServiceInfo.mk (ServiceInfo.sid info) subchid
                (ServiceInfo.secondary_subch info)
            else info in
          fig_0_2_components n' subch info' data len (pos + 2)
        else fig_0_2_components n' subch info data len (pos + 2)
  end.

(** FIG 0/2, the [while (pos + min_service_size <= len)] loop. *)
Fixpoint fig_0_2 (fuel : nat) (T : tables) (data : bytes) (len pd pos : Z)
  : tables :=
  match fuel with
  | O => T
  | S fuel' =>
      let min_service_size := if pd =? 0 then 3 else 5 in
      if len <? pos + min_service_size then T
      else
        let sid :=
          if pd =? 0 then (at_ data pos ≪ 8) .| at_ data (pos + 1)
          else u32 ((at_ data pos ≪ 24) .| (at_ data (pos + 1) ≪ 16)
                    .| (at_ data (pos + 2) ≪ 8) .| at_ data (pos + 3)) in
        let pos1 := if pd =? 0 then pos + 2 else pos + 4 in
        let num_components := at_ data pos1 .& 0x0F in
        let pos2 := pos1 + 1 in
        let '(subch, info, pos3) :=
          fig_0_2_components (Z.to_nat num_components) (subchannels_ T)
            (ServiceInfo.mk sid (-1) (-1)) data len pos2 in
        let T1 := set_subchannels T subch in
        let T2 :=
          if 0 <=? ServiceInfo.primary_subch info
          then set_service_map T1 (<[sid := info]> (service_map_ T1))
          else T1 in
        fig_0_2 fuel' T2 data len pd pos3
  end.

(** FIG 0/3, the [while (pos + 5 <= len)] loop. *)
Fixpoint fig_0_3 (fuel : nat) (pm : gmap Z PacketModeInfo.t) (data : bytes)
    (len pos : Z) : gmap Z PacketModeInfo.t :=
  match fuel with
  | O => pm
  | S fuel' =>
      if len <? pos + 5 then pm
      else
        let scid := ((at_ data pos .& 0x0F) ≪ 8) .| at_ data (pos + 1) in
        let scca_flag := (at_ data (pos + 2) ≫ 4) .& 0x01 in
        let dg_flag := (at_ data (pos + 2) ≫ 3) .& 0x01 in
        let dscty := at_ data (pos + 3) .& 0x3F in
        let subchid := at_ data (pos + 4) .& 0x3F in
        let pos5 := pos + 5 in
        let pos' :=
          if negb (scca_flag =? 0) && (pos5 + 2 <=? len) then pos5 + 2 else pos5 in
        fig_0_3 fuel'
          (<[scid := PacketModeInfo.mk subchid 0 dscty (negb (dg_flag =? 0))]> pm)
          data len pos'
  end.

(** Extensions 8 and 13 decode their fields for the log only. *)
Definition process_fig_0 (T : tables) (data : bytes) (len ext pd : Z) : tables :=
  if ext =? 0 then
    if len <? 4 then T
    else
      let eid := u16 ((at_ data 0 ≪ 8) .| at_ data 1) in
      if (ensemble_id_ T =? 0) || negb (ensemble_id_ T =? eid)
      then set_ensemble_id T eid else T
  else if ext =? 1 then
    set_subchannels T (fig_0_1 (Z.to_nat len) (subchannels_ T) data len 0)
  else if ext =? 2 then fig_0_2 (Z.to_nat len) T data len pd 0
  else if ext =? 3 then
    set_packet_mode_map T (fig_0_3 (Z.to_nat len) (packet_mode_map_ T) data len 0)
  else T.

Definition process_fig_1 (T : tables) (data : bytes) (len ext : Z) : tables :=
  if len <? 2 then T
  else if ext =? 0 then
    if len <? 18 then T
    else
      let T1 := set_ensemble_id T (u16 ((at_ data 0 ≪ 8) .| at_ data 1)) in
      set_ensemble_label T1 (label_to_utf8 (advance data 2))
  else if ext =? 1 then
    if len <? 20 then T
    else
      let sid := (at_ data 0 ≪ 8) .| at_ data 1 in
      set_service_labels T
        (<[sid := label_to_utf8 (advance data 2)]> (service_labels_ T))
  else T.

(** [hdr] is the FIG header byte, [fig[-1]] in the source. *)
Definition process_fig (T : tables) (hdr : Z) (fig : bytes) (fig_len : Z) : tables :=
  if fig_len <? 1 then T
  else
    let fig_type := (hdr ≫ 5) .& 0x07 in
    let ext := at_ fig 0 .& 0x1F in
    let pd := (at_ fig 0 ≫ 5) .& 0x01 in
    if fig_type =? 0 then process_fig_0 T (advance fig 1) (fig_len - 1) ext pd
    else if fig_type =? 1 then process_fig_1 T (advance fig 1) (fig_len - 1) ext
    else T.

Definition fib_crc_ok (fib : bytes) : bool :=
  crc16_table_driven fib 30 =? u16 ((at_ fib 30 ≪ 8) .| at_ fib 31).

(** The [while (pos < 30)] loop of [process_fib]. *)
Fixpoint fib_figs (fuel : nat) (T : tables) (fib : bytes) (pos : Z) : tables :=
  match fuel with
  | O => T
  | S fuel' =>
      if 30 <=? pos then T
      else
        let hdr := at_ fib pos in
        if hdr =? 0xFF then T
        else
          let fig_len := hdr .& 0x1F in
          if 30 <? pos + 1 + fig_len then T
          else
            fib_figs fuel' (process_fig T hdr (advance fib (pos + 1)) fig_len)
              fib (pos + 1 + fig_len)
  end.

Definition process_fib (T : tables) (fib : bytes) : tables :=
  if fib_crc_ok fib then fib_figs 30 T fib 0 else T.

(** The [while (offset + 32 <= fic_len)] loop of [process_fic]. *)
Fixpoint fic_fibs (fuel : nat) (T : tables) (fic_data : bytes)
    (fic_len offset : Z) : tables :=
  match fuel with
  | O => T
  | S fuel' =>
      if fic_len <? offset + 32 then T
      else
        fic_fibs fuel' (process_fib T (advance fic_data offset)) fic_data
          fic_len (offset + 32)
  end.

Definition process_fic (T : tables) (fic_data : bytes) (fic_len : Z) : tables :=
  fic_fibs (Z.to_nat (fic_len / 32)) T fic_data fic_len 0.

Definition build_service (T : tables) (sid : Z) (info : ServiceInfo.t)
  : DABService.t :=
  let label := default [] (service_labels_ T !! sid) in
  match subchannels_ T !! ServiceInfo.primary_subch info with
  | Some sc =>
      DABService.mk sid label (Some (SubChannel.bitrate sc))
        (Some (SubChannel.subchid sc)) (Some (SubChannel.startaddr sc))
        (Some (SubChannel.subchsz sc)) (Some (SubChannel.dabplus sc =? 1))
        (SubChannel.protlvl sc) (Some (SubChannel.eepprot sc =? 1))
  | None => DABService.mk sid label None None None None None None None
  end.

Definition sid_le (a b : DABService.t) : Prop :=
  DABService.sid a <= DABService.sid b.

#[global] Instance sid_le_dec : RelDecision sid_le.
Proof. intros a b. unfold sid_le. apply _. Defined.

Definition build_ensemble (T : tables) : DABEnsemble.t :=
  let pushed :=
    omap (fun sid =>
            match service_map_ T !! sid with
            | Some info =>
                if ServiceInfo.primary_subch info <? 0 then None
                else Some (build_service T sid info)
            | None => None
            end)
         (keys_in_order (service_map_ T)) in
  DABEnsemble.mk (ensemble_id_ T) (ensemble_label_ T) (merge_sort sid_le pushed).

Definition has_valid_subchannel (T : tables) (sid : Z) : bool :=
  match service_map_ T !! sid with
  | Some info =>
      (0 <=? ServiceInfo.primary_subch info)
      && bool_decide (is_Some (subchannels_ T !! ServiceInfo.primary_subch info))
  | None => false
  end.

Definition has_label (T : tables) (sid : Z) : bool :=
  bool_decide (is_Some (service_labels_ T !! sid)).

(** The basic-ready block of [process_eti_frame], run on the tables [T]
    left by [process_fic]: the new [basic_ready_],
    [last_basic_service_count_] and [basic_stable_frames_]. *)
Definition track_basic_ready (s : t) (T : tables) : bool * Z * Z :=
  if negb (basic_ready_ s) && negb (map_size (service_map_ T) =? 0) then
    let valid_services := count_keys (has_valid_subchannel T) (service_map_ T) in
    if 0 <? valid_services then
      let '(last_basic, basic_stable) :=
        if negb (valid_services =? last_basic_service_count_ s)
        then (valid_services, 0)
        else (last_basic_service_count_ s, usize (basic_stable_frames_ s + 1)) in
      (3 <=? basic_stable, last_basic, basic_stable)
    else (false, last_basic_service_count_ s, basic_stable_frames_ s)
  else (basic_ready_ s, last_basic_service_count_ s, basic_stable_frames_ s).

(** The completion block, entered with [labelled_] false: the new
    [labelled_], [last_service_count_] and [stable_frames_]. *)
Definition track_completion (s : t) (T : tables) : bool * Z * Z :=
  if negb (map_size (service_map_ T) =? 0) then
    let labelled_count := count_keys (has_label T) (service_map_ T) in
    let has_ensemble_label := negb (bool_decide (ensemble_label_ T = [])) in
    let '(last_count, stable_frames) :=
      if negb (map_size (service_map_ T) =? last_service_count_ s)
      then (map_size (service_map_ T), 0)
      else (last_service_count_ s, usize (stable_frames_ s + 1)) in
    let all_labelled :=
      (labelled_count =? map_size (service_map_ T)) && has_ensemble_label in
    let stable := 10 <=? stable_frames in
    (all_labelled && stable, last_count, stable_frames)
  else (false, last_service_count_ s, stable_frames_ s).

(** Result: the new state and the value returned. *)
Definition process_eti_frame (s : t) (frame : bytes) (len : Z) : t * bool :=
  let calls := eti_call_count_ s + 1 in
  let s0 :=
    mk (fig s) (labelled_ s) (basic_ready_ s) (ensemble_ s)
       (last_basic_service_count_ s) (basic_stable_frames_ s)
       (last_service_count_ s) (stable_frames_ s) calls in
  if labelled_ s then (s0, true)
  else if len <? 8 then (s0, false)
  else
    let sync := read_32b frame in
    if negb (sync =? ETI_NI_FSYNC0) && negb (sync =? ETI_NI_FSYNC1)
    then (s0, false)
    else
      let fc := parse_fc (advance frame 4) in
      if ETI_FC.ficf fc =? 0 then (s0, labelled_ s)
      else
        let ficl := if ETI_FC.mid fc =? 3 then 32 else 24 in
        let stc_end := 8 + ETI_FC.nst fc * 4 + 4 in
        let fic_len := ficl * 4 in
        if len <? stc_end + fic_len then (s0, labelled_ s)
        else
          let T := process_fic (fig s) (advance frame stc_end) fic_len in
          let ensemble :=
            if negb (map_size (service_map_ T) =? 0)
            then build_ensemble T else ensemble_ s in
          let '(basic_ready, last_basic, basic_stable) := track_basic_ready s T in
          let '(labelled, last_count, stable_frames) := track_completion s T in
          (mk T labelled basic_ready ensemble last_basic basic_stable
              last_count stable_frames calls, labelled).

(** Frames fed one after the other. *)
Definition feed_frames (s : t) (frames : list bytes) : t :=
  fold_left (fun s frame => fst (process_eti_frame s frame (len_ frame))) frames s.
End DABParser.

(** ** dab_parser.cpp: EDI tag decoding and ETI-NI assembly *)

(** Reads that the source performs without a length test.  Past the end of
    the buffer the source's behaviour is undefined, and the read is [None]. *)
Definition rd (p : bytes) (i : Z) : option Z :=
  if i <? 0 then None else p !! Z.to_nat i.

Definition rd_16b (p : bytes) : option Z :=
  b0 ← rd p 0; b1 ← rd p 1; Some (u16 ((b0 ≪ 8) .| b1)).

Definition rd_24b (p : bytes) : option Z :=
  b0 ← rd p 0; b1 ← rd p 1; b2 ← rd p 2;
  Some (u32 ((b0 ≪ 16) .| (b1 ≪ 8) .| b2)).

Definition rd_32b (p : bytes) : option Z :=
  b0 ← rd p 0; b1 ← rd p 1; b2 ← rd p 2; b3 ← rd p 3;
  Some (u32 ((b0 ≪ 24) .| (b1 ≪ 16) .| (b2 ≪ 8) .| b3)).

Definition rd_bytes (p : bytes) (n : Z) : option bytes :=
  if len_ p <? n then None else Some (slice p n).

Module EDI_FC.
Record t := mk {
  atstf : bool;
  tsta : Z;
  ficf : bool;
  nst : Z;
  dflc : Z;
  mid : Z;
  fp : Z
}.
Definition init : t := mk false 0 false 0 0 0 0.
Definition set_nst (fc : t) (n : Z) : t :=
  mk (atstf fc) (tsta fc) (ficf fc) n (dflc fc) (mid fc) (fp fc).
End EDI_FC.

Module EDI_STC.
Record t := mk {
  stream_index : Z;
  scid : Z;
  sad : Z;
  tpl : Z;
  mst : bytes
}.
Definition init : t := mk 0 0 0 0 [].
End EDI_STC.

Module EDI_Builder.
(** Left out: [m_err], [m_time_valid], [m_utco] and [m_seconds], which are
    never written after construction and never read. *)
Record t := mk {
  is_eti : bool;
  m_mnsc : Z;
  fic_length : Z;
  fic : bytes;
  m_rfu : Z;
  m_stc : list EDI_STC.t;
  m_fc_valid : bool;
  m_fc : EDI_FC.t
}.
Definition init : t :=
  mk false 0 0 (replicate 128 0) 0xFFFF (replicate 64 EDI_STC.init) false
     EDI_FC.init.
End EDI_Builder.

(** The STC records and MST lengths of the first [nst] streams; [None] when
    [nst] runs past the 64-element array. *)
Definition first_streams (m_stc : list EDI_STC.t) (nst : Z) : option (list EDI_STC.t) :=
  if Z.of_nat (length m_stc) <? nst then None else Some (take (Z.to_nat nst) m_stc).

Definition sum_Z (l : list Z) : Z := foldr Z.add 0 l.

Module DABStreamParser.
Import EDI_Builder.

Record t := mk {
  pf_reassembler_ : PF_Reassembler.t;
  edi_ : EDI_Builder.t;
  fic_parser_ : DABParser.t
}.

Definition init : t := mk PF_Reassembler.reset EDI_Builder.init DABParser.init.

Definition crc16 (data : bytes) (len : Z) : Z := crc16_table_driven data len.

Definition decode_starptr (edi : EDI_Builder.t) (value : bytes) (len : Z)
  : option EDI_Builder.t :=
  if negb (len =? 8) then Some edi
  else
    proto ← rd_32b value;
    major ← rd_16b (advance value 4);
    minor ← rd_16b (advance value 6);
    Some (EDI_Builder.mk
            ((proto =? 0x44455449) && (major =? 0) && (minor =? 0))
            (m_mnsc edi) (fic_length edi) (fic edi) (m_rfu edi) (m_stc edi)
            (m_fc_valid edi) (m_fc edi)).

Definition decode_deti (edi : EDI_Builder.t) (val : bytes) : option EDI_Builder.t :=
  detiHeader ← rd_16b val;
  let atstf := (detiHeader ≫ 15) .& 1 =? 1 in
  let ficf := (detiHeader ≫ 14) .& 1 =? 1 in
  let rfudf := (detiHeader ≫ 13) .& 1 =? 1 in
  let fcth := (detiHeader ≫ 8) .& 0x1F in
  let fct := detiHeader .& 0xFF in
  let dflc := u16 (fcth * 250 + fct) in
  etiHeader ← rd_32b (advance val 2);
  let mid := (etiHeader ≫ 22) .& 0x03 in
  let fp := (etiHeader ≫ 19) .& 0x07 in
  let rfu := (etiHeader ≫ 16) .& 1 =? 1 in
  let mnsc := if rfu then 0xFFFF else etiHeader .& 0xFFFF in
  let fic_len := if ficf then (if mid =? 3 then 32 * 4 else 24 * 4) else 0 in
  tsta ← (if atstf then rd_24b (advance val 11) else Some 0xFFFFFF);
  let i := if atstf then 14 else 6 in
  fic' ← (if ficf
          then src ← rd_bytes (advance val i) fic_len;
               Some (memcpy_at (fic edi) 0 src fic_len)
          else Some (fic edi));
  let fic_length' := if ficf then fic_len else fic_length edi in
  let i := if ficf then i + fic_len else i in
  rfu_word ← (if rfudf
              then rfud ← rd_24b (advance val i); Some (u16 (rfud ≫ 8))
              else Some 0xFFFF);
  Some (EDI_Builder.mk (is_eti edi) mnsc fic_length' fic' rfu_word (m_stc edi) true
          (EDI_FC.mk atstf tsta ficf (EDI_FC.nst (m_fc edi)) dflc mid fp)).

Definition decode_estn (edi : EDI_Builder.t) (value : bytes) (len n : Z)
  : option EDI_Builder.t :=
  if (len <? 3) || (n =? 0) || (64 <? n) then Some edi
  else
    sstc ← rd_24b value;
    mst ← rd_bytes (advance value 3) (len - 3);
    let stc :=
      EDI_STC.mk (n - 1) ((sstc ≫ 18) .& 0x3F) ((sstc ≫ 8) .& 0x3FF)
        ((sstc ≫ 2) .& 0x3F) mst in
    Some (EDI_Builder.mk (is_eti edi) (m_mnsc edi) (fic_length edi) (fic edi)
            (m_rfu edi) (<[Z.to_nat (n - 1) := stc]> (m_stc edi)) (m_fc_valid edi)
            (EDI_FC.set_nst (m_fc edi) (u8 (EDI_FC.nst (m_fc edi) + 1)))).

(** The [for (size_t i = 0; i + 8 <= tagsize; )] loop. *)
Fixpoint tag_loop (fuel : nat) (edi : EDI_Builder.t) (pkt : bytes)
    (tagsize i : Z) : option EDI_Builder.t :=
  match fuel with
  | O => Some edi
  | S fuel' =>
      if tagsize <? i + 8 then Some edi
      else
        let tagId := read_32b (advance pkt i) in
        let taglen_bits := read_32b (advance pkt (i + 4)) in
        if negb (taglen_bits mod 8 =? 0) then Some edi
        else
          let taglen := taglen_bits / 8 in
          let val := advance pkt (i + 8) in
          edi' ← (if tagId =? 0x2a707472 then decode_starptr edi val taglen
                  else if tagId =? 0x64657469 then decode_deti edi val
                  else if tagId .& 0xFFFFFF00 =? 0x65737400
                       then decode_estn edi val taglen (tagId .& 0xFF)
                  else Some edi);
          tag_loop fuel' edi' pkt tagsize (i + 8 + taglen)
  end.

Definition decode_tagpacket (edi : EDI_Builder.t) (pkt : bytes) (tagsize : Z)
  : option EDI_Builder.t :=
  let edi0 :=
    EDI_Builder.mk (is_eti edi) (m_mnsc edi) (fic_length edi) (fic edi)
      (m_rfu edi) (m_stc edi) (m_fc_valid edi) (EDI_FC.set_nst (m_fc edi) 0) in
  tag_loop (Z.to_nat tagsize) edi0 pkt tagsize 0.

(** The boolean is [ret > 0]. *)
Definition handle_af_packet (edi : EDI_Builder.t) (pkt : bytes) (len : Z)
  : option (EDI_Builder.t * bool) :=
  if (len <? 10) || negb (at_ pkt 0 =? 0x41) || negb (at_ pkt 1 =? 0x46)
  then Some (edi, false)
  else
    let taglength := read_32b (advance pkt 2) in
    let has_crc := (at_ pkt 8 ≫ 7) .& 1 =? 1 in
    let pt := at_ pkt 9 in
    if negb (pt =? 0x54) then Some (edi, false)
    else
      let total_len := 10 + taglength + (if has_crc then 2 else 0) in
      if len <? total_len then Some (edi, false)
      else if has_crc
              && negb (read_16b (advance pkt (total_len - 2))
                       =? crc16_table_driven pkt (total_len - 2))
      then Some (edi, false)
      else
        edi' ← decode_tagpacket edi (advance pkt 10) taglength;
        Some (edi', true).

(** The bytes written to [eti_frame_], in order; the writes are
    consecutive from index 0. *)
Definition frame_header (edi : EDI_Builder.t) (streams : list EDI_STC.t) : bytes :=
  let fc := m_fc edi in
  let fct := u8 (EDI_FC.dflc fc mod 250) in
  let fsync := if fct mod 2 =? 1 then [0xF8; 0xC5; 0x49] else [0x07; 0x3A; 0xB6] in
  let nst := EDI_FC.nst fc in
  let fl :=
    u16 (nst + 1 + fic_length edi / 4
         + sum_Z (map (fun stc => len_ (EDI_STC.mst stc) / 4) streams)) in
  let fp_mid_fl := u16 ((EDI_FC.fp fc ≪ 13) .| (EDI_FC.mid fc ≪ 11) .| fl) in
  [0xFF] ++ fsync
    ++ [fct; u8 ((if EDI_FC.ficf fc then 0x80 else 0) .| nst);
        fp_mid_fl ≫ 8; fp_mid_fl .& 0xFF].

Definition frame_stc (stc : EDI_STC.t) : bytes :=
  let stl := u16 (len_ (EDI_STC.mst stc) / 8) in
  [u8 ((EDI_STC.scid stc ≪ 2) .| ((EDI_STC.sad stc ≫ 8) .& 0x03));
   EDI_STC.sad stc .& 0xFF;
   u8 ((EDI_STC.tpl stc ≪ 2) .| ((stl ≫ 8) .& 0x03));
   stl .& 0xFF].

Definition frame_body (edi : EDI_Builder.t) (streams : list EDI_STC.t) : bytes :=
  let head := frame_header edi streams ++ concat (map frame_stc streams) in
  let with_mnsc := head ++ [m_mnsc edi ≫ 8; m_mnsc edi .& 0xFF] in
  let hdr_crc := crc16 (advance with_mnsc 4) (len_ with_mnsc - 4) in
  let eoh := with_mnsc ++ [hdr_crc ≫ 8; hdr_crc .& 0xFF] in
  let mst := slice (fic edi) (fic_length edi) ++ concat (map EDI_STC.mst streams) in
  let mst_crc := crc16 mst (len_ mst) in
  let tsta := EDI_FC.tsta (m_fc edi) in
  eoh ++ mst
    ++ [mst_crc ≫ 8; mst_crc .& 0xFF; m_rfu edi ≫ 8; m_rfu edi .& 0xFF;
        (tsta ≫ 24) .& 0xFF; (tsta ≫ 16) .& 0xFF; (tsta ≫ 8) .& 0xFF; tsta .& 0xFF].

(** The frame left in [eti_frame_]: the body over the 0x55 prefill.
    [None] when the source would index [m_stc] or [eti_frame_] out of
    bounds. *)
Definition eti_frame_bytes (edi : EDI_Builder.t) : option bytes :=
  streams ← first_streams (m_stc edi) (EDI_FC.nst (m_fc edi));
  let body := frame_body edi streams in
  if ETI_NI_RAW_SIZE <? len_ body then None
  else Some (body ++ replicate (Z.to_nat (ETI_NI_RAW_SIZE - len_ body)) 0x55).

Definition frame_wanted (edi : EDI_Builder.t) : bool :=
  is_eti edi && m_fc_valid edi && negb (fic_length edi =? 0)
  && negb ((EDI_FC.mid (m_fc edi) =? 3) && negb (fic_length edi =? 32 * 4))
  && negb (negb (EDI_FC.mid (m_fc edi) =? 3) && negb (fic_length edi =? 24 * 4)).

(** Result: the new state and the frames passed to [eti_callback_], each
    with its DFLC. *)
Definition assemble_eti_frame (s : t) : option (t * list (bytes * Z)) :=
  if negb (frame_wanted (edi_ s)) then Some (s, [])
  else
    eti ← eti_frame_bytes (edi_ s);
    let fic' := fst (DABParser.process_eti_frame (fic_parser_ s) eti ETI_NI_RAW_SIZE) in
    Some (mk (pf_reassembler_ s) (edi_ s) fic', [(eti, EDI_FC.dflc (m_fc (edi_ s)))]).

Definition handle_pf_packet (s : t) (pkt : bytes) (len : Z) : option (t * bool) :=
  match PF_Reassembler.parse_pf_header pkt len with
  | None => Some (s, false)
  | Some hdr =>
      let '(pf, af) := PF_Reassembler.add_fragment (pf_reassembler_ s) hdr pkt len in
      let s1 := mk pf (edi_ s) (fic_parser_ s) in
      match af with
      | Some af_data =>
          if 0 <? len_ af_data then
            '(edi', ok) ← handle_af_packet (edi_ s1) af_data (len_ af_data);
            Some (mk pf edi' (fic_parser_ s1), ok)
          else Some (s1, false)
      | None => Some (s1, false)
      end
  end.

Definition handle_edi_packet (s : t) (pkt : bytes) (len : Z)
  : option (t * list (bytes * Z)) :=
  if len <? 2 then Some (s, [])
  else if (at_ pkt 0 =? 0x41) && (at_ pkt 1 =? 0x46) then
    '(edi', ok) ← handle_af_packet (edi_ s) pkt len;
    let s1 := mk (pf_reassembler_ s) edi' (fic_parser_ s) in
    if (ok : bool) then assemble_eti_frame s1 else Some (s1, [])
  else if (at_ pkt 0 =? 0x50) && (at_ pkt 1 =? 0x46) then
    '(s1, ok) ← handle_pf_packet s pkt len;
    if (ok : bool) then assemble_eti_frame s1 else Some (s1, [])
  else Some (s, []).

(** Result: the new state, the value returned and the frames passed to
    [eti_callback_]. *)
Definition process_edi_packet (s : t) (edi_data : bytes) (len : Z)
  : option (t * bool * list (bytes * Z)) :=
  if 0 <? len then
    '(s', frames) ← handle_edi_packet s edi_data len;
    Some (s', DABParser.is_complete (fic_parser_ s'), frames)
  else Some (s, DABParser.is_complete (fic_parser_ s), []).

Definition is_complete (s : t) : bool := DABParser.is_complete (fic_parser_ s).
Definition is_basic_ready (s : t) : bool := DABParser.is_basic_ready (fic_parser_ s).
Definition get_ensemble (s : t) : DABEnsemble.t := DABParser.get_ensemble (fic_parser_ s).
End DABStreamParser.

(** ** edi_parser.cpp: ETI-NI assembly in [EdiParser::assembleEtiFrame] *)

Module SubchannelData.
Record t := mk { scid : Z; sad : Z; tpl : Z; mst : bytes }.
Definition init : t := mk 0 0 0 [].
End SubchannelData.

Module FrameControl.
Record t := mk {
  atstf : bool;
  ficf : bool;
  mid : Z;
  fp : Z;
  dflc : Z;
  tsta : Z;
  nst : Z
}.
Definition init : t := mk false false 0 0 0 0xFFFFFF 0.
End FrameControl.

Module EtiBuilder.
Record t := mk {
  is_eti : bool;
  fc_valid : bool;
  err : Z;
  mnsc : Z;
  rfu : Z;
  fc : FrameControl.t;
  fic : bytes;
  subchannels : list SubchannelData.t
}.
Definition init : t :=
  mk false false 0xFF 0 0xFFFF FrameControl.init []
     (replicate 64 SubchannelData.init).
End EtiBuilder.

Module EdiParser.
Import EtiBuilder.

(** The bit-by-bit CRC of edi_parser.cpp. *)
Fixpoint crc16_bits (j : nat) (crc : Z) : Z :=
  match j with
  | O => crc
  | S j' =>
      crc16_bits j'
        (if negb (crc .& 0x8000 =? 0) then u16 ((crc ≪ 1) .^ 0x1021)
         else u16 (crc ≪ 1))
  end.

Definition crc16_byte (crc b : Z) : Z := crc16_bits 8 (u16 (crc .^ u16 (b ≪ 8))).

Definition crc16 (data : bytes) (len : Z) : Z :=
  fold_left crc16_byte (slice data len) 0xFFFF .^ 0xFFFF.

Definition first_subchannels (subs : list SubchannelData.t) (nst : Z)
  : option (list SubchannelData.t) :=
  if Z.of_nat (length subs) <? nst then None else Some (take (Z.to_nat nst) subs).

Definition frame_header (eti : EtiBuilder.t) (streams : list SubchannelData.t)
  : bytes :=
  let fct := u8 (FrameControl.dflc (fc eti) mod 250) in
  let fsync := if fct mod 2 =? 1 then [0xF8; 0xC5; 0x49] else [0x07; 0x3A; 0xB6] in
  let nst := FrameControl.nst (fc eti) in
  let fl :=
    u16 (nst + 1 + u16 (len_ (fic eti) / 4)
         + sum_Z (map (fun stc => u16 (len_ (SubchannelData.mst stc) / 4)) streams)) in
  let fp_mid_fl :=
    u16 ((u16 (FrameControl.fp (fc eti)) ≪ 13)
         .| (u16 (FrameControl.mid (fc eti)) ≪ 11) .| fl) in
  [err eti] ++ fsync
    ++ [fct; u8 ((if FrameControl.ficf (fc eti) then 0x80 else 0x00) .| nst);
        fp_mid_fl ≫ 8; fp_mid_fl .& 0xFF].

Definition frame_stc (stc : SubchannelData.t) : bytes :=
  let stl := u16 (len_ (SubchannelData.mst stc) / 8) in
  [u8 ((SubchannelData.scid stc ≪ 2) .| ((SubchannelData.sad stc ≫ 8) .& 0x03));
   SubchannelData.sad stc .& 0xFF;
   u8 ((SubchannelData.tpl stc ≪ 2) .| ((stl ≫ 8) .& 0x03));
   stl .& 0xFF].

(** The MST copy loop: the bytes copied so far, or [None] at the first
    stream for which [idx + stc.mst.size() > 6144 - 8]. *)
Fixpoint copy_mst (idx : Z) (streams : list SubchannelData.t) : option bytes :=
  match streams with
  | [] => Some []
  | stc :: rest =>
      let n := len_ (SubchannelData.mst stc) in
      if 6144 - 8 <? idx + n then None
      else
        match copy_mst (idx + n) rest with
        | Some tail => Some (SubchannelData.mst stc ++ tail)
        | None => None
        end
  end.

Definition frame_wanted (eti : EtiBuilder.t) : bool :=
  is_eti eti && fc_valid eti && negb (bool_decide (fic eti = []))
  && (len_ (fic eti) =? (if FrameControl.mid (fc eti) =? 3 then 128 else 96)).

(** Result: the frames passed to [callback_] with their DFLC; the outer
    [None] is the source indexing [subchannels] out of bounds. *)
Definition assembleEtiFrame (eti : EtiBuilder.t) : option (list (bytes * Z)) :=
  if negb (frame_wanted eti) then Some []
  else
    streams ← first_subchannels (subchannels eti) (FrameControl.nst (fc eti));
    let head := frame_header eti streams ++ concat (map frame_stc streams) in
    let with_mnsc := head ++ [mnsc eti ≫ 8; mnsc eti .& 0xFF] in
    let eoh_crc := crc16 (advance with_mnsc 4) (len_ with_mnsc - 4) in
    let eoh := with_mnsc ++ [eoh_crc ≫ 8; eoh_crc .& 0xFF] in
    match copy_mst (len_ eoh + len_ (fic eti)) streams with
    | None => Some []
    | Some msts =>
        let mst := fic eti ++ msts in
        let mst_crc := crc16 mst (len_ mst) in
        let tsta := FrameControl.tsta (fc eti) in
        let body :=
          eoh ++ mst
            ++ [mst_crc ≫ 8; mst_crc .& 0xFF; rfu eti ≫ 8; rfu eti .& 0xFF;
                (tsta ≫ 24) .& 0xFF; (tsta ≫ 16) .& 0xFF;
                (tsta ≫ 8) .& 0xFF; tsta .& 0xFF] in
        Some [(body ++ replicate (Z.to_nat (6144 - len_ body)) 0x55,
               FrameControl.dflc (fc eti))]
    end.
End EdiParser.

(** ** ensemble_manager.cpp *)

Abbreviation StreamKey := (Z * Z)%type.

Module SubchannelChange.
(** The sub-channel ids are [uint8_t] casts of [DABService::subchannel_id],
    [None] when that member was never written. *)
Record t := mk {
  sid : Z;
  old_subchannel_id : option Z;
  new_subchannel_id : option Z
}.
End SubchannelChange.

Inductive event :=
  | BasicReady (key : StreamKey) (ensemble : DABEnsemble.t)
  | Complete (key : StreamKey) (ensemble : DABEnsemble.t)
  | EtiFrame (key : StreamKey) (data : bytes) (len dflc : Z)
  | SubchannelChanged (key : StreamKey) (changes : list SubchannelChange.t).

Module EnsembleManager.

Record t := mk {
  parsers_ : gmap StreamKey DABStreamParser.t;
  ensembles_ : gmap StreamKey DABEnsemble.t;
  basic_ready_flags_ : gmap StreamKey bool;
  complete_flags_ : gmap StreamKey bool;
  basic_ready_callback_ : bool;
  complete_callback_ : bool;
  eti_callback_ : bool;
  subchannel_change_callback_ : bool;
  last_subchannel_map_ : gmap StreamKey (gmap Z (option Z));
  etina_parsers_ : gmap Z DABParser.t;
  complete_count_ : Z
}.

(** A manager after construction (or [reset]); the four booleans tell
    which callbacks have been installed. *)
Definition init (basic_ready complete eti subchannel_change : bool) : t :=
  mk ∅ ∅ ∅ ∅ basic_ready complete eti subchannel_change ∅ ∅ 0.

(** [flags[key]] as an rvalue: the stored flag, [false] for a new entry.
    Where the source evaluates [flags[key]] the entry exists afterwards. *)
Definition flag (flags : gmap StreamKey bool) (key : StreamKey) : bool :=
  default false (flags !! key).

Definition subchannel_map_of (start : gmap Z (option Z)) (services : list DABService.t)
  : gmap Z (option Z) :=
  fold_left (fun m svc => <[DABService.sid svc := u8 <$> DABService.subchannel_id svc]> m)
    services start.

Definition added_or_changed (prev_map current_map : gmap Z (option Z))
  : list SubchannelChange.t :=
  omap (fun sid =>
          match current_map !! sid with
          | Some new_subch =>
              match prev_map !! sid with
              | None => Some (SubchannelChange.mk sid (Some 0xFF) new_subch)
              | Some old =>
                  if bool_decide (old = new_subch) then None
                  else Some (SubchannelChange.mk sid old new_subch)
              end
          | None => None
          end)
       (keys_in_order current_map).

Definition removed (prev_map current_map : gmap Z (option Z))
  : list SubchannelChange.t :=
  omap (fun sid =>
          match prev_map !! sid, current_map !! sid with
          | Some old_subch, None => Some (SubchannelChange.mk sid old_subch (Some 0xFF))
          | _, _ => None
          end)
       (keys_in_order prev_map).

(** [getParser]: the parser of the stream and the manager with it; a new
    parser comes with both flags of the stream cleared.  The ETI callback
    wired to the parser is the [ev_eti] of [processUdp]. *)
Definition getParser (m : t) (key : StreamKey) : DABStreamParser.t * t :=
  match parsers_ m !! key with
  | Some parser => (parser, m)
  | None =>
      (DABStreamParser.init,
       mk (<[key := DABStreamParser.init]> (parsers_ m)) (ensembles_ m)
          (<[key := false]> (basic_ready_flags_ m))
          (<[key := false]> (complete_flags_ m))
          (basic_ready_callback_ m) (complete_callback_ m) (eti_callback_ m)
          (subchannel_change_callback_ m) (last_subchannel_map_ m)
          (etina_parsers_ m) (complete_count_ m))
  end.

(** The sub-channel comparison of [processUdp], entered when the stream is
    flagged complete and the callback is installed: the new
    [last_subchannel_map_] and the events. *)
Definition track_subchannels (last : gmap StreamKey (gmap Z (option Z)))
    (key : StreamKey) (current_ensemble : DABEnsemble.t)
  : gmap StreamKey (gmap Z (option Z)) * list event :=
  let prev_map := default ∅ (last !! key) in
  let current_map := subchannel_map_of ∅ (DABEnsemble.services current_ensemble) in
  let changes :=
    added_or_changed prev_map current_map ++ removed prev_map current_map in
  if bool_decide (changes = []) then (<[key := prev_map]> last, [])
  else (<[key := current_map]> last, [SubchannelChanged key changes]).

Definition processUdp (m : t) (dst_ip dst_port : Z) (payload : bytes) (len : Z)
  : option (t * list event) :=
  let key : StreamKey := (dst_ip, dst_port) in
  let '(parser, m0) := getParser m key in
  let br0 := basic_ready_flags_ m0 in
  let cf0 := complete_flags_ m0 in
  '(parser', complete, frames) ← DABStreamParser.process_edi_packet parser payload len;
  let parsers1 := <[key := parser']> (parsers_ m0) in
  let ev_eti :=
    if eti_callback_ m
    then map (fun '(data, dflc) => EtiFrame key data ETI_NI_RAW_SIZE dflc) frames
    else [] in
  (* basic ready *)
  let fire_basic := DABStreamParser.is_basic_ready parser' && negb (flag br0 key) in
  let br1 :=
    if DABStreamParser.is_basic_ready parser' then <[key := true]> br0 else br0 in
  let ev_basic :=
    if fire_basic && basic_ready_callback_ m
    then [BasicReady key (DABStreamParser.get_ensemble parser')] else [] in
  (* completion *)
  let fire_complete := complete && negb (flag cf0 key) in
  let cf1 := if complete then <[key := true]> cf0 else cf0 in
  let ensembles1 :=
    if fire_complete
    then <[key := DABStreamParser.get_ensemble parser']> (ensembles_ m)
    else ensembles_ m in
  let last1 :=
    if fire_complete then
      <[key := subchannel_map_of (default ∅ (last_subchannel_map_ m !! key))
                 (DABEnsemble.services (DABStreamParser.get_ensemble parser'))]>
        (last_subchannel_map_ m)
    else last_subchannel_map_ m in
  let count1 := if fire_complete then complete_count_ m + 1 else complete_count_ m in
  let ev_complete :=
    if fire_complete && complete_callback_ m
    then [Complete key (DABStreamParser.get_ensemble parser')] else [] in
  (* sub-channel changes *)
  let '(last2, ev_change) :=
    if flag cf1 key && subchannel_change_callback_ m
    then track_subchannels last1 key (DABStreamParser.get_ensemble parser')
    else (last1, []) in
  let cf2 := <[key := flag cf1 key]> cf1 in
  Some (mk parsers1 ensembles1 br1 cf2 (basic_ready_callback_ m) (complete_callback_ m)
          (eti_callback_ m) (subchannel_change_callback_ m) last2 (etina_parsers_ m)
          count1,
        ev_eti ++ ev_basic ++ ev_complete ++ ev_change).

Definition processEtiFrame (m : t) (pid : Z) (eti_ni : bytes) (len : Z)
  : t * list event :=
  let key : StreamKey := (pid, 0) in
  let '(parser, br0, cf0) :=
    match etina_parsers_ m !! pid with
    | Some parser => (parser, basic_ready_flags_ m, complete_flags_ m)
    | None =>
        (DABParser.init, <[key := false]> (basic_ready_flags_ m),
         <[key := false]> (complete_flags_ m))
    end in
  let parser' := fst (DABParser.process_eti_frame parser eti_ni len) in
  let fire_basic := DABParser.is_basic_ready parser' && negb (flag br0 key) in
  let br1 := if DABParser.is_basic_ready parser' then <[key := true]> br0 else br0 in
  let ev_basic :=
    if fire_basic && basic_ready_callback_ m
    then [BasicReady key (DABParser.get_ensemble parser')] else [] in
  let ev_eti := if eti_callback_ m then [EtiFrame key eti_ni len 0] else [] in
  let fire_complete := DABParser.is_complete parser' && negb (flag cf0 key) in
  let cf1 := if DABParser.is_complete parser' then <[key := true]> cf0 else cf0 in
  let ensembles1 :=
    if fire_complete then <[key := DABParser.get_ensemble parser']> (ensembles_ m)
    else ensembles_ m in
  let count1 := if fire_complete then complete_count_ m + 1 else complete_count_ m in
  let ev_complete :=
    if fire_complete && complete_callback_ m
    then [Complete key (DABParser.get_ensemble parser')] else [] in
  (mk (parsers_ m) ensembles1 br1 cf1 (basic_ready_callback_ m) (complete_callback_ m)
      (eti_callback_ m) (subchannel_change_callback_ m) (last_subchannel_map_ m)
      (<[pid := parser']> (etina_parsers_ m)) count1,
   ev_basic ++ ev_eti ++ ev_complete).

(** The packets of one stream fed one after the other, with all events. *)
Fixpoint process_udp_all (m : t) (dst_ip dst_port : Z) (payloads : list bytes)
  : option (t * list event) :=
  match payloads with
  | [] => Some (m, [])
  | payload :: rest =>
      '(m1, ev1) ← processUdp m dst_ip dst_port payload (len_ payload);
      '(m2, ev2) ← process_udp_all m1 dst_ip dst_port rest;
      Some (m2, ev1 ++ ev2)
  end.

(** ETI-NI frames, each with its PID, fed one after the other. *)
Definition process_eti_all (m : t) (calls : list (Z * bytes)) : t * list event :=
  fold_left
    (fun '(m, events) '(pid, frame) =>
       let '(m', ev) := processEtiFrame m pid frame (len_ frame) in
       (m', events ++ ev))
    calls (m, []).
End EnsembleManager.

(** ** Reference notions used in the statements *)

(** What stage 1 hands on for a payload once the offset is [off]. *)
Definition stripped (off : Z) (p : bytes) : option bytes :=
  if len_ p <=? off then None else Some (advance p off).

(** A 28-byte datagram: IPv4 header without options, protocol 17, to
    239.199.2.1:1234, whose UDP header announces 100 bytes although only
    the 8 header bytes follow the IP header. *)
Definition overlong_datagram : bytes :=
  [0x45; 0; 0; 28; 0; 0; 0; 0; 64; 17; 0; 0; 10; 0; 0; 1; 239; 199; 2; 1;
   4; 210; 4; 210; 0; 100; 0; 0].

(** An active GSE slot holds between 2 and [total_length] bytes, and its
    buffer is [total_length] bytes long. *)
Definition slot_ok (f : GseFragment.t) : Prop :=
  GseFragment.active f = true ->
  2 <= GseFragment.current_pos f <= GseFragment.total_length f
  /\ len_ (GseFragment.data f) = GseFragment.total_length f.

Definition slots_ok (st : GseParser.t) : Prop :=
  forall frag_id, slot_ok (GseParser.frag st frag_id).

(** A continuation fragment that fits is appended at [current_pos]; one
    that does not fit leaves the slot as it was. *)
Definition append_fragment (old : GseFragment.t) (src : bytes) (payload_len : Z)
  : GseFragment.t :=
  if GseFragment.current_pos old + payload_len <=? len_ (GseFragment.data old) then
    GseFragment.mk
      (memcpy_at (GseFragment.data old) (GseFragment.current_pos old) src payload_len)
      (GseFragment.total_length old)
      (GseFragment.current_pos old + payload_len) true
  else old.

Definition deactivated (f : GseFragment.t) : GseFragment.t :=
  GseFragment.mk (GseFragment.data f) (GseFragment.total_length f)
    (GseFragment.current_pos f) false.

(** What [processGsePacket] does with a continuation fragment [p] (S = 0)
    whose slot is active: the payload is appended if it fits, the slot is
    switched off by a last fragment only, and a last fragment hands the
    bytes gathered so far to [handleCompleteGsePayload] whatever their
    number. *)
Definition continuation_outcome (st : GseParser.t) (p : bytes) : Prop :=
  let hdr := at_ p 0 in
  let gse_len := u16 (((hdr .& 0x0f) ≪ 8) .| at_ p 1) in
  let frag_id := at_ p 2 in
  let old := GseParser.frag st frag_id in
  let last := (hdr ≫ 6) .& 1 =? 1 in
  let new := append_fragment old (advance p 3) (gse_len - (if last then 5 else 1)) in
  let '(st', r, out) := GseParser.processGsePacket st p (len_ p) in
  r = Some (gse_len + 2)
  /\ GseParser.frag st' frag_id = (if last then deactivated new else new)
  /\ GseFragment.total_length new = GseFragment.total_length old
  /\ 2 <= GseFragment.current_pos new <= GseFragment.total_length new
  /\ out = (if last
            then GseParser.handleCompleteGsePayload
                   (advance (GseFragment.data new) 2) (GseFragment.current_pos new - 2)
            else []).

(** A first fragment for slot 1 announcing 100 bytes and carrying the
    protocol type 0x0800 and a 20-byte IPv4 header; a last fragment for
    slot 1 with no payload; a middle fragment for slot 1 with 100 bytes. *)
Definition gse_first_fragment : bytes :=
  [0xA0; 25; 1; 0; 100; 0x08; 0x00;
   0x45; 0; 0; 20; 0; 0; 0; 0; 64; 17; 0; 0; 10; 0; 0; 1; 239; 199; 2; 1].

Definition gse_last_fragment : bytes := [0x60; 5; 1; 0; 0; 0; 0].

Definition gse_big_middle_fragment : bytes := [0x20; 101; 1] ++ replicate 100 7.

(** A PF packet without FEC and address extensions: magic, Pseq, Findex,
    Fcount, the 14-bit payload length, two header CRC bytes (never checked),
    then the payload. *)
Definition pf_packet (pseq findex fcount : Z) (payload : bytes) : bytes :=
  [0x50; 0x46;
   pseq / 256 mod 256; pseq mod 256;
   findex / 65536 mod 256; findex / 256 mod 256; findex mod 256;
   fcount / 65536 mod 256; fcount / 256 mod 256; fcount mod 256;
   len_ payload / 256 mod 256; len_ payload mod 256;
   0; 0] ++ payload.

(** The fragment with index [i] of an AF packet cut into [payloads]. *)
Definition pf_fragment (pseq : Z) (payloads : list bytes) (i : nat) : bytes :=
  pf_packet pseq (Z.of_nat i) (Z.of_nat (length payloads)) (default [] (payloads !! i)).

(** The collector of [pseq] is ready for a new AF packet: absent, never
    sized, or already processed. *)
Definition pf_idle (st : PF_Reassembler.t) (pseq : Z) : Prop :=
  match PF_Reassembler.collectors_ st !! pseq with
  | None => True
  | Some c => PF_Collector.fcount c = 0 \/ PF_Collector.processed c = true
  end.

(** The collector of [pseq] is gathering the AF packet cut into [payloads]
    and holds the fragments whose indices are in [seen], not yet all. *)
Definition pf_collecting (st : PF_Reassembler.t) (pseq : Z) (payloads : list bytes)
    (seen : gset Z) : Prop :=
  exists c,
    PF_Reassembler.collectors_ st !! pseq = Some c
    /\ PF_Collector.fcount c = Z.of_nat (length payloads)
    /\ PF_Collector.processed c = false
    /\ PF_Collector.fragments_collected c = Z.of_nat (size seen)
    /\ (size seen < length payloads)%nat
    /\ dom (PF_Collector.fragments c) = seen
    /\ PF_Collector.fragments c ⊆ map_seqZ 0 payloads.

(** The same two situations for the collectors of [EdiParser::feed]. *)
Definition edi_idle (m : gmap Z PfCollector.t) (pseq : Z) : Prop :=
  m !! pseq = None.

Definition edi_collecting (m : gmap Z PfCollector.t) (pseq : Z) (payloads : list bytes)
    (seen : gset Z) : Prop :=
  exists c,
    m !! pseq = Some c
    /\ PfCollector.pseq c = pseq
    /\ PfCollector.fcount c = Z.of_nat (length payloads)
    /\ (size seen < length payloads)%nat
    /\ dom (PfCollector.fragments c) = seen
    /\ PfCollector.fragments c ⊆ map_seqZ 0 payloads.

(** Every key of a collector map is a 16-bit Pseq. *)
Definition pseq_keys {V} (m : gmap Z V) : Prop :=
  forall k, is_Some (m !! k) -> 0 <= k < 65536.

(** The FL field read back from FC bytes 6 and 7 of a frame, as the FIC
    parser reads it. *)
Definition fl_of (frame : bytes) : Z := ETI_FC.fl (parse_fc (advance frame 4)).

(** The ranges of the stream count (a [uint8_t]), the frame phase (3 bits)
    and the mode identifier (2 bits). *)
Definition fc_in_range (nst fp mid : Z) : Prop :=
  0 <= nst /\ 0 <= fp < 8 /\ 0 <= mid < 4.

(** FL as the assemblers compute it, and the byte count it stands for when
    every MST length is a multiple of four. *)
Definition fl_relation (frame : bytes) (nst fic_len : Z) (mst_lens : list Z) : Prop :=
  fl_of frame = nst + 1 + fic_len / 4 + sum_Z (map (fun x => x / 4) mst_lens)
  /\ (Forall (fun x => x mod 4 = 0) mst_lens ->
      fl_of frame * 4 = nst * 4 + 4 + fic_len + sum_Z mst_lens).

(** The MST region of a frame with [nst] streams, the FIC [fic] and the
    stream data [msts]: it starts behind the sync word, FC, STC and EOH, at
    byte [12 + 4 * nst], and ends before byte [mst_region_end]. *)
Definition mst_region_start (nst : Z) : Z := 8 + 4 * nst + 4.

Definition mst_region_end (nst : Z) (fic : bytes) (msts : list bytes) : Z :=
  mst_region_start nst + len_ fic + sum_Z (map len_ msts).

(** The frame holds the FIC and, behind it, the data of the streams in its
    MST region; when every MST length is a multiple of four, the [FL * 4]
    bytes from byte 8, the first byte behind FC, end with the region. *)
Definition fl_counts_mst_region (frame : bytes) (nst : Z) (fic : bytes)
    (msts : list bytes) : Prop :=
  slice (advance frame (mst_region_start nst))
    (mst_region_end nst fic msts - mst_region_start nst)
  = fic ++ concat msts
  /\ (Forall (fun mst => len_ mst mod 4 = 0) msts ->
      8 + fl_of frame * 4 = mst_region_end nst fic msts).

(** The sizes of the two [std::array] members of [EDI_Builder]. *)
Definition builder_arrays (edi : EDI_Builder.t) : Prop :=
  length (EDI_Builder.m_stc edi) = 64%nat /\ length (EDI_Builder.fic edi) = 128%nat.

(** An AF packet without CRC: the [*ptr] tag announcing DETI 0.0, a [deti]
    tag for frame 0 in mode 1 with the 96 bytes [fic] as FIC, and one [est1]
    stream with the MST bytes [mst] (fewer than 29 of them). *)
Definition af_packet_with (fic mst : bytes) : bytes :=
  [0x41; 0x46; 0; 0; 0; 137 + len_ mst; 0; 0; 0x10; 0x54]
  ++ [0x2a; 0x70; 0x74; 0x72; 0; 0; 0; 64; 0x44; 0x45; 0x54; 0x49; 0; 0; 0; 0]
  ++ [0x64; 0x65; 0x74; 0x69; 0; 0; 0x03; 0x30; 0x40; 0x00; 0x00; 0x40; 0x00; 0x00]
  ++ fic
  ++ [0x65; 0x73; 0x74; 0x01; 0; 0; 0; (3 + len_ mst) * 8; 0; 0; 0]
  ++ mst.

Definition af_packet (mst : bytes) : bytes := af_packet_with (replicate 96 0) mst.

(** The same frame in the builder of [EdiParser]. *)
Definition eti_builder_of (mst : bytes) : EtiBuilder.t :=
  EtiBuilder.mk true true 0xFF 0 0xFFFF
    (FrameControl.mk false true 1 0 0 0xFFFFFF 1)
    (replicate 96 0)
    (<[0%nat := SubchannelData.mk 0 0 0 mst]> (replicate 64 SubchannelData.init)).

(** The parser after [handle_af_packet] has decoded that AF packet. *)
Definition dab_state_of (mst : bytes) : DABStreamParser.t :=
  let pkt := af_packet mst in
  match DABStreamParser.handle_af_packet EDI_Builder.init pkt (len_ pkt) with
  | Some (edi, _) =>
      DABStreamParser.mk PF_Reassembler.reset edi DABParser.init
  | None => DABStreamParser.init
  end.

(** A FIB: the FIGs of [body] padded with 0xFF to 30 bytes, then the CRC
    that [fib_crc_ok] expects. *)
Definition fib_of (body : bytes) : bytes :=
  let data := slice (body ++ replicate 30 0xFF) 30 in
  let crc := crc16_table_driven data 30 in
  data ++ [crc ≫ 8; crc .& 0xFF].

(** An ETI-NI frame head in mode 1 with no stream: sync, FC with FICF set,
    EOH, and a FIC of three FIBs. *)
Definition fic_frame (fib1 fib2 fib3 : bytes) : bytes :=
  [0xFF; 0xF8; 0xC5; 0x49; 0; 0x80; 0x08; 0x19; 0xFF; 0xFF; 0; 0]
  ++ fib_of fib1 ++ fib_of fib2 ++ fib_of fib3.

(** FIG 0/2: service 0x1234 with one audio component, primary, in
    sub-channel 5. *)
Definition fig_service : bytes := [0x06; 0x02; 0x12; 0x34; 0x01; 0x00; 0x16].

(** FIG 1/1: the label of service 0x1234. *)
Definition fig_service_label : bytes :=
  [0x35; 0x01; 0x12; 0x34; 82; 65; 68; 73; 79] ++ replicate 11 32 ++ [0xFF; 0xFF].

(** FIG 1/0: the label of ensemble 0xCE15. *)
Definition fig_ensemble_label : bytes :=
  [0x35; 0x00; 0xCE; 0x15; 77; 85; 88] ++ replicate 13 32 ++ [0xFF; 0xFF].

(** A frame that announces and labels the service and the ensemble, and
    carries no FIG 0/1, so no sub-channel is ever described. *)
Definition frame_without_subchannels : bytes :=
  fic_frame (fig_service ++ fig_service_label) fig_ensemble_label [].

(** The guards of [process_eti_frame] between the completion test and
    [process_fic]: the frame is long enough, starts with a sync word, has
    FICF set and holds the whole FIC. *)
Definition carries_fic (frame : bytes) : bool :=
  let len := len_ frame in
  let sync := read_32b frame in
  let fc := parse_fc (advance frame 4) in
  (8 <=? len)
  && ((sync =? ETI_NI_FSYNC0) || (sync =? ETI_NI_FSYNC1))
  && negb (ETI_FC.ficf fc =? 0)
  && (8 + ETI_FC.nst fc * 4 + 4 + (if ETI_FC.mid fc =? 3 then 32 else 24) * 4 <=? len).

Definition service_count (s : DABParser.t) : Z :=
  map_size (DABParser.service_map_ (DABParser.fig s)).

(** The parser states from [s] on, one more after each frame. *)
Fixpoint states_along (s : DABParser.t) (frames : list bytes) : list DABParser.t :=
  s :: match frames with
       | [] => []
       | frame :: rest =>
           states_along (DABParser.process_eti_frame s frame (len_ frame)).1 rest
       end.

(** The service count has been the same over a run of frames that ends
    with the last frame fed and holds at least [n] frames carrying a FIC:
    [pre] are the frames before that run, [window] the run itself. *)
Definition count_stable_for (frames : list bytes) (n : Z) : Prop :=
  exists pre window,
    frames = pre ++ window
    /\ n <= Z.of_nat (length (List.filter carries_fic window))
    /\ Forall (fun st =>
                service_count st
                = service_count (DABParser.feed_frames DABParser.init frames))
         (states_along (DABParser.feed_frames DABParser.init pre) window).

(** Every service known to [T] is still known to [T']. *)
Definition keeps_services (T T' : DABParser.tables) : Prop :=
  forall k,
    is_Some (DABParser.service_map_ T !! k) -> is_Some (DABParser.service_map_ T' !! k).

(** FIG 0/1, short form: sub-channels 5 and 6. *)
Definition fig_subchannels : bytes := [0x07; 0x01; 0x14; 0x00; 0x00; 0x18; 0x10; 0x00].

(** FIG 0/2 as in [fig_service], with the component moved to sub-channel 6. *)
Definition fig_service_moved : bytes := [0x06; 0x02; 0x12; 0x34; 0x01; 0x00; 0x1A].

(** EDI packets whose FIC describes sub-channels 5 and 6, labels the
    ensemble and the service, and puts the service in sub-channel 5 or,
    in the second packet, in sub-channel 6. *)
Definition edi_packet_service_in_5 : bytes :=
  af_packet_with
    (fib_of (fig_subchannels ++ fig_service) ++ fib_of fig_service_label
     ++ fib_of fig_ensemble_label)
    [1; 2; 3; 4; 5; 6; 7; 8].

Definition edi_packet_service_in_6 : bytes :=
  af_packet_with
    (fib_of (fig_subchannels ++ fig_service_moved) ++ fib_of fig_service_label
     ++ fib_of fig_ensemble_label)
    [1; 2; 3; 4; 5; 6; 7; 8].

(** The sub-channel-change and completion callbacks among the events. *)
Definition changes_of (events : list event) : list (StreamKey * list SubchannelChange.t) :=
  omap (fun e => match e with SubchannelChanged k c => Some (k, c) | _ => None end) events.

Definition completions_of (events : list event) : list (StreamKey * DABEnsemble.t) :=
  omap (fun e => match e with Complete k ens => Some (k, ens) | _ => None end) events.

Definition service_subchannels (ens : DABEnsemble.t) : list (Z * option Z) :=
  map (fun svc => (DABService.sid svc, DABService.subchannel_id svc))
    (DABEnsemble.services ens).

(** A frame whose FIC describes sub-channels 5 and 6 and puts the labelled
    service in sub-channel 5. *)
Definition frame_with_subchannels : bytes :=
  fic_frame (fig_subchannels ++ fig_service) fig_service_label fig_ensemble_label.

(** A basic-ready flag is set for the key of a PID only when that PID has a
    parser and the parser is basic-ready. *)
Definition etina_flags_sound (m : EnsembleManager.t) : Prop :=
  forall pid,
    EnsembleManager.flag (EnsembleManager.basic_ready_flags_ m) (pid, 0) = true ->
    exists p, EnsembleManager.etina_parsers_ m !! pid = Some p
              /\ DABParser.is_basic_ready p = true.

(** The sub-channel tracking of a manager agrees with its parsers: a stream
    flagged complete has a complete parser and the recorded sub-channel map
    is the one of the parser's ensemble; other streams have no record. *)
Definition udp_tracking_sound (m : EnsembleManager.t) : Prop :=
  forall key,
    if EnsembleManager.flag (EnsembleManager.complete_flags_ m) key then
      exists p,
        EnsembleManager.parsers_ m !! key = Some p
        /\ DABStreamParser.is_complete p = true
        /\ EnsembleManager.last_subchannel_map_ m !! key
           = Some (EnsembleManager.subchannel_map_of ∅
                     (DABEnsemble.services (DABStreamParser.get_ensemble p)))
    else EnsembleManager.last_subchannel_map_ m !! key = None.

(** The frame characterisation of an EDI builder is within the field
    ranges. *)
Definition builder_in_range (edi : EDI_Builder.t) : Prop :=
  fc_in_range (EDI_FC.nst (EDI_Builder.m_fc edi)) (EDI_FC.fp (EDI_Builder.m_fc edi))
    (EDI_FC.mid (EDI_Builder.m_fc edi)).

(** ** Further definitions *)

(** Nothing known to [T] is missing from [T']: services, service labels,
    sub-channels and packet-mode components. *)
Definition tables_grow (T T' : DABParser.tables) : Prop :=
  (forall k, is_Some (DABParser.service_map_ T !! k) ->
             is_Some (DABParser.service_map_ T' !! k))
  /\ (forall k, is_Some (DABParser.service_labels_ T !! k) ->
                is_Some (DABParser.service_labels_ T' !! k))
  /\ (forall k, is_Some (DABParser.subchannels_ T !! k) ->
                is_Some (DABParser.subchannels_ T' !! k))
  /\ (forall k, is_Some (DABParser.packet_mode_map_ T !! k) ->
                is_Some (DABParser.packet_mode_map_ T' !! k)).

(** Strictly increasing service identifiers. *)
Definition sid_lt (a b : DABService.t) : Prop := DABService.sid a < DABService.sid b.

(** ** ensemble_manager.cpp: queries and [processIpPacket] *)

Module EnsembleManagerQueries.
Import EnsembleManager.

Definition isComplete (m : t) (key : StreamKey) : bool :=
  match complete_flags_ m !! key with
  | Some complete => complete
  | None => false
  end.

Definition allComplete (m : t) : bool :=
  if bool_decide (parsers_ m = ∅) then false
  else bool_decide (map_Forall (fun _ complete => complete = true) (complete_flags_ m)).

Definition getAllEnsembles (m : t) : gmap StreamKey DABEnsemble.t :=
  DABStreamParser.get_ensemble <$> parsers_ m.

Definition getEnsembles (m : t) : gmap StreamKey DABEnsemble.t := ensembles_ m.
Definition getCompleteCount (m : t) : Z := complete_count_ m.
Definition getStreamCount (m : t) : Z := Z.of_nat (size (parsers_ m)).

Definition processIpPacket (m : t) (ip_data : bytes) (len : Z)
  : option (t * list event) :=
  if len <? 28 then Some (m, [])
  else if negb (at_ ip_data 0 ≫ 4 =? 4) then Some (m, [])
  else
    let ip_hdr_len := (at_ ip_data 0 .& 0x0F) * 4 in
    if (ip_hdr_len <? 20) || (len <? ip_hdr_len) then Some (m, [])
    else if negb (at_ ip_data 9 =? 17) then Some (m, [])
    else
      let dst_ip := u32 ((at_ ip_data 16 ≪ 24) .| (at_ ip_data 17 ≪ 16)
                         .| (at_ ip_data 18 ≪ 8) .| at_ ip_data 19) in
      if len <? ip_hdr_len + 8 then Some (m, [])
      else
        let udp := advance ip_data ip_hdr_len in
        let dst_port := u16 ((at_ udp 2 ≪ 8) .| at_ udp 3) in
        let udp_len := u16 ((at_ udp 4 ≪ 8) .| at_ udp 5) in
        if (udp_len <? 8) || (len - ip_hdr_len <? udp_len) then Some (m, [])
        else
          let payload := advance udp 8 in
          let payload_len := udp_len - 8 in
          if 0 <? payload_len then processUdp m dst_ip dst_port payload payload_len
          else Some (m, []).

(** Calls of [processUdp] for any streams, one after the other, with all
    events. *)
Fixpoint process_udp_calls (m : t) (calls : list (Z * Z * bytes))
  : option (t * list event) :=
  match calls with
  | [] => Some (m, [])
  | (dst_ip, dst_port, payload) :: rest =>
      '(m1, ev1) ← processUdp m dst_ip dst_port payload (len_ payload);
      '(m2, ev2) ← process_udp_calls m1 rest;
      Some (m2, ev1 ++ ev2)
  end.
End EnsembleManagerQueries.

(** The streams reported basic-ready, in order. *)
Definition basic_readies_of (events : list event) : list (StreamKey * DABEnsemble.t) :=
  omap (fun e => match e with BasicReady k ens => Some (k, ens) | _ => None end) events.

(** The manager's book-keeping for UDP streams: a stream is flagged
    complete exactly when it has a complete parser, the stored ensembles are
    those of the flagged streams, and the counter counts them. *)
Definition udp_books_sound (m : EnsembleManager.t) : Prop :=
  (forall key,
     EnsembleManager.flag (EnsembleManager.complete_flags_ m) key
     = default false (DABStreamParser.is_complete <$> EnsembleManager.parsers_ m !! key))
  /\ (forall key,
        EnsembleManager.ensembles_ m !! key
        = if EnsembleManager.flag (EnsembleManager.complete_flags_ m) key
          then DABStreamParser.get_ensemble <$> EnsembleManager.parsers_ m !! key
          else None)
  /\ EnsembleManager.complete_count_ m
     = Z.of_nat (size (EnsembleManager.ensembles_ m))
  /\ (forall key,
        EnsembleManager.flag (EnsembleManager.basic_ready_flags_ m) key = true ->
        is_Some (EnsembleManager.parsers_ m !! key)).

(** The book-keeping together with the events so far: no stream was
    reported complete or basic-ready twice, and what was reported complete
    is what is stored. *)
Definition udp_run_sound (m : EnsembleManager.t) (events : list event) : Prop :=
  udp_books_sound m
  /\ NoDup (completions_of events).*1
  /\ NoDup (basic_readies_of events).*1
  /\ (forall key ens, (key, ens) ∈ completions_of events ->
                      EnsembleManager.ensembles_ m !! key = Some ens)
  /\ (forall key, key ∈ (basic_readies_of events).*1 ->
                  EnsembleManager.flag (EnsembleManager.basic_ready_flags_ m) key = true).

(** ** dab_parser.cpp: the IP and MPE entry points of [DABStreamParser]

    Results as for [process_edi_packet].  The counters [mpe_count_] and
    [edi_count_] and the log output are left out. *)

Module DABStreamParserInput.
Import DABStreamParser.

Definition unchanged (s : t) : option (t * bool * list (bytes * Z)) :=
  Some (s, DABParser.is_complete (fic_parser_ s), []).

Definition process_ip_packet (s : t) (ip : bytes) (len : Z)
  : option (t * bool * list (bytes * Z)) :=
  if len <? 28 then unchanged s
  else if negb (at_ ip 0 ≫ 4 =? 4) then unchanged s
  else
    let ip_hdr_len := (at_ ip 0 .& 0x0F) * 4 in
    if (ip_hdr_len <? 20) || (len <? ip_hdr_len) then unchanged s
    else if negb (at_ ip 9 =? 17) then unchanged s
    else if len <? ip_hdr_len + 8 then unchanged s
    else
      let udp := advance ip ip_hdr_len in
      let udp_len := u16 ((at_ udp 4 ≪ 8) .| at_ udp 5) in
      if (udp_len <? 8) || (len - ip_hdr_len <? udp_len) then unchanged s
      else
        let edi_data := advance udp 8 in
        let edi_len := udp_len - 8 in
        if (0 <? edi_len) && (edi_len <=? len - ip_hdr_len - 8) then
          '(s', frames) ← handle_edi_packet s edi_data edi_len;
          Some (s', DABParser.is_complete (fic_parser_ s'), frames)
        else unchanged s.

Definition process_mpe_section (s : t) (section : bytes) (len : Z)
  : option (t * bool * list (bytes * Z)) :=
  if len <? 40 then unchanged s
  else if negb (at_ section 0 =? 0x3E) then unchanged s
  else
    let llc_snap := negb (at_ section 1 .& 0x08 =? 0) in
    let ip_offset := if llc_snap then 20 else 12 in
    if len <? ip_offset + 28 then unchanged s
    else
      let ip := advance section ip_offset in
      if negb (at_ ip 0 ≫ 4 =? 4) then unchanged s
      else if negb (at_ ip 9 =? 17) then unchanged s
      else
        let udp := advance ip 20 in
        let udp_len := u16 ((at_ udp 4 ≪ 8) .| at_ udp 5) in
        let edi_data := advance udp 8 in
        let edi_len := usize (udp_len - 8) in
        if (0 <? edi_len) && (edi_len <=? len - ip_offset - 28) then
          '(s', frames) ← handle_edi_packet s edi_data edi_len;
          Some (s', DABParser.is_complete (fic_parser_ s'), frames)
        else unchanged s.
End DABStreamParserInput.

(** The parser after [handle_af_packet] has decoded the AF packet [pkt]. *)
Definition dab_state_after (pkt : bytes) : DABStreamParser.t :=
  match DABStreamParser.handle_af_packet EDI_Builder.init pkt (len_ pkt) with
  | Some (edi, _) => DABStreamParser.mk PF_Reassembler.reset edi DABParser.init
  | None => DABStreamParser.init
  end.

(** ** GSE packets for reassembly

    A GSE packet with the start, end and label-type bits [flags] and the
    12-bit length of [body]. *)
Definition gse_packet (flags : Z) (body : bytes) : bytes :=
  [flags + len_ body / 256; len_ body mod 256] ++ body.

(** First, middle and last fragment of a PDU sent without label (label
    type 2) under the fragment id [frag_id]: the first one carries the total
    length and the protocol type 0x0800, the last one a CRC-32. *)
Definition gse_first_of (frag_id total_len : Z) (pdu : bytes) : bytes :=
  gse_packet 0xA0 ([frag_id; total_len / 256; total_len mod 256; 0x08; 0x00] ++ pdu).

Definition gse_middle_of (frag_id : Z) (pdu : bytes) : bytes :=
  gse_packet 0x20 (frag_id :: pdu).

Definition gse_last_of (frag_id : Z) (pdu crc : bytes) : bytes :=
  gse_packet 0x60 (frag_id :: pdu ++ crc).

(** An IPv4 datagram whose total-length field is its length. *)
Definition ipv4_datagram (ip : bytes) : Prop :=
  Forall is_byte ip /\ 20 <= len_ ip /\ at_ ip 0 ≫ 4 = 4
  /\ (at_ ip 2 ≪ 8) .| at_ ip 3 = len_ ip.

(** The slot [f] is collecting a PDU of [total] bytes and holds the
    protocol type and the bytes [acc] so far. *)
Definition collecting (f : GseFragment.t) (total : Z) (acc : bytes) : Prop :=
  GseFragment.active f = true
  /\ len_ (GseFragment.data f) = total + 2
  /\ GseFragment.current_pos f = 4 + len_ acc
  /\ slice (advance (GseFragment.data f) 2) (2 + len_ acc) = [0x08; 0x00] ++ acc.

(** ** parsers/gse_parser.cpp: [feedSynced] *)

Module GseParserFeed.
Import GseParser.

(** The [while (pos + 2 <= len)] loop of [feedSynced].  Every turn moves
    [pos] forward, so [len] turns are enough. *)
Fixpoint feedSynced_loop (fuel : nat) (st : t) (data : bytes) (len pos : Z)
  : t * list bytes :=
  match fuel with
  | O => (st, [])
  | S fuel' =>
      if len <? pos + 2 then (st, [])
      else
        let gse_header := at_ data pos in
        let gse_len := u16 (((gse_header .& 0x0f) ≪ 8) .| at_ data (pos + 1)) in
        if (gse_header .& 0xf0 =? 0) || (gse_header =? 0xff) then (st, [])
        else
          let packet_len := gse_len + 2 in
          if 8192 <? packet_len then (st, [])
          else if len <? pos + packet_len then (st, [])
          else
            let '(st1, r, out) := processGsePacket st (advance data pos) packet_len in
            match r with
            | None => feedSynced_loop fuel' st1 data len (pos + 1)
            | Some consumed =>
                let '(st2, outs) :=
                  feedSynced_loop fuel' (bump_packets st1) data len (pos + consumed) in
                (st2, out ++ outs)
            end
  end.

(** Result: the new state and the datagrams emitted through the callback. *)
Definition feedSynced (st : t) (data : bytes) (len : Z) : t * list bytes :=
  feedSynced_loop (Z.to_nat len) st data len 0.
End GseParserFeed.

(** The length field of the GSE packet at the head of [p]. *)
Definition gse_len_of (p : bytes) : Z :=
  u16 (((at_ p 0 .& 0x0f) ≪ 8) .| at_ p 1).

(** A whole GSE packet that is neither padding nor headed by 0xFF. *)
Definition gse_whole_packet (p : bytes) : Prop :=
  Forall is_byte p
  /\ (at_ p 0 .& 0xf0 =? 0) = false
  /\ (at_ p 0 =? 0xff) = false
  /\ len_ p = gse_len_of p + 2.

(** What ends the loop of [feedSynced]: fewer than two bytes left, a
    padding byte, or a packet that is not whole. *)
Definition gse_feed_stops (rest : bytes) : Prop :=
  len_ rest < 2
  \/ (at_ rest 0 .& 0xf0 =? 0) || (at_ rest 0 =? 0xff) = true
  \/ len_ rest < gse_len_of rest + 2.

Definition add_packets (st : GseParser.t) (k : Z) : GseParser.t :=
  GseParser.mk (GseParser.fragments_ st) (GseParser.packet_count_ st + k)
    (GseParser.fragment_count_ st).

(** ** The two ETI assemblers side by side *)

Definition stream_agrees (a : SubchannelData.t) (b : EDI_STC.t) : Prop :=
  SubchannelData.scid a = EDI_STC.scid b
  /\ SubchannelData.sad a = EDI_STC.sad b
  /\ SubchannelData.tpl a = EDI_STC.tpl b
  /\ SubchannelData.mst a = EDI_STC.mst b.

(** The builder of [EdiParser] and the builder of [DABStreamParser] hold
    the same decoded frame: [EdiParser] keeps the FIC as a vector of its
    own length, [DABStreamParser] as an array with [fic_length]. *)
Definition builders_agree (eb : EtiBuilder.t) (db : EDI_Builder.t) : Prop :=
  EtiBuilder.is_eti eb = EDI_Builder.is_eti db
  /\ EtiBuilder.fc_valid eb = EDI_Builder.m_fc_valid db
  /\ EtiBuilder.mnsc eb = EDI_Builder.m_mnsc db
  /\ EtiBuilder.rfu eb = EDI_Builder.m_rfu db
  /\ FrameControl.ficf (EtiBuilder.fc eb) = EDI_FC.ficf (EDI_Builder.m_fc db)
  /\ FrameControl.mid (EtiBuilder.fc eb) = EDI_FC.mid (EDI_Builder.m_fc db)
  /\ FrameControl.fp (EtiBuilder.fc eb) = EDI_FC.fp (EDI_Builder.m_fc db)
  /\ FrameControl.dflc (EtiBuilder.fc eb) = EDI_FC.dflc (EDI_Builder.m_fc db)
  /\ FrameControl.tsta (EtiBuilder.fc eb) = EDI_FC.tsta (EDI_Builder.m_fc db)
  /\ FrameControl.nst (EtiBuilder.fc eb) = EDI_FC.nst (EDI_Builder.m_fc db)
  /\ len_ (EtiBuilder.fic eb) = EDI_Builder.fic_length db
  /\ EtiBuilder.fic eb = slice (EDI_Builder.fic db) (EDI_Builder.fic_length db)
  /\ Forall2 stream_agrees (EtiBuilder.subchannels eb) (EDI_Builder.m_stc db).

(** The members of the builder hold values of their C types: [m_mnsc] is
    16 bits wide, the FIC and the stream data are bytes. *)
Definition builder_bytes (db : EDI_Builder.t) : Prop :=
  0 <= EDI_Builder.m_mnsc db < 65536
  /\ Forall is_byte (EDI_Builder.fic db)
  /\ Forall (fun stc => Forall is_byte (EDI_STC.mst stc)) (EDI_Builder.m_stc db).

(** The frame with its ERR byte replaced. *)
Definition with_err (err : Z) (frame : bytes) : bytes := err :: advance frame 1.

(** ** Labels as text

    A reference decoder for UTF-8 restricted to the code points below 256:
    one byte below 0x80, or a lead byte 0xC2 or 0xC3 with one continuation
    byte.  [None] for anything else. *)
Fixpoint utf8_decode_latin1 (l : bytes) : option bytes :=
  match l with
  | [] => Some []
  | b :: rest =>
      if (0 <=? b) && (b <? 0x80) then
        cs ← utf8_decode_latin1 rest; Some (b :: cs)
      else if (b =? 0xC2) || (b =? 0xC3) then
        match rest with
        | b2 :: rest' =>
            if b2 .& 0xC0 =? 0x80 then
              cs ← utf8_decode_latin1 rest';
              Some ((((b .& 0x1F) ≪ 6) .| (b2 .& 0x3F)) :: cs)
            else None
        | [] => None
        end
      else None
  end.

(** The characters before the first NUL. *)
Fixpoint until_nul (l : bytes) : bytes :=
  match l with
  | [] => []
  | c :: rest => if c =? 0 then [] else c :: until_nul rest
  end.

(** A label read back to front, without its trailing spaces and NULs. *)
Fixpoint drop_blanks (rev_label : bytes) : bytes :=
  match rev_label with
  | [] => []
  | c :: rest => if (c =? 32) || (c =? 0) then drop_blanks rest else rev_label
  end.

(** The text of the 16-character label at [data]: trailing spaces and NULs
    removed, and cut at the first NUL. *)
Definition label_text (data : bytes) : bytes :=
  until_nul (rev (drop_blanks (rev (slice data 16)))).

(** ** etina_pipeline.cpp: stage 4, de-interleaving a multiframe *)

Definition E1_FRAME_SIZE : Z := 32.
Definition FRAMES_IN_BLOCK : Z := 8.
Definition BLOCKS_IN_SUPERBLOCK : Z := 8.
Definition SUPERBLOCKS_IN_MULTIFRAME : Z := 3.
Definition INTERLEAVE_ROWS : Z := 8.
Definition INTERLEAVE_COLS : Z := 240.
Definition ETI_NI_FRAME_SIZE : Z := 6144.

(** [p[i]], or [None] outside the buffer. *)
Definition rd_at (p : bytes) (i : Z) : option Z :=
  if (0 <=? i) && (i <? len_ p) then Some (at_ p i) else None.

(** A loop body run over the values of the loop variable. *)
Fixpoint foldM {A B} (f : A -> B -> option A) (a : A) (l : list B) : option A :=
  match l with
  | [] => Some a
  | b :: rest => a' ← f a b; foldM f a' rest
  end.

Module EtinaDeintState.
Record t := mk { even_frame : bool }.
Definition init : t := mk true.
End EtinaDeintState.

Module EtinaDeint.

(** The body of the innermost loop: the state is [in_ptr] and the vector
    [deint], of which [deint_ptr] is the part from [base] on. *)
Definition deint_cell (superblock : bytes) (base col : Z) (st : Z * bytes) (row : Z)
  : option (Z * bytes) :=
  let '(in_ptr, deint) := st in
  let in_ptr := if in_ptr mod 16 =? 0 then in_ptr + 1 else in_ptr in
  let out_idx := base + (col + row * INTERLEAVE_COLS) in
  v ← rd_at superblock in_ptr;
  if (0 <=? out_idx) && (out_idx <? len_ deint)
  then Some (in_ptr + 1, <[Z.to_nat out_idx := v]> deint)
  else None.

Definition deint_col (superblock : bytes) (base : Z) (st : Z * bytes) (col : Z)
  : option (Z * bytes) :=
  foldM (deint_cell superblock base col) st (seqZ 0 INTERLEAVE_ROWS).

Definition deint_superblock (multiframe : bytes) (deint : bytes) (sb : Z)
  : option bytes :=
  let superblock :=
    advance multiframe (sb * (FRAMES_IN_BLOCK * BLOCKS_IN_SUPERBLOCK * E1_FRAME_SIZE)) in
  let base := sb * (INTERLEAVE_ROWS * INTERLEAVE_COLS) in
  '(_, deint') ← foldM (deint_col superblock base) (0, deint) (seqZ 0 INTERLEAVE_COLS);
  Some deint'.

(** Step 1, from the vector [deint] as allocated. *)
Definition deinterleave (multiframe deint : bytes) : option bytes :=
  foldM (deint_superblock multiframe) deint (seqZ 0 SUPERBLOCKS_IN_MULTIFRAME).

(** The [while (read_ptr < max_read)] loop for rows 0 and 1 of a
    superblock: the bytes copied to [out_ptr], in order. *)
Fixpoint row_segments (fuel : nat) (row_data : bytes) (max_read read_ptr : Z)
  : option bytes :=
  match fuel with
  | O => Some []
  | S fuel' =>
      if read_ptr <? max_read then
        let to_read :=
          if max_read <? read_ptr + 29 then max_read - read_ptr - 1 else 29 in
        let read_ptr := read_ptr + 1 in
        seg ← rd_bytes (advance row_data read_ptr) to_read;
        rest ← row_segments fuel' row_data max_read (read_ptr + to_read);
        Some (seg ++ rest)
      else Some []
  end.

Definition copy_row (deint : bytes) (max_read row : Z) : option bytes :=
  let row_data := advance deint (row * INTERLEAVE_COLS) in
  if row mod INTERLEAVE_ROWS <? 2
  then row_segments (Z.to_nat max_read) row_data max_read 0
  else rd_bytes row_data max_read.

Fixpoint copy_rows (deint : bytes) (max_read : Z) (rows : list Z) : option bytes :=
  match rows with
  | [] => Some []
  | row :: rest =>
      r ← copy_row deint max_read row;
      rs ← copy_rows deint max_read rest;
      Some (r ++ rs)
  end.

Definition sync_bytes (even_frame : bool) : bytes :=
  let sync := if even_frame then 0xb63a07ff else 0x49c5f8ff in
  [sync .& 0xff; (sync ≫ 8) .& 0xff; (sync ≫ 16) .& 0xff; (sync ≫ 24) .& 0xff].

(** Result: the new state and the 6144 bytes left in [out]; [None] when the
    source would read or write outside a buffer. *)
Definition etina_deinterleave_to_eti (state : EtinaDeintState.t) (multiframe : bytes)
  : option (EtinaDeintState.t * bytes) :=
  deint ← deinterleave multiframe
             (replicate (Z.to_nat (INTERLEAVE_ROWS * INTERLEAVE_COLS
                                   * SUPERBLOCKS_IN_MULTIFRAME)) 0);
  mgmt ← rd_at deint 30;
  let type_bit := (mgmt ≫ 1) .& 0x01 in
  let max_read := if type_bit =? 0 then 235 else 226 in
  let total_rows := INTERLEAVE_ROWS * SUPERBLOCKS_IN_MULTIFRAME in
  rows ← copy_rows deint max_read (seqZ 0 total_rows);
  let written := sync_bytes (EtinaDeintState.even_frame state) ++ rows in
  if ETI_NI_FRAME_SIZE <? len_ written then None
  else
    Some (EtinaDeintState.mk (negb (EtinaDeintState.even_frame state)),
          written ++ replicate (Z.to_nat (ETI_NI_FRAME_SIZE - len_ written)) 0x55).
End EtinaDeint.

(** Where the byte for column [col] and row [row] of superblock [sb] sits
    in the multiframe: the cells are read column by column, and every
    sixteenth byte of the superblock, a sync byte, is skipped. *)
Definition deint_source (sb col row : Z) : Z :=
  let k := col * 8 + row in
  sb * 2048 + k + k / 15 + 1.

(** The same for the cell [i] of the de-interleaved vector, which holds
    the three superblocks row after row. *)
Definition deint_source_of (i : Z) : Z :=
  deint_source (i / 1920) (i mod 240) (i mod 1920 / 240).

(** The de-interleaved vector in closed form. *)
Definition deinterleaved (multiframe : bytes) : bytes :=
  map (fun i => at_ multiframe (deint_source_of i)) (seqZ 0 5760).

(** The cells copied to the frame: the first [max_read] columns of every
    row, without the management byte that heads each run of thirty in rows
    0 and 1 of a superblock. *)
Definition deint_kept (max_read i : Z) : bool :=
  let row := i / 240 in
  let col := i mod 240 in
  (col <? max_read) && negb ((row mod 8 <? 2) && (col mod 30 =? 0)).

Definition eti_na_payload (multiframe : bytes) (max_read : Z) : bytes :=
  map (fun i => at_ multiframe (deint_source_of i))
      (List.filter (deint_kept max_read) (seqZ 0 5760)).

(** The place of cell [j] of a superblock's part of the vector in the order
    in which the loops write the cells: column by column. *)
Definition deint_step_of (j : Z) : Z := j mod 240 * 8 + j / 240.

(** The state of the loops over one superblock once [n] cells are written:
    [in_ptr], the vector's length, and the vector's cells, of which those
    written hold bytes of [superblock] and the others are as in [deint0]. *)
Definition deint_written (superblock deint0 : bytes) (base n : Z) (st : Z * bytes)
  : Prop :=
  st.1 = n + (n + 14) / 15 /\
  len_ st.2 = len_ deint0 /\
  forall j, 0 <= j < len_ deint0 ->
    at_ st.2 j =
      if (base <=? j) && (j <? base + 1920) && (deint_step_of (j - base) <? n)
      then at_ superblock (deint_step_of (j - base) + deint_step_of (j - base) / 15 + 1)
      else at_ deint0 j.

(** The vector once [s] superblocks are de-interleaved. *)
Definition deint_done (multiframe deint0 : bytes) (s : Z) (deint : bytes) : Prop :=
  len_ deint = 5760 /\
  forall j, 0 <= j < 5760 ->
    at_ deint j =
      if j <? s * 1920 then at_ multiframe (deint_source_of j) else at_ deint0 j.

(** The integers from [start] on, [n] of them. *)
Fixpoint zrange (start : Z) (n : nat) : list Z :=
  match n with
  | O => []
  | S n' => start :: zrange (start + 1) n'
  end.

(** ** dab_parser.cpp: TS packets and the section accumulator

    A TS packet is a pointer [ts] into the data; [payload] is kept as its
    offset from [ts]. *)

Definition PSI_MAX_SIZE : Z := 4096.

Definition ts_is_sync (ts : bytes) : bool := at_ ts 0 =? 0x47.
Definition ts_has_payload (ts : bytes) : bool := negb (at_ ts 3 .& 0x10 =? 0).
Definition ts_is_payload_start (ts : bytes) : bool :=
  ts_has_payload ts && negb (at_ ts 1 .& 0x40 =? 0).
Definition ts_has_af (ts : bytes) : bool := negb (at_ ts 3 .& 0x20 =? 0).
Definition ts_get_pid (ts : bytes) : Z := u16 (((at_ ts 1 .& 0x1F) ≪ 8) .| at_ ts 2).
Definition ts_get_cc (ts : bytes) : Z := u8 (at_ ts 3 .& 0x0F).

(** [None] is the null pointer. *)
Definition ts_get_payload (ts : bytes) : option Z :=
  if negb (ts_has_payload ts) then None
  else if negb (ts_has_af ts) then Some TS_HEADER_SIZE
  else if TS_PACKET_SIZE - TS_HEADER_SIZE - 1 <=? at_ ts 4 then None
  else Some (TS_HEADER_SIZE + 1 + at_ ts 4).

(** [memcpy(&dst[pos], src, n)]; [None] when it would read or write
    outside a buffer. *)
Definition memcpy_into (dst : bytes) (pos : Z) (src : bytes) (n : Z) : option bytes :=
  if (len_ dst <? pos + n) || (len_ src <? n) then None
  else Some (memcpy_at dst pos src n).

Module MPESectionAccumulator.

Record t := mk {
  cc_ : Z;
  buffer_ : bytes;
  buffer_size_ : Z;
  buffer_skip_ : Z;
  completed_sections_ : list bytes;
  completed_section_sizes_ : list Z
}.

Definition init : t := mk 0 (replicate (Z.to_nat PSI_MAX_SIZE) 0) 0 0 [] [].

Definition reset (a : t) : t := mk 0 (buffer_ a) 0 0 [] [].

Definition with_buffer (a : t) (buf : bytes) (size skip : Z) : t :=
  mk (cc_ a) buf size skip (completed_sections_ a) (completed_section_sizes_ a).

Definition with_cc (a : t) (cc : Z) : t :=
  mk cc (buffer_ a) (buffer_size_ a) (buffer_skip_ a)
     (completed_sections_ a) (completed_section_sizes_ a).

Definition emit_section (a : t) : t :=
  let emit := (0 <? buffer_size_ a) && (buffer_size_ a <=? buffer_skip_ a) in
  mk (cc_ a) (buffer_ a) 0 0
     (if emit then completed_sections_ a ++ [buffer_ a] else completed_sections_ a)
     (if emit then completed_section_sizes_ a ++ [buffer_size_ a]
      else completed_section_sizes_ a).

(** [if (buffer_size_ > 0 && buffer_skip_ >= buffer_size_) emit_section();] *)
Definition emit_if_full (a : t) : t :=
  if (0 <? buffer_size_ a) && (buffer_size_ a <=? buffer_skip_ a)
  then emit_section a else a.

(** The loop that parses the sections starting in a packet.  Every pass
    but the last moves [payload] on by at least four bytes. *)
Fixpoint parse_sections (fuel : nat) (ts : bytes) (a : t) (payload : Z) : option t :=
  match fuel with
  | O => None
  | S fuel' =>
      if (payload <? TS_PACKET_SIZE) && negb (at_ ts payload =? 0xFF) then
        let remain := TS_PACKET_SIZE - payload in
        if remain <? 3 then
          buf ← memcpy_into (buffer_ a) 0 (advance ts payload) remain;
          Some (with_buffer a buf 0 (u16 remain))
        else
          let psi_size :=
            3 + (((at_ ts (payload + 1) .& 0x0F) ≪ 8) .| at_ ts (payload + 2)) in
          if (psi_size <=? 3) || (PSI_MAX_SIZE <? psi_size) then Some a
          else if remain <? psi_size then
            buf ← memcpy_into (buffer_ a) 0 (advance ts payload) remain;
            Some (with_buffer a buf (u16 psi_size) (u16 remain))
          else
            buf ← memcpy_into (buffer_ a) 0 (advance ts payload) psi_size;
            parse_sections fuel' ts
              (emit_section (with_buffer a buf (u16 psi_size) (u16 psi_size)))
              (payload + psi_size)
      else Some a
  end.

(** The branch for a packet in which a section starts. *)
Definition payload_start (a : t) (ts : bytes) (payload cc : Z) : option t :=
  let ptr := at_ ts payload in
  let payload := payload + 1 in
  a1 ← (if (0 <? ptr) && (ptr <? TS_BODY_SIZE) && (0 <? buffer_skip_ a) then
          a2 ← (if (cc_ a + 1) .& 0x0F =? cc then
                  buf ← memcpy_into (buffer_ a) (buffer_skip_ a) (advance ts payload) ptr;
                  Some (emit_if_full
                          (with_buffer a buf (buffer_size_ a) (u16 (buffer_skip_ a + ptr))))
                else Some a);
          Some (with_buffer a2 (buffer_ a2) 0 0)
        else Some a);
  parse_sections (Z.to_nat TS_PACKET_SIZE) ts a1 (payload + ptr).

(** The branch for a packet that continues a section. *)
Definition continuation (a : t) (ts : bytes) (payload cc : Z) : option t :=
  if 0 <? buffer_skip_ a then
    if negb ((cc_ a + 1) .& 0x0F =? cc) then Some (with_buffer a (buffer_ a) 0 0)
    else
      let remain := TS_PACKET_SIZE - payload in
      '(a1, payload, remain) ←
        (if (buffer_size_ a =? 0) && (buffer_skip_ a <? 3) then
           let needed := 3 - buffer_skip_ a in
           buf ← memcpy_into (buffer_ a) (buffer_skip_ a) (advance ts payload) needed;
           Some (with_buffer a buf
                   (u16 (3 + (((at_ buf 1 .& 0x0F) ≪ 8) .| at_ buf 2)))
                   (u16 (buffer_skip_ a + needed)),
                 payload + needed, usize (remain - needed))
         else Some (a, payload, remain));
      let to_copy := Z.min remain (usize (buffer_size_ a1 - buffer_skip_ a1)) in
      buf ← memcpy_into (buffer_ a1) (buffer_skip_ a1) (advance ts payload) to_copy;
      Some (emit_if_full
              (with_buffer a1 buf (buffer_size_ a1) (u16 (buffer_skip_ a1 + to_copy))))
  else Some a.

Definition process_ts_packet (a : t) (ts : bytes) : option t :=
  match ts_get_payload ts with
  | None => Some a
  | Some payload =>
      let cc := ts_get_cc ts in
      a' ← (if ts_is_payload_start ts then payload_start a ts payload cc
            else continuation a ts payload cc);
      Some (with_cc a' cc)
  end.

Definition has_section (a : t) : bool :=
  match completed_sections_ a with [] => false | _ => true end.

(** The front of the queue; the empty list for the null pointer. *)
Definition get_section (a : t) : bytes := hd [] (completed_sections_ a).

Definition get_section_size (a : t) : Z := hd 0 (completed_section_sizes_ a).

Definition pop_section (a : t) : t :=
  match completed_sections_ a with
  | [] => a
  | _ :: _ =>
      mk (cc_ a) (buffer_ a) (buffer_size_ a) (buffer_skip_ a)
         (tl (completed_sections_ a)) (tl (completed_section_sizes_ a))
  end.
End MPESectionAccumulator.

(** ** dab_parser.cpp: the TS entry point of [DABStreamParser]

    The fields of this path beside those of [DABStreamParser.t].  The
    counters and the log output are left out; the result of
    [process_ts_data] is the state, the returned flag and the frames handed
    to the callback. *)

Module DABStreamParserTs.

Record t := mk {
  target_pid_ : Z;
  target_ip_ : Z;
  target_port_ : Z;
  mpe_accum_ : MPESectionAccumulator.t;
  stream_ : DABStreamParser.t
}.

(** The constructor. *)
Definition init (target_pid target_ip target_port : Z) : t :=
  mk target_pid target_ip target_port MPESectionAccumulator.init DABStreamParser.init.

Definition with_stream (s : t) (p : DABStreamParser.t) : t :=
  mk (target_pid_ s) (target_ip_ s) (target_port_ s) (mpe_accum_ s) p.

Definition with_accum (s : t) (a : MPESectionAccumulator.t) : t :=
  mk (target_pid_ s) (target_ip_ s) (target_port_ s) a (stream_ s).

Definition is_complete (s : t) : bool :=
  DABParser.is_complete (DABStreamParser.fic_parser_ (stream_ s)).

Definition handle_mpe_section (s : t) (section : bytes) (len : Z)
  : option (t * list (bytes * Z)) :=
  if negb (at_ section 0 =? 0x3E) then Some (s, [])
  else
    let llc_snap := negb (at_ section 1 .& 0x08 =? 0) in
    let ip_offset := if llc_snap then 20 else 12 in
    if len <? ip_offset + 28 then Some (s, [])
    else
      let ip := advance section ip_offset in
      if negb (at_ ip 0 ≫ 4 =? 4) then Some (s, [])
      else if negb (at_ ip 9 =? 17) then Some (s, [])
      else
        let dst_ip :=
          u32 ((at_ ip 16 ≪ 24) .| (at_ ip 17 ≪ 16) .| (at_ ip 18 ≪ 8) .| at_ ip 19) in
        let udp := advance ip 20 in
        let dst_port := u16 ((at_ udp 2 ≪ 8) .| at_ udp 3) in
        let udp_len := u16 ((at_ udp 4 ≪ 8) .| at_ udp 5) in
        if negb (dst_ip =? target_ip_ s) || negb (dst_port =? target_port_ s)
        then Some (s, [])
        else
          let edi_data := advance udp 8 in
          let edi_len := usize (udp_len - 8) in
          if (0 <? edi_len) && (edi_len <=? usize (len - 40)) then
            '(p, frames) ← DABStreamParser.handle_edi_packet (stream_ s) edi_data edi_len;
            Some (with_stream s p, frames)
          else Some (s, []).

(** The loop over the queued sections; the flag tells that the function
    returned [true] from within the loop. *)
Fixpoint handle_sections (fuel : nat) (s : t) : option (t * bool * list (bytes * Z)) :=
  match fuel with
  | O => None
  | S fuel' =>
      if MPESectionAccumulator.has_section (mpe_accum_ s) then
        '(s1, frames) ←
          handle_mpe_section s (MPESectionAccumulator.get_section (mpe_accum_ s))
            (MPESectionAccumulator.get_section_size (mpe_accum_ s));
        let s2 := with_accum s1 (MPESectionAccumulator.pop_section (mpe_accum_ s1)) in
        if is_complete s2 then Some (s2, true, frames)
        else
          '(s3, returned, frames') ← handle_sections fuel' s2;
          Some (s3, returned, frames ++ frames')
      else Some (s, false, [])
  end.

(** The loop over the packets, from offset [i]. *)
Fixpoint process_ts_packets (fuel : nat) (s : t) (data : bytes) (len i : Z)
  : option (t * bool * list (bytes * Z)) :=
  match fuel with
  | O => None
  | S fuel' =>
      if usize (i + TS_PACKET_SIZE) <=? len then
        let ts := advance data i in
        if negb (ts_is_sync ts) then
          process_ts_packets fuel' s data len (usize (i + TS_PACKET_SIZE))
        else if negb (ts_get_pid ts =? target_pid_ s) then
          process_ts_packets fuel' s data len (usize (i + TS_PACKET_SIZE))
        else
          a ← MPESectionAccumulator.process_ts_packet (mpe_accum_ s) ts;
          '(s1, returned, frames) ←
            handle_sections
              (S (length (MPESectionAccumulator.completed_sections_ a)))
              (with_accum s a);
          if (returned : bool) then Some (s1, true, frames)
          else
            '(s2, result, frames') ←
              process_ts_packets fuel' s1 data len (usize (i + TS_PACKET_SIZE));
            Some (s2, result, frames ++ frames')
      else Some (s, is_complete s, [])
  end.

Definition process_ts_data (s : t) (data : bytes) (len : Z)
  : option (t * bool * list (bytes * Z)) :=
  process_ts_packets (S (Z.to_nat (len / TS_PACKET_SIZE))) s data len 0.
End DABStreamParserTs.

(** A section as TS packets: the packet in which it starts, with a
    pointer field of zero, and the packets that continue it, all without
    adaptation field and stuffed with 0xFF. *)
Definition ts_header (start : bool) (pid cc : Z) : bytes :=
  [0x47; (if start then 0x40 else 0) + pid / 256; pid mod 256; 0x10 + cc].

Definition ts_stuffed (n : Z) (p : bytes) : bytes :=
  p ++ replicate (Z.to_nat (n - len_ p)) 0xFF.

Definition ts_first (pid cc : Z) (sec : bytes) : bytes :=
  ts_header true pid cc ++ [0] ++ ts_stuffed 183 (slice sec 183).

Fixpoint ts_continued (fuel : nat) (pid cc : Z) (rest : bytes) : list bytes :=
  match fuel with
  | O => []
  | S fuel' =>
      if len_ rest <=? 0 then []
      else
        (ts_header false pid cc ++ ts_stuffed 184 (slice rest 184))
          :: ts_continued fuel' pid ((cc + 1) mod 16) (advance rest 184)
  end.

Definition ts_section (pid cc : Z) (sec : bytes) : list bytes :=
  ts_first pid cc sec
    :: ts_continued (length sec) pid ((cc + 1) mod 16) (advance sec 183).

(** A section whose length field gives its length. *)
Definition psi_section (sec : bytes) : Prop :=
  Forall is_byte sec /\ 3 < len_ sec <= PSI_MAX_SIZE /\
  len_ sec = 3 + (at_ sec 1 mod 16 * 256 + at_ sec 2) /\
  at_ sec 0 <> 0xFF.

(** The accumulator while the packets of [sec] come in, for a state [a]
    before them: [skip] bytes are taken, and once these are all of the
    section it is queued, in a copy of the buffer. *)
Definition section_state (a : MPESectionAccumulator.t) (sec : bytes) (skip cc : Z)
  : MPESectionAccumulator.t :=
  if len_ sec <=? skip then
    let buf := sec ++ advance (MPESectionAccumulator.buffer_ a) (len_ sec) in
    MPESectionAccumulator.mk cc buf 0 0
      (MPESectionAccumulator.completed_sections_ a ++ [buf])
      (MPESectionAccumulator.completed_section_sizes_ a ++ [len_ sec])
  else
    MPESectionAccumulator.mk cc
      (slice sec skip ++ advance (MPESectionAccumulator.buffer_ a) skip)
      (len_ sec) skip
      (MPESectionAccumulator.completed_sections_ a)
      (MPESectionAccumulator.completed_section_sizes_ a).

(** What [process_ts_data] does once the section is put together: it hands
    the queued copy of the buffer to [handle_mpe_section] and takes it off
    the queue. *)
Definition section_handled (s : DABStreamParserTs.t) (buf : bytes) (n cc : Z)
  : option (DABStreamParserTs.t * bool * list (bytes * Z)) :=
  '(s1, frames) ← DABStreamParserTs.handle_mpe_section s buf n;
  Some (DABStreamParserTs.with_accum s1 (MPESectionAccumulator.mk cc buf 0 0 [] []),
        DABStreamParserTs.is_complete s1, frames).

(** The destination address and port of the datagram in an MPE section
    without LLC/SNAP header. *)
Definition mpe_destination (section : bytes) : Z * Z :=
  let ip := advance section 12 in
  let udp := advance ip 20 in
  (u32 ((at_ ip 16 ≪ 24) .| (at_ ip 17 ≪ 16) .| (at_ ip 18 ≪ 8) .| at_ ip 19),
   u16 ((at_ udp 2 ≪ 8) .| at_ udp 3)).

(* ===================================================================== *)
(** * Properties *)
(* ===================================================================== *)

(** ** UDP extractor *)

Example extract_demo :
  extractUdpFromIpv4
    ([0x45;0;0;30; 0;0;0;0; 64;17;0;0; 10;0;0;1; 239;199;2;1]
       ++ [4;210; 4;210; 0;10; 0;0] ++ [0x50;0x46]) =
  Some (UdpTuple.mk 0xEFC70201 1234 28 2).
Proof. reflexivity. Qed.

(** What does hold of every accepted datagram: it has at least 28 bytes, a
    UDP length of at least 8, and the slice returned starts 8 bytes after
    the UDP header and is [udp_len - 8] bytes long.  Nothing relates the
    UDP length to the bytes that are left. *)
Lemma extract_accepted ip_packet r :
  extractUdpFromIpv4 ip_packet = Some r ->
  let ip_hdr := (at_ ip_packet 0 .& 0x0F) * 4 in
  let udp := advance ip_packet ip_hdr in
  let udp_len := (at_ udp 4 ≪ 8) .| at_ udp 5 in
  28 <= len_ ip_packet /\ 20 <= ip_hdr /\ ip_hdr + 8 <= len_ ip_packet /\
  8 <= udp_len /\
  UdpTuple.payload_ptr r = ip_hdr + 8 /\
  UdpTuple.payload_len r = udp_len - 8.
Proof.
  unfold extractUdpFromIpv4. cbv zeta.
  destruct (Z.ltb_spec (len_ ip_packet) 28); [done|].
  destruct (negb _); [done|]. destruct (negb _); [done|].
  destruct (Z.ltb_spec ((at_ ip_packet 0 .& 0x0F) * 4) 20); [done|].
  destruct (Z.ltb_spec (len_ ip_packet) ((at_ ip_packet 0 .& 0x0F) * 4 + 8)); [done|].
  simpl.
  destruct (Z.ltb_spec
              ((at_ (advance ip_packet ((at_ ip_packet 0 .& 15) * 4)) 4 ≪ 8)
               .| at_ (advance ip_packet ((at_ ip_packet 0 .& 15) * 4)) 5) 8); [done|].
  intros [= <-]. simpl. repeat split; lia.
Qed.

(** C7, evaluated at the failing input: [extractUdpFromIpv4] accepts a
    datagram whose UDP length (100) exceeds the 8 bytes that remain after
    the IP header, and returns a payload of 92 bytes starting at the very
    end of the 28-byte buffer. *)
Theorem extract_accepts_overlong_udp_length :
  len_ overlong_datagram = 28 /\
  extractUdpFromIpv4 overlong_datagram = Some (UdpTuple.mk 0xEFC70201 1234 28 92).
Proof. split; reflexivity. Qed.

(** ** Stage 1 of the ETI-NA pipeline *)

Section strip_padding.
Import EtinaOffsetState.

Lemma count_leading_ff_bounds data :
  0 <= count_leading_ff data <= len_ data.
Proof.
  unfold len_. induction data as [|b rest IH]; simpl; [lia|].
  destruct (b =? 0xFF); lia.
Qed.

Lemma len_advance p n :
  0 <= n <= len_ p -> len_ (advance p n) = len_ p - n.
Proof. unfold len_, advance. intros H. rewrite length_drop. lia. Qed.

(** While detecting, a call only counts the packet and lowers the minimum. *)
Lemma strip_detecting st p :
  detected_offset st = -1 -> packet_count st + 1 < 5 ->
  etina_strip_padding st p =
    (mk (packet_count st + 1) (Z.min (count_leading_ff p) (min_ff_count st)) (-1),
     None).
Proof.
  intros Hd Hc. unfold etina_strip_padding, OFFSET_DETECTION_PACKET_COUNT.
  rewrite Hd. simpl.
  destruct (Z.leb_spec 5 (packet_count st + 1)); [lia|].
  f_equal. f_equal.
  destruct (Z.ltb_spec (count_leading_ff p) (min_ff_count st)); lia.
Qed.

(** The call that completes detection fixes the offset and already strips. *)
Lemma strip_completing st p :
  detected_offset st = -1 -> 5 <= packet_count st + 1 ->
  let off := Z.min (count_leading_ff p) (min_ff_count st) in
  etina_strip_padding st p =
    (mk (packet_count st + 1) off off,
     if len_ p <=? off then None else Some (advance p off)).
Proof.
  intros Hd Hc. unfold etina_strip_padding, OFFSET_DETECTION_PACKET_COUNT.
  rewrite Hd. simpl.
  destruct (Z.leb_spec 5 (packet_count st + 1)); [|lia].
  assert ((if count_leading_ff p <? min_ff_count st then count_leading_ff p
           else min_ff_count st) = Z.min (count_leading_ff p) (min_ff_count st)) as ->.
  { destruct (Z.ltb_spec (count_leading_ff p) (min_ff_count st)); lia. }
  by destruct (len_ p <=? _).
Qed.

(** Once the offset is known the state no longer changes. *)
Lemma strip_detected st p :
  0 <= detected_offset st ->
  etina_strip_padding st p =
    (st, if len_ p <=? detected_offset st then None
         else Some (advance p (detected_offset st))).
Proof.
  intros Hd. unfold etina_strip_padding.
  destruct (Z.leb_spec 0 (detected_offset st)); [|lia].
  by destruct (len_ p <=? _).
Qed.

Lemma strip_all_detected st ps :
  0 <= detected_offset st ->
  strip_all st ps =
    (st, map (fun p => if len_ p <=? detected_offset st then None
                       else Some (advance p (detected_offset st))) ps).
Proof.
  intros Hd. induction ps as [|p ps IH]; [done|].
  simpl. rewrite strip_detected by done. by rewrite IH.
Qed.
End strip_padding.

(** C6 (amended).  Stage 1 returns nothing for the first four payloads.  The
    fifth call records as [detected_offset] the least number of leading 0xFF
    bytes among the five payloads, capped at 255, and from that call on every
    payload longer than the offset is handed on without its first
    [detected_offset] bytes, hence exactly that much shorter; a payload that
    is not longer than the offset yields no output. *)
Theorem strip_padding_detects_then_strips (p1 p2 p3 p4 p5 : bytes) (later : list bytes) :
  let least :=
    Z.min (count_leading_ff p1) (Z.min (count_leading_ff p2)
      (Z.min (count_leading_ff p3) (Z.min (count_leading_ff p4) (count_leading_ff p5)))) in
  let off := Z.min 255 least in
  strip_all EtinaOffsetState.init ([p1; p2; p3; p4; p5] ++ later) =
    (EtinaOffsetState.mk 5 off off,
     [None; None; None; None] ++ map (stripped off) (p5 :: later))
  /\ (forall p q, stripped off p = Some q ->
        q = advance p off /\ len_ q = len_ p - off).
Proof.
  intros least off.
  assert (0 <= off) as Hoff.
  { pose proof (count_leading_ff_bounds p1). pose proof (count_leading_ff_bounds p2).
    pose proof (count_leading_ff_bounds p3). pose proof (count_leading_ff_bounds p4).
    pose proof (count_leading_ff_bounds p5). lia. }
  split.
  - cbn [app strip_all].
    rewrite strip_detecting by (simpl; lia). cbn [strip_all].
    rewrite strip_detecting by (simpl; lia). cbn [strip_all].
    rewrite strip_detecting by (simpl; lia). cbn [strip_all].
    rewrite strip_detecting by (simpl; lia). cbn [strip_all].
    rewrite strip_completing by (simpl; lia).
    cbn [EtinaOffsetState.packet_count EtinaOffsetState.min_ff_count].
    set (off' := Z.min _ _).
    assert (off' = off) as -> by (subst off' off least; simpl; lia).
    rewrite strip_all_detected by (simpl; lia).
    cbn [EtinaOffsetState.detected_offset map]. reflexivity.
  - intros p q. unfold stripped.
    destruct (Z.leb_spec (len_ p) off); [done|].
    intros [= <-]. split; [done|]. apply len_advance. lia.
Qed.

(** C6, as stated, fails in two ways.  Five payloads of 256 bytes 0xFF each
    have 256 leading 0xFF bytes, yet the offset recorded is 255.  And with
    offset 2 detected, a later payload of two bytes produces no output where
    stripping two bytes would leave the empty payload. *)
Lemma strip_padding_counterexample :
  (let payloads := replicate 5 (replicate 256 0xFF) in
   Forall (fun p => count_leading_ff p = 256) payloads /\
   EtinaOffsetState.detected_offset (fst (strip_all EtinaOffsetState.init payloads)) = 255)
  /\
  (let st := fst (strip_all EtinaOffsetState.init (replicate 5 [0xFF; 0xFF; 1])) in
   EtinaOffsetState.detected_offset st = 2 /\
   snd (etina_strip_padding st [0xFF; 0xFF]) = None).
Proof.
  split.
  - split; [|by vm_compute].
    repeat constructor.
  - by vm_compute.
Qed.

(** ** GSE fragment reassembly *)

Section gse.
Import GseParser.

Lemma slots_ok_init : slots_ok GseParser.init.
Proof.
  intros frag_id. unfold frag, GseParser.init. cbn [fragments_].
  destruct (replicate _ _ !! _) as [f|] eqn:E; cbn [default].
  - apply lookup_replicate_1 in E as [-> _]. by intros ?.
  - by intros ?.
Qed.

Lemma slots_ok_set_frag st frag_id f :
  slots_ok st -> slot_ok f -> slots_ok (set_frag st frag_id f).
Proof.
  intros Hst Hf j. unfold frag, set_frag. simpl.
  destruct (decide (Z.to_nat frag_id = Z.to_nat j)) as [E|E].
  - rewrite <- E.
    destruct (decide (Z.to_nat frag_id < length (fragments_ st))%nat).
    + rewrite list_lookup_insert_eq by done. done.
    + rewrite list_insert_ge by lia. specialize (Hst frag_id). done.
  - rewrite list_lookup_insert_ne by done. apply Hst.
Qed.

Lemma slots_ok_bump_packets st : slots_ok st -> slots_ok (bump_packets st).
Proof. done. Qed.

Lemma slots_ok_bump_fragments st : slots_ok st -> slots_ok (bump_fragments st).
Proof. done. Qed.

Lemma len_memcpy_at dst pos src n :
  0 <= pos -> 0 <= n -> n <= len_ src -> pos + n <= len_ dst ->
  len_ (memcpy_at dst pos src n) = len_ dst.
Proof.
  unfold len_, memcpy_at, slice. intros.
  rewrite !length_app, !length_take, length_drop. lia.
Qed.

Lemma len_resize v n : 0 <= n -> len_ (resize v n) = n.
Proof.
  unfold len_, resize. intros.
  rewrite length_take, length_app, length_replicate. lia.
Qed.

Lemma len_insert (l : bytes) i x : len_ (<[i := x]> l) = len_ l.
Proof. unfold len_. by rewrite length_insert. Qed.

Lemma u16_nonneg x : 0 <= u16 x < 65536.
Proof. unfold u16. apply Z.mod_pos_bound. lia. Qed.

Lemma append_fragment_ok old src n :
  slot_ok old -> GseFragment.active old = true -> 0 <= n -> n <= len_ src ->
  slot_ok (append_fragment old src n)
  /\ GseFragment.active (append_fragment old src n) = true.
Proof.
  intros Hok Hact Hn Hsrc. destruct (Hok Hact) as [Hpos Hlen].
  unfold append_fragment.
  destruct (Z.leb_spec (GseFragment.current_pos old + n) (len_ (GseFragment.data old))).
  - split; [|done]. intros _. simpl. rewrite len_memcpy_at by lia. lia.
  - done.
Qed.

Lemma processGsePacket_slots_ok st p :
  slots_ok st -> slots_ok (processGsePacket st p (len_ p)).1.1.
Proof.
  intros Hst. unfold processGsePacket.
  set (gse_len := u16 _).
  pose proof (u16_nonneg (((at_ p 0 .& 15) ≪ 8) .| at_ p 1)) as Hg.
  fold gse_len in Hg.
  destruct (len_ p <? 2); [done|].
  destruct (at_ p 0 .& 240 =? 0); [done|].
  destruct (Z.ltb_spec (len_ p) (gse_len + 2)); [done|].
  destruct ((at_ p 0 ≫ 7) .& 1 =? 1), ((at_ p 0 ≫ 6) .& 1 =? 1); simpl.
  - done.
  - destruct (Z.ltb_spec gse_len 7); [done|].
    destruct (_ <? _); [done|]. destruct (negb _); [done|].
    set (total_len := u16 ((at_ p 3 ≪ 8) .| at_ p 4)).
    destruct (Z.ltb_spec 2000 total_len); [done|].
    destruct (Z.ltb_spec total_len 28); [done|].
    cbn [orb fst]. apply slots_ok_bump_fragments, slots_ok_set_frag; [done|].
    rewrite !len_insert, len_resize by lia.
    destruct (Z.leb_spec (2 + (gse_len - 3)) (total_len + 2)).
    + intros _. cbn [GseFragment.active GseFragment.current_pos
                     GseFragment.total_length GseFragment.data].
      rewrite len_memcpy_at; rewrite ?len_insert, ?len_resize; try lia.
      rewrite len_advance; lia.
    + by intros ?.
  - destruct (Z.ltb_spec gse_len 5); [done|].
    destruct (GseFragment.active (frag st (at_ p 2))) eqn:Hact; [|done].
    simpl. apply slots_ok_bump_fragments, slots_ok_set_frag; [done|].
    by intros ?.
  - destruct (Z.ltb_spec gse_len 1); [done|].
    destruct (GseFragment.active (frag st (at_ p 2))) eqn:Hact; [|done].
    simpl. apply slots_ok_bump_fragments, slots_ok_set_frag; [done|].
    apply (append_fragment_ok (frag st (at_ p 2)) (advance p 3) (gse_len - 1));
      [apply Hst|done|lia|].
    rewrite len_advance; lia.
Qed.

Lemma process_packets_slots_ok packets st :
  slots_ok st -> slots_ok (process_packets st packets).1.
Proof.
  revert st. induction packets as [|p rest IH]; intros st Hst; [done|].
  simpl. pose proof (processGsePacket_slots_ok st p Hst) as H1.
  destruct (processGsePacket st p (len_ p)) as [[st1 r] out]. simpl in H1.
  specialize (IH st1 H1). by destruct (process_packets st1 rest).
Qed.
End gse.

(** C10 (amended).  In every state the parser can reach, a middle or last
    fragment for a fragment-ID whose buffer is active appends its payload at
    [current_pos] when the payload fits below [total_length] and leaves the
    buffer untouched and active otherwise, so [current_pos] stays between 2
    and [total_length]; a last fragment then passes the bytes from 2 to
    [current_pos] on for emission and switches the buffer off, without
    comparing [current_pos] with [total_length]. *)
Theorem gse_continuation_fragment (earlier : list bytes) (p : bytes) :
  let st := (GseParser.process_packets GseParser.init earlier).1 in
  let hdr := at_ p 0 in
  let gse_len := u16 (((hdr .& 0x0f) ≪ 8) .| at_ p 1) in
  let last := (hdr ≫ 6) .& 1 =? 1 in
  (hdr .& 0xf0 =? 0) = false ->
  ((hdr ≫ 7) .& 1 =? 1) = false ->
  (if last then 5 else 1) <= gse_len ->
  gse_len + 2 <= len_ p ->
  GseFragment.active (GseParser.frag st (at_ p 2)) = true ->
  continuation_outcome st p.
Proof.
  intros st hdr gse_len last Hpad Hstart Hlen Hfit Hact.
  pose proof (process_packets_slots_ok earlier _ slots_ok_init) as Hst.
  fold st in Hst.
  pose proof (u16_nonneg (((hdr .& 15) ≪ 8) .| at_ p 1)) as Hg. fold gse_len in Hg.
  assert (2 <= len_ p) as Hlen2 by (destruct last; lia).
  assert (exists old, GseParser.fragments_ st !! Z.to_nat (at_ p 2) = Some old) as [old Hold].
  { unfold GseParser.frag in Hact.
    destruct (GseParser.fragments_ st !! Z.to_nat (at_ p 2)); [eauto|done]. }
  assert (GseParser.frag st (at_ p 2) = old) as Hfrag
    by (unfold GseParser.frag; by rewrite Hold).
  assert (forall st0 f,
            GseParser.fragments_ st0 = GseParser.fragments_ st ->
            GseParser.frag
              (GseParser.bump_fragments (GseParser.set_frag st0 (at_ p 2) f)) (at_ p 2) = f)
    as Hset.
  { intros st0 f E. unfold GseParser.frag, GseParser.bump_fragments, GseParser.set_frag.
    cbn [GseParser.fragments_]. rewrite E, list_lookup_insert_eq; [done|].
    by apply lookup_lt_Some in Hold. }
  destruct (append_fragment_ok old (advance p 3) (gse_len - (if last then 5 else 1)))
    as [Hnew Hnewact].
  { rewrite <- Hfrag. apply Hst. }
  { by rewrite <- Hfrag. }
  { lia. }
  { rewrite len_advance; destruct last; lia. }
  destruct (Hnew Hnewact) as [Hpos Hdata].
  assert (GseFragment.total_length
            (append_fragment old (advance p 3) (gse_len - (if last then 5 else 1)))
          = GseFragment.total_length old) as Htl.
  { unfold append_fragment. by destruct (_ <=? _). }
  unfold continuation_outcome, GseParser.processGsePacket.
  fold hdr. fold gse_len. fold last. rewrite Hfrag in *.
  destruct (Z.ltb_spec (len_ p) 2); [lia|].
  rewrite Hpad.
  destruct (Z.ltb_spec (len_ p) (gse_len + 2)); [lia|].
  rewrite Hstart. cbn [andb negb].
  destruct last eqn:Hlast; cbn [andb negb].
  - destruct (Z.ltb_spec gse_len 5); [lia|].
    rewrite Hact. cbn [negb]. fold (append_fragment old (advance p 3) (gse_len - 5)).
    rewrite Hset by done. repeat split; try done; lia.
  - destruct (Z.ltb_spec gse_len 1); [lia|].
    rewrite Hact. cbn [negb]. fold (append_fragment old (advance p 3) (gse_len - 1)).
    rewrite Hset by done. repeat split; try done; lia.
Qed.

Lemma gse_continuation_fragment_witness :
  continuation_outcome
    (GseParser.process_packets GseParser.init [gse_first_fragment]).1
    gse_last_fragment.
Proof.
  apply (gse_continuation_fragment [gse_first_fragment] gse_last_fragment);
    vm_compute; congruence.
Defined.

(** C10, as stated, fails.  After the first fragment the buffer of slot 1
    holds 24 of its 102 bytes.  A middle fragment that does not fit leaves
    the buffer active and unchanged instead of discarding it, and the last
    fragment then emits a datagram although [current_pos] is still 24. *)
Lemma gse_emits_before_total_length :
  let st1 := (GseParser.process_packets GseParser.init [gse_first_fragment]).1 in
  let st2 := (GseParser.process_packets st1 [gse_big_middle_fragment]).1 in
  let '(st3, _, out) := GseParser.processGsePacket st2 gse_last_fragment 7 in
  GseParser.frag st2 1 = GseParser.frag st1 1
  /\ GseFragment.active (GseParser.frag st2 1) = true
  /\ GseFragment.current_pos (GseParser.frag st2 1) = 24
  /\ GseFragment.total_length (GseParser.frag st2 1) = 102
  /\ out = [[0x45; 0; 0; 20; 0; 0; 0; 0; 64; 17; 0; 0; 10; 0; 0; 1; 239; 199; 2; 1]]
  /\ GseFragment.current_pos (GseParser.frag st3 1) = 24.
Proof. by vm_compute. Qed.

(** ** Big-endian fields *)

Ltac divmod_lia := Z.div_mod_to_equations; lia.

Section big_endian.

Lemma land_shiftl_low a b n :
  0 <= n -> 0 <= a < 2 ^ n -> (b ≪ n) .& a = 0.
Proof.
  intros Hn Ha. apply Z.bits_inj'. intros i Hi.
  rewrite Z.land_spec, Z.bits_0.
  destruct (Z.lt_ge_cases i n).
  - by rewrite Z.shiftl_spec_low.
  - destruct (Z.eq_dec a 0) as [->|Hne].
    + by rewrite Z.bits_0, andb_false_r.
    + rewrite (Z.bits_above_log2 a i), andb_false_r; [done|lia|].
      apply Z.lt_le_trans with n; [|done].
      apply Z.log2_lt_pow2; lia.
Qed.

Lemma lor_shiftl_add a b n :
  0 <= n -> 0 <= a < 2 ^ n -> (b ≪ n) .| a = b * 2 ^ n + a.
Proof.
  intros Hn Ha.
  rewrite <- Z.lxor_lor, <- Z.add_nocarry_lxor by (by apply land_shiftl_low).
  by rewrite Z.shiftl_mul_pow2.
Qed.

Lemma be16 x :
  0 <= x < 65536 -> ((x / 256 mod 256) ≪ 8) .| (x mod 256) = x.
Proof.
  intros Hx.
  rewrite lor_shiftl_add by (change (2 ^ 8) with 256; divmod_lia).
  change (2 ^ 8) with 256. divmod_lia.
Qed.

Lemma be24 x :
  0 <= x < 16777216 ->
  ((x / 65536 mod 256) ≪ 16) .| ((x / 256 mod 256) ≪ 8) .| (x mod 256) = x.
Proof.
  intros Hx.
  rewrite <- Z.lor_assoc.
  rewrite (lor_shiftl_add (x mod 256) (x / 256 mod 256) 8)
    by (change (2 ^ 8) with 256; divmod_lia).
  rewrite lor_shiftl_add
    by (change (2 ^ 8) with 256; change (2 ^ 16) with 65536; divmod_lia).
  change (2 ^ 8) with 256; change (2 ^ 16) with 65536. divmod_lia.
Qed.

Lemma shiftr_small x n : 0 <= n -> 0 <= x < 2 ^ n -> x ≫ n = 0.
Proof. intros. rewrite Z.shiftr_div_pow2 by lia. apply Z.div_small. lia. Qed.
End big_endian.

(** ** PF fragment reassembly *)

Section pf_packets.

Lemma len_pf_packet pseq findex fcount payload :
  len_ (pf_packet pseq findex fcount payload) = 14 + len_ payload.
Proof. unfold len_, pf_packet. rewrite length_app. simpl length. lia. Qed.

Lemma advance_pf_packet pseq findex fcount payload :
  advance (pf_packet pseq findex fcount payload) 14 = payload.
Proof. reflexivity. Qed.

Lemma slice_all (p : bytes) : slice p (len_ p) = p.
Proof. unfold slice, len_. rewrite Nat2Z.id. apply firstn_all. Qed.

Lemma plen_field n :
  0 <= n < 16384 ->
  let w := u16 (((n / 256 mod 256) ≪ 8) .| (n mod 256)) in
  ((w ≫ 15) .& 1 =? 1) = false /\ ((w ≫ 14) .& 1 =? 1) = false /\ w .& 0x3FFF = n.
Proof.
  intros Hn w. assert (w = n) as ->.
  { unfold w, u16. rewrite be16 by lia. apply Z.mod_small. lia. }
  rewrite !shiftr_small by (try change (2 ^ 15) with 32768;
                            try change (2 ^ 14) with 16384; lia).
  repeat split.
  change 0x3FFF with (Z.ones 14). rewrite Z.land_ones by lia.
  apply Z.mod_small. change (2 ^ 14) with 16384. lia.
Qed.

Lemma parse_pf_packet pseq findex fcount payload :
  0 <= pseq < 65536 -> 0 <= findex < 16777216 -> 0 <= fcount < 16777216 ->
  len_ payload < 16384 ->
  PF_Reassembler.parse_pf_header (pf_packet pseq findex fcount payload)
    (len_ (pf_packet pseq findex fcount payload))
  = Some (PF_Header.mk pseq findex fcount false false (len_ payload)).
Proof.
  intros Hp Hi Hc Hl.
  assert (0 <= len_ payload) by (unfold len_; lia).
  destruct (plen_field (len_ payload)) as (Hfec & Haddr & Hplen); [lia|].
  unfold PF_Reassembler.parse_pf_header. rewrite len_pf_packet.
  change (at_ (pf_packet pseq findex fcount payload) 0) with 0x50.
  change (at_ (pf_packet pseq findex fcount payload) 1) with 0x46.
  change (at_ (pf_packet pseq findex fcount payload) 2) with (pseq / 256 mod 256).
  change (at_ (pf_packet pseq findex fcount payload) 3) with (pseq mod 256).
  change (at_ (pf_packet pseq findex fcount payload) 4) with (findex / 65536 mod 256).
  change (at_ (pf_packet pseq findex fcount payload) 5) with (findex / 256 mod 256).
  change (at_ (pf_packet pseq findex fcount payload) 6) with (findex mod 256).
  change (at_ (pf_packet pseq findex fcount payload) 7) with (fcount / 65536 mod 256).
  change (at_ (pf_packet pseq findex fcount payload) 8) with (fcount / 256 mod 256).
  change (at_ (pf_packet pseq findex fcount payload) 9) with (fcount mod 256).
  change (at_ (pf_packet pseq findex fcount payload) 10)
    with (len_ payload / 256 mod 256).
  change (at_ (pf_packet pseq findex fcount payload) 11) with (len_ payload mod 256).
  cbv zeta. rewrite Hfec, Haddr, Hplen, be16, !be24 by lia.
  destruct (Z.ltb_spec (14 + len_ payload) 14); [lia|].
  change (negb (0x50 =? 0x50)) with false. change (negb (0x46 =? 0x46)) with false.
  cbn [orb].
  destruct (Z.ltb_spec (14 + len_ payload - 14) (len_ payload)); [lia|].
  unfold u16, u32. rewrite !Z.mod_small by lia. done.
Qed.
End pf_packets.

Section fragment_maps.

(** A map whose keys lie in [0, n) has at most [n] entries, and with [n]
    entries it has them all. *)
Lemma keys_below_size {V} (m : gmap Z V) (n : nat) :
  (forall k, is_Some (m !! k) -> 0 <= k < Z.of_nat n) -> (size m <= n)%nat.
Proof.
  intros Hk. rewrite <- size_dom.
  transitivity (size (list_to_set (C := gset Z) (seqZ 0 (Z.of_nat n)))).
  - apply subseteq_size. intros k Hin. apply elem_of_dom in Hin.
    apply elem_of_list_to_set, elem_of_seqZ. specialize (Hk k Hin). lia.
  - rewrite size_list_to_set by apply NoDup_seqZ. rewrite length_seqZ. lia.
Qed.

Lemma keys_below_full {V} (m : gmap Z V) (n : nat) :
  (forall k, is_Some (m !! k) -> 0 <= k < Z.of_nat n) -> size m = n ->
  forall k, 0 <= k < Z.of_nat n -> is_Some (m !! k).
Proof.
  intros Hk Hsz k Hin. apply elem_of_dom.
  assert (dom m = list_to_set (C := gset Z) (seqZ 0 (Z.of_nat n))) as ->.
  { apply set_subseteq_size_eq.
    - intros j Hj. apply elem_of_dom in Hj.
      apply elem_of_list_to_set, elem_of_seqZ. specialize (Hk j Hj). lia.
    - rewrite size_list_to_set by apply NoDup_seqZ.
      rewrite length_seqZ, size_dom. lia. }
  apply elem_of_list_to_set, elem_of_seqZ. lia.
Qed.

(** Walking the indices of a complete fragment map in order yields the
    concatenation of the payloads, with either treatment of gaps. *)
Lemma gather_all gaps (frags : gmap Z bytes) (l : list bytes) from acc :
  (forall j x, l !! j = Some x -> frags !! (from + Z.of_nat j) = Some x) ->
  gather gaps frags from (length l) acc = (acc ++ concat l, true).
Proof.
  revert from acc. induction l as [|x l IH]; intros from acc Hl.
  - simpl. by rewrite app_nil_r.
  - pose proof (Hl 0%nat x eq_refl) as H0.
    rewrite Z.add_0_r in H0. cbn [length gather]. rewrite H0.
    rewrite IH; [by rewrite <- app_assoc|].
    intros j y Hj. replace (from + 1 + Z.of_nat j) with (from + Z.of_nat (S j)) by lia.
    by apply Hl.
Qed.

Lemma gather_complete gaps (frags : gmap Z bytes) (payloads : list bytes) :
  frags ⊆ map_seqZ 0 payloads -> size frags = length payloads ->
  gather gaps frags 0 (length payloads) [] = (concat payloads, true).
Proof.
  intros Hsub Hsz. rewrite gather_all; [done|].
  intros j x Hj. rewrite Z.add_0_l.
  assert (is_Some (frags !! Z.of_nat j)) as [y Hy].
  { apply (keys_below_full frags (length payloads)); [|done|].
    - intros k [z Hz]. eapply lookup_weaken in Hz; [|done].
      apply mk_is_Some, lookup_map_seqZ_is_Some in Hz. lia.
    - apply lookup_lt_Some in Hj. lia. }
  rewrite Hy. f_equal.
  eapply lookup_weaken in Hy; [|done].
  rewrite lookup_map_seqZ_0, Nat2Z.id in Hy by lia. congruence.
Qed.

(** Storing fragment [i] keeps a fragment map inside the payload map. *)
Lemma insert_fragment_subseteq (frags : gmap Z bytes) payloads (i : nat) payload :
  frags ⊆ map_seqZ 0 payloads -> payloads !! i = Some payload ->
  <[Z.of_nat i := payload]> frags ⊆ map_seqZ 0 payloads.
Proof.
  intros Hsub Hi. apply insert_subseteq_l; [|done].
  rewrite lookup_map_seqZ_0, Nat2Z.id by lia. done.
Qed.
End fragment_maps.

(** The induction behind both reassemblers: a stage that is either idle or
    collecting a set of indices smaller than [n], and whose every step
    returns nothing or [target]. *)
Section reassembly_by_steps.
Context {S : Type}.
Variable step : S -> bytes -> S * option bytes.
Variable idle : S -> Prop.
Variable collecting : S -> gset Z -> Prop.
Variable fragment : nat -> bytes.
Variable n : nat.
Variable target : bytes.
Variable delivered : option bytes -> Prop.

Hypothesis Hn : (1 <= n)%nat.
Hypothesis delivered_target : forall out,
  delivered out -> out = None \/ out = Some target.
Hypothesis collecting_size : forall st seen, collecting st seen -> (size seen < n)%nat.
Hypothesis step_idle : forall st i,
  idle st -> (i < n)%nat ->
  let '(st', out) := step st (fragment i) in
  (delivered out /\ idle st')
  \/ (out = None /\ collecting st' {[Z.of_nat i]}).
Hypothesis step_collecting : forall st seen i,
  collecting st seen -> (i < n)%nat ->
  let '(st', out) := step st (fragment i) in
  (Z.of_nat i ∈ seen /\ out = None /\ collecting st' seen)
  \/ ((Z.of_nat i ∉ seen) /\ out = None /\ collecting st' ({[Z.of_nat i]} ∪ seen))
  \/ ((Z.of_nat i ∉ seen) /\ delivered out /\ idle st').

Lemma feed_each_reassembles (order : list nat) st seen :
  (seen = ∅ /\ idle st) \/ collecting st seen ->
  Forall (fun i => i < n)%nat order ->
  let outs := (feed_each step st (map fragment order)).2 in
  Forall (fun af => af = target) outs
  /\ ((forall out, delivered out -> out = Some target) ->
      (forall i, (i < n)%nat -> Z.of_nat i ∈ seen \/ i ∈ order) -> outs <> []).
Proof.
  revert st seen. induction order as [|i order IH]; intros st seen Hst Hord.
  - simpl. split; [constructor|]. intros _ Hall. exfalso.
    destruct Hst as [[-> _] | Hsz%collecting_size].
    + destruct (Hall 0%nat) as [H|H]; [lia|set_solver|by inversion H].
    + assert (size (list_to_set (C := gset Z) (seqZ 0 (Z.of_nat n))) <= size seen)%nat.
      { apply subseteq_size. intros k Hk.
        apply elem_of_list_to_set, elem_of_seqZ in Hk.
        destruct (Hall (Z.to_nat k)) as [H|H]; [lia| |by inversion H].
        by rewrite Z2Nat.id in H by lia. }
      rewrite size_list_to_set, length_seqZ in H by apply NoDup_seqZ. lia.
  - inversion Hord as [|? ? Hi Hord']; subst.
    cbn [map feed_each].
    assert (forall st' out seen',
              step st (fragment i) = (st', out) ->
              (out = None \/ out = Some target) ->
              (seen' = ∅ /\ idle st') \/ collecting st' seen' ->
              ((forall out, delivered out -> out = Some target) -> out = None ->
               forall j, Z.of_nat j ∈ seen \/ j = i -> Z.of_nat j ∈ seen') ->
              let outs :=
                (let '(st1, out) := step st (fragment i) in
                 let '(st2, outs) := feed_each step st1 (map fragment order) in
                 (st2, option_list out ++ outs)).2 in
              Forall (fun af => af = target) outs
              /\ ((forall out, delivered out -> out = Some target) ->
                  (forall j, (j < n)%nat -> Z.of_nat j ∈ seen \/ j ∈ i :: order) ->
                  outs <> [])) as Hstep.
    { intros st' out seen' Hfeed Hout Hst' Hseen. rewrite Hfeed.
      destruct (IH st' seen' Hst' Hord') as [IH1 IH2].
      destruct (feed_each step st' (map fragment order)) as [st2 outs].
      cbn [snd] in *. split.
      - destruct Hout as [-> | ->]; cbn [option_list app]; [done|by constructor].
      - intros Hstrong Hall. destruct Hout as [-> | ->]; cbn [option_list app]; [|done].
        apply IH2; [done|]. intros j Hj. destruct (Hall j Hj) as [H|H].
        + left. apply Hseen; [done|done|by left].
        + apply elem_of_cons in H as [->|H]; [|by right].
          left. apply Hseen; [done|done|by right]. }
    destruct Hst as [[-> Hidle] | Hcoll].
    + pose proof (step_idle st i Hidle Hi) as Hf.
      destruct (step st (fragment i)) as [st' out] eqn:Hfeed.
      destruct Hf as [(Hdel & Hidle') | (-> & Hcoll')].
      * apply (Hstep st' _ ∅ eq_refl); [by apply delivered_target|by left|].
        intros Hstrong Hnone. by rewrite (Hstrong _ Hdel) in Hnone.
      * apply (Hstep st' _ {[Z.of_nat i]} eq_refl); [by left|by right|].
        intros _ _ j [H| ->]; [by apply not_elem_of_empty in H|by apply elem_of_singleton].
    + pose proof (step_collecting st seen i Hcoll Hi) as Hf.
      destruct (step st (fragment i)) as [st' out] eqn:Hfeed.
      destruct Hf as [(Hin & -> & Hc') | [(Hnin & -> & Hc') | (Hnin & Hdel & Hidle')]].
      * apply (Hstep st' _ seen eq_refl); [by left|by right|].
        intros _ _ j [H| ->]; done.
      * apply (Hstep st' _ ({[Z.of_nat i]} ∪ seen) eq_refl); [by left|by right|].
        intros _ _ j [H| ->]; apply elem_of_union; [by right|left].
        by apply elem_of_singleton.
      * apply (Hstep st' _ ∅ eq_refl); [by apply delivered_target|by left|].
        intros Hstrong Hnone. by rewrite (Hstrong _ Hdel) in Hnone.
Qed.
End reassembly_by_steps.

Section pf_reassembler.
Import PF_Reassembler.

Lemma cleanup_walk_lookup keys (m : gmap Z PF_Collector.t) k :
  cleanup_walk keys m !! k = None \/ cleanup_walk keys m !! k = m !! k.
Proof.
  revert m. induction keys as [|k' keys IH]; intros m; simpl; [by right|].
  destruct (8 <? size m)%nat; [|by right].
  destruct (m !! k') as [c|] eqn:Hk'; [|apply IH].
  destruct (PF_Collector.processed c); [|apply IH].
  destruct (IH (delete k' m)) as [H|H]; [by left|].
  rewrite H. destruct (decide (k' = k)) as [->|Hne].
  - left. apply lookup_delete_eq.
  - right. by apply lookup_delete_ne.
Qed.

Lemma cleanup_lookup (m : gmap Z PF_Collector.t) k :
  cleanup_old_collectors m !! k = None \/ cleanup_old_collectors m !! k = m !! k.
Proof.
  unfold cleanup_old_collectors. destruct (16 <? size m)%nat; [|by right].
  apply cleanup_walk_lookup.
Qed.

Lemma cleanup_keys (m : gmap Z PF_Collector.t) k :
  is_Some (cleanup_old_collectors m !! k) -> is_Some (m !! k).
Proof.
  intros [c Hc]. destruct (cleanup_lookup m k) as [H|H]; [congruence|].
  rewrite <- H. eauto.
Qed.

Variable pseq : Z.
Variable payloads : list bytes.
Hypothesis Hpseq : 0 <= pseq < 65536.
Hypothesis Hcount : 1 <= Z.of_nat (length payloads) < 16777216.
Hypothesis Hplen : Forall (fun p => len_ p < 16384) payloads.

Let n := length payloads.

(** What [add_fragment] is handed for fragment [i]. *)
Lemma feed_fragment_unfold st (i : nat) payload :
  payloads !! i = Some payload ->
  feed_packet st (pf_fragment pseq payloads i) =
    add_fragment st
      (PF_Header.mk pseq (Z.of_nat i) (Z.of_nat n) false false (len_ payload))
      (pf_packet pseq (Z.of_nat i) (Z.of_nat n) payload) (14 + len_ payload).
Proof.
  intros Hi. unfold feed_packet, pf_fragment. rewrite Hi. cbn [default].
  pose proof (lookup_lt_Some _ _ _ Hi).
  rewrite parse_pf_packet; [by rewrite len_pf_packet|lia|lia|subst n; lia|].
  by eapply (Forall_lookup_1 _ _ _ _ Hplen).
Qed.

Lemma feed_fragment_idle st (i : nat) :
  pf_idle st pseq -> (i < n)%nat ->
  let '(st', out) := feed_packet st (pf_fragment pseq payloads i) in
  (n = 1%nat /\ out = refill (af_buffer_ st) (concat payloads) /\ pf_idle st' pseq)
  \/ ((1 < n)%nat /\ out = None /\ pf_collecting st' pseq payloads {[Z.of_nat i]}).
Proof.
  intros Hidle Hi.
  destruct (lookup_lt_is_Some_2 payloads i Hi) as [payload Hp].
  rewrite (feed_fragment_unfold st i payload Hp).
  unfold add_fragment. cbn [PF_Header.fec PF_Header.addr PF_Header.plen
                             PF_Header.pseq PF_Header.fcount PF_Header.findex].
  change (12 + 0 + 0 + 2) with 14.
  destruct (Z.ltb_spec (14 + len_ payload) (14 + len_ payload)); [lia|].
  set (c0 := default PF_Collector.init (collectors_ st !! pseq)).
  assert ((PF_Collector.fcount c0 =? 0) || PF_Collector.processed c0 = true) as ->.
  { unfold pf_idle in Hidle. subst c0.
    destruct (collectors_ st !! pseq) as [c|]; [|done]. cbn [default]. unfold id.
    destruct Hidle as [H0 | H0]; rewrite H0; [done|]. apply orb_true_r. }
  cbn [PF_Collector.fcount PF_Collector.fragments PF_Collector.pseq
       PF_Collector.fragments_collected PF_Collector.processed].
  destruct (Z.leb_spec (Z.of_nat n) (Z.of_nat i)); [lia|].
  rewrite lookup_empty.
  rewrite bool_decide_eq_false_2 by (intros [? ?]; done).
  rewrite advance_pf_packet, slice_all.
  change (u32 (0 + 1)) with 1.
  destruct (Z.ltb_spec 1 (Z.of_nat n)) as [Hlt|Hge].
  - right. split; [lia|]. split; [done|].
    eexists. split; [apply lookup_insert_eq|].
    cbn [PF_Collector.fcount PF_Collector.fragments PF_Collector.pseq
         PF_Collector.fragments_collected PF_Collector.processed].
    rewrite size_singleton. repeat split; try done; try lia.
    + by rewrite insert_empty, dom_singleton_L.
    + apply insert_fragment_subseteq; [apply map_empty_subseteq|done].
  - assert (n = 1%nat) as Hn1 by lia.
    assert (i = 0%nat) as -> by lia.
    rewrite Nat2Z.id. unfold n at 1.
    rewrite (gather_complete true _ payloads).
    + left. split; [done|]. split; [done|]. unfold pf_idle. cbn [collectors_].
      match goal with
      | |- context [cleanup_old_collectors ?m] =>
          destruct (cleanup_lookup m pseq) as [-> | ->]; [done|]
      end.
      rewrite lookup_insert_eq. by right.
    + apply insert_fragment_subseteq; [apply map_empty_subseteq|done].
    + rewrite insert_empty, map_size_singleton. by fold n.
Qed.

Lemma feed_fragment_collecting st seen (i : nat) :
  pf_collecting st pseq payloads seen -> (i < n)%nat ->
  let '(st', out) := feed_packet st (pf_fragment pseq payloads i) in
  (Z.of_nat i ∈ seen /\ out = None /\ pf_collecting st' pseq payloads seen)
  \/ ((Z.of_nat i ∉ seen) /\ out = None
      /\ pf_collecting st' pseq payloads ({[Z.of_nat i]} ∪ seen))
  \/ ((Z.of_nat i ∉ seen) /\ out = refill (af_buffer_ st) (concat payloads)
      /\ pf_idle st' pseq).
Proof.
  intros (c & Hc & Hfc & Hproc & Hcol & Hsz & Hdom & Hsub) Hi.
  destruct (lookup_lt_is_Some_2 payloads i Hi) as [payload Hp].
  rewrite (feed_fragment_unfold st i payload Hp).
  unfold add_fragment. cbn [PF_Header.fec PF_Header.addr PF_Header.plen
                             PF_Header.pseq PF_Header.fcount PF_Header.findex].
  change (12 + 0 + 0 + 2) with 14.
  destruct (Z.ltb_spec (14 + len_ payload) (14 + len_ payload)); [lia|].
  rewrite Hc. cbn [default]. unfold id. rewrite Hproc, Hfc.
  destruct (Z.eqb_spec (Z.of_nat (length payloads)) 0); [lia|].
  cbn [orb]. rewrite Hfc.
  destruct (Z.leb_spec (Z.of_nat (length payloads)) (Z.of_nat i)); [subst n; lia|].
  assert (size (PF_Collector.fragments c) = size seen) as Hsize
    by (by rewrite <- size_dom, Hdom).
  destruct (bool_decide_reflect (is_Some (PF_Collector.fragments c !! Z.of_nat i)))
    as [Hin|Hnotin].
  - left. split; [by rewrite <- Hdom; apply elem_of_dom|]. split; [done|].
    exists c. cbn [collectors_]. rewrite lookup_insert_eq. done.
  - assert (Z.of_nat i ∉ seen) as Hfresh
      by (by rewrite <- Hdom, elem_of_dom).
    cbn [PF_Collector.fcount PF_Collector.fragments PF_Collector.pseq
         PF_Collector.fragments_collected PF_Collector.processed].
    rewrite advance_pf_packet, slice_all, Hcol.
    assert (u32 (Z.of_nat (size seen) + 1) = Z.of_nat (size seen) + 1) as ->
      by (unfold u32; apply Z.mod_small; subst n; lia).
    assert (PF_Collector.fragments c !! Z.of_nat i = None) as Hnone
      by (by apply eq_None_not_Some).
    destruct (Z.ltb_spec (Z.of_nat (size seen) + 1) (Z.of_nat (length payloads)))
      as [Hlt|Hge].
    + right. left. split; [done|]. split; [done|].
      eexists. split; [cbn [collectors_]; apply lookup_insert_eq|].
      cbn [PF_Collector.fcount PF_Collector.fragments PF_Collector.pseq
           PF_Collector.fragments_collected PF_Collector.processed].
      assert (size ({[Z.of_nat i]} ∪ seen) = S (size seen)) as Hs.
      { rewrite size_union by set_solver. by rewrite size_singleton. }
      rewrite Hs. repeat split; try done; try lia.
      * by rewrite dom_insert_L, Hdom.
      * by apply insert_fragment_subseteq.
    + rewrite Nat2Z.id, (gather_complete true _ payloads).
      * right. right. split; [done|].
        split; [done|]. unfold pf_idle. cbn [collectors_].
        match goal with
        | |- context [cleanup_old_collectors ?m] =>
            destruct (cleanup_lookup m pseq) as [-> | ->]; [done|]
        end.
        rewrite lookup_insert_eq. by right.
      * by apply insert_fragment_subseteq.
      * rewrite map_size_insert_None by done. subst n. lia.
Qed.


Lemma refill_target buf (af : bytes) :
  refill buf af = None \/ refill buf af = Some af.
Proof. destruct af, buf; [by right|by left|by right|by right]. Qed.

Lemma refill_bytes buf (af : bytes) : af <> [] -> refill buf af = Some af.
Proof. by destruct af, buf. Qed.

Lemma pf_reassembler_reassembles (order : list nat) st :
  pf_idle st pseq ->
  Forall (fun i => i < n)%nat order ->
  (forall i, (i < n)%nat -> i ∈ order) ->
  let outs := (feed_all st (map (pf_fragment pseq payloads) order)).2 in
  (concat payloads <> [] -> outs <> [])
  /\ Forall (fun af => af = concat payloads) outs.
Proof.
  intros Hidle Hord Hall.
  destruct (feed_each_reassembles feed_packet (fun st => pf_idle st pseq)
              (fun st seen => pf_collecting st pseq payloads seen)
              (pf_fragment pseq payloads) n (concat payloads)
              (fun out => exists buf, out = refill buf (concat payloads)))
    with order st (∅ : gset Z)
    as [Hsame Hsome]; try done.
  - subst n. lia.
  - intros out [buf ->]. apply refill_target.
  - by intros st' seen (c & _ & _ & _ & _ & Hsz & _).
  - intros st' i Hi Hlt. pose proof (feed_fragment_idle st' i Hi Hlt) as Hf.
    destruct (feed_packet st' (pf_fragment pseq payloads i)) as [st2 out].
    destruct Hf as [(_ & -> & ?) | (_ & -> & ?)]; [left; eauto|by right].
  - intros st' seen i Hc Hlt.
    pose proof (feed_fragment_collecting st' seen i Hc Hlt) as Hf.
    destruct (feed_packet st' (pf_fragment pseq payloads i)) as [st2 out].
    destruct Hf as [Hf | [Hf | (? & -> & ?)]]; [by left|by right; left|].
    right. right. eauto.
  - by left.
  - split; [|done]. intros Hbytes. apply Hsome.
    + intros out [buf ->]. by apply refill_bytes.
    + intros i Hi. right. by apply Hall.
Qed.
End pf_reassembler.

Section edi_reassembler.
Import EdiParser_PF.

Lemma edi_plen_field len :
  0 <= len < 16384 ->
  let d10 := len / 256 mod 256 in
  (d10 ≫ 7) .& 1 = 0 /\ (d10 ≫ 6) .& 1 = 0
  /\ u16 (((d10 .& 0x3F) ≪ 8) .| (len mod 256)) = len.
Proof.
  intros Hlen d10.
  assert (0 <= d10 < 64) as Hd by (subst d10; divmod_lia).
  rewrite !shiftr_small by (try change (2 ^ 7) with 128; try change (2 ^ 6) with 64; lia).
  repeat split.
  change 0x3F with (Z.ones 6). rewrite Z.land_ones by lia.
  change (2 ^ 6) with 64. rewrite (Z.mod_small d10) by lia.
  subst d10. rewrite be16 by lia. unfold u16. apply Z.mod_small. lia.
Qed.

Variable pseq : Z.
Variable payloads : list bytes.
Hypothesis Hpseq : 0 <= pseq < 65536.
Hypothesis Hcount : 1 <= Z.of_nat (length payloads) <= 256.
Hypothesis Hplen : Forall (fun p => len_ p < 16384) payloads.

Let n := length payloads.

Lemma edi_feed_unfold m (i : nat) payload :
  payloads !! i = Some payload ->
  feed m (pf_fragment pseq payloads i) =
    let c0 := default PfCollector.init (m !! pseq) in
    let c :=
      if negb (PfCollector.pseq c0 =? pseq)
         || negb (PfCollector.fcount c0 =? Z.of_nat n)
      then PfCollector.mk pseq (Z.of_nat n) ∅ else c0 in
    let c1 :=
      match PfCollector.fragments c !! Z.of_nat i with
      | Some _ => c
      | None =>
          PfCollector.mk (PfCollector.pseq c) (PfCollector.fcount c)
            (<[Z.of_nat i := payload]> (PfCollector.fragments c))
      end in
    if Z.of_nat (size (PfCollector.fragments c1)) =? PfCollector.fcount c1 then
      (delete pseq (<[pseq := c1]> m),
       Some (gather false (PfCollector.fragments c1) 0
               (Z.to_nat (PfCollector.fcount c1)) []).1)
    else (<[pseq := c1]> m, None).
Proof.
  intros Hi. pose proof (lookup_lt_Some _ _ _ Hi) as Hlt.
  assert (len_ payload < 16384) as Hl by (by eapply (Forall_lookup_1 _ _ _ _ Hplen)).
  assert (0 <= len_ payload) by (unfold len_; lia).
  destruct (edi_plen_field (len_ payload)) as (Hfec & Haddr & Hp); [lia|].
  unfold feed, pf_fragment. rewrite Hi. cbn [default]. unfold id.
  rewrite len_pf_packet.
  set (pkt := pf_packet pseq (Z.of_nat i) (Z.of_nat (length payloads)) payload).
  change (at_ pkt 0) with 0x50. change (at_ pkt 1) with 0x46.
  change (at_ pkt 2) with (pseq / 256 mod 256).
  change (at_ pkt 3) with (pseq mod 256).
  change (at_ pkt 4) with (Z.of_nat i / 65536 mod 256).
  change (at_ pkt 5) with (Z.of_nat i / 256 mod 256).
  change (at_ pkt 6) with (Z.of_nat i mod 256).
  change (at_ pkt 7) with (Z.of_nat (length payloads) / 65536 mod 256).
  change (at_ pkt 8) with (Z.of_nat (length payloads) / 256 mod 256).
  change (at_ pkt 9) with (Z.of_nat (length payloads) mod 256).
  change (at_ pkt 10) with (len_ payload / 256 mod 256).
  change (at_ pkt 11) with (len_ payload mod 256).
  cbv zeta. rewrite Hfec, Haddr, Hp, be16, !be24 by lia.
  change (0 =? 0) with true. cbv iota. change (14 + 0 + 0) with 14.
  change (advance pkt 14) with payload. rewrite slice_all.
  unfold u16, u32. rewrite !Z.mod_small by lia.
  destruct (Z.ltb_spec (14 + len_ payload) 14); [lia|].
  change (negb (0x50 =? 0x50)) with false. change (negb (0x46 =? 0x46)) with false.
  cbn [orb].
  destruct (Z.eqb_spec (Z.of_nat (length payloads)) 0); [lia|].
  destruct (Z.ltb_spec 256 (Z.of_nat (length payloads))); [lia|].
  destruct (Z.leb_spec (Z.of_nat (length payloads)) (Z.of_nat i)); [lia|].
  destruct (Z.ltb_spec (14 + len_ payload) (14 + len_ payload)); [lia|].
  cbn [orb]. reflexivity.
Qed.

Lemma edi_feed_idle m (i : nat) :
  edi_idle m pseq -> (i < n)%nat ->
  let '(m', out) := feed m (pf_fragment pseq payloads i) in
  (out = Some (concat payloads) /\ edi_idle m' pseq)
  \/ (out = None /\ edi_collecting m' pseq payloads {[Z.of_nat i]}).
Proof.
  intros Hidle Hi. unfold edi_idle in Hidle.
  destruct (lookup_lt_is_Some_2 payloads i Hi) as [payload Hp].
  rewrite (edi_feed_unfold m i payload Hp). rewrite Hidle. cbn [default]. unfold id.
  cbn [PfCollector.init PfCollector.pseq PfCollector.fcount].
  assert (negb (0 =? pseq) || negb (0 =? Z.of_nat n) = true) as ->.
  { destruct (Z.eqb_spec 0 (Z.of_nat n)); [subst n; lia|]. apply orb_true_r. }
  cbv zeta. cbn [PfCollector.fragments]. rewrite lookup_empty.
  cbn [PfCollector.pseq PfCollector.fcount PfCollector.fragments].
  rewrite insert_empty, map_size_singleton.
  destruct (Z.eqb_spec (Z.of_nat 1) (Z.of_nat n)) as [E|E]; cbv beta iota.
  - assert (i = 0%nat) as -> by lia.
    rewrite Nat2Z.id. unfold n at 1.
    rewrite (gather_complete false _ payloads).
    + left. split; [done|]. unfold edi_idle. apply lookup_delete_eq.
    + rewrite <- insert_empty.
      apply insert_fragment_subseteq; [apply map_empty_subseteq|done].
    + rewrite map_size_singleton. subst n. lia.
  - right. split; [done|]. eexists. split; [apply lookup_insert_eq|].
    cbn [PfCollector.pseq PfCollector.fcount PfCollector.fragments].
    rewrite size_singleton. repeat split; try done; try (subst n; lia).
    + by rewrite dom_singleton_L.
    + rewrite <- insert_empty.
      apply insert_fragment_subseteq; [apply map_empty_subseteq|done].
Qed.

Lemma edi_feed_collecting m seen (i : nat) :
  edi_collecting m pseq payloads seen -> (i < n)%nat ->
  let '(m', out) := feed m (pf_fragment pseq payloads i) in
  (Z.of_nat i ∈ seen /\ out = None /\ edi_collecting m' pseq payloads seen)
  \/ ((Z.of_nat i ∉ seen) /\ out = None
      /\ edi_collecting m' pseq payloads ({[Z.of_nat i]} ∪ seen))
  \/ ((Z.of_nat i ∉ seen) /\ out = Some (concat payloads) /\ edi_idle m' pseq).
Proof.
  intros (c & Hc & Hps & Hfc & Hsz & Hdom & Hsub) Hi.
  destruct (lookup_lt_is_Some_2 payloads i Hi) as [payload Hp].
  rewrite (edi_feed_unfold m i payload Hp). rewrite Hc. cbn [default]. unfold id.
  rewrite Hps, Hfc, !Z.eqb_refl. cbn [negb orb]. cbv zeta.
  assert (size (PfCollector.fragments c) = size seen) as Hsize
    by (by rewrite <- size_dom, Hdom).
  destruct (PfCollector.fragments c !! Z.of_nat i) as [x|] eqn:Hlook.
  - rewrite Hfc, Hsize.
    destruct (Z.eqb_spec (Z.of_nat (size seen)) (Z.of_nat (length payloads))); [lia|].
    cbv beta iota. left. split; [rewrite <- Hdom; apply elem_of_dom; eauto|]. split; [done|].
    exists c. rewrite lookup_insert_eq. done.
  - assert (Z.of_nat i ∉ seen) as Hfresh.
    { rewrite <- Hdom, elem_of_dom, Hlook. by intros [? ?]. }
    cbn [PfCollector.pseq PfCollector.fcount PfCollector.fragments].
    rewrite Hfc, map_size_insert_None, Hsize by done.
    destruct (Z.eqb_spec (Z.of_nat (S (size seen))) (Z.of_nat (length payloads)))
      as [E|E]; cbv beta iota.
    + rewrite Nat2Z.id.
      rewrite (gather_complete false _ payloads).
      * right. right. split; [done|]. split; [done|]. apply lookup_delete_eq.
      * by apply insert_fragment_subseteq.
      * rewrite map_size_insert_None by done. subst n. lia.
    + right. left. split; [done|]. split; [done|].
      eexists. split; [apply lookup_insert_eq|].
      cbn [PfCollector.pseq PfCollector.fcount PfCollector.fragments].
      assert (size ({[Z.of_nat i]} ∪ seen) = S (size seen)) as Hs.
      { rewrite size_union by set_solver. by rewrite size_singleton. }
      rewrite Hs. repeat split; try done; try (subst n; lia).
      * by rewrite dom_insert_L, Hdom.
      * by apply insert_fragment_subseteq.
Qed.

Lemma edi_parser_reassembles (order : list nat) m :
  edi_idle m pseq ->
  Forall (fun i => i < n)%nat order ->
  (forall i, (i < n)%nat -> i ∈ order) ->
  let outs := (feed_all m (map (pf_fragment pseq payloads) order)).2 in
  outs <> [] /\ Forall (fun af => af = concat payloads) outs.
Proof.
  intros Hidle Hord Hall.
  destruct (feed_each_reassembles feed (fun m => edi_idle m pseq)
              (fun m seen => edi_collecting m pseq payloads seen)
              (pf_fragment pseq payloads) n (concat payloads)
              (fun out => out = Some (concat payloads))) with order m (∅ : gset Z)
    as [Hsame Hsome]; try done.
  - subst n. lia.
  - intros out ->. by right.
  - by intros m' seen (c & _ & _ & _ & Hsz & _).
  - intros m' i Hi Hlt. apply (edi_feed_idle m' i Hi Hlt).
  - intros m' seen i Hc Hlt. apply (edi_feed_collecting m' seen i Hc Hlt).
  - by left.
  - split; [|done]. apply Hsome; [done|]. intros i Hi. right. by apply Hall.
Qed.
End edi_reassembler.

(** C2 (amended).  Take any Pseq, any cut of an AF packet into fragments of
    fewer than 16384 bytes each (the width of the length field), and any
    order of arrival that brings every index at least once, repeats allowed.
    Every AF packet that [PF_Reassembler] (for up to 2^24 - 1 fragments, the
    width of the count field) or [EdiParser::feed] (for up to 256 fragments,
    above which it drops the packets) then delivers is the payloads
    concatenated in index order.  [EdiParser::feed] delivers at least one,
    and so does [PF_Reassembler] when the AF packet has at least one byte. *)
Theorem pf_reassembly_any_order (pseq : Z) (payloads : list bytes) (order : list nat) :
  0 <= pseq < 65536 ->
  Forall (fun p => len_ p < 16384) payloads ->
  Forall (fun i => (i < length payloads)%nat) order ->
  (forall i, (i < length payloads)%nat -> i ∈ order) ->
  let packets := map (pf_fragment pseq payloads) order in
  (1 <= Z.of_nat (length payloads) < 16777216 ->
   forall st, pf_idle st pseq ->
     let afs := (PF_Reassembler.feed_all st packets).2 in
     (concat payloads <> [] -> afs <> [])
     /\ Forall (fun af => af = concat payloads) afs)
  /\
  (1 <= Z.of_nat (length payloads) <= 256 ->
   forall m, edi_idle m pseq ->
     let afs := (EdiParser_PF.feed_all m packets).2 in
     afs <> [] /\ Forall (fun af => af = concat payloads) afs).
Proof.
  intros Hpseq Hlen Hord Hall packets. split.
  - intros Hcount st Hidle.
    by apply (pf_reassembler_reassembles pseq payloads Hpseq Hcount Hlen order st).
  - intros Hcount m Hidle.
    by apply (edi_parser_reassembles pseq payloads Hpseq Hcount Hlen order m).
Qed.

Lemma pf_reassembly_any_order_witness :
  let payloads := [[1; 2]; [3]; [4; 5; 6]] in
  let packets := map (pf_fragment 7 payloads) [2; 0; 2; 1; 0]%nat in
  (let afs := (PF_Reassembler.feed_all PF_Reassembler.reset packets).2 in
   afs <> [] /\ Forall (fun af => af = [1; 2; 3; 4; 5; 6]) afs)
  /\
  (let afs := (EdiParser_PF.feed_all ∅ packets).2 in
   afs <> [] /\ Forall (fun af => af = [1; 2; 3; 4; 5; 6]) afs).
Proof.
  assert (forall i, (i < 3)%nat -> i ∈ [2; 0; 2; 1; 0]%nat) as Hall.
  { intros i Hi. destruct i as [|[|[|i]]]; [| | |lia];
      repeat (first [apply list_elem_of_here | apply list_elem_of_further]). }
  destruct (pf_reassembly_any_order 7 [[1; 2]; [3]; [4; 5; 6]] [2; 0; 2; 1; 0]%nat)
    as [Hpf Hedi].
  - lia.
  - repeat constructor.
  - repeat constructor.
  - exact Hall.
  - split.
    + destruct (Hpf ltac:(simpl; lia) PF_Reassembler.reset I) as [Hsome Hsame].
      split; [by apply Hsome|exact Hsame].
    + apply Hedi; [simpl; lia|]. reflexivity.
Defined.

(** C2, as stated, fails in three ways.  Of an AF packet cut into 257
    one-byte fragments, fed in index order, nothing comes out of
    [EdiParser::feed], while [PF_Reassembler] delivers it.  Of an AF packet
    without bytes, a [PF_Reassembler] that has assembled nothing yet returns
    a null pointer, so nothing comes out, while [EdiParser::feed] hands the
    empty packet on.  And a fragment that arrives again after its AF packet
    is complete is not absorbed: it opens a new collection, so the fragments
    of a two-fragment packet sent twice deliver the packet twice. *)
Lemma pf_reassembly_not_as_stated :
  (let payloads := replicate 257 [1] in
   let packets := map (pf_fragment 7 payloads) (seq 0 257) in
   (EdiParser_PF.feed_all ∅ packets).2 = []
   /\ (PF_Reassembler.feed_all PF_Reassembler.reset packets).2 = [concat payloads])
  /\
  (let packets := map (pf_fragment 7 [[]]) [0%nat] in
   (PF_Reassembler.feed_all PF_Reassembler.reset packets).2 = []
   /\ (EdiParser_PF.feed_all ∅ packets).2 = [[]])
  /\
  (let packets := map (pf_fragment 7 [[1]; [2]]) [0; 1; 0; 1]%nat in
   (PF_Reassembler.feed_all PF_Reassembler.reset packets).2 = [[1; 2]; [1; 2]]
   /\ (EdiParser_PF.feed_all ∅ packets).2 = [[1; 2]; [1; 2]]).
Proof. repeat split; by vm_compute. Qed.

(** ** The number of PF collectors *)

Section collector_count.

Lemma pseq_keys_insert {V} (m : gmap Z V) k v :
  0 <= k < 65536 -> pseq_keys m -> pseq_keys (<[k := v]> m).
Proof.
  intros Hk Hm j Hj. destruct (decide (k = j)) as [<-|Hne]; [done|].
  rewrite lookup_insert_ne in Hj by done. by apply Hm.
Qed.

Lemma pseq_keys_delete {V} (m : gmap Z V) k :
  pseq_keys m -> pseq_keys (delete k m).
Proof.
  intros Hm j Hj. apply Hm. destruct (decide (k = j)) as [<-|Hne].
  - rewrite lookup_delete_eq in Hj. by destruct Hj.
  - by rewrite lookup_delete_ne in Hj.
Qed.

Lemma pseq_keys_cleanup (m : gmap Z PF_Collector.t) :
  pseq_keys m -> pseq_keys (PF_Reassembler.cleanup_old_collectors m).
Proof. intros Hm j Hj. by apply Hm, cleanup_keys. Qed.

Lemma add_fragment_pseq_keys st hdr pkt len :
  0 <= PF_Header.pseq hdr < 65536 ->
  pseq_keys (PF_Reassembler.collectors_ st) ->
  pseq_keys (PF_Reassembler.collectors_ (PF_Reassembler.add_fragment st hdr pkt len).1).
Proof.
  intros Hk Hm. unfold PF_Reassembler.add_fragment.
  repeat (case_match; try done); cbn [fst PF_Reassembler.collectors_];
    try apply pseq_keys_cleanup; by apply pseq_keys_insert.
Qed.

Lemma parse_pf_header_pseq pkt len hdr :
  PF_Reassembler.parse_pf_header pkt len = Some hdr ->
  0 <= PF_Header.pseq hdr < 65536.
Proof.
  unfold PF_Reassembler.parse_pf_header.
  destruct (_ || _); [done|]. cbv zeta. destruct (_ <? _); [done|].
  intros H. apply (f_equal (fmap PF_Header.pseq)) in H. cbn in H.
  injection H as <-. apply u16_nonneg.
Qed.

Lemma feed_packet_pseq_keys st pkt :
  pseq_keys (PF_Reassembler.collectors_ st) ->
  pseq_keys (PF_Reassembler.collectors_ (PF_Reassembler.feed_packet st pkt).1).
Proof.
  intros Hm. unfold PF_Reassembler.feed_packet.
  destruct (PF_Reassembler.parse_pf_header pkt (len_ pkt)) as [hdr|] eqn:Hparse; [|done].
  apply add_fragment_pseq_keys; [|done]. by eapply parse_pf_header_pseq.
Qed.

Lemma edi_feed_pseq_keys m pkt :
  pseq_keys m -> pseq_keys (EdiParser_PF.feed m pkt).1.
Proof.
  intros Hm. unfold EdiParser_PF.feed.
  repeat (case_match; try done); cbn [fst];
    try apply pseq_keys_delete; apply pseq_keys_insert; try done; apply u16_nonneg.
Qed.

Lemma feed_each_invariant {S R} (step : S -> bytes -> S * option R) (P : S -> Prop) :
  (forall st pkt, P st -> P (step st pkt).1) ->
  forall pkts st, P st -> P (feed_each step st pkts).1.
Proof.
  intros Hstep pkts. induction pkts as [|pkt pkts IH]; intros st Hst; [done|].
  simpl. pose proof (Hstep st pkt Hst) as H1.
  destruct (step st pkt) as [st1 out]. specialize (IH st1 H1).
  by destruct (feed_each step st1 pkts).
Qed.
End collector_count.

(** C8 (amended).  Whatever PF packets are fed, the reassembler holds at
    most one collector per 16-bit Pseq value, hence never more than 65536;
    this holds for [PF_Reassembler] and for [EdiParser::feed]. *)
Theorem pf_collectors_bounded (packets : list bytes) :
  Z.of_nat (size (PF_Reassembler.collectors_
                    (PF_Reassembler.feed_all PF_Reassembler.reset packets).1)) <= 65536
  /\ Z.of_nat (size (EdiParser_PF.feed_all ∅ packets).1) <= 65536.
Proof.
  assert (forall V (m : gmap Z V), pseq_keys m -> Z.of_nat (size m) <= 65536) as Hbound.
  { intros V m Hm.
    pose proof (keys_below_size m (Z.to_nat 65536)) as H.
    rewrite Z2Nat.id in H by lia. specialize (H Hm). lia. }
  split; apply Hbound.
  - apply (feed_each_invariant PF_Reassembler.feed_packet
             (fun st => pseq_keys (PF_Reassembler.collectors_ st))).
    + apply feed_packet_pseq_keys.
    + intros k [? Hk]. cbn [PF_Reassembler.reset PF_Reassembler.collectors_] in Hk.
      by rewrite lookup_empty in Hk.
  - apply (feed_each_invariant EdiParser_PF.feed pseq_keys).
    + apply edi_feed_pseq_keys.
    + intros k [? Hk]. by rewrite lookup_empty in Hk.
Qed.

(** C8, as stated, fails: the first fragments of 65 two-fragment AF packets
    with Pseq 0 to 64 leave 65 collectors behind, in either reassembler. *)
Lemma pf_collectors_exceed_64 :
  let packets := map (fun k => pf_packet (Z.of_nat k) 0 2 [1]) (seq 0 65) in
  size (PF_Reassembler.collectors_
          (PF_Reassembler.feed_all PF_Reassembler.reset packets).1) = 65%nat
  /\ size (EdiParser_PF.feed_all ∅ packets).1 = 65%nat.
Proof. split; by vm_compute. Qed.

(** ** The FL field of an assembled ETI-NI frame *)

Section frame_length.

Lemma sum_Z_app l1 l2 : sum_Z (l1 ++ l2) = sum_Z l1 + sum_Z l2.
Proof. unfold sum_Z. induction l1 as [|x l1 IH]; simpl; lia. Qed.

Lemma len_app (a b : bytes) : len_ (a ++ b) = len_ a + len_ b.
Proof. unfold len_. rewrite length_app. lia. Qed.

Lemma advance_app_length (a b : bytes) n : len_ a = n -> advance (a ++ b) n = b.
Proof.
  intros <-. unfold advance, len_. rewrite Nat2Z.id. by rewrite drop_app_length.
Qed.

Lemma slice_app_length (a b : bytes) n : n = len_ a -> slice (a ++ b) n = a.
Proof.
  intros ->. unfold slice, len_. rewrite Nat2Z.id. by rewrite take_app_length.
Qed.

Lemma len_concat_map {A} (f : A -> bytes) (l : list A) :
  len_ (concat (map f l)) = sum_Z (map (fun x => len_ (f x)) l).
Proof.
  induction l as [|x l IH]; [done|].
  cbn [map concat]. rewrite len_app, IH. done.
Qed.

Lemma sum_quarters (lens : list Z) :
  Forall (fun x => 0 <= x) lens ->
  0 <= sum_Z (map (fun x => x / 4) lens)
  /\ 4 * sum_Z (map (fun x => x / 4) lens) <= sum_Z lens
  /\ (Forall (fun x => x mod 4 = 0) lens ->
      4 * sum_Z (map (fun x => x / 4) lens) = sum_Z lens).
Proof.
  induction 1 as [|x lens Hx Hl (IH0 & IH1 & IH2)]; [done|].
  cbn [map sum_Z foldr] in *. fold (sum_Z lens) in *.
  fold (sum_Z (map (fun x => x / 4) lens)) in *.
  repeat split; try divmod_lia.
  intros Hall. inversion Hall as [|? ? H4 Hall']; subst.
  specialize (IH2 Hall'). divmod_lia.
Qed.

(** Reading FL back from FC bytes 4 to 7. *)
Lemma fl_read_back fct b5 fp mid F :
  0 <= fct < 256 -> 0 <= b5 < 256 -> 0 <= fp < 8 -> 0 <= mid < 4 ->
  0 <= F < 2048 ->
  let w := u16 ((fp ≪ 13) .| (mid ≪ 11) .| u16 F) in
  u32 ((fct ≪ 24) .| (b5 ≪ 16) .| ((w ≫ 8) ≪ 8) .| (w .& 0xFF)) .& 0x7FF = F.
Proof.
  intros Hfct Hb5 Hfp Hmid HF w.
  assert (u16 F = F) as HuF by (unfold u16; apply Z.mod_small; lia).
  assert (w = fp * 8192 + mid * 2048 + F) as Hw.
  { unfold w. rewrite HuF, <- Z.lor_assoc.
    rewrite (lor_shiftl_add F mid 11) by (change (2 ^ 11) with 2048; lia).
    rewrite lor_shiftl_add
      by (change (2 ^ 11) with 2048; change (2 ^ 13) with 8192; lia).
    change (2 ^ 11) with 2048; change (2 ^ 13) with 8192.
    unfold u16. rewrite Z.mod_small by lia. lia. }
  assert (((w ≫ 8) ≪ 8) .| (w .& 0xFF) = w) as Hrec.
  { change 0xFF with (Z.ones 8). rewrite Z.land_ones, Z.shiftr_div_pow2 by lia.
    rewrite lor_shiftl_add by (change (2 ^ 8) with 256; divmod_lia).
    change (2 ^ 8) with 256. divmod_lia. }
  rewrite <- !Z.lor_assoc, Hrec.
  rewrite (lor_shiftl_add w b5 16) by (change (2 ^ 16) with 65536; lia).
  rewrite lor_shiftl_add
    by (change (2 ^ 16) with 65536; change (2 ^ 24) with 16777216; lia).
  change (2 ^ 16) with 65536; change (2 ^ 24) with 16777216.
  unfold u32. rewrite Z.mod_small by lia.
  change 0x7FF with (Z.ones 11). rewrite Z.land_ones by lia.
  change (2 ^ 11) with 2048. divmod_lia.
Qed.

Lemma u8_range x : 0 <= u8 x < 256.
Proof. unfold u8. apply Z.mod_pos_bound. lia. Qed.

Lemma parse_fc_fl e s1 s2 s3 fct b5 hi lo rest :
  ETI_FC.fl (parse_fc (advance (e :: s1 :: s2 :: s3 :: fct :: b5 :: hi :: lo :: rest) 4))
  = u32 ((fct ≪ 24) .| (b5 ≪ 16) .| (hi ≪ 8) .| lo) .& 0x7FF.
Proof. reflexivity. Qed.
End frame_length.

Section frame_length_dab.
Import DABStreamParser EDI_Builder.

Lemma fl_relation_intro rest e s1 s2 s3 fct b5 fp mid nst fic_len mst_lens :
  0 <= fct < 256 -> 0 <= b5 < 256 -> 0 <= fp < 8 -> 0 <= mid < 4 -> 0 <= nst ->
  fic_len = 96 \/ fic_len = 128 ->
  Forall (fun x => 0 <= x) mst_lens ->
  4 * nst + sum_Z mst_lens <= 6124 ->
  let F := nst + 1 + fic_len / 4 + sum_Z (map (fun x => x / 4) mst_lens) in
  let w := u16 ((fp ≪ 13) .| (mid ≪ 11) .| u16 F) in
  fl_relation (e :: s1 :: s2 :: s3 :: fct :: b5 :: (w ≫ 8) :: (w .& 0xFF) :: rest)
    nst fic_len mst_lens.
Proof.
  intros Hfct Hb5 Hfp Hmid Hnst Hfic Hpos Hfit F w.
  destruct (sum_quarters mst_lens Hpos) as (Hq0 & Hq1 & Hq2).
  assert (0 <= F < 2048) as HF by (subst F; destruct Hfic as [-> | ->]; divmod_lia).
  unfold fl_relation, fl_of. rewrite parse_fc_fl.
  pose proof (fl_read_back fct b5 fp mid F Hfct Hb5 Hfp Hmid HF) as Hread.
  cbv zeta in Hread. subst w. rewrite Hread.
  split; [done|]. intros Hall. specialize (Hq2 Hall).
  subst F. destruct Hfic as [-> | ->]; divmod_lia.
Qed.

Lemma frame_header_shape edi streams :
  exists s1 s2 s3,
    frame_header edi streams =
      let fc := m_fc edi in
      let F :=
        EDI_FC.nst fc + 1 + fic_length edi / 4
        + sum_Z (map (fun stc => len_ (EDI_STC.mst stc) / 4) streams) in
      let w := u16 ((EDI_FC.fp fc ≪ 13) .| (EDI_FC.mid fc ≪ 11) .| u16 F) in
      [0xFF; s1; s2; s3; u8 (EDI_FC.dflc fc mod 250);
       u8 ((if EDI_FC.ficf fc then 0x80 else 0) .| EDI_FC.nst fc);
       w ≫ 8; w .& 0xFF].
Proof.
  unfold frame_header. cbv zeta.
  destruct (u8 (EDI_FC.dflc (m_fc edi) mod 250) mod 2 =? 1); by eexists _, _, _.
Qed.

Lemma len_frame_stc stc : len_ (frame_stc stc) = 4.
Proof. reflexivity. Qed.

Lemma len_nonneg (p : bytes) : 0 <= len_ p.
Proof. unfold len_. lia. Qed.

Lemma sum_Z_const {A} (l : list A) c :
  sum_Z (map (fun _ => c) l) = c * Z.of_nat (length l).
Proof.
  induction l as [|x l IH]; cbn [map sum_Z foldr length] in *; [lia|].
  fold (sum_Z (map (fun _ => c) l)). lia.
Qed.

Lemma frame_body_shape edi streams :
  exists s1 s2 s3 rest,
    frame_body edi streams =
      255 :: s1 :: s2 :: s3 :: u8 (EDI_FC.dflc (m_fc edi) mod 250)
        :: u8 ((if EDI_FC.ficf (m_fc edi) then 0x80 else 0) .| EDI_FC.nst (m_fc edi))
        :: (let F :=
              EDI_FC.nst (m_fc edi) + 1 + fic_length edi / 4
              + sum_Z (map (fun x => x / 4)
                         (map (fun stc => len_ (EDI_STC.mst stc)) streams)) in
            let w :=
              u16 ((EDI_FC.fp (m_fc edi) ≪ 13) .| (EDI_FC.mid (m_fc edi) ≪ 11)
                   .| u16 F) in
            (w ≫ 8) :: (w .& 0xFF) :: rest).
Proof.
  destruct (frame_header_shape edi streams) as (s1 & s2 & s3 & Hhdr).
  cbv zeta in Hhdr. exists s1, s2, s3.
  unfold frame_body. cbv zeta. rewrite Hhdr. cbn [app].
  rewrite map_map. by eexists.
Qed.

Lemma len_frame_body edi streams :
  8 + 4 * Z.of_nat (length streams) + 4
  + sum_Z (map (fun stc => len_ (EDI_STC.mst stc)) streams) + 8
  <= len_ (frame_body edi streams).
Proof.
  destruct (frame_header_shape edi streams) as (s1 & s2 & s3 & Hhdr).
  cbv zeta in Hhdr.
  unfold frame_body. cbv zeta. rewrite !len_app, Hhdr.
  rewrite !len_concat_map.
  change (fun x => len_ (frame_stc x)) with (fun _ : EDI_STC.t => 4).
  rewrite (sum_Z_const streams 4).
  pose proof (len_nonneg (slice (fic edi) (fic_length edi))).
  change (len_ [_; _; _; _; _; _; _; _]) with 8.
  change (len_ [_; _]) with 2. lia.
Qed.

Lemma dab_frame_fl edi frame :
  fc_in_range (EDI_FC.nst (m_fc edi)) (EDI_FC.fp (m_fc edi)) (EDI_FC.mid (m_fc edi)) ->
  frame_wanted edi = true ->
  eti_frame_bytes edi = Some frame ->
  fl_relation frame (EDI_FC.nst (m_fc edi)) (fic_length edi)
    (map (fun stc => len_ (EDI_STC.mst stc))
       (take (Z.to_nat (EDI_FC.nst (m_fc edi))) (m_stc edi))).
Proof.
  intros (Hnst & Hfp & Hmid) Hw Hf.
  assert (fic_length edi = 96 \/ fic_length edi = 128) as Hfic.
  { unfold frame_wanted in Hw.
    destruct (EDI_FC.mid (m_fc edi) =? 3);
      destruct (Z.eqb_spec (fic_length edi) (32 * 4));
      destruct (Z.eqb_spec (fic_length edi) (24 * 4));
      rewrite ?andb_false_r in Hw; try done; lia. }
  unfold eti_frame_bytes, first_streams in Hf.
  destruct (Z.ltb_spec (Z.of_nat (length (m_stc edi))) (EDI_FC.nst (m_fc edi)));
    [done|].
  cbn [mbind option_bind] in Hf.
  set (streams := take (Z.to_nat (EDI_FC.nst (m_fc edi))) (m_stc edi)) in *.
  assert (Z.of_nat (length streams) = EDI_FC.nst (m_fc edi)) as Hlen
    by (subst streams; rewrite length_take; lia).
  pose proof (len_frame_body edi streams) as Hbody.
  destruct (frame_body_shape edi streams) as (s1 & s2 & s3 & rest & Hshape).
  remember (frame_body edi streams) as body eqn:Hb. clear Hb.
  unfold ETI_NI_RAW_SIZE in Hf.
  destruct (Z.ltb_spec 6144 (len_ body)) as [|Hfit]; [done|].
  injection Hf as <-. subst body. cbn [app].
  apply fl_relation_intro; try assumption; try apply u8_range.
  - rewrite Forall_map. apply Forall_forall. intros. apply len_nonneg.
  - lia.
Qed.
Lemma dab_frame_region edi frame :
  fc_in_range (EDI_FC.nst (m_fc edi)) (EDI_FC.fp (m_fc edi)) (EDI_FC.mid (m_fc edi)) ->
  builder_arrays edi ->
  frame_wanted edi = true ->
  eti_frame_bytes edi = Some frame ->
  fl_counts_mst_region frame (EDI_FC.nst (m_fc edi))
    (slice (fic edi) (fic_length edi))
    (map EDI_STC.mst (take (Z.to_nat (EDI_FC.nst (m_fc edi))) (m_stc edi))).
Proof.
  intros Hrange [_ Hfic128] Hw Hf.
  pose proof (dab_frame_fl edi frame Hrange Hw Hf) as [_ Hfl].
  destruct Hrange as (Hnst & _ & _).
  assert (fic_length edi = 96 \/ fic_length edi = 128) as Hfic.
  { unfold frame_wanted in Hw.
    destruct (EDI_FC.mid (m_fc edi) =? 3);
      destruct (Z.eqb_spec (fic_length edi) (32 * 4));
      destruct (Z.eqb_spec (fic_length edi) (24 * 4));
      rewrite ?andb_false_r in Hw; try done; lia. }
  assert (len_ (slice (fic edi) (fic_length edi)) = fic_length edi) as Hslice
    by (unfold len_, slice; rewrite length_take; lia).
  unfold eti_frame_bytes, first_streams in Hf.
  destruct (Z.ltb_spec (Z.of_nat (length (m_stc edi))) (EDI_FC.nst (m_fc edi)));
    [done|].
  cbn [mbind option_bind] in Hf.
  set (streams := take (Z.to_nat (EDI_FC.nst (m_fc edi))) (m_stc edi)) in *.
  assert (Z.of_nat (length streams) = EDI_FC.nst (m_fc edi)) as Hlen
    by (subst streams; rewrite length_take; lia).
  destruct (ETI_NI_RAW_SIZE <? len_ (frame_body edi streams)); [done|].
  apply (inj Some) in Hf.
  unfold fl_counts_mst_region, mst_region_end, mst_region_start. split.
  - subst frame. unfold frame_body. cbv zeta.
    match goal with
    | |- context [(?h ++ [?m1; ?m2]) ++ [?c1; ?c2]] =>
        set (eoh := (h ++ [m1; m2]) ++ [c1; c2])
    end.
    assert (len_ eoh = 8 + 4 * EDI_FC.nst (m_fc edi) + 4) as Heoh.
    { subst eoh. rewrite !len_app, len_concat_map.
      change (fun x => len_ (frame_stc x)) with (fun _ : EDI_STC.t => 4).
      rewrite (sum_Z_const streams 4).
      destruct (frame_header_shape edi streams) as (s1 & s2 & s3 & ->).
      cbv zeta. change (len_ [_; _; _; _; _; _; _; _]) with 8.
      change (len_ [_; _]) with 2. lia. }
    set (mst := slice (fic edi) (fic_length edi) ++ concat (map EDI_STC.mst streams)).
    clearbody eoh.
    rewrite <- !app_assoc. rewrite advance_app_length by done.
    apply slice_app_length. subst mst.
    rewrite len_app, len_concat_map, map_map. lia.
  - intros Hall. rewrite Hslice, map_map.
    rewrite Hfl; [lia|]. rewrite Forall_map. by rewrite Forall_map in Hall.
Qed.
End frame_length_dab.

Section frame_length_edi.
Import EdiParser EtiBuilder.

Lemma copy_mst_Some streams : forall idx msts,
  copy_mst idx streams = Some msts ->
  msts = concat (map SubchannelData.mst streams)
  /\ idx + sum_Z (map (fun stc => len_ (SubchannelData.mst stc)) streams) <= 6136
     \/ streams = [].
Proof.
  induction streams as [|stc streams IH]; intros idx msts H; [by right|].
  left. cbn [copy_mst] in H.
  destruct (Z.ltb_spec (6144 - 8) (idx + len_ (SubchannelData.mst stc))); [done|].
  destruct (copy_mst (idx + len_ (SubchannelData.mst stc)) streams) as [tail|] eqn:E;
    [|done].
  injection H as <-. cbn [map concat sum_Z foldr].
  fold (sum_Z (map (fun stc => len_ (SubchannelData.mst stc)) streams)).
  destruct (IH _ _ E) as [[-> Hsum] | ->].
  - split; [done|lia].
  - cbn in E. injection E as <-. cbn. split; [done|lia].
Qed.

Lemma copy_mst_each streams : forall idx msts,
  0 <= idx -> copy_mst idx streams = Some msts ->
  Forall (fun stc => len_ (SubchannelData.mst stc) <= 6136) streams.
Proof.
  induction streams as [|stc streams IH]; intros idx msts Hidx H; [constructor|].
  cbn [copy_mst] in H.
  destruct (Z.ltb_spec (6144 - 8) (idx + len_ (SubchannelData.mst stc))); [done|].
  destruct (copy_mst (idx + len_ (SubchannelData.mst stc)) streams) as [tail|] eqn:E;
    [|done].
  pose proof (len_nonneg (SubchannelData.mst stc)).
  constructor; [lia|]. eapply IH; [|done]. lia.
Qed.

Lemma len_frame_header eti streams : len_ (frame_header eti streams) = 8.
Proof.
  unfold frame_header. cbv zeta.
  by destruct (u8 (FrameControl.dflc (fc eti) mod 250) mod 2 =? 1).
Qed.

Lemma frame_header_shape_edi eti streams :
  exists s0 s1 s2 s3,
    frame_header eti streams =
      [s0; s1; s2; s3; u8 (FrameControl.dflc (fc eti) mod 250);
       u8 ((if FrameControl.ficf (fc eti) then 0x80 else 0x00)
           .| FrameControl.nst (fc eti));
       u16 ((u16 (FrameControl.fp (fc eti)) ≪ 13)
            .| (u16 (FrameControl.mid (fc eti)) ≪ 11)
            .| u16 (FrameControl.nst (fc eti) + 1 + u16 (len_ (fic eti) / 4)
                    + sum_Z (map (fun stc => u16 (len_ (SubchannelData.mst stc) / 4))
                               streams))) ≫ 8;
       u16 ((u16 (FrameControl.fp (fc eti)) ≪ 13)
            .| (u16 (FrameControl.mid (fc eti)) ≪ 11)
            .| u16 (FrameControl.nst (fc eti) + 1 + u16 (len_ (fic eti) / 4)
                    + sum_Z (map (fun stc => u16 (len_ (SubchannelData.mst stc) / 4))
                               streams))) .& 0xFF].
Proof.
  unfold frame_header. cbv zeta.
  destruct (u8 (FrameControl.dflc (fc eti) mod 250) mod 2 =? 1); by eexists _, _, _, _.
Qed.

Lemma edi_frame_fl eti frame dflc :
  fc_in_range (FrameControl.nst (fc eti)) (FrameControl.fp (fc eti))
    (FrameControl.mid (fc eti)) ->
  assembleEtiFrame eti = Some [(frame, dflc)] ->
  fl_relation frame (FrameControl.nst (fc eti)) (len_ (fic eti))
    (map (fun stc => len_ (SubchannelData.mst stc))
       (take (Z.to_nat (FrameControl.nst (fc eti))) (subchannels eti))).
Proof.
  intros (Hnst & Hfp & Hmid) Hf. unfold assembleEtiFrame in Hf.
  destruct (frame_wanted eti) eqn:Hw; [|done]. cbn [negb] in Hf.
  assert (len_ (fic eti) = 96 \/ len_ (fic eti) = 128) as Hfic.
  { unfold frame_wanted in Hw. apply andb_true_iff in Hw as [_ Hw].
    apply Z.eqb_eq in Hw. destruct (FrameControl.mid (fc eti) =? 3); lia. }
  unfold first_subchannels in Hf.
  destruct (Z.ltb_spec (Z.of_nat (length (subchannels eti))) (FrameControl.nst (fc eti)));
    [done|].
  cbn [mbind option_bind] in Hf.
  set (streams := take (Z.to_nat (FrameControl.nst (fc eti))) (subchannels eti)) in *.
  assert (Z.of_nat (length streams) = FrameControl.nst (fc eti)) as Hlen
    by (subst streams; rewrite length_take; lia).
  cbv zeta in Hf.
  match type of Hf with
  | context [copy_mst ?i streams] => set (idx := i) in *
  end.
  assert (idx = 12 + 4 * FrameControl.nst (fc eti) + len_ (fic eti)) as Hidx.
  { subst idx. rewrite !len_app, len_concat_map, len_frame_header.
    change (fun x => len_ (frame_stc x)) with (fun _ : SubchannelData.t => 4).
    rewrite (sum_Z_const streams 4).
    change (len_ [_; _]) with 2. lia. }
  clearbody idx.
  destruct (frame_header_shape_edi eti streams) as (s0 & s1 & s2 & s3 & Hhdr).
  remember (frame_header eti streams) as hdr eqn:Hh. clear Hh. subst hdr.
  cbn [app] in Hf.
  destruct (copy_mst idx streams) as [msts|] eqn:Hcopy; [|done].
  injection Hf as <- _.
  pose proof (copy_mst_each streams idx msts ltac:(lia) Hcopy) as Heach.
  assert (4 * FrameControl.nst (fc eti)
          + sum_Z (map (fun stc => len_ (SubchannelData.mst stc)) streams) <= 6124)
    as Hsum.
  { destruct (copy_mst_Some streams idx msts Hcopy) as [[_ H1] | H1].
    - lia.
    - rewrite H1 in *. cbn in *. lia. }
  assert (map (fun stc => u16 (len_ (SubchannelData.mst stc) / 4)) streams
          = map (fun x => x / 4) (map (fun stc => len_ (SubchannelData.mst stc)) streams))
    as ->.
  { rewrite map_map. apply map_ext_Forall.
    eapply Forall_impl; [exact Heach|]. intros stc Hstc. cbv beta in *.
    pose proof (len_nonneg (SubchannelData.mst stc)).
    unfold u16. apply Z.mod_small. divmod_lia. }
  assert (u16 (len_ (fic eti) / 4) = len_ (fic eti) / 4) as ->
    by (unfold u16; apply Z.mod_small; destruct Hfic as [-> | ->]; done).
  assert (u16 (FrameControl.fp (fc eti)) = FrameControl.fp (fc eti)) as ->
    by (unfold u16; apply Z.mod_small; lia).
  assert (u16 (FrameControl.mid (fc eti)) = FrameControl.mid (fc eti)) as ->
    by (unfold u16; apply Z.mod_small; lia).
  apply fl_relation_intro; try assumption; try apply u8_range.
  rewrite Forall_map. apply Forall_forall. intros. apply len_nonneg.
Qed.
Lemma edi_frame_region eti frame dflc :
  fc_in_range (FrameControl.nst (fc eti)) (FrameControl.fp (fc eti))
    (FrameControl.mid (fc eti)) ->
  assembleEtiFrame eti = Some [(frame, dflc)] ->
  fl_counts_mst_region frame (FrameControl.nst (fc eti)) (fic eti)
    (map SubchannelData.mst
       (take (Z.to_nat (FrameControl.nst (fc eti))) (subchannels eti))).
Proof.
  intros Hrange Hf.
  pose proof (edi_frame_fl eti frame dflc Hrange Hf) as [_ Hfl].
  destruct Hrange as (Hnst & _ & _).
  unfold assembleEtiFrame in Hf.
  destruct (frame_wanted eti); [|done]. cbn [negb] in Hf.
  unfold first_subchannels in Hf.
  destruct (Z.ltb_spec (Z.of_nat (length (subchannels eti))) (FrameControl.nst (fc eti)));
    [done|].
  cbn [mbind option_bind] in Hf.
  set (streams := take (Z.to_nat (FrameControl.nst (fc eti))) (subchannels eti)) in *.
  assert (Z.of_nat (length streams) = FrameControl.nst (fc eti)) as Hlen
    by (subst streams; rewrite length_take; lia).
  cbv zeta in Hf.
  unfold fl_counts_mst_region, mst_region_end, mst_region_start. split.
  - match type of Hf with
    | context [(?h ++ [?m1; ?m2]) ++ [?c1; ?c2]] =>
        set (eoh := (h ++ [m1; m2]) ++ [c1; c2]) in *
    end.
    assert (len_ eoh = 8 + 4 * FrameControl.nst (fc eti) + 4) as Heoh.
    { subst eoh. rewrite !len_app, len_concat_map, len_frame_header.
      change (fun x => len_ (frame_stc x)) with (fun _ : SubchannelData.t => 4).
      rewrite (sum_Z_const streams 4). change (len_ [_; _]) with 2. lia. }
    clearbody eoh.
    destruct (copy_mst _ streams) as [msts|] eqn:Hcopy; [|done].
    assert (msts = concat (map SubchannelData.mst streams)) as ->.
    { destruct (copy_mst_Some streams _ msts Hcopy) as [[-> _] | H0]; [done|].
      rewrite H0 in *. cbn in Hcopy. by apply (inj Some) in Hcopy. }
    apply (inj Some) in Hf. apply (f_equal (fun l => fst <$> head l)) in Hf.
    cbn [head fmap option_fmap option_map fst] in Hf. apply (inj Some) in Hf.
    subst frame.
    rewrite <- !app_assoc. rewrite advance_app_length by done.
    rewrite !app_assoc, <- (app_assoc _ [_; _; _; _; _; _; _; _]).
    apply slice_app_length.
    rewrite len_app, len_concat_map, map_map. lia.
  - intros Hall. rewrite map_map.
    rewrite Hfl; [lia|]. rewrite Forall_map. by rewrite Forall_map in Hall.
Qed.
End frame_length_edi.

(** The ranges assumed of the frame characterisation hold in every builder
    that the tag decoder of [DABStreamParser] can reach. *)
Section builder_range.
Import DABStreamParser EDI_Builder.

Lemma land_low_bits x n : 0 <= n -> 0 <= x .& Z.ones n < 2 ^ n.
Proof. intros Hn. rewrite Z.land_ones by done. apply Z.mod_pos_bound. lia. Qed.

Lemma decode_starptr_in_range edi value len edi' :
  decode_starptr edi value len = Some edi' ->
  builder_in_range edi -> builder_in_range edi'.
Proof.
  unfold decode_starptr. intros H Hr.
  destruct (negb _); [by injection H as <-|].
  destruct (rd_32b value); cbn [mbind option_bind] in H; [|done].
  destruct (rd_16b (advance value 4)); cbn [mbind option_bind] in H; [|done].
  destruct (rd_16b (advance value 6)); cbn [mbind option_bind] in H; [|done].
  by injection H as <-.
Qed.

Lemma decode_deti_in_range edi val edi' :
  decode_deti edi val = Some edi' ->
  builder_in_range edi -> builder_in_range edi'.
Proof.
  unfold decode_deti. intros H (Hnst & _ & _).
  do 5 (match type of H with
        | (?step ≫= _) = _ =>
            destruct step; cbn [mbind option_bind] in H; [|done]
        end; cbv zeta in H).
  apply (f_equal (fmap m_fc)) in H. cbn [fmap option_fmap option_map m_fc] in H.
  injection H as H.
  unfold builder_in_range, fc_in_range. rewrite <- H.
  cbn [EDI_FC.nst EDI_FC.fp EDI_FC.mid].
  split; [done|]. split.
  - apply (land_low_bits _ 3). lia.
  - apply (land_low_bits _ 2). lia.
Qed.

Lemma decode_estn_in_range edi value len n edi' :
  decode_estn edi value len n = Some edi' ->
  builder_in_range edi -> builder_in_range edi'.
Proof.
  unfold decode_estn. intros H (Hnst & Hfp & Hmid).
  destruct (_ || _); [by injection H as <-|].
  destruct (rd_24b value); cbn [mbind option_bind] in H; [|done].
  destruct (rd_bytes (advance value 3) (len - 3)); cbn [mbind option_bind] in H; [|done].
  injection H as <-.
  unfold builder_in_range, fc_in_range.
  cbn [m_fc EDI_FC.set_nst EDI_FC.nst EDI_FC.fp EDI_FC.mid].
  split; [|done]. unfold u8. divmod_lia.
Qed.

Lemma tag_loop_in_range pkt tagsize : forall fuel edi i edi',
  tag_loop fuel edi pkt tagsize i = Some edi' ->
  builder_in_range edi -> builder_in_range edi'.
Proof.
  induction fuel as [|fuel IH]; intros edi i edi' H Hr; [by injection H as <-|].
  cbn [tag_loop] in H. cbv zeta in H.
  destruct (tagsize <? i + 8); [by injection H as <-|].
  destruct (negb _); [by injection H as <-|].
  match type of H with
  | (?step ≫= _) = _ =>
      destruct step as [edi1|] eqn:E; cbn [mbind option_bind] in H; [|done]
  end.
  apply (IH _ _ _ H).
  destruct (read_32b (advance pkt i) =? _).
  { by apply decode_starptr_in_range in E. }
  destruct (read_32b (advance pkt i) =? _).
  { by apply decode_deti_in_range in E. }
  destruct (_ =? _).
  { by apply decode_estn_in_range in E. }
  by injection E as <-.
Qed.

Lemma handle_af_packet_in_range edi pkt len edi' ok :
  handle_af_packet edi pkt len = Some (edi', ok) ->
  builder_in_range edi -> builder_in_range edi'.
Proof.
  unfold handle_af_packet. intros H Hr. cbv zeta in H.
  destruct (_ || _); [by injection H as <- <-|].
  destruct (negb _); [by injection H as <- <-|].
  destruct (len <? _); [by injection H as <- <-|].
  destruct (_ && _); [by injection H as <- <-|].
  match type of H with
  | (?step ≫= _) = _ =>
      destruct step as [edi1|] eqn:E; cbn [mbind option_bind] in H; [|done]
  end.
  injection H as <- <-.
  unfold decode_tagpacket in E. apply tag_loop_in_range in E; [done|].
  destruct Hr as (Hnst & Hfp & Hmid). by split.
Qed.

Lemma handle_edi_packet_in_range s pkt len s' frames :
  handle_edi_packet s pkt len = Some (s', frames) ->
  builder_in_range (edi_ s) -> builder_in_range (edi_ s').
Proof.
  assert (forall s1 s2 fr, assemble_eti_frame s1 = Some (s2, fr) -> edi_ s2 = edi_ s1)
    as Hasm.
  { intros s1 s2 fr H. unfold assemble_eti_frame in H.
    destruct (negb _); [by injection H as <- <-|].
    destruct (eti_frame_bytes _); cbn [mbind option_bind] in H; [|done].
    apply (f_equal (fmap fst)) in H. cbn [fmap option_fmap option_map fst] in H.
    by injection H as <-. }
  unfold handle_edi_packet. intros H Hr.
  destruct (len <? 2); [by injection H as <- <-|].
  destruct (_ && _).
  { destruct (handle_af_packet _ _ _) as [[edi' ok]|] eqn:E;
      cbn [mbind option_bind] in H; [|done].
    apply handle_af_packet_in_range in E; [|done].
    destruct ok; [apply Hasm in H; by rewrite H|by injection H as <- <-]. }
  destruct (_ && _); [|by injection H as <- <-].
  destruct (handle_pf_packet s pkt len) as [[s1 ok]|] eqn:Hpf;
    cbn [mbind option_bind] in H; [|done].
  assert (builder_in_range (edi_ s1)) as Hr1.
  { unfold handle_pf_packet in Hpf.
    destruct (PF_Reassembler.parse_pf_header pkt len); [|by injection Hpf as <- <-].
    destruct (PF_Reassembler.add_fragment _ _ _ _) as [pf af].
    destruct af as [af_data|]; [|by injection Hpf as <- <-].
    destruct (0 <? len_ af_data); [|by injection Hpf as <- <-].
    destruct (handle_af_packet _ _ _) as [[edi' ok']|] eqn:E;
      cbn [mbind option_bind] in Hpf; [|done].
    injection Hpf as <- <-.
    by apply handle_af_packet_in_range in E. }
  destruct ok; [apply Hasm in H; by rewrite H|by injection H as <- <-].
Qed.
Lemma process_edi_packet_in_range s pkt len s' complete frames :
  process_edi_packet s pkt len = Some (s', complete, frames) ->
  builder_in_range (edi_ s) -> builder_in_range (edi_ s').
Proof.
  unfold process_edi_packet. intros H Hr.
  destruct (0 <? len); [|by injection H as <- _ _].
  destruct (handle_edi_packet s pkt len) as [[s1 fr]|] eqn:E;
    cbn [mbind option_bind] in H; [|done].
  injection H as <- _ _. by apply (handle_edi_packet_in_range _ _ _ _ _ E).
Qed.

Lemma init_in_range : builder_in_range (edi_ DABStreamParser.init).
Proof. by cbv. Qed.
End builder_range.

(** C1, amended.  In every ETI-NI frame that [DABStreamParser::assemble_eti_frame]
    or [EdiParser::assembleEtiFrame] emits, the FL field read back from FC
    bytes 6-7 is NST + 1 + fic_len/4 + the sum of mst_len_i/4 with integer
    division.  The frame holds the FIC and, behind it, the data of the NST
    streams from byte 12 + 4*NST on, and when every MST length is a multiple
    of four, FL * 4 = NST*4 + 4 + FIC_len + sum of MST_len_i is the number of
    bytes from byte 8, the first byte behind FC, through the end of that MST
    region. *)
Theorem eti_frame_length_field :
  (forall s s' frames frame dflc,
     let edi := DABStreamParser.edi_ s in
     let fc := EDI_Builder.m_fc edi in
     let msts :=
       map EDI_STC.mst (take (Z.to_nat (EDI_FC.nst fc)) (EDI_Builder.m_stc edi)) in
     fc_in_range (EDI_FC.nst fc) (EDI_FC.fp fc) (EDI_FC.mid fc) ->
     builder_arrays edi ->
     DABStreamParser.assemble_eti_frame s = Some (s', frames) ->
     (frame, dflc) ∈ frames ->
     fl_relation frame (EDI_FC.nst fc) (EDI_Builder.fic_length edi) (map len_ msts)
     /\ len_ (slice (EDI_Builder.fic edi) (EDI_Builder.fic_length edi))
        = EDI_Builder.fic_length edi
     /\ fl_counts_mst_region frame (EDI_FC.nst fc)
          (slice (EDI_Builder.fic edi) (EDI_Builder.fic_length edi)) msts)
  /\
  (forall eti frames frame dflc,
     let fc := EtiBuilder.fc eti in
     let msts :=
       map SubchannelData.mst
         (take (Z.to_nat (FrameControl.nst fc)) (EtiBuilder.subchannels eti)) in
     fc_in_range (FrameControl.nst fc) (FrameControl.fp fc) (FrameControl.mid fc) ->
     EdiParser.assembleEtiFrame eti = Some frames ->
     (frame, dflc) ∈ frames ->
     fl_relation frame (FrameControl.nst fc) (len_ (EtiBuilder.fic eti)) (map len_ msts)
     /\ fl_counts_mst_region frame (FrameControl.nst fc) (EtiBuilder.fic eti) msts).
Proof.
  split.
  - intros s s' frames frame dflc edi fc msts Hfc Harr Hf Hin.
    unfold DABStreamParser.assemble_eti_frame in Hf. fold edi in Hf.
    destruct (DABStreamParser.frame_wanted edi) eqn:Hw; cbn [negb] in Hf.
    + destruct (DABStreamParser.eti_frame_bytes edi) as [eti|] eqn:He; [|done].
      cbn [mbind option_bind] in Hf.
      apply (f_equal (fmap snd)) in Hf. cbn [fmap option_fmap option_map snd] in Hf.
      injection Hf as <-.
      apply list_elem_of_singleton in Hin. injection Hin as -> _.
      subst msts. rewrite map_map.
      split; [by apply dab_frame_fl|]. split; [|by apply dab_frame_region].
      destruct Harr as [_ Hfic128].
      assert (EDI_Builder.fic_length edi = 96 \/ EDI_Builder.fic_length edi = 128).
      { unfold DABStreamParser.frame_wanted in Hw.
        destruct (EDI_FC.mid (EDI_Builder.m_fc edi) =? 3);
          destruct (Z.eqb_spec (EDI_Builder.fic_length edi) (32 * 4));
          destruct (Z.eqb_spec (EDI_Builder.fic_length edi) (24 * 4));
          rewrite ?andb_false_r in Hw; try done; lia. }
      unfold len_, slice. rewrite length_take. lia.
    + injection Hf as _ <-. by apply elem_of_nil in Hin.
  - intros eti frames frame dflc fc msts Hfc Hf Hin.
    assert (frames = [(frame, dflc)]) as ->.
    { unfold EdiParser.assembleEtiFrame in Hf.
      destruct (EdiParser.frame_wanted eti); cbn [negb] in Hf.
      - destruct (EdiParser.first_subchannels _ _) as [streams|]; [|done].
        cbn [mbind option_bind] in Hf. cbv zeta in Hf.
        destruct (EdiParser.copy_mst _ streams).
        + injection Hf as <-. apply list_elem_of_singleton in Hin. by rewrite Hin.
        + injection Hf as <-. by apply elem_of_nil in Hin.
      - injection Hf as <-. by apply elem_of_nil in Hin. }
    subst msts. rewrite map_map.
    split; [by apply (edi_frame_fl eti frame dflc)|].
    by apply (edi_frame_region eti frame dflc).
Qed.

Lemma eti_frame_length_field_witness :
  let mst := [1; 2; 3; 4; 5; 6; 7; 8] in
  (exists s frame,
     DABStreamParser.assemble_eti_frame (dab_state_of mst) = Some (s, [(frame, 0)])
     /\ fl_relation frame 1 96 [8]
     /\ fl_counts_mst_region frame 1 (replicate 96 0) [mst])
  /\
  (exists frame,
     EdiParser.assembleEtiFrame (eti_builder_of mst) = Some [(frame, 0)]
     /\ fl_relation frame 1 96 [8]
     /\ fl_counts_mst_region frame 1 (replicate 96 0) [mst]).
Proof.
  intros mst.
  destruct eti_frame_length_field as [Hdab Hedi]. split.
  - destruct (DABStreamParser.assemble_eti_frame (dab_state_of mst))
      as [[s [|[frame dflc] [|]]]|] eqn:E; try (by vm_compute in E).
    exists s, frame.
    assert (dflc = 0) as -> by (vm_compute in E; congruence).
    split; [done|].
    destruct (Hdab (dab_state_of mst) s [(frame, 0)] frame 0) as (Hfl & _ & Hregion).
    + vm_compute. intuition congruence.
    + by vm_compute.
    + exact E.
    + apply list_elem_of_here.
    + split; [exact Hfl|exact Hregion].
  - destruct (EdiParser.assembleEtiFrame (eti_builder_of mst))
      as [[|[frame dflc] [|]]|] eqn:E; try (by vm_compute in E).
    exists frame.
    assert (dflc = 0) as -> by (vm_compute in E; congruence).
    split; [done|].
    destruct (Hedi (eti_builder_of mst) [(frame, 0)] frame 0) as (Hfl & Hregion).
    + vm_compute. intuition congruence.
    + exact E.
    + apply list_elem_of_here.
    + split; [exact Hfl|exact Hregion].
Defined.

(** C1, as stated, fails in two ways.  The bytes from byte 4 through the end
    of the MST region are never FL * 4: byte 4 is the first byte of FC, which
    FL does not count, so even for an AF packet with one stream of eight MST
    bytes, where FL = 28 and FL * 4 = 112 = 1*4 + 4 + 96 + 8, the MST region
    of the frame that both assemblers emit lies in bytes 16 to 119, and the
    bytes from byte 4 to its end number 116.  And when an MST length is not
    a multiple of four the sum is not FL * 4 either: one stream of five MST
    bytes gives FL = 27, so FL * 4 = 108, while 1*4 + 4 + 96 + 5 = 109 (and
    the bytes from byte 4 to the end of the MST region number 113). *)
Lemma eti_frame_length_not_byte_count :
  (let mst := [1; 2; 3; 4; 5; 6; 7; 8] in
   let read (frames : option (list (bytes * Z))) :=
     frames' ← frames;
     Some (map (fun f => (fl_of f.1, slice (advance f.1 16) 104, len_ f.1)) frames') in
   read (snd <$> DABStreamParser.assemble_eti_frame (dab_state_of mst))
   = Some [(28, replicate 96 0 ++ mst, 6144)]
   /\ read (EdiParser.assembleEtiFrame (eti_builder_of mst))
      = Some [(28, replicate 96 0 ++ mst, 6144)]
   /\ 28 * 4 = 1 * 4 + 4 + 96 + 8
   /\ 28 * 4 <> (16 + 104) - 4)
  /\
  (let mst := [1; 2; 3; 4; 5] in
   let fls (frames : option (list (bytes * Z))) :=
     frames' ← frames; Some (map (fun f => fl_of f.1) frames') in
   EDI_FC.nst (EDI_Builder.m_fc (DABStreamParser.edi_ (dab_state_of mst))) = 1
   /\ map (fun stc => len_ (EDI_STC.mst stc))
        (take 1 (EDI_Builder.m_stc (DABStreamParser.edi_ (dab_state_of mst)))) = [5]
   /\ EDI_Builder.fic_length (DABStreamParser.edi_ (dab_state_of mst)) = 96
   /\ fls (snd <$> DABStreamParser.assemble_eti_frame (dab_state_of mst)) = Some [27]
   /\ fls (EdiParser.assembleEtiFrame (eti_builder_of mst)) = Some [27]
   /\ 27 * 4 <> 1 * 4 + 4 + 96 + 5).
Proof. by vm_compute. Qed.

(** ** Completion of the FIC parser *)

Section completion.
Import DABParser.

Lemma keeps_services_refl T : keeps_services T T.
Proof. by intros k. Qed.

Lemma keeps_services_trans T1 T2 T3 :
  keeps_services T1 T2 -> keeps_services T2 T3 -> keeps_services T1 T3.
Proof. intros H12 H23 k Hk. by apply H23, H12. Qed.

Lemma keeps_services_same T T' :
  service_map_ T' = service_map_ T -> keeps_services T T'.
Proof. intros E k. by rewrite E. Qed.

Lemma fig_0_2_keeps data len pd : forall fuel T pos,
  keeps_services T (fig_0_2 fuel T data len pd pos).
Proof.
  induction fuel as [|fuel IH]; intros T pos; [apply keeps_services_refl|].
  cbn [fig_0_2]. cbv zeta.
  destruct (len <? pos + _); [apply keeps_services_refl|].
  destruct (fig_0_2_components _ _ _ _ _ _) as [[subch info] pos3].
  eapply keeps_services_trans; [|apply IH].
  destruct (0 <=? ServiceInfo.primary_subch info); [|by apply keeps_services_same].
  intros k Hk. cbn [set_service_map set_subchannels service_map_].
  rewrite lookup_insert_is_Some'. by right.
Qed.

Lemma process_fig_0_keeps T data len ext pd :
  keeps_services T (process_fig_0 T data len ext pd).
Proof.
  unfold process_fig_0.
  repeat case_match; try apply keeps_services_refl; try by apply keeps_services_same.
  apply fig_0_2_keeps.
Qed.

Lemma process_fig_1_keeps T data len ext :
  keeps_services T (process_fig_1 T data len ext).
Proof.
  unfold process_fig_1.
  repeat case_match; try apply keeps_services_refl; by apply keeps_services_same.
Qed.

Lemma process_fig_keeps T hdr fig fig_len :
  keeps_services T (process_fig T hdr fig fig_len).
Proof.
  unfold process_fig.
  repeat case_match; try apply keeps_services_refl.
  - apply process_fig_0_keeps.
  - apply process_fig_1_keeps.
Qed.

Lemma fib_figs_keeps fib : forall fuel T pos,
  keeps_services T (fib_figs fuel T fib pos).
Proof.
  induction fuel as [|fuel IH]; intros T pos; [apply keeps_services_refl|].
  cbn [fib_figs]. cbv zeta.
  repeat case_match; try apply keeps_services_refl.
  eapply keeps_services_trans; [apply process_fig_keeps|apply IH].
Qed.

Lemma process_fib_keeps T fib : keeps_services T (process_fib T fib).
Proof.
  unfold process_fib. case_match; [apply fib_figs_keeps|apply keeps_services_refl].
Qed.

Lemma process_fic_keeps T fic_data fic_len :
  keeps_services T (process_fic T fic_data fic_len).
Proof.
  unfold process_fic. generalize 0. generalize (Z.to_nat (fic_len / 32)).
  intros fuel. revert T.
  induction fuel as [|fuel IH]; intros T offset; [apply keeps_services_refl|].
  cbn [fic_fibs]. case_match; [apply keeps_services_refl|].
  eapply keeps_services_trans; [apply process_fib_keeps|apply IH].
Qed.

Lemma keeps_services_size T T' :
  keeps_services T T' -> map_size (service_map_ T') = 0 ->
  map_size (service_map_ T) = 0.
Proof.
  unfold map_size. intros Hk H0.
  assert (service_map_ T' = ∅) as E by (apply map_size_empty_iff; lia).
  assert (service_map_ T = ∅) as ->; [|done].
  apply map_empty. intros k.
  destruct (service_map_ T !! k) eqn:Ek; [|done].
  destruct (Hk k) as [x Hx]; [by eexists|]. by rewrite E in Hx.
Qed.

Lemma filter_all {A} (f : A -> bool) (l : list A) :
  length (List.filter f l) = length l -> Forall (fun x => f x = true) l.
Proof.
  induction l as [|x l IH]; [constructor|]. cbn [List.filter].
  pose proof (List.filter_length_le f l).
  destruct (f x) eqn:E; cbn [length]; intros Hlen; [|lia].
  constructor; [done|]. apply IH. lia.
Qed.

Lemma length_keys_in_order {V} (m : gmap Z V) :
  Z.of_nat (length (keys_in_order m)) = map_size m.
Proof.
  unfold keys_in_order, map_size.
  rewrite (Permutation_length (merge_sort_Permutation _ _)).
  by rewrite <- size_dom.
Qed.

Lemma count_keys_all {V} (test : Z -> bool) (m : gmap Z V) k :
  count_keys test m = map_size m -> is_Some (m !! k) -> test k = true.
Proof.
  unfold count_keys. rewrite <- length_keys_in_order. intros Hc Hk.
  apply Nat2Z.inj, filter_all in Hc.
  rewrite Forall_forall in Hc. apply Hc.
  unfold keys_in_order. rewrite merge_sort_Permutation.
  by apply elem_of_elements, elem_of_dom.
Qed.

Lemma step_unlabelled s frame :
  labelled_ s = false ->
  let s' := (process_eti_frame s frame (len_ frame)).1 in
  if carries_fic frame then
    keeps_services (fig s) (fig s')
    /\ (labelled_ s', last_service_count_ s', stable_frames_ s')
       = track_completion s (fig s')
  else
    fig s' = fig s /\ labelled_ s' = false
    /\ last_service_count_ s' = last_service_count_ s
    /\ stable_frames_ s' = stable_frames_ s.
Proof.
  intros Hl. unfold process_eti_frame, carries_fic. rewrite Hl.
  cbv zeta.
  set (fc := parse_fc (advance frame 4)).
  set (stc_end := 8 + ETI_FC.nst fc * 4 + 4).
  set (fic_len := (if ETI_FC.mid fc =? 3 then 32 else 24) * 4).
  pose proof (process_fic_keeps (fig s) (advance frame stc_end) fic_len) as Hkeep.
  set (T := process_fic (fig s) (advance frame stc_end) fic_len) in *.
  clearbody T fic_len stc_end fc.
  generalize (read_32b frame =? ETI_NI_FSYNC0), (read_32b frame =? ETI_NI_FSYNC1).
  intros b0 b1.
  destruct (Z.ltb_spec (len_ frame) 8) as [H8|H8].
  { destruct (Z.leb_spec 8 (len_ frame)); [lia|]. done. }
  destruct (Z.leb_spec 8 (len_ frame)); [|lia]. cbn [andb].
  destruct b0, b1; cbn [negb andb orb]; try done.
  all: destruct (ETI_FC.ficf fc =? 0) eqn:Ef; cbn [negb andb orb]; try done.
  all: destruct (Z.ltb_spec (len_ frame) (stc_end + fic_len));
    (destruct (Z.leb_spec (stc_end + fic_len) (len_ frame)); [|try lia]); try lia;
    try done.
  all: destruct (track_basic_ready s T) as [[br lb] bs].
  all: destruct (track_completion s T) as [[lab lc] sf] eqn:Et.
  all: cbn [fst snd fig ensemble_ labelled_ last_service_count_ stable_frames_];
    by rewrite Et.
Qed.

Lemma returns_labelled s frame len :
  labelled_ s = false ->
  (process_eti_frame s frame len).2 = labelled_ (process_eti_frame s frame len).1.
Proof.
  intros Hl. unfold process_eti_frame. rewrite Hl. cbv zeta.
  generalize (read_32b frame =? ETI_NI_FSYNC0), (read_32b frame =? ETI_NI_FSYNC1).
  intros b0 b1.
  repeat case_match; done.
Qed.

Lemma track_completion_cases s T :
  let '(lab, lc, sf) := track_completion s T in
  (map_size (service_map_ T) = 0 /\ lab = false
   /\ lc = last_service_count_ s /\ sf = stable_frames_ s)
  \/ (map_size (service_map_ T) <> 0 /\ lab = false
      /\ lc = map_size (service_map_ T) /\ sf = 0)
  \/ (map_size (service_map_ T) <> 0
      /\ map_size (service_map_ T) = last_service_count_ s
      /\ lc = last_service_count_ s /\ sf = usize (stable_frames_ s + 1)
      /\ (lab = true ->
          count_keys (has_label T) (service_map_ T) = map_size (service_map_ T)
          /\ ensemble_label_ T <> [] /\ 10 <= sf)).
Proof.
  unfold track_completion.
  destruct (Z.eqb_spec (map_size (service_map_ T)) 0) as [E0|E0]; cbn [negb].
  { by left. }
  destruct (Z.eqb_spec (map_size (service_map_ T)) (last_service_count_ s)) as [El|El];
    cbn [negb]; cbv beta iota zeta; right.
  - right. repeat split; try done.
    + apply andb_true_iff in H as [H _]. apply andb_true_iff in H as [H _].
      by apply Z.eqb_eq in H.
    + apply andb_true_iff in H as [H _]. apply andb_true_iff in H as [_ H].
      by apply negb_true_iff, bool_decide_eq_false in H.
    + apply andb_true_iff in H as [_ H]. by apply Z.leb_le in H.
  - left. by rewrite andb_false_r.
Qed.

Lemma feed_frames_snoc s frames frame :
  feed_frames s (frames ++ [frame])
  = (process_eti_frame (feed_frames s frames) frame (len_ frame)).1.
Proof. unfold feed_frames. by rewrite fold_left_app. Qed.

Lemma states_along_snoc frames frame : forall s,
  states_along s (frames ++ [frame])
  = states_along s frames ++ [feed_frames s (frames ++ [frame])].
Proof.
  induction frames as [|f frames IH]; intros s; [done|].
  cbn [app states_along]. by rewrite IH.
Qed.

Lemma usize_le x : 0 <= x -> 0 <= usize x <= x.
Proof. unfold usize. intros. change (2 ^ 64) with 18446744073709551616. divmod_lia. Qed.

Lemma count_stable_extend frames frame n n' :
  service_count (feed_frames init (frames ++ [frame]))
  = service_count (feed_frames init frames) ->
  count_stable_for frames n ->
  n' <= n + (if carries_fic frame then 1 else 0) ->
  count_stable_for (frames ++ [frame]) n'.
Proof.
  intros Hc (pre & window & -> & Hn & Hall) Hn'.
  exists pre, (window ++ [frame]). split; [by rewrite app_assoc|]. split.
  - rewrite List.filter_app, length_app. cbn [List.filter].
    destruct (carries_fic frame); cbn [length]; lia.
  - rewrite states_along_snoc, Forall_app. split.
    + eapply Forall_impl; [done|]. intros st Hst. cbv beta in *. congruence.
    + constructor; [|constructor].
      unfold feed_frames. by rewrite <- fold_left_app, app_assoc.
Qed.

Lemma count_stable_restart frames : count_stable_for frames 0.
Proof.
  exists frames, []. rewrite app_nil_r. split; [done|]. split; [done|].
  by constructor.
Qed.

Lemma labelled_stays s frame len :
  labelled_ s = true -> labelled_ (process_eti_frame s frame len).1 = true.
Proof. intros H. unfold process_eti_frame. by rewrite H. Qed.

Lemma stability_invariant frames :
  let s := feed_frames init frames in
  labelled_ s = false ->
  0 <= stable_frames_ s
  /\ last_service_count_ s = service_count s
  /\ count_stable_for frames (stable_frames_ s).
Proof.
  induction frames as [|frame frames IH] using rev_ind.
  { intros s _. repeat split; try done. apply count_stable_restart. }
  intros s' Hl'. subst s'. rewrite feed_frames_snoc in *.
  set (s := feed_frames init frames) in *.
  assert (labelled_ s = false) as Hl.
  { destruct (labelled_ s) eqn:E; [|done].
    by rewrite (labelled_stays s frame (len_ frame) E) in Hl'. }
  destruct (IH Hl) as (Hpos & Hlast & Hwin).
  pose proof (step_unlabelled s frame Hl) as Hstep. cbv zeta in Hstep.
  set (s' := (process_eti_frame s frame (len_ frame)).1) in *.
  destruct (carries_fic frame) eqn:Ecf.
  - destruct Hstep as [Hkeep Htrack].
    pose proof (track_completion_cases s (fig s')) as Hcases.
    rewrite <- Htrack in Hcases.
    destruct Hcases as [(H0 & _ & Hlc & Hsf) | [(Hne & _ & Hlc & Hsf)
                        | (Hne & Heq & Hlc & Hsf & _)]].
    + pose proof (keeps_services_size _ _ Hkeep H0) as H0'.
      assert (service_count s' = service_count s) as Hc
        by (unfold service_count; lia).
      rewrite Hlc, Hsf. split; [done|]. split; [unfold service_count in *; lia|].
      eapply count_stable_extend; [by rewrite feed_frames_snoc| done|].
      rewrite Ecf. lia.
    + rewrite Hlc, Hsf. split; [done|]. split; [reflexivity|].
      apply count_stable_restart.
    + assert (service_count s' = service_count s) as Hc
        by (unfold service_count in *; lia).
      rewrite Hlc, Hsf. pose proof (usize_le (stable_frames_ s + 1) ltac:(lia)).
      split; [lia|]. split; [unfold service_count in *; lia|].
      eapply count_stable_extend; [by rewrite feed_frames_snoc| done|].
      rewrite Ecf. lia.
  - destruct Hstep as (Hfig & _ & Hlc & Hsf).
    assert (service_count s' = service_count s) as Hc
      by (unfold service_count; by rewrite Hfig).
    rewrite Hlc, Hsf. split; [done|]. split; [lia|].
    eapply count_stable_extend; [by rewrite feed_frames_snoc| done|].
    rewrite Ecf. lia.
Qed.
End completion.

(** C3.  In a run from the initial parser, when [process_eti_frame] reports
    complete on a frame it processes (the parser was not complete before),
    every service of the service map has a label, the ensemble label is
    present, the frame carries a FIC and leaves the service count as it was,
    and the service count has been the same over a run of frames, ending with
    this one, of which at least 10 were processed for their FIC. *)
Theorem complete_requires_labels_and_stability (frames : list bytes) (frame : bytes) :
  let s := DABParser.feed_frames DABParser.init frames in
  let s' := (DABParser.process_eti_frame s frame (len_ frame)).1 in
  DABParser.is_complete s = false ->
  (DABParser.process_eti_frame s frame (len_ frame)).2 = true ->
  (forall sid,
     is_Some (DABParser.service_map_ (DABParser.fig s') !! sid) ->
     is_Some (DABParser.service_labels_ (DABParser.fig s') !! sid))
  /\ DABParser.ensemble_label_ (DABParser.fig s') <> []
  /\ carries_fic frame = true
  /\ service_count s' = service_count s
  /\ count_stable_for (frames ++ [frame]) 10.
Proof.
  intros s s' Hl Hret. unfold DABParser.is_complete in Hl.
  rewrite (returns_labelled s frame (len_ frame) Hl) in Hret. fold s' in Hret.
  destruct (stability_invariant frames Hl) as (Hpos & Hlast & Hwin).
  fold s in Hpos, Hlast, Hwin.
  pose proof (step_unlabelled s frame Hl) as Hstep. cbv zeta in Hstep. fold s' in Hstep.
  destruct (carries_fic frame) eqn:Ecf; [|destruct Hstep as (_ & E & _); congruence].
  destruct Hstep as [Hkeep Htrack].
  pose proof (track_completion_cases s (DABParser.fig s')) as Hcases.
  rewrite <- Htrack in Hcases.
  destruct Hcases as [(_ & E & _) | [(_ & E & _) | (Hne & Heq & Hlc & Hsf & Hdone)]];
    try congruence.
  destruct (Hdone Hret) as (Hall & Hens & Hten).
  assert (service_count s' = service_count s) as Hc
    by (unfold service_count in *; lia).
  split.
  { intros sid Hsid.
    pose proof (count_keys_all _ _ sid Hall Hsid) as Hlab.
    unfold DABParser.has_label in Hlab. by apply bool_decide_eq_true in Hlab. }
  split; [done|]. split; [done|]. split; [done|].
  eapply count_stable_extend.
  - rewrite feed_frames_snoc. exact Hc.
  - exact Hwin.
  - rewrite Ecf. pose proof (usize_le (DABParser.stable_frames_ s + 1) ltac:(lia)). lia.
Qed.

Lemma complete_requires_labels_and_stability_witness :
  let frame := frame_without_subchannels in
  let s := DABParser.feed_frames DABParser.init (replicate 10 frame) in
  let s' := (DABParser.process_eti_frame s frame (len_ frame)).1 in
  (forall sid,
     is_Some (DABParser.service_map_ (DABParser.fig s') !! sid) ->
     is_Some (DABParser.service_labels_ (DABParser.fig s') !! sid))
  /\ DABParser.ensemble_label_ (DABParser.fig s') <> []
  /\ carries_fic frame = true
  /\ service_count s' = service_count s
  /\ count_stable_for (replicate 10 frame ++ [frame]) 10.
Proof.
  apply (complete_requires_labels_and_stability
           (replicate 10 frame_without_subchannels) frame_without_subchannels);
    by vm_compute.
Defined.

(** ** Services of a complete ensemble *)

(** C5 fails on a stream that announces and labels a service but never
    describes its sub-channel.  After eleven frames carrying FIG 0/2, FIG 1/1
    and FIG 1/0 and no FIG 0/1, the parser reports complete; the sub-channel
    map is empty, service 0x1234 has primary sub-channel 5 in the service
    map, and [build_ensemble] has pushed the service with the members that
    describe its sub-channel never written. *)
Theorem complete_ensemble_lacks_subchannel :
  let s :=
    DABParser.feed_frames DABParser.init (replicate 11 frame_without_subchannels) in
  DABParser.is_complete s = true
  /\ DABParser.subchannels_ (DABParser.fig s) = ∅
  /\ ServiceInfo.primary_subch <$> (DABParser.service_map_ (DABParser.fig s) !! 0x1234)
     = Some 5
  /\ map (fun svc => (DABService.sid svc, DABService.subchannel_id svc))
       (DABEnsemble.services (DABParser.get_ensemble s))
     = [(0x1234, None)].
Proof. by vm_compute. Qed.

(** ** Sub-channel changes after completion *)

(** Once complete, the FIC parser no longer looks at the frames: a call
    only counts. *)
Lemma process_eti_frame_when_complete s frame len :
  DABParser.labelled_ s = true ->
  let s' := (DABParser.process_eti_frame s frame len).1 in
  DABParser.fig s' = DABParser.fig s
  /\ DABParser.ensemble_ s' = DABParser.ensemble_ s
  /\ DABParser.labelled_ s' = true
  /\ (DABParser.process_eti_frame s frame len).2 = true.
Proof. intros H. unfold DABParser.process_eti_frame. by rewrite H. Qed.

Section subchannel_tracking.
Import EnsembleManager.

Lemma assemble_eti_frame_frozen s s' frames :
  DABStreamParser.assemble_eti_frame s = Some (s', frames) ->
  DABStreamParser.is_complete s = true ->
  DABStreamParser.is_complete s' = true
  /\ DABStreamParser.get_ensemble s' = DABStreamParser.get_ensemble s.
Proof.
  unfold DABStreamParser.assemble_eti_frame, DABStreamParser.is_complete,
    DABStreamParser.get_ensemble, DABParser.is_complete, DABParser.get_ensemble.
  intros H Hc.
  destruct (negb _); [by injection H as <- <-|].
  destruct (DABStreamParser.eti_frame_bytes _) as [eti|]; [|done].
  cbn [mbind option_bind] in H.
  apply (f_equal (fmap fst)) in H. cbn [fmap option_fmap option_map fst] in H.
  injection H as <-. cbn [DABStreamParser.fic_parser_].
  destruct (process_eti_frame_when_complete (DABStreamParser.fic_parser_ s) eti
              ETI_NI_RAW_SIZE Hc) as (_ & He & Hl & _).
  done.
Qed.

Lemma handle_edi_packet_frozen s pkt len s' frames :
  DABStreamParser.handle_edi_packet s pkt len = Some (s', frames) ->
  DABStreamParser.is_complete s = true ->
  DABStreamParser.is_complete s' = true
  /\ DABStreamParser.get_ensemble s' = DABStreamParser.get_ensemble s.
Proof.
  unfold DABStreamParser.handle_edi_packet. intros H Hc.
  destruct (len <? 2); [by injection H as <- <-|].
  destruct (_ && _).
  { destruct (DABStreamParser.handle_af_packet _ _ _) as [[edi' ok]|]; [|done].
    cbn [mbind option_bind] in H. destruct ok.
    - by apply assemble_eti_frame_frozen in H.
    - by injection H as <- <-. }
  destruct (_ && _); [|by injection H as <- <-].
  destruct (DABStreamParser.handle_pf_packet s pkt len) as [[s1 ok]|] eqn:Hpf; [|done].
  cbn [mbind option_bind] in H.
  assert (DABStreamParser.fic_parser_ s1 = DABStreamParser.fic_parser_ s) as Hsame.
  { unfold DABStreamParser.handle_pf_packet in Hpf.
    destruct (PF_Reassembler.parse_pf_header pkt len); [|by injection Hpf as <- <-].
    destruct (PF_Reassembler.add_fragment _ _ _ _) as [pf af].
    destruct af as [af_data|]; [|by injection Hpf as <- <-].
    destruct (0 <? len_ af_data); [|by injection Hpf as <- <-].
    destruct (DABStreamParser.handle_af_packet _ _ _) as [[edi' ok']|]; [|done].
    cbn [mbind option_bind] in Hpf. by injection Hpf as <- <-. }
  assert (DABStreamParser.is_complete s1 = true
          /\ DABStreamParser.get_ensemble s1 = DABStreamParser.get_ensemble s) as [H1 H2].
  { unfold DABStreamParser.is_complete, DABStreamParser.get_ensemble in *.
    by rewrite Hsame. }
  destruct ok.
  - apply assemble_eti_frame_frozen in H; [|done]. destruct H. split; congruence.
  - by injection H as <- <-.
Qed.

Lemma process_edi_packet_complete p payload len p' complete frames :
  DABStreamParser.process_edi_packet p payload len = Some (p', complete, frames) ->
  complete = DABStreamParser.is_complete p'
  /\ (DABStreamParser.is_complete p = true ->
      DABStreamParser.is_complete p' = true
      /\ DABStreamParser.get_ensemble p' = DABStreamParser.get_ensemble p).
Proof.
  unfold DABStreamParser.process_edi_packet. intros H.
  destruct (0 <? len).
  - destruct (DABStreamParser.handle_edi_packet p payload len) as [[s' fr]|] eqn:E;
      [|done].
    cbn [mbind option_bind] in H. injection H as <- <- <-.
    split; [done|]. intros Hc. by apply (handle_edi_packet_frozen _ _ _ _ _ E).
  - injection H as <- <- <-. by split.
Qed.

Lemma omap_none {A B} (f : A -> option B) (l : list A) :
  (forall x, f x = None) -> omap f l = [].
Proof. intros Hf. induction l as [|x l IH]; [done|]. cbn. by rewrite Hf. Qed.

Lemma no_difference (m : gmap Z (option Z)) :
  added_or_changed m m ++ removed m m = [].
Proof.
  unfold added_or_changed, removed. rewrite !omap_none; [done| |].
  - intros sid. by destruct (m !! sid).
  - intros sid. destruct (m !! sid); [|done]. by rewrite bool_decide_eq_true_2.
Qed.

Lemma changes_of_app ev1 ev2 : changes_of (ev1 ++ ev2) = changes_of ev1 ++ changes_of ev2.
Proof. apply omap_app. Qed.

Lemma changes_of_frames key (frames : list (bytes * Z)) :
  changes_of (map (fun '(data, dflc) => EtiFrame key data ETI_NI_RAW_SIZE dflc) frames) = [].
Proof. induction frames as [|[data dflc] frames IH]; [done|]. by cbn. Qed.

Lemma getParser_sound m key parser m0 :
  getParser m key = (parser, m0) ->
  udp_tracking_sound m ->
  udp_tracking_sound m0
  /\ parsers_ m0 !! key = Some parser
  /\ last_subchannel_map_ m0 = last_subchannel_map_ m.
Proof.
  unfold getParser. intros H Hm.
  destruct (parsers_ m !! key) as [p|] eqn:Ep; injection H as <- <-; [done|].
  split; [|split; [apply lookup_insert_eq|done]].
  intros key'. specialize (Hm key'). unfold flag in *.
  cbn [complete_flags_ parsers_ last_subchannel_map_].
  destruct (decide (key' = key)) as [->|Hne].
  - rewrite lookup_insert_eq. cbn [default].
    destruct (default false (complete_flags_ m !! key)); [|done].
    destruct Hm as (p & Hp & _). congruence.
  - by rewrite !lookup_insert_ne.
Qed.

Lemma track_subchannels_same last key ens :
  last !! key = Some (subchannel_map_of ∅ (DABEnsemble.services ens)) ->
  track_subchannels last key ens = (last, []).
Proof.
  intros H. unfold track_subchannels. rewrite H. cbn [default].
  rewrite no_difference, bool_decide_eq_true_2 by done.
  by rewrite insert_id.
Qed.

Lemma processUdp_tracking m dst_ip dst_port payload len m' events :
  udp_tracking_sound m ->
  processUdp m dst_ip dst_port payload len = Some (m', events) ->
  udp_tracking_sound m' /\ changes_of events = [].
Proof.
  intros Hm H. unfold processUdp in H.
  set (key := (dst_ip, dst_port)) in *.
  destruct (getParser m key) as [p m0] eqn:Hget.
  destruct (getParser_sound m key p m0 Hget Hm) as (Hm0 & Hp & Hlast).
  destruct (DABStreamParser.process_edi_packet p payload len)
    as [[[p' complete] frames]|] eqn:Hedi; [|done].
  cbn [mbind option_bind] in H. cbv zeta in H.
  destruct (process_edi_packet_complete _ _ _ _ _ _ Hedi) as [Hc Hfrozen].
  pose proof (Hm0 key) as Hkey. rewrite <- Hlast in H.
  set (l1 := if complete && negb (flag (complete_flags_ m0) key)
             then <[key := subchannel_map_of _ _]> _ else _) in H.
  set (cf1 := if complete then _ else complete_flags_ m0) in H.
  assert (flag cf1 key = complete || flag (complete_flags_ m0) key) as Hcf1.
  { subst cf1. destruct complete; [|done]. unfold flag. by rewrite lookup_insert_eq. }
  assert (if flag cf1 key
          then l1 !! key
               = Some (subchannel_map_of ∅
                         (DABEnsemble.services (DABStreamParser.get_ensemble p')))
               /\ DABStreamParser.is_complete p' = true
          else l1 !! key = None) as Hl1.
  { rewrite Hcf1. subst l1.
    destruct (flag (complete_flags_ m0) key) eqn:Hf.
    - destruct Hkey as (p0 & Hp0 & Hcomp & Hl). rewrite Hp in Hp0. injection Hp0 as <-.
      destruct (Hfrozen Hcomp) as [Hc' He]. rewrite He.
      rewrite orb_true_r, andb_false_r. done.
    - rewrite orb_false_r, andb_true_r. destruct complete; [|done].
      rewrite lookup_insert_eq, Hkey. cbn [default]. split; congruence. }
  assert (forall key', key' <> key ->
            l1 !! key' = last_subchannel_map_ m0 !! key') as Hl1ne.
  { intros key' Hne. subst l1.
    destruct (complete && negb (flag (complete_flags_ m0) key)); [|done].
    by rewrite lookup_insert_ne. }
  assert (forall key', key' <> key ->
            flag (<[key := flag cf1 key]> cf1) key' = flag (complete_flags_ m0) key')
    as Hcfne.
  { intros key' Hne. unfold flag. rewrite lookup_insert_ne by done.
    subst cf1. destruct complete; [|done]. by rewrite lookup_insert_ne. }
  clearbody l1 cf1.
  destruct (if flag cf1 key && subchannel_change_callback_ m
            then track_subchannels l1 key (DABStreamParser.get_ensemble p')
            else (l1, [])) as [last2 ev_change] eqn:Htrack.
  assert (last2 = l1 /\ ev_change = []) as [-> ->].
  { destruct (flag cf1 key) eqn:Hf; cbn [andb] in Htrack.
    - destruct (subchannel_change_callback_ m).
      + destruct Hl1 as [Hl1 _]. rewrite (track_subchannels_same _ _ _ Hl1) in Htrack.
        by injection Htrack as <- <-.
      + by injection Htrack as <- <-.
    - by injection Htrack as <- <-. }
  injection H as <- <-. split.
  - intros key'. cbn [complete_flags_ parsers_ last_subchannel_map_].
    destruct (decide (key' = key)) as [->|Hne].
    + unfold flag at 1. rewrite lookup_insert_eq. cbn [default].
      destruct (flag cf1 key); [|done].
      destruct Hl1 as [Hl1 Hcomp]. exists p'. by rewrite lookup_insert_eq.
    + rewrite Hcfne, Hl1ne, lookup_insert_ne by done. apply Hm0.
  - rewrite !changes_of_app, app_nil_r.
    assert (changes_of (if eti_callback_ m
                        then map (fun '(data, dflc) =>
                                    EtiFrame key data ETI_NI_RAW_SIZE dflc) frames
                        else []) = []) as ->
      by (destruct (eti_callback_ m); [apply changes_of_frames|done]).
    by repeat (destruct (_ && _)).
Qed.

Lemma init_tracking_sound basic_ready complete eti change :
  udp_tracking_sound (init basic_ready complete eti change).
Proof. intros key. by cbn. Qed.

(** So no sequence of calls of [processUdp] on a sound manager, a fresh one
    in particular, ever reports a sub-channel change. *)
Lemma process_udp_all_tracking dst_ip dst_port payloads : forall m m' events,
  udp_tracking_sound m ->
  process_udp_all m dst_ip dst_port payloads = Some (m', events) ->
  udp_tracking_sound m' /\ changes_of events = [].
Proof.
  induction payloads as [|payload payloads IH]; intros m m' events Hm H.
  { by injection H as <- <-. }
  cbn [process_udp_all] in H.
  destruct (processUdp m dst_ip dst_port payload (len_ payload)) as [[m1 ev1]|] eqn:E1;
    [|done].
  cbn [mbind option_bind] in H.
  destruct (process_udp_all m1 dst_ip dst_port payloads) as [[m2 ev2]|] eqn:E2; [|done].
  cbn [mbind option_bind] in H. injection H as <- <-.
  destruct (processUdp_tracking _ _ _ _ _ _ _ Hm E1) as [Hm1 Hev1].
  destruct (IH _ _ _ Hm1 E2) as [Hm2 Hev2].
  split; [done|]. by rewrite changes_of_app, Hev1, Hev2.
Qed.
End subchannel_tracking.

(** C9 fails.  Eleven EDI packets that put service 0x1234 in sub-channel 5
    complete the stream.  Twelve more packets that put it in sub-channel 6
    produce ETI frames and nothing else: no sub-channel change is reported
    and the parser still holds sub-channel 5, although a fresh parser fed
    the second kind of packet reports sub-channel 6. *)
Theorem no_subchannel_change_after_complete :
  let ip := 0xEFC70201 in
  let port := 1234 in
  let m0 := EnsembleManager.init true true true true in
  let report (r : option (EnsembleManager.t * list event)) :=
    '(m, events) ← r;
    Some (length events, changes_of events,
          (fun c => (c.1, service_subchannels c.2)) <$> completions_of events,
          (fun p => service_subchannels (DABStreamParser.get_ensemble p))
            <$> (EnsembleManager.parsers_ m !! (ip, port))) in
  let first :=
    EnsembleManager.process_udp_all m0 ip port (replicate 11 edi_packet_service_in_5) in
  let second :=
    '(m1, _) ← first;
    EnsembleManager.process_udp_all m1 ip port (replicate 12 edi_packet_service_in_6) in
  let fresh :=
    EnsembleManager.process_udp_all m0 ip port (replicate 11 edi_packet_service_in_6) in
  report first
  = Some (13%nat, [], [((ip, port), [(0x1234, Some 5)])], Some [(0x1234, Some 5)])
  /\ report second = Some (12%nat, [], [], Some [(0x1234, Some 5)])
  /\ report fresh
     = Some (13%nat, [], [((ip, port), [(0x1234, Some 6)])], Some [(0x1234, Some 6)]).
Proof. by vm_compute. Qed.

(** ** Order of the callbacks of [processEtiFrame] *)

Section basic_ready_order.
Import EnsembleManager.

Lemma basic_ready_stays s frame len :
  DABParser.basic_ready_ s = true ->
  DABParser.basic_ready_ (DABParser.process_eti_frame s frame len).1 = true.
Proof.
  intros H. unfold DABParser.process_eti_frame. cbv zeta.
  generalize (read_32b frame =? ETI_NI_FSYNC0), (read_32b frame =? ETI_NI_FSYNC1).
  intros b0 b1.
  unfold DABParser.track_basic_ready. rewrite H. cbn [negb andb].
  repeat case_match; done.
Qed.

Lemma processEtiFrame_callbacks m pid frame len :
  let m' := (processEtiFrame m pid frame len).1 in
  basic_ready_callback_ m' = basic_ready_callback_ m
  /\ eti_callback_ m' = eti_callback_ m.
Proof.
  unfold processEtiFrame. by destruct (etina_parsers_ m !! pid).
Qed.

Lemma processEtiFrame_sound m pid frame len :
  etina_flags_sound m -> etina_flags_sound (processEtiFrame m pid frame len).1.
Proof.
  intros Hm pid'. unfold processEtiFrame.
  destruct (etina_parsers_ m !! pid) as [p|] eqn:Ep; cbv zeta;
    cbn [fst basic_ready_flags_ etina_parsers_].
  all: set (p' := (DABParser.process_eti_frame _ frame len).1).
  all: destruct (decide (pid' = pid)) as [->|Hne].
  - rewrite lookup_insert_eq. intros Hflag. exists p'. split; [done|].
    destruct (DABParser.is_basic_ready p') eqn:E; [done|].
    destruct (Hm pid Hflag) as (p0 & Hp0 & Hready).
    rewrite Ep in Hp0. injection Hp0 as <-.
    subst p'. unfold DABParser.is_basic_ready in *.
    by rewrite basic_ready_stays in E.
  - rewrite lookup_insert_ne by done. intros Hflag. apply Hm.
    destruct (DABParser.is_basic_ready p'); [|done].
    assert ((pid, 0) <> (pid', 0)) as Hkey by congruence.
    unfold flag in *. by rewrite lookup_insert_ne in Hflag by done.
  - rewrite lookup_insert_eq. intros Hflag. exists p'. split; [done|].
    destruct (DABParser.is_basic_ready p') eqn:E; [done|].
    unfold flag in Hflag. by rewrite lookup_insert_eq in Hflag.
  - rewrite lookup_insert_ne by done. intros Hflag. apply Hm.
    assert ((pid, 0) <> (pid', 0)) as Hkey by congruence.
    unfold flag in *.
    destruct (DABParser.is_basic_ready p');
      by rewrite !lookup_insert_ne in Hflag by done.
Qed.

Lemma process_eti_all_snoc m calls pid frame :
  process_eti_all m (calls ++ [(pid, frame)])
  = let '(m1, ev1) := process_eti_all m calls in
    let '(m2, ev2) := processEtiFrame m1 pid frame (len_ frame) in
    (m2, ev1 ++ ev2).
Proof.
  unfold process_eti_all. rewrite fold_left_app. cbn [fold_left].
  by destruct (fold_left _ calls _) as [m1 ev1].
Qed.

Lemma process_eti_all_sound basic_ready complete eti change calls :
  let m := (process_eti_all (init basic_ready complete eti change) calls).1 in
  etina_flags_sound m
  /\ basic_ready_callback_ m = basic_ready /\ eti_callback_ m = eti.
Proof.
  induction calls as [|[pid frame] calls IH] using rev_ind.
  { split; [|done]. intros pid. by cbn. }
  rewrite process_eti_all_snoc. cbv zeta in *.
  destruct (process_eti_all _ calls) as [m1 ev1]. cbn [fst] in IH.
  destruct IH as (Hsound & Hb & He).
  pose proof (processEtiFrame_sound m1 pid frame (len_ frame) Hsound) as Hs.
  pose proof (processEtiFrame_callbacks m1 pid frame (len_ frame)) as Hc.
  cbv zeta in Hc.
  destruct (processEtiFrame m1 pid frame (len_ frame)) as [m2 ev2].
  cbn [fst] in *. destruct Hc as [Hc1 Hc2]. split; [done|]. split; congruence.
Qed.
End basic_ready_order.

(** C4.  In a manager fed through [processEtiFrame], with the basic-ready
    and ETI callbacks installed: on the frame that turns the parser of a PID
    from not basic-ready to basic-ready, the events of the call start with
    the basic-ready callback, followed by the ETI callback for that frame. *)
Theorem basic_ready_precedes_eti_frame (complete change : bool)
    (calls : list (Z * bytes)) (pid : Z) (frame : bytes) :
  let m :=
    (EnsembleManager.process_eti_all
       (EnsembleManager.init true complete true change) calls).1 in
  let before := default DABParser.init (EnsembleManager.etina_parsers_ m !! pid) in
  let after := (DABParser.process_eti_frame before frame (len_ frame)).1 in
  DABParser.is_basic_ready before = false ->
  DABParser.is_basic_ready after = true ->
  exists rest,
    (EnsembleManager.processEtiFrame m pid frame (len_ frame)).2
    = BasicReady (pid, 0) (DABParser.get_ensemble after)
        :: EtiFrame (pid, 0) frame (len_ frame) 0 :: rest.
Proof.
  intros m before after Hbefore Hafter.
  destruct (process_eti_all_sound true complete true change calls)
    as (Hsound & Hb & He). fold m in Hsound, Hb, He.
  assert (EnsembleManager.flag (EnsembleManager.basic_ready_flags_ m) (pid, 0) = false)
    as Hflag.
  { destruct (EnsembleManager.flag (EnsembleManager.basic_ready_flags_ m) (pid, 0))
      eqn:E; [|done].
    destruct (Hsound pid E) as (p & Hp & Hready).
    subst before. rewrite Hp in Hbefore. cbn in Hbefore. congruence. }
  unfold EnsembleManager.processEtiFrame. subst after before.
  destruct (EnsembleManager.etina_parsers_ m !! pid) as [p|] eqn:Ep; cbv zeta;
    cbn [default snd] in *; unfold id in *.
  - rewrite Hafter, Hflag, Hb, He. cbn. by eexists.
  - rewrite Hafter, Hb, He. unfold EnsembleManager.flag. rewrite lookup_insert_eq. cbn. by eexists.
Qed.

Lemma basic_ready_precedes_eti_frame_witness :
  let frame := frame_with_subchannels in
  let m :=
    (EnsembleManager.process_eti_all (EnsembleManager.init true true true true)
       (replicate 3 (100, frame))).1 in
  let before := default DABParser.init (EnsembleManager.etina_parsers_ m !! 100) in
  let after := (DABParser.process_eti_frame before frame (len_ frame)).1 in
  exists rest,
    (EnsembleManager.processEtiFrame m 100 frame (len_ frame)).2
    = BasicReady (100, 0) (DABParser.get_ensemble after)
        :: EtiFrame (100, 0) frame (len_ frame) 0 :: rest.
Proof.
  apply (basic_ready_precedes_eti_frame true true
           (replicate 3 (100, frame_with_subchannels)) 100 frame_with_subchannels);
    by vm_compute.
Defined.

(** * Further properties of the code *)

Section tables_growth.
Import DABParser.

Lemma tables_grow_refl T : tables_grow T T.
Proof. by repeat split. Qed.

Lemma tables_grow_trans T1 T2 T3 :
  tables_grow T1 T2 -> tables_grow T2 T3 -> tables_grow T1 T3.
Proof.
  intros (A1 & B1 & C1 & D1) (A2 & B2 & C2 & D2).
  repeat split; intros k Hk; auto.
Qed.

#[local] Hint Resolve tables_grow_refl : core.

Lemma fig_0_1_grows data len : forall fuel subch pos k,
  is_Some (subch !! k) -> is_Some (fig_0_1 fuel subch data len pos !! k).
Proof.
  induction fuel as [|fuel IH]; intros subch pos k Hk; [done|].
  cbn [fig_0_1]. cbv zeta.
  repeat case_match; try done; apply IH; rewrite lookup_insert_is_Some'; by right.
Qed.

Lemma fig_0_2_components_grows data len : forall n subch info pos k,
  is_Some (subch !! k) ->
  is_Some ((fig_0_2_components n subch info data len pos).1.1 !! k).
Proof.
  induction n as [|n IH]; intros subch info pos k Hk; [done|].
  cbn [fig_0_2_components]. cbv zeta.
  repeat case_match; try done; apply IH; try done.
  all: rewrite lookup_insert_is_Some'; by right.
Qed.

Lemma fig_0_2_grows data len pd : forall fuel T pos,
  tables_grow T (fig_0_2 fuel T data len pd pos).
Proof.
  induction fuel as [|fuel IH]; intros T pos; [done|].
  cbn [fig_0_2]. cbv zeta.
  destruct (len <? pos + _); [done|].
  pose proof (fun k => fig_0_2_components_grows data len
                (Z.to_nat (at_ data (if pd =? 0 then pos + 2 else pos + 4) .& 15))
                (subchannels_ T)
                (ServiceInfo.mk
                   (if pd =? 0 then at_ data pos ≪ 8 .| at_ data (pos + 1)
                    else u32 (at_ data pos ≪ 24 .| at_ data (pos + 1) ≪ 16
                              .| at_ data (pos + 2) ≪ 8 .| at_ data (pos + 3)))
                   (-1) (-1))
                ((if pd =? 0 then pos + 2 else pos + 4) + 1) k) as Hc.
  destruct (fig_0_2_components _ _ _ _ _ _) as [[subch info] pos3].
  cbn [fst] in Hc.
  eapply tables_grow_trans; [|apply IH].
  destruct (0 <=? ServiceInfo.primary_subch info);
    repeat split; intros k Hk;
    cbn [set_service_map set_subchannels service_map_ service_labels_ subchannels_
         packet_mode_map_]; auto.
  rewrite lookup_insert_is_Some'. by right.
Qed.

Lemma fig_0_3_grows data len : forall fuel pm pos k,
  is_Some (pm !! k) -> is_Some (fig_0_3 fuel pm data len pos !! k).
Proof.
  induction fuel as [|fuel IH]; intros pm pos k Hk; [done|].
  cbn [fig_0_3]. cbv zeta.
  case_match; [done|]. apply IH. rewrite lookup_insert_is_Some'. by right.
Qed.

Lemma process_fig_0_grows T data len ext pd :
  tables_grow T (process_fig_0 T data len ext pd).
Proof.
  unfold process_fig_0.
  repeat case_match; try done; try apply fig_0_2_grows;
    repeat split; intros k Hk;
    cbn [set_ensemble_id set_subchannels set_packet_mode_map service_map_
         service_labels_ subchannels_ packet_mode_map_]; auto.
  - by apply fig_0_1_grows.
  - by apply fig_0_3_grows.
Qed.

Lemma process_fig_1_grows T data len ext :
  tables_grow T (process_fig_1 T data len ext).
Proof.
  unfold process_fig_1.
  repeat case_match; try done;
    repeat split; intros k Hk;
    cbn [set_ensemble_id set_ensemble_label set_service_labels service_map_
         service_labels_ subchannels_ packet_mode_map_]; auto.
  rewrite lookup_insert_is_Some'. by right.
Qed.

Lemma process_fig_grows T hdr fig fig_len :
  tables_grow T (process_fig T hdr fig fig_len).
Proof.
  unfold process_fig.
  repeat case_match; try done; [apply process_fig_0_grows|apply process_fig_1_grows].
Qed.

Lemma fib_figs_grows fib : forall fuel T pos,
  tables_grow T (fib_figs fuel T fib pos).
Proof.
  induction fuel as [|fuel IH]; intros T pos; [done|].
  cbn [fib_figs]. cbv zeta.
  repeat case_match; try done.
  eapply tables_grow_trans; [apply process_fig_grows|apply IH].
Qed.

Lemma process_fic_grows T fic_data fic_len :
  tables_grow T (process_fic T fic_data fic_len).
Proof.
  unfold process_fic. generalize 0. generalize (Z.to_nat (fic_len / 32)).
  intros fuel. revert T.
  induction fuel as [|fuel IH]; intros T offset; [done|].
  cbn [fic_fibs]. case_match; [done|].
  eapply tables_grow_trans; [|apply IH].
  unfold process_fib. case_match; [apply fib_figs_grows|done].
Qed.

(** A call either leaves the tables alone or runs [process_fic] on them. *)
Lemma process_eti_frame_tables s frame len :
  fig (process_eti_frame s frame len).1 = fig s
  \/ exists data n, fig (process_eti_frame s frame len).1 = process_fic (fig s) data n.
Proof.
  unfold process_eti_frame. cbv zeta.
  generalize (read_32b frame =? ETI_NI_FSYNC0), (read_32b frame =? ETI_NI_FSYNC1).
  intros b0 b1.
  set (fc := parse_fc (advance frame 4)).
  set (stc_end := 8 + ETI_FC.nst fc * 4 + 4).
  set (fic_len := (if ETI_FC.mid fc =? 3 then 32 else 24) * 4).
  set (T := process_fic (fig s) (advance frame stc_end) fic_len).
  assert (exists data n, T = process_fic (fig s) data n) as HT by by eexists _, _.
  clearbody T fic_len stc_end fc.
  destruct (labelled_ s); [by left|].
  destruct (len <? 8); [by left|].
  destruct (negb b0 && negb b1); [by left|].
  destruct (ETI_FC.ficf fc =? 0); [by left|].
  destruct (len <? stc_end + fic_len); [by left|].
  destruct (track_basic_ready s T) as [[br lb] bs].
  destruct (track_completion s T) as [[lab lc] sf].
  by right.
Qed.
End tables_growth.

(** X1.  Whatever frames are fed, the FIC tables only grow: a service, a
    service label, a sub-channel or a packet-mode component that the parser
    has recorded is still recorded after any further frames. *)
Theorem tables_only_grow (s : DABParser.t) (frames : list bytes) :
  tables_grow (DABParser.fig s) (DABParser.fig (DABParser.feed_frames s frames)).
Proof.
  revert s. induction frames as [|frame frames IH]; intros s; [apply tables_grow_refl|].
  cbn [DABParser.feed_frames fold_left].
  eapply tables_grow_trans; [|apply IH].
  destruct (process_eti_frame_tables s frame (len_ frame)) as [-> | (data & n & ->)].
  - apply tables_grow_refl.
  - apply process_fic_grows.
Qed.

Section ensemble_order.
Import DABParser.

Lemma keys_in_order_sorted {V} (m : gmap Z V) : StronglySorted Z.lt (keys_in_order m).
Proof.
  unfold keys_in_order.
  assert (Sorted Z.le (merge_sort Z.le (elements (dom m)))) as Hs.
  { apply Sorted_merge_sort. intros x y. lia. }
  assert (NoDup (merge_sort Z.le (elements (dom m)))) as Hn.
  { rewrite merge_sort_Permutation. apply NoDup_elements. }
  apply Sorted_StronglySorted in Hs; [|intros x y z; lia].
  induction Hs as [|x l Hs IH Hx]; [constructor|].
  apply NoDup_cons in Hn as [Hnx Hn].
  constructor; [by apply IH|].
  rewrite Forall_forall in Hx |- *. intros y Hy.
  assert (x <> y) by (intros ->; by apply Hnx). specialize (Hx y Hy). lia.
Qed.

Lemma elem_of_keys_in_order {V} (m : gmap Z V) k :
  k ∈ keys_in_order m <-> is_Some (m !! k).
Proof.
  unfold keys_in_order. by rewrite merge_sort_Permutation, elem_of_elements, elem_of_dom.
Qed.

Lemma omap_sorted {A} (f : Z -> option A) (key : A -> Z) (l : list Z) :
  (forall k x, f k = Some x -> key x = k) ->
  StronglySorted Z.lt l ->
  StronglySorted (fun a b => key a < key b) (omap f l).
Proof.
  intros Hkey Hl. induction Hl as [|k l Hl IH Hk]; [constructor|].
  cbn. destruct (f k) as [x|] eqn:E; [|exact IH].
  constructor; [exact IH|].
  rewrite Forall_forall in Hk. apply Forall_forall. intros y Hy.
  apply list_elem_of_omap in Hy as (k' & Hk' & Hf).
  rewrite (Hkey _ _ E), (Hkey _ _ Hf). by apply Hk.
Qed.

Lemma sid_build_service T sid info : DABService.sid (build_service T sid info) = sid.
Proof. unfold build_service. by destruct (subchannels_ T !! _). Qed.

Lemma sorted_lt_unique (l1 l2 : list DABService.t) :
  StronglySorted sid_lt l1 -> Sorted sid_le l2 -> l2 ≡ₚ l1 -> StronglySorted sid_lt l2.
Proof.
  intros H1 H2 Hp.
  assert (NoDup (map DABService.sid l2)) as Hn.
  { rewrite Hp. clear -H1. induction H1 as [|x l Hs IH Hx]; [constructor|].
    cbn [map]. apply NoDup_cons. split; [|done].
    intros Hin. apply list_elem_of_fmap in Hin as (y & Hy & Hin).
    rewrite Forall_forall in Hx. specialize (Hx y Hin). unfold sid_lt in Hx. lia. }
  apply Sorted_StronglySorted in H2; [|intros x y z; unfold sid_le; lia].
  clear -H2 Hn. induction H2 as [|x l Hs IH Hx]; [constructor|].
  cbn [map] in Hn. apply NoDup_cons in Hn as [Hnx Hn].
  constructor; [by apply IH|].
  rewrite Forall_forall in Hx |- *. intros y Hy. specialize (Hx y Hy).
  unfold sid_le, sid_lt in *.
  assert (DABService.sid x <> DABService.sid y); [|lia].
  intros E. apply Hnx. rewrite E. apply list_elem_of_fmap. by exists y.
Qed.

Lemma build_ensemble_sorted T :
  StronglySorted sid_lt (DABEnsemble.services (build_ensemble T)).
Proof.
  unfold build_ensemble. cbn [DABEnsemble.services].
  set (pushed := omap _ _).
  apply (sorted_lt_unique pushed).
  - subst pushed. apply (omap_sorted _ DABService.sid); [|apply keys_in_order_sorted].
    intros k x Hx. destruct (service_map_ T !! k) as [info|]; [|done].
    destruct (_ <? 0); [done|]. injection Hx as <-. apply sid_build_service.
  - apply Sorted_merge_sort. intros x y. unfold sid_le. lia.
  - apply merge_sort_Permutation.
Qed.

Lemma process_eti_frame_ensemble s frame len :
  ensemble_ (process_eti_frame s frame len).1 = ensemble_ s
  \/ exists T, ensemble_ (process_eti_frame s frame len).1 = build_ensemble T.
Proof.
  unfold process_eti_frame. cbv zeta.
  generalize (read_32b frame =? ETI_NI_FSYNC0), (read_32b frame =? ETI_NI_FSYNC1).
  intros b0 b1.
  set (fc := parse_fc (advance frame 4)).
  set (stc_end := 8 + ETI_FC.nst fc * 4 + 4).
  set (fic_len := (if ETI_FC.mid fc =? 3 then 32 else 24) * 4).
  set (T := process_fic (fig s) (advance frame stc_end) fic_len).
  clearbody T fic_len stc_end fc.
  destruct (labelled_ s); [by left|].
  destruct (len <? 8); [by left|].
  destruct (negb b0 && negb b1); [by left|].
  destruct (ETI_FC.ficf fc =? 0); [by left|].
  destruct (len <? stc_end + fic_len); [by left|].
  destruct (track_basic_ready s T) as [[br lb] bs].
  destruct (track_completion s T) as [[lab lc] sf].
  cbn [fst ensemble_]. destruct (negb _); [right; by eexists|by left].
Qed.
End ensemble_order.

(** X2.  After any frames, the ensemble held by the parser lists its
    services by strictly increasing service identifier; in particular no
    service is listed twice. *)
Theorem ensemble_services_strictly_sorted (frames : list bytes) :
  StronglySorted sid_lt
    (DABEnsemble.services
       (DABParser.get_ensemble (DABParser.feed_frames DABParser.init frames))).
Proof.
  induction frames as [|frame frames IH] using rev_ind; [constructor|].
  rewrite feed_frames_snoc. unfold DABParser.get_ensemble in *.
  destruct (process_eti_frame_ensemble (DABParser.feed_frames DABParser.init frames)
              frame (len_ frame)) as [-> | [T ->]]; [done|].
  apply build_ensemble_sorted.
Qed.

Section basic_ready_services.
Import DABParser.

Lemma step_basic_ready s frame len :
  basic_ready_ s = false ->
  basic_ready_ (process_eti_frame s frame len).1 = true ->
  let s' := (process_eti_frame s frame len).1 in
  0 < count_keys (has_valid_subchannel (fig s')) (service_map_ (fig s'))
  /\ ensemble_ s' = build_ensemble (fig s').
Proof.
  intros Hb. unfold process_eti_frame. cbv zeta.
  generalize (read_32b frame =? ETI_NI_FSYNC0), (read_32b frame =? ETI_NI_FSYNC1).
  intros b0 b1.
  set (fc := parse_fc (advance frame 4)).
  set (stc_end := 8 + ETI_FC.nst fc * 4 + 4).
  set (fic_len := (if ETI_FC.mid fc =? 3 then 32 else 24) * 4).
  set (T := process_fic (fig s) (advance frame stc_end) fic_len).
  clearbody T fic_len stc_end fc.
  destruct (labelled_ s); [cbn; congruence|].
  destruct (len <? 8); [cbn; congruence|].
  destruct (negb b0 && negb b1); [cbn; congruence|].
  destruct (ETI_FC.ficf fc =? 0); [cbn; congruence|].
  destruct (len <? stc_end + fic_len); [cbn; congruence|].
  unfold track_basic_ready. rewrite Hb. cbn [negb andb].
  destruct (track_completion s T) as [[lab lc] sf].
  destruct (negb (map_size (service_map_ T) =? 0)); [|cbn; congruence].
  destruct (Z.ltb_spec 0 (count_keys (has_valid_subchannel T) (service_map_ T)));
    [|cbn; congruence].
  destruct (negb _); cbn [fst basic_ready_ fig ensemble_]; by intros _.
Qed.

Lemma count_keys_positive {V} (test : Z -> bool) (m : gmap Z V) :
  0 < count_keys test m -> exists k, is_Some (m !! k) /\ test k = true.
Proof.
  unfold count_keys. intros H.
  destruct (List.filter test (keys_in_order m)) as [|k l] eqn:E; [cbn in H; lia|].
  assert (In k (List.filter test (keys_in_order m))) as Hin by (rewrite E; by left).
  apply List.filter_In in Hin as [Hin Ht]. exists k. split; [|done].
  apply elem_of_keys_in_order. by apply list_elem_of_In.
Qed.
End basic_ready_services.

(** X3.  On the call that makes the parser basic-ready, the ensemble it
    holds lists a service whose primary sub-channel is in the sub-channel
    table, with the identifier and the bit rate of that sub-channel. *)
Theorem basic_ready_has_described_service (s : DABParser.t) (frame : bytes) (len : Z) :
  let s' := (DABParser.process_eti_frame s frame len).1 in
  DABParser.is_basic_ready s = false ->
  DABParser.is_basic_ready s' = true ->
  exists svc info sc,
    svc ∈ DABEnsemble.services (DABParser.get_ensemble s')
    /\ DABParser.service_map_ (DABParser.fig s') !! DABService.sid svc = Some info
    /\ DABParser.subchannels_ (DABParser.fig s') !! ServiceInfo.primary_subch info
       = Some sc
    /\ DABService.subchannel_id svc = Some (SubChannel.subchid sc)
    /\ DABService.bitrate svc = Some (SubChannel.bitrate sc).
Proof.
  intros s' Hb Hb'. unfold DABParser.is_basic_ready, DABParser.get_ensemble in *.
  destruct (step_basic_ready s frame len Hb Hb') as [Hcount Hens]. fold s' in Hcount, Hens.
  apply count_keys_positive in Hcount as (sid & Hsid & Hvalid).
  unfold DABParser.has_valid_subchannel in Hvalid.
  destruct (DABParser.service_map_ (DABParser.fig s') !! sid) as [info|] eqn:Hinfo;
    [|done].
  apply andb_true_iff in Hvalid as [Hprim Hsub].
  apply bool_decide_eq_true in Hsub as [sc Hsc].
  exists (DABParser.build_service (DABParser.fig s') sid info), info, sc.
  rewrite sid_build_service. split; [|split; [done|split; [done|]]].
  - rewrite Hens. unfold DABParser.build_ensemble. cbn [DABEnsemble.services].
    rewrite merge_sort_Permutation. apply list_elem_of_omap. exists sid. split.
    + by apply elem_of_keys_in_order.
    + rewrite Hinfo. destruct (Z.ltb_spec (ServiceInfo.primary_subch info) 0); [|done].
      apply Z.leb_le in Hprim. lia.
  - unfold DABParser.build_service. by rewrite Hsc.
Qed.

Lemma basic_ready_has_described_service_witness :
  let s := DABParser.feed_frames DABParser.init (replicate 3 frame_with_subchannels) in
  let s' := (DABParser.process_eti_frame s frame_with_subchannels 108).1 in
  exists svc info sc,
    svc ∈ DABEnsemble.services (DABParser.get_ensemble s')
    /\ DABParser.service_map_ (DABParser.fig s') !! DABService.sid svc = Some info
    /\ DABParser.subchannels_ (DABParser.fig s') !! ServiceInfo.primary_subch info
       = Some sc
    /\ DABService.subchannel_id svc = Some (SubChannel.subchid sc)
    /\ DABService.bitrate svc = Some (SubChannel.bitrate sc).
Proof.
  apply (basic_ready_has_described_service
           (DABParser.feed_frames DABParser.init (replicate 3 frame_with_subchannels))
           frame_with_subchannels 108); by vm_compute.
Defined.

Section ip_packets.
Import EnsembleManager EnsembleManagerQueries.

Lemma advance_advance p a b :
  0 <= a -> 0 <= b -> advance (advance p a) b = advance p (a + b).
Proof.
  intros Ha Hb. unfold advance. rewrite drop_drop. f_equal. lia.
Qed.

Lemma is_byte_at p i : Forall is_byte p -> is_byte (at_ p i).
Proof.
  intros Hp. unfold at_. destruct (i <? 0); [unfold is_byte; lia|].
  destruct (nth_in_or_default (Z.to_nat i) p 0) as [Hin | ->]; [|unfold is_byte; lia].
  rewrite Forall_forall in Hp. by apply Hp, list_elem_of_In.
Qed.

Lemma is_byte_advance p n : Forall is_byte p -> Forall is_byte (advance p n).
Proof. apply Forall_drop. Qed.

Lemma bytes_check (l : bytes) :
  forallb (fun b => (0 <=? b) && (b <? 256)) l = true -> Forall is_byte l.
Proof.
  intros H. apply Forall_forall. intros b Hb.
  rewrite forallb_forall in H. apply list_elem_of_In, H in Hb.
  apply andb_true_iff in Hb as [H0 H1]. unfold is_byte. lia.
Qed.

Lemma be16_range a b : is_byte a -> is_byte b -> 0 <= (a ≪ 8) .| b < 65536.
Proof.
  unfold is_byte. intros Ha Hb.
  rewrite (lor_shiftl_add b a 8) by lia. change (2 ^ 8) with 256. lia.
Qed.
End ip_packets.

(** X4.  On a buffer of bytes, [processIpPacket] hands to [processUdp]
    exactly the destination and payload that [extractUdpFromIpv4] finds,
    provided the payload is not empty and lies within the buffer, and does
    nothing otherwise: unlike the extractor it never passes on a payload
    that runs past the end of the datagram. *)
Theorem processIpPacket_extracts (m : EnsembleManager.t) (ip_data : bytes) :
  Forall is_byte ip_data ->
  EnsembleManagerQueries.processIpPacket m ip_data (len_ ip_data) =
    match extractUdpFromIpv4 ip_data with
    | Some r =>
        if (0 <? UdpTuple.payload_len r)
           && (UdpTuple.payload_ptr r + UdpTuple.payload_len r <=? len_ ip_data)
        then EnsembleManager.processUdp m (UdpTuple.dst_ip r) (UdpTuple.dst_port r)
               (advance ip_data (UdpTuple.payload_ptr r)) (UdpTuple.payload_len r)
        else Some (m, [])
    | None => Some (m, [])
    end.
Proof.
  intros Hbytes.
  unfold EnsembleManagerQueries.processIpPacket, extractUdpFromIpv4.
  destruct (Z.ltb_spec (len_ ip_data) 28) as [|Hlen]; [done|].
  destruct (negb (at_ ip_data 0 ≫ 4 =? 4)); [done|].
  cbv zeta.
  set (ihl := (at_ ip_data 0 .& 15) * 4).
  assert (0 <= ihl) as Hihl.
  { subst ihl. pose proof (is_byte_at ip_data 0 Hbytes) as [H0 _].
    pose proof (proj2 (Z.land_nonneg (at_ ip_data 0) 15)). lia. }
  clearbody ihl.
  destruct (negb (at_ ip_data 9 =? 17)).
  { by repeat case_match. }
  destruct (Z.ltb_spec ihl 20); cbn [orb]; [done|].
  destruct (Z.ltb_spec (len_ ip_data) ihl); cbn [orb].
  { destruct (Z.ltb_spec (len_ ip_data) (ihl + 8)); [done|lia]. }
  destruct (Z.ltb_spec (len_ ip_data) (ihl + 8)); [done|].
  set (udp := advance ip_data ihl).
  assert (Forall is_byte udp) as Hudp by by apply is_byte_advance.
  pose proof (be16_range _ _ (is_byte_at udp 4 Hudp) (is_byte_at udp 5 Hudp)) as Hw.
  set (w := (at_ udp 4 ≪ 8) .| at_ udp 5) in *.
  assert (u16 w = w) as -> by (unfold u16; apply Z.mod_small; lia).
  clearbody w.
  destruct (Z.ltb_spec w 8); cbn [orb]; [done|].
  cbn [UdpTuple.payload_len UdpTuple.payload_ptr UdpTuple.dst_ip UdpTuple.dst_port].
  subst udp. rewrite advance_advance by lia.
  destruct (Z.ltb_spec (len_ ip_data - ihl) w);
    destruct (Z.leb_spec (ihl + 8 + (w - 8)) (len_ ip_data)); try lia;
    rewrite ?andb_false_r, ?andb_true_r; done.
Qed.

Lemma processIpPacket_extracts_witness :
  let ip :=
    [0x45;0;0;30; 0;0;0;0; 64;17;0;0; 10;0;0;1; 239;199;2;1]
      ++ [4;210; 4;210; 0;10; 0;0] ++ [0x50;0x46] in
  let m := EnsembleManager.init true true true true in
  EnsembleManagerQueries.processIpPacket m ip (len_ ip) =
    match extractUdpFromIpv4 ip with
    | Some r =>
        if (0 <? UdpTuple.payload_len r)
           && (UdpTuple.payload_ptr r + UdpTuple.payload_len r <=? len_ ip)
        then EnsembleManager.processUdp m (UdpTuple.dst_ip r) (UdpTuple.dst_port r)
               (advance ip (UdpTuple.payload_ptr r)) (UdpTuple.payload_len r)
        else Some (m, [])
    | None => Some (m, [])
    end.
Proof.
  intros ip m. apply (processIpPacket_extracts m ip).
  apply bytes_check. reflexivity.
Defined.

Section udp_books.
Import EnsembleManager EnsembleManagerQueries.

(** What one call of [processUdp] does to the book-keeping of the stream
    [key] it is for, and to nothing else. *)
Lemma processUdp_books m dst_ip dst_port payload len m' events :
  processUdp m dst_ip dst_port payload len = Some (m', events) ->
  let key := (dst_ip, dst_port) in
  let old := parsers_ m !! key in
  let was_complete := if old is Some _ then flag (complete_flags_ m) key else false in
  let was_ready := if old is Some _ then flag (basic_ready_flags_ m) key else false in
  exists p' complete frames,
    DABStreamParser.process_edi_packet (default DABStreamParser.init old) payload len
    = Some (p', complete, frames)
    /\ parsers_ m' = <[key := p']> (parsers_ m)
    /\ (forall k, flag (complete_flags_ m') k
                  = if decide (k = key) then complete || was_complete
                    else flag (complete_flags_ m) k)
    /\ (forall k, flag (basic_ready_flags_ m') k
                  = if decide (k = key)
                    then DABStreamParser.is_basic_ready p' || was_ready
                    else flag (basic_ready_flags_ m) k)
    /\ ensembles_ m'
       = (if complete && negb was_complete
          then <[key := DABStreamParser.get_ensemble p']> (ensembles_ m)
          else ensembles_ m)
    /\ complete_count_ m'
       = (if complete && negb was_complete then complete_count_ m + 1
          else complete_count_ m)
    /\ completions_of events
       = (if complete && negb was_complete && complete_callback_ m
          then [(key, DABStreamParser.get_ensemble p')] else [])
    /\ basic_readies_of events
       = (if DABStreamParser.is_basic_ready p' && negb was_ready
             && basic_ready_callback_ m
          then [(key, DABStreamParser.get_ensemble p')] else [])
    /\ basic_ready_callback_ m' = basic_ready_callback_ m
    /\ complete_callback_ m' = complete_callback_ m.
Proof.
  intros H key old was_complete was_ready. unfold processUdp in H. fold key in H.
  unfold getParser in H. fold old in H.
  assert (exists p m0,
            (match old with
             | Some parser => (parser, m)
             | None =>
                 (DABStreamParser.init,
                  mk (<[key := DABStreamParser.init]> (parsers_ m)) (ensembles_ m)
                     (<[key := false]> (basic_ready_flags_ m))
                     (<[key := false]> (complete_flags_ m))
                     (basic_ready_callback_ m) (complete_callback_ m) (eti_callback_ m)
                     (subchannel_change_callback_ m) (last_subchannel_map_ m)
                     (etina_parsers_ m) (complete_count_ m))
             end) = (p, m0)
            /\ p = default DABStreamParser.init old
            /\ <[key := p]> (parsers_ m0) = <[key := p]> (parsers_ m)
            /\ flag (complete_flags_ m0) key = was_complete
            /\ flag (basic_ready_flags_ m0) key = was_ready
            /\ (forall k, k <> key ->
                  flag (complete_flags_ m0) k = flag (complete_flags_ m) k
                  /\ flag (basic_ready_flags_ m0) k = flag (basic_ready_flags_ m) k))
    as (p & m0 & Hget & Hp & Hpars & Hwc & Hwr & Hother).
  { subst was_complete was_ready. destruct old as [p|].
    - by exists p, m.
    - eexists _, _. split; [done|]. cbn [parsers_ complete_flags_ basic_ready_flags_].
      unfold flag. rewrite !lookup_insert_eq, insert_insert_eq.
      repeat split; try done; by rewrite lookup_insert_ne. }
  rewrite Hget in H. rewrite <- Hp.
  destruct (DABStreamParser.process_edi_packet p payload len)
    as [[[p' complete] frames]|]; [|done].
  cbn [mbind option_bind] in H. cbv zeta in H.
  rewrite Hwc, Hwr in H.
  assert (<[key := p']> (parsers_ m0) = <[key := p']> (parsers_ m)) as Hpars'.
  { rewrite <- (insert_insert_eq (parsers_ m0) key p' p), Hpars.
    by rewrite insert_insert_eq. }
  rewrite Hpars' in H.
  set (cf1 := if complete then _ else complete_flags_ m0) in H.
  assert (forall k, flag (<[key := flag cf1 key]> cf1) k
                    = if decide (k = key) then complete || was_complete
                      else flag (complete_flags_ m) k) as Hcf.
  { intros k. unfold flag at 1. destruct (decide (k = key)) as [->|Hne].
    - rewrite lookup_insert_eq. cbn [default]. subst cf1. destruct complete; [|done].
      unfold flag. by rewrite lookup_insert_eq.
    - rewrite lookup_insert_ne by done. subst cf1.
      destruct complete; rewrite ?lookup_insert_ne by done; by apply Hother. }
  set (br1 := if DABStreamParser.is_basic_ready p' then _ else basic_ready_flags_ m0)
    in H.
  assert (forall k, flag br1 k
                    = if decide (k = key)
                      then DABStreamParser.is_basic_ready p' || was_ready
                      else flag (basic_ready_flags_ m) k) as Hbr.
  { intros k. subst br1. unfold flag at 1. destruct (decide (k = key)) as [->|Hne].
    - destruct (DABStreamParser.is_basic_ready p'); [by rewrite lookup_insert_eq|done].
    - destruct (DABStreamParser.is_basic_ready p');
        rewrite ?lookup_insert_ne by done; by apply Hother. }
  clearbody cf1 br1.
  destruct (if flag cf1 key && subchannel_change_callback_ m then _ else _)
    as [last2 ev_change] eqn:Htrack.
  assert (completions_of ev_change = [] /\ basic_readies_of ev_change = [])
    as [Hev1 Hev2].
  { destruct (_ && _) in Htrack; [|by injection Htrack as <- <-].
    unfold track_subchannels in Htrack. cbv zeta in Htrack.
    destruct (bool_decide _) in Htrack; by injection Htrack as <- <-. }
  injection H as <- <-. exists p', complete, frames.
  cbn [parsers_ complete_flags_ basic_ready_flags_ ensembles_ complete_count_
       basic_ready_callback_ complete_callback_].
  repeat split; try done.
  - unfold completions_of in *. rewrite !omap_app, Hev1, app_nil_r.
    assert (forall fr : list (bytes * Z),
              omap (fun e => match e with Complete k ens => Some (k, ens) | _ => None end)
                (map (fun '(data, dflc) => EtiFrame key data ETI_NI_RAW_SIZE dflc) fr)
              = []) as Hfr
      by (intros fr; induction fr as [|[??] ? IH]; [done|by cbn]).
    destruct (eti_callback_ m); rewrite ?Hfr; cbn [omap list_omap app];
      repeat (destruct (_ && _)); done.
  - unfold basic_readies_of in *. rewrite !omap_app, Hev2, app_nil_r.
    assert (forall fr : list (bytes * Z),
              omap (fun e => match e with BasicReady k ens => Some (k, ens) | _ => None end)
                (map (fun '(data, dflc) => EtiFrame key data ETI_NI_RAW_SIZE dflc) fr)
              = []) as Hfr
      by (intros fr; induction fr as [|[??] ? IH]; [done|by cbn]).
    destruct (eti_callback_ m); rewrite ?Hfr; cbn [omap list_omap app];
      repeat (destruct (_ && _)); done.
Qed.

Lemma processUdp_run_sound m events dst_ip dst_port payload len m' ev :
  udp_run_sound m events ->
  processUdp m dst_ip dst_port payload len = Some (m', ev) ->
  udp_run_sound m' (events ++ ev).
Proof.
  intros ((Hflag & Hens & Hcount & Hready) & Hnc & Hnb & Hstored & Hbflag) H.
  apply processUdp_books in H. cbv zeta in H.
  set (key := (dst_ip, dst_port)) in *.
  destruct H as (p' & complete & frames & Hedi & Hpars & Hcf & Hbr & He & Hc & Hevc
                 & Hevb & Hcb1 & Hcb2).
  destruct (process_edi_packet_complete _ _ _ _ _ _ Hedi) as [Hcomplete Hfrozen].
  set (was_complete :=
         if parsers_ m !! key is Some _ then flag (complete_flags_ m) key else false) in *.
  set (was_ready :=
         if parsers_ m !! key is Some _ then flag (basic_ready_flags_ m) key else false)
    in *.
  assert (was_complete = flag (complete_flags_ m) key) as Hwc.
  { subst was_complete. destruct (parsers_ m !! key) eqn:E; [done|].
    by rewrite Hflag, E. }
  assert (was_ready = flag (basic_ready_flags_ m) key) as Hwr.
  { subst was_ready. destruct (parsers_ m !! key) eqn:E; [done|].
    destruct (flag (basic_ready_flags_ m) key) eqn:F; [|done].
    destruct (Hready key F) as [? ?]. congruence. }
  assert (was_complete = true ->
          complete = true
          /\ ensembles_ m !! key = Some (DABStreamParser.get_ensemble p')) as Hwas.
  { intros Hw. rewrite Hwc in Hw. pose proof (Hens key) as Hk. rewrite Hw in Hk.
    pose proof (Hflag key) as Hf. rewrite Hw in Hf.
    destruct (parsers_ m !! key) as [p|] eqn:E; [|done].
    cbn [fmap option_fmap option_map default] in *.
    destruct (Hfrozen (eq_sym Hf)) as [Hc' He'].
    split; [congruence|]. by rewrite Hk, He'. }
  assert (was_complete = false -> ensembles_ m !! key = None) as Hnot.
  { intros Hw. rewrite Hwc in Hw. by rewrite Hens, Hw. }
  clearbody was_complete was_ready.
  split; [split; [|split; [|split]]|split; [|split; [|split]]].
  - (* flags agree with the parsers *)
    intros k. rewrite Hcf, Hpars. destruct (decide (k = key)) as [->|Hne].
    + rewrite lookup_insert_eq. cbn [fmap option_fmap option_map default].
      rewrite <- Hcomplete. destruct was_complete; [|by rewrite orb_false_r].
      destruct Hwas as [-> _]; done.
    + rewrite lookup_insert_ne by done. apply Hflag.
  - (* stored ensembles *)
    intros k. rewrite Hcf, Hpars, He. destruct (decide (k = key)) as [->|Hne].
    + rewrite lookup_insert_eq. cbn [fmap option_fmap option_map].
      destruct was_complete.
      * destruct Hwas as [-> Hk]; [done|]. by cbn.
      * rewrite orb_false_r, andb_true_r.
        destruct complete; [by rewrite lookup_insert_eq|by apply Hnot].
    + rewrite lookup_insert_ne by done.
      destruct (complete && negb was_complete); rewrite ?lookup_insert_ne by done;
        apply Hens.
  - (* the counter *)
    rewrite Hc, He. destruct was_complete; [by rewrite andb_false_r|].
    rewrite andb_true_r. destruct complete; [|done].
    rewrite map_size_insert_None by by apply Hnot. lia.
  - (* basic-ready flags belong to parsers *)
    intros k. rewrite Hbr, Hpars. destruct (decide (k = key)) as [->|Hne].
    + rewrite lookup_insert_eq. by eexists.
    + rewrite lookup_insert_ne by done. apply Hready.
  - (* complete reported once *)
    unfold completions_of in *. rewrite omap_app, fmap_app, Hevc.
    destruct (complete && negb was_complete && complete_callback_ m) eqn:Hfire;
      [|by rewrite app_nil_r].
    apply NoDup_app. split; [done|]. split; [|apply NoDup_singleton].
    intros k Hk Hk'. apply list_elem_of_singleton in Hk'. cbn in Hk'. subst k.
    apply list_elem_of_fmap in Hk as ([k ens] & -> & Hin). cbn [fst] in *.
    apply Hstored in Hin.
    destruct was_complete; [by rewrite andb_false_r in Hfire|].
    rewrite Hnot in Hin; done.
  - (* basic-ready reported once *)
    unfold basic_readies_of in *. rewrite omap_app, fmap_app, Hevb.
    destruct (DABStreamParser.is_basic_ready p' && negb was_ready
              && basic_ready_callback_ m) eqn:Hfire; [|by rewrite app_nil_r].
    apply NoDup_app. split; [done|]. split; [|apply NoDup_singleton].
    intros k Hk Hk'. apply list_elem_of_singleton in Hk'. cbn in Hk'. subst k.
    apply Hbflag in Hk. rewrite <- Hwr in Hk. rewrite Hk in Hfire.
    by rewrite andb_false_r in Hfire.
  - (* what was reported is what is stored *)
    intros k ens Hin. unfold completions_of in *.
    rewrite omap_app, Hevc in Hin. apply elem_of_app in Hin as [Hin|Hin].
    + specialize (Hstored _ _ Hin). rewrite He.
      destruct (complete && negb was_complete) eqn:Hfire; [|done].
      destruct (decide (k = key)) as [->|Hne]; [|by rewrite lookup_insert_ne].
      destruct was_complete; [by rewrite andb_false_r in Hfire|].
      rewrite Hnot in Hstored; done.
    + destruct (complete && negb was_complete) eqn:Hfire;
        [|by apply elem_of_nil in Hin].
      destruct (complete_callback_ m); [|by apply elem_of_nil in Hin].
      apply list_elem_of_singleton in Hin. injection Hin as -> ->.
      by rewrite He, lookup_insert_eq.
  - (* reported basic-ready streams stay flagged *)
    intros k Hk. unfold basic_readies_of in *.
    rewrite omap_app, fmap_app, Hevb in Hk. rewrite Hbr.
    apply elem_of_app in Hk as [Hk|Hk].
    + apply Hbflag in Hk. destruct (decide (k = key)) as [->|Hne]; [|done].
      rewrite Hwr, Hk. apply orb_true_r.
    + destruct (DABStreamParser.is_basic_ready p' && negb was_ready
                && basic_ready_callback_ m) eqn:Hfire; [|by apply elem_of_nil in Hk].
      apply list_elem_of_singleton in Hk. cbn in Hk. subst k.
      rewrite decide_True by done.
      apply andb_true_iff in Hfire as [Hfire _].
      apply andb_true_iff in Hfire as [-> _]. done.
Qed.

Lemma init_run_sound basic_ready complete eti change :
  udp_run_sound (init basic_ready complete eti change) [].
Proof.
  split; [by repeat split|].
  split; [apply NoDup_nil_2|]. split; [apply NoDup_nil_2|].
  split; [intros key ens Hin|intros key Hin]; by apply elem_of_nil in Hin.
Qed.

Lemma process_udp_calls_sound calls : forall m events m' ev,
  udp_run_sound m events ->
  process_udp_calls m calls = Some (m', ev) ->
  udp_run_sound m' (events ++ ev).
Proof.
  induction calls as [|[[dst_ip dst_port] payload] calls IH]; intros m events m' ev Hm H.
  { injection H as <- <-. by rewrite app_nil_r. }
  cbn [process_udp_calls] in H.
  destruct (processUdp m dst_ip dst_port payload (len_ payload)) as [[m1 ev1]|] eqn:E1;
    cbn [mbind option_bind] in H; [|done].
  destruct (process_udp_calls m1 calls) as [[m2 ev2]|] eqn:E2;
    cbn [mbind option_bind] in H; [|done].
  injection H as <- <-. rewrite app_assoc.
  eapply IH; [|done]. by eapply processUdp_run_sound.
Qed.
End udp_books.

(** X5.  After any calls of [processUdp], [isComplete] holds of a stream
    exactly when the stream has a parser and that parser is complete,
    [getEnsembles] holds the ensembles of exactly those streams, as the
    parsers have them, and [getCompleteCount] is their number. *)
Theorem udp_streams_book_keeping (basic_ready complete eti change : bool)
    (calls : list (Z * Z * bytes)) (m : EnsembleManager.t) (events : list event) :
  EnsembleManagerQueries.process_udp_calls
    (EnsembleManager.init basic_ready complete eti change) calls = Some (m, events) ->
  (forall key,
     EnsembleManagerQueries.isComplete m key
     = default false
         (DABStreamParser.is_complete <$> EnsembleManager.parsers_ m !! key))
  /\ (forall key,
        EnsembleManagerQueries.getEnsembles m !! key
        = if EnsembleManagerQueries.isComplete m key
          then EnsembleManagerQueries.getAllEnsembles m !! key else None)
  /\ EnsembleManagerQueries.getCompleteCount m
     = Z.of_nat (size (EnsembleManagerQueries.getEnsembles m)).
Proof.
  intros H.
  destruct (process_udp_calls_sound calls _ [] _ _
              (init_run_sound basic_ready complete eti change) H)
    as ((Hflag & Hens & Hcount & _) & _).
  assert (forall key,
            EnsembleManagerQueries.isComplete m key
            = EnsembleManager.flag (EnsembleManager.complete_flags_ m) key) as Hq
    by (intros key; unfold EnsembleManagerQueries.isComplete, EnsembleManager.flag;
        by destruct (_ !! key)).
  split; [|split].
  - intros key. by rewrite Hq.
  - intros key. rewrite Hq. unfold EnsembleManagerQueries.getEnsembles,
      EnsembleManagerQueries.getAllEnsembles. rewrite lookup_fmap. apply Hens.
  - done.
Qed.

Lemma udp_streams_book_keeping_witness :
  match
    EnsembleManagerQueries.process_udp_calls (EnsembleManager.init true true true true)
      (replicate 11 (0xEFC70201, 1234, edi_packet_service_in_5)
       ++ [(0xEFC70202, 1234, edi_packet_service_in_6)])
  with
  | Some (m, _) =>
      (forall key,
         EnsembleManagerQueries.isComplete m key
         = default false
             (DABStreamParser.is_complete <$> EnsembleManager.parsers_ m !! key))
      /\ (forall key,
            EnsembleManagerQueries.getEnsembles m !! key
            = if EnsembleManagerQueries.isComplete m key
              then EnsembleManagerQueries.getAllEnsembles m !! key else None)
      /\ EnsembleManagerQueries.getCompleteCount m
         = Z.of_nat (size (EnsembleManagerQueries.getEnsembles m))
  | None => False
  end.
Proof.
  destruct (EnsembleManagerQueries.process_udp_calls _ _) as [[m events]|] eqn:E.
  - exact (udp_streams_book_keeping true true true true _ m events E).
  - vm_compute in E. discriminate.
Defined.

(** X6.  Over any calls of [processUdp], no stream is reported complete
    twice, none is reported basic-ready twice, and the ensemble reported
    with a completion is the one [getEnsembles] holds for the stream at the
    end. *)
Theorem udp_streams_reported_once (basic_ready complete eti change : bool)
    (calls : list (Z * Z * bytes)) (m : EnsembleManager.t) (events : list event) :
  EnsembleManagerQueries.process_udp_calls
    (EnsembleManager.init basic_ready complete eti change) calls = Some (m, events) ->
  NoDup (completions_of events).*1
  /\ NoDup (basic_readies_of events).*1
  /\ (forall key ens, (key, ens) ∈ completions_of events ->
                      EnsembleManagerQueries.getEnsembles m !! key = Some ens).
Proof.
  intros H.
  destruct (process_udp_calls_sound calls _ [] _ _
              (init_run_sound basic_ready complete eti change) H)
    as (_ & Hc & Hb & Hstored & _).
  done.
Qed.

Lemma udp_streams_reported_once_witness :
  match
    EnsembleManagerQueries.process_udp_calls (EnsembleManager.init true true true true)
      (replicate 12 (0xEFC70201, 1234, edi_packet_service_in_5))
  with
  | Some (m, events) =>
      NoDup (completions_of events).*1
      /\ NoDup (basic_readies_of events).*1
      /\ (forall key ens, (key, ens) ∈ completions_of events ->
                          EnsembleManagerQueries.getEnsembles m !! key = Some ens)
  | None => False
  end.
Proof.
  destruct (EnsembleManagerQueries.process_udp_calls _ _) as [[m events]|] eqn:E.
  - exact (udp_streams_reported_once true true true true _ m events E).
  - vm_compute in E. discriminate.
Defined.

Section all_complete.
Import EnsembleManager EnsembleManagerQueries.

Lemma processUdp_flag_keys m dst_ip dst_port payload len m' events :
  processUdp m dst_ip dst_port payload len = Some (m', events) ->
  forall k, is_Some (complete_flags_ m' !! k)
            <-> k = (dst_ip, dst_port) \/ is_Some (complete_flags_ m !! k).
Proof.
  intros H k. unfold processUdp, getParser in H.
  set (key := (dst_ip, dst_port)) in *.
  destruct (parsers_ m !! key) as [p|];
    (destruct (DABStreamParser.process_edi_packet _ payload len)
       as [[[p' complete] frames]|]; cbn [mbind option_bind] in H; [|done]);
    cbv zeta in H;
    (destruct (if flag _ key && subchannel_change_callback_ m then _ else _)
       as [last2 ev_change]);
    injection H as <- _; cbn [complete_flags_];
    destruct complete;
    rewrite ?lookup_insert_is_Some'; intuition (subst; auto).
Qed.

Lemma process_udp_calls_flag_keys calls : forall m m' events,
  dom (complete_flags_ m) = dom (parsers_ m) ->
  process_udp_calls m calls = Some (m', events) ->
  dom (complete_flags_ m') = dom (parsers_ m').
Proof.
  induction calls as [|[[dst_ip dst_port] payload] calls IH]; intros m m' events Hm H.
  { by injection H as <- _. }
  cbn [process_udp_calls] in H.
  destruct (processUdp m dst_ip dst_port payload (len_ payload)) as [[m1 ev1]|] eqn:E1;
    cbn [mbind option_bind] in H; [|done].
  destruct (process_udp_calls m1 calls) as [[m2 ev2]|] eqn:E2;
    cbn [mbind option_bind] in H; [|done].
  injection H as <- _. eapply IH; [|exact E2].
  apply set_eq. intros k. rewrite !elem_of_dom.
  rewrite (processUdp_flag_keys _ _ _ _ _ _ _ E1 k).
  apply processUdp_books in E1 as (p' & c & fr & _ & -> & _).
  rewrite lookup_insert_is_Some', <- !elem_of_dom, Hm.
  split; (intros [?|?]; [left|right]; done).
Qed.

Lemma process_eti_all_parsers calls : forall m,
  parsers_ (process_eti_all m calls).1 = parsers_ m.
Proof.
  induction calls as [|[pid frame] calls IH] using rev_ind; intros m; [done|].
  rewrite process_eti_all_snoc.
  specialize (IH m). destruct (process_eti_all m calls) as [m1 ev1]. cbn [fst] in IH.
  unfold processEtiFrame. by destruct (etina_parsers_ m1 !! pid).
Qed.
End all_complete.

(** X7.  After any calls of [processUdp], [allComplete] holds exactly when
    there is at least one stream and the parser of every stream is complete.
    After calls of [processEtiFrame] alone it never holds, because those
    streams have no entry in the parser table that [allComplete] tests for
    emptiness. *)
Theorem allComplete_means (basic_ready complete eti change : bool) :
  (forall calls m events,
     EnsembleManagerQueries.process_udp_calls
       (EnsembleManager.init basic_ready complete eti change) calls = Some (m, events) ->
     EnsembleManagerQueries.allComplete m = true
     <-> EnsembleManager.parsers_ m <> ∅
         /\ forall key p, EnsembleManager.parsers_ m !! key = Some p ->
                          DABStreamParser.is_complete p = true)
  /\ (forall calls,
        EnsembleManagerQueries.allComplete
          (EnsembleManager.process_eti_all
             (EnsembleManager.init basic_ready complete eti change) calls).1 = false).
Proof.
  split.
  - intros calls m events H.
    destruct (process_udp_calls_sound calls _ [] _ _
                (init_run_sound basic_ready complete eti change) H)
      as ((Hflag & _) & _).
    assert (dom (EnsembleManager.complete_flags_ m) = dom (EnsembleManager.parsers_ m))
      as Hdom.
    { eapply process_udp_calls_flag_keys; [|exact H]. cbn. by rewrite !dom_empty_L. }
    unfold EnsembleManagerQueries.allComplete.
    destruct (decide (EnsembleManager.parsers_ m = ∅)) as [Hempty|Hne].
    { rewrite bool_decide_eq_true_2 by done. split; [done|]. by intros [? _]. }
    rewrite bool_decide_eq_false_2 by done. rewrite bool_decide_eq_true.
    split.
    + intros Hall. split; [done|]. intros key p Hp.
      assert (is_Some (EnsembleManager.complete_flags_ m !! key)) as [c Hc].
      { apply elem_of_dom. rewrite Hdom. apply elem_of_dom. by eexists. }
      pose proof (Hall key c Hc) as Hc'. cbn in Hc'. subst c.
      specialize (Hflag key). unfold EnsembleManager.flag in Hflag.
      rewrite Hc, Hp in Hflag. by cbn in Hflag.
    + intros [_ Hall] key c Hc. cbn.
      assert (is_Some (EnsembleManager.parsers_ m !! key)) as [p Hp].
      { apply elem_of_dom. rewrite <- Hdom. apply elem_of_dom. by eexists. }
      specialize (Hflag key). unfold EnsembleManager.flag in Hflag.
      rewrite Hc, Hp in Hflag. cbn in Hflag. rewrite Hflag. by apply (Hall key).
  - intros calls. unfold EnsembleManagerQueries.allComplete.
    rewrite process_eti_all_parsers. by rewrite bool_decide_eq_true_2.
Qed.

Lemma allComplete_means_witness :
  match
    EnsembleManagerQueries.process_udp_calls (EnsembleManager.init true true true true)
      (replicate 11 (0xEFC70201, 1234, edi_packet_service_in_5))
  with
  | Some (m, _) =>
      EnsembleManagerQueries.allComplete m = true
      <-> EnsembleManager.parsers_ m <> ∅
          /\ forall key p, EnsembleManager.parsers_ m !! key = Some p ->
                           DABStreamParser.is_complete p = true
  | None => False
  end.
Proof.
  destruct (EnsembleManagerQueries.process_udp_calls _ _) as [[m events]|] eqn:E.
  - exact (proj1 (allComplete_means true true true true) _ m events E).
  - vm_compute in E. discriminate.
Defined.

(** X8.  On a buffer of bytes, [process_ip_packet] passes to
    [process_edi_packet] exactly the UDP payload that [extractUdpFromIpv4]
    finds, provided that payload lies within the buffer, and otherwise only
    reports whether the parser is complete. *)
Theorem process_ip_packet_extracts (s : DABStreamParser.t) (ip : bytes) :
  Forall is_byte ip ->
  DABStreamParserInput.process_ip_packet s ip (len_ ip) =
    match extractUdpFromIpv4 ip with
    | Some r =>
        if UdpTuple.payload_ptr r + UdpTuple.payload_len r <=? len_ ip
        then DABStreamParser.process_edi_packet s (advance ip (UdpTuple.payload_ptr r))
               (UdpTuple.payload_len r)
        else DABStreamParserInput.unchanged s
    | None => DABStreamParserInput.unchanged s
    end.
Proof.
  intros Hbytes.
  unfold DABStreamParserInput.process_ip_packet, extractUdpFromIpv4,
    DABStreamParser.process_edi_packet, DABStreamParserInput.unchanged.
  destruct (Z.ltb_spec (len_ ip) 28) as [|Hlen]; [done|].
  destruct (negb (at_ ip 0 ≫ 4 =? 4)); [done|].
  cbv zeta.
  set (ihl := (at_ ip 0 .& 15) * 4).
  clearbody ihl.
  destruct (negb (at_ ip 9 =? 17)).
  { by repeat case_match. }
  destruct (Z.ltb_spec ihl 20); cbn [orb]; [done|].
  destruct (Z.ltb_spec (len_ ip) ihl); cbn [orb].
  { destruct (Z.ltb_spec (len_ ip) (ihl + 8)); [done|lia]. }
  destruct (Z.ltb_spec (len_ ip) (ihl + 8)); [done|].
  set (udp := advance ip ihl).
  assert (Forall is_byte udp) as Hudp by by apply is_byte_advance.
  pose proof (be16_range _ _ (is_byte_at udp 4 Hudp) (is_byte_at udp 5 Hudp)) as Hw.
  set (w := (at_ udp 4 ≪ 8) .| at_ udp 5) in *.
  assert (u16 w = w) as -> by (unfold u16; apply Z.mod_small; lia).
  clearbody w.
  destruct (Z.ltb_spec w 8); cbn [orb]; [done|].
  cbn [UdpTuple.payload_len UdpTuple.payload_ptr].
  subst udp. rewrite advance_advance by lia.
  destruct (Z.ltb_spec (len_ ip - ihl) w);
    destruct (Z.leb_spec (ihl + 8 + (w - 8)) (len_ ip)); try lia; [done|].
  destruct (Z.leb_spec (w - 8) (len_ ip - ihl - 8)); [|lia].
  by rewrite andb_true_r.
Qed.

Lemma process_ip_packet_extracts_witness :
  let ip :=
    [0x45;0;0;30; 0;0;0;0; 64;17;0;0; 10;0;0;1; 239;199;2;1]
      ++ [4;210; 4;210; 0;10; 0;0] ++ [0x50;0x46] in
  let s := DABStreamParser.init in
  DABStreamParserInput.process_ip_packet s ip (len_ ip) =
    match extractUdpFromIpv4 ip with
    | Some r =>
        if UdpTuple.payload_ptr r + UdpTuple.payload_len r <=? len_ ip
        then DABStreamParser.process_edi_packet s (advance ip (UdpTuple.payload_ptr r))
               (UdpTuple.payload_len r)
        else DABStreamParserInput.unchanged s
    | None => DABStreamParserInput.unchanged s
    end.
Proof.
  intros ip s. apply (process_ip_packet_extracts s ip).
  apply bytes_check. reflexivity.
Defined.

(** X9.  For an MPE section (table id 0x3E) of at least 40 bytes whose
    datagram has a 20-byte IP header, [process_mpe_section] does what
    [process_ip_packet] does on the datagram that follows the 12-byte
    section header, or the 20 bytes of section header and LLC/SNAP header
    when the LLC/SNAP flag is set. *)
Theorem process_mpe_section_is_ip_packet (s : DABStreamParser.t) (section : bytes) :
  let len := len_ section in
  let ip_offset := if at_ section 1 .& 0x08 =? 0 then 12 else 20 in
  let ip := advance section ip_offset in
  Forall is_byte section ->
  40 <= len < 2 ^ 64 ->
  at_ section 0 = 0x3E ->
  ip_offset + 28 <= len ->
  at_ ip 0 .& 0x0F = 5 ->
  DABStreamParserInput.process_mpe_section s section len
  = DABStreamParserInput.process_ip_packet s ip (len - ip_offset).
Proof.
  intros len ip_offset ip Hbytes Hlen Htable Hfit Hihl.
  unfold DABStreamParserInput.process_mpe_section,
    DABStreamParserInput.process_ip_packet.
  fold len. rewrite Htable. cbn [Z.eqb Pos.eqb negb].
  change (2 ^ 64) with 18446744073709551616 in Hlen.
  destruct (Z.ltb_spec len 40); [lia|].
  cbv zeta.
  assert ((if negb (at_ section 1 .& 8 =? 0) then 20 else 12) = ip_offset) as ->
    by (subst ip_offset; by destruct (_ =? 0)).
  fold ip. rewrite Hihl. change (5 * 4) with 20.
  assert (0 <= ip_offset) as Hoff by (subst ip_offset; destruct (_ =? 0); lia).
  clearbody ip_offset.
  destruct (Z.ltb_spec len (ip_offset + 28)); [lia|].
  destruct (Z.ltb_spec (len - ip_offset) 28); [lia|].
  destruct (negb (at_ ip 0 ≫ 4 =? 4)); [done|].
  destruct (Z.ltb_spec (len - ip_offset) 20); [lia|]. cbn [orb Z.ltb Z.compare Pos.compare
    Pos.compare_cont].
  destruct (negb (at_ ip 9 =? 17)); [done|].
  destruct (Z.ltb_spec (len - ip_offset) (20 + 8)); [lia|].
  set (udp := advance ip 20).
  assert (Forall is_byte udp) as Hudp by by do 2 apply is_byte_advance.
  pose proof (be16_range _ _ (is_byte_at udp 4 Hudp) (is_byte_at udp 5 Hudp)) as Hw.
  set (w := (at_ udp 4 ≪ 8) .| at_ udp 5) in *.
  assert (u16 w = w) as -> by (unfold u16; apply Z.mod_small; lia).
  clearbody w udp.
  destruct (Z.ltb_spec w 8); cbn [orb].
  { assert (len - ip_offset - 28 < usize (w - 8)) as Hbig.
    { unfold usize. change (2 ^ 64) with 18446744073709551616.
      rewrite <- (Z.mod_add (w - 8) 1) by lia. rewrite Z.mod_small; lia. }
    destruct (Z.leb_spec (usize (w - 8)) (len - ip_offset - 28)); [lia|].
    by rewrite andb_false_r. }
  assert (usize (w - 8) = w - 8) as ->.
  { unfold usize. apply Z.mod_small. change (2 ^ 64) with 18446744073709551616. lia. }
  destruct (Z.ltb_spec (len - ip_offset - 20) w);
    destruct (Z.leb_spec (w - 8) (len - ip_offset - 28));
    destruct (Z.leb_spec (w - 8) (len - ip_offset - 20 - 8)); try lia;
    rewrite ?andb_false_r; done.
Qed.

Lemma process_mpe_section_is_ip_packet_witness :
  let section :=
    [0x3E; 0xB0; 43; 0; 0; 0xC1; 0; 0; 0; 0; 0; 0]
      ++ [0x45;0;0;30; 0;0;0;0; 64;17;0;0; 10;0;0;1; 239;199;2;1]
      ++ [4;210; 4;210; 0;10; 0;0] ++ [0x50;0x46] ++ [0; 0; 0; 0] in
  DABStreamParserInput.process_mpe_section DABStreamParser.init section 46
  = DABStreamParserInput.process_ip_packet DABStreamParser.init (advance section 12) 34.
Proof.
  intros section.
  apply (process_mpe_section_is_ip_packet DABStreamParser.init section).
  - apply bytes_check. reflexivity.
  - by vm_compute.
  - reflexivity.
  - by vm_compute.
  - reflexivity.
Defined.

Section crc_tables.

Lemma u16_land x : u16 x = x .& Z.ones 16.
Proof. unfold u16. by rewrite Z.land_ones. Qed.

Lemma u16_lxor x y : u16 (x .^ y) = u16 x .^ u16 y.
Proof.
  rewrite !u16_land. apply Z.bits_inj'. intros n _.
  rewrite !Z.lxor_spec, !Z.land_spec, Z.lxor_spec.
  by destruct (Z.testbit x n), (Z.testbit y n), (Z.testbit (Z.ones 16) n).
Qed.

Lemma land_lxor_distr x y m : (x .^ y) .& m = (x .& m) .^ (y .& m).
Proof.
  apply Z.bits_inj'. intros n _.
  rewrite !Z.lxor_spec, !Z.land_spec, Z.lxor_spec.
  by destruct (Z.testbit x n), (Z.testbit y n), (Z.testbit m n).
Qed.

Lemma bit15 x : (x .& 0x8000 =? 0) = negb (Z.testbit x 15).
Proof.
  assert (x .& 0x8000 = if Z.testbit x 15 then 0x8000 else 0) as ->.
  { apply Z.bits_inj'. intros n Hn. rewrite Z.land_spec.
    change 0x8000 with (2 ^ 15). rewrite Z.pow2_bits_eqb by lia.
    destruct (Z.eqb_spec 15 n) as [<-|Hne].
    - rewrite andb_true_r. destruct (Z.testbit x 15); [|by rewrite Z.bits_0].
      by rewrite Z.pow2_bits_true.
    - rewrite andb_false_r. destruct (Z.testbit x 15); [|by rewrite Z.bits_0].
      by rewrite Z.pow2_bits_false. }
  by destruct (Z.testbit x 15).
Qed.

(** One turn of the inner loop of [EdiParser::crc16]. *)
Lemma crc16_bits_S j crc :
  EdiParser.crc16_bits (S j) crc
  = EdiParser.crc16_bits j
      (u16 (crc ≪ 1) .^ (if Z.testbit crc 15 then 0x1021 else 0)).
Proof.
  cbn [EdiParser.crc16_bits]. rewrite bit15, negb_involutive.
  destruct (Z.testbit crc 15); [by rewrite u16_lxor|by rewrite Z.lxor_0_r].
Qed.

Lemma lxor_swap a b c d : (a .^ b) .^ (c .^ d) = (a .^ c) .^ (b .^ d).
Proof.
  apply Z.bits_inj'. intros n _. rewrite !Z.lxor_spec.
  by destruct (Z.testbit a n), (Z.testbit b n), (Z.testbit c n), (Z.testbit d n).
Qed.

Lemma crc16_bits_lxor j : forall x y,
  EdiParser.crc16_bits j (x .^ y)
  = EdiParser.crc16_bits j x .^ EdiParser.crc16_bits j y.
Proof.
  induction j as [|j IH]; intros x y; [done|].
  rewrite !crc16_bits_S, <- IH. f_equal.
  rewrite Z.shiftl_lxor, u16_lxor, Z.lxor_spec, lxor_swap. f_equal.
  by destruct (Z.testbit x 15), (Z.testbit y 15).
Qed.

Lemma below_256 (P : Z -> bool) :
  forallb P (seqZ 0 256) = true -> forall k, 0 <= k < 256 -> P k = true.
Proof.
  intros H k Hk. rewrite forallb_forall in H. apply H.
  apply list_elem_of_In, elem_of_seqZ. lia.
Qed.

Lemma crc16_bits_low lo : 0 <= lo < 256 -> EdiParser.crc16_bits 8 lo = lo ≪ 8.
Proof.
  intros H. apply Z.eqb_eq.
  by apply (below_256 (fun lo => EdiParser.crc16_bits 8 lo =? lo ≪ 8)).
Qed.

Lemma crc16_bits_table k :
  0 <= k < 256 -> EdiParser.crc16_bits 8 (k ≪ 8) = nth (Z.to_nat k) crc16_table 0.
Proof.
  intros H. apply Z.eqb_eq.
  by apply (below_256
              (fun k => EdiParser.crc16_bits 8 (k ≪ 8) =? nth (Z.to_nat k) crc16_table 0)).
Qed.

Lemma table_entry_range k :
  0 <= k < 256 -> 0 <= nth (Z.to_nat k) crc16_table 0 < 65536.
Proof.
  intros H.
  pose proof (below_256
                (fun k => (0 <=? nth (Z.to_nat k) crc16_table 0)
                          && (nth (Z.to_nat k) crc16_table 0 <? 65536)) eq_refl k H) as Hk.
  cbv beta in Hk. apply andb_true_iff in Hk as [H0 H1]. lia.
Qed.

Lemma lxor_below_256 a b : 0 <= a < 256 -> 0 <= b < 256 -> 0 <= a .^ b < 256.
Proof.
  intros Ha Hb.
  assert ((a .^ b) .& Z.ones 8 = a .^ b) as <-.
  { rewrite land_lxor_distr, !Z.land_ones by lia.
    change (2 ^ 8) with 256. by rewrite !Z.mod_small by lia. }
  rewrite Z.land_ones by lia. apply Z.mod_pos_bound. lia.
Qed.

Lemma split_bytes crc :
  0 <= crc < 65536 -> crc = ((crc ≫ 8) ≪ 8) .^ (crc .& 255).
Proof.
  intros H. apply Z.bits_inj'. intros n Hn.
  rewrite Z.lxor_spec, Z.land_spec.
  change 255 with (Z.ones 8). 
  destruct (Z.lt_ge_cases n 8).
  - rewrite Z.shiftl_spec_low, Z.ones_spec_low by lia. by rewrite andb_true_r.
  - rewrite Z.shiftl_spec, Z.shiftr_spec, Z.ones_spec_high by lia.
    rewrite andb_false_r, xorb_false_r. f_equal. lia.
Qed.

Lemma crc_step_agrees crc b :
  0 <= crc < 65536 -> is_byte b ->
  crc16_update crc b = EdiParser.crc16_byte crc b
  /\ 0 <= crc16_update crc b < 65536.
Proof.
  intros Hcrc Hb. unfold is_byte in Hb. split; [|apply u16_nonneg].
  unfold crc16_update, EdiParser.crc16_byte.
  set (hi := crc ≫ 8). set (lo := crc .& 255).
  assert (0 <= hi < 256) as Hhi.
  { subst hi. rewrite Z.shiftr_div_pow2 by lia. change (2 ^ 8) with 256. divmod_lia. }
  assert (0 <= lo < 256) as Hlo.
  { subst lo. change 255 with (Z.ones 8). rewrite Z.land_ones by lia.
    apply Z.mod_pos_bound. lia. }
  pose proof (lxor_below_256 hi b Hhi Hb) as Hk.
  assert (u16 (b ≪ 8) = b ≪ 8) as ->.
  { unfold u16. apply Z.mod_small. rewrite Z.shiftl_mul_pow2 by lia.
    change (2 ^ 8) with 256. lia. }
  assert (crc .^ (b ≪ 8) = ((hi .^ b) ≪ 8) .^ lo) as ->.
  { rewrite (split_bytes crc Hcrc) at 1. fold hi lo.
    rewrite Z.shiftl_lxor. apply Z.bits_inj'. intros n _. rewrite !Z.lxor_spec.
    by destruct (Z.testbit (hi ≪ 8) n), (Z.testbit lo n), (Z.testbit (b ≪ 8) n). }
  assert (u16 (((hi .^ b) ≪ 8) .^ lo) = ((hi .^ b) ≪ 8) .^ lo) as ->.
  { rewrite u16_lxor. f_equal; unfold u16; apply Z.mod_small; [|lia].
    rewrite Z.shiftl_mul_pow2 by lia. change (2 ^ 8) with 256. lia. }
  rewrite crc16_bits_lxor, crc16_bits_table, crc16_bits_low by done.
  rewrite u16_lxor.
  assert (u16 (crc ≪ 8) = lo ≪ 8) as ->.
  { subst lo. unfold u16. change 255 with (Z.ones 8).
    rewrite Z.land_ones, !Z.shiftl_mul_pow2 by lia.
    change (2 ^ 8) with 256. divmod_lia. }
  rewrite Z.lxor_comm. f_equal.
  unfold u16. apply Z.mod_small. by apply table_entry_range.
Qed.
End crc_tables.

Section crc_folds.

(** The two byte steps agree along any run of bytes. *)
Lemma crc_fold_agrees (l : bytes) : forall crc,
  Forall is_byte l -> 0 <= crc < 65536 ->
  fold_left crc16_update l crc = fold_left EdiParser.crc16_byte l crc
  /\ 0 <= fold_left crc16_update l crc < 65536.
Proof.
  induction l as [|b l IH]; intros crc Hl Hcrc; [done|].
  apply Forall_cons in Hl as [Hb Hl]. cbn [fold_left].
  destruct (crc_step_agrees crc b Hcrc Hb) as [<- Hrange]. by apply IH.
Qed.
End crc_folds.

(** X10.  On bytes, the table-driven CRC of dab_parser.cpp and the
    bit-by-bit CRC of [EdiParser] compute the same value: the 256-entry
    table is the table of the CCITT polynomial 0x1021 that the bit-by-bit
    loop applies. *)
Theorem crc16_implementations_agree (data : bytes) (len : Z) :
  Forall is_byte data ->
  DABStreamParser.crc16 data len = EdiParser.crc16 data len.
Proof.
  intros Hdata. unfold DABStreamParser.crc16, crc16_table_driven, EdiParser.crc16.
  f_equal.
  assert (Forall is_byte (slice data len)) as Hs by by apply Forall_take.
  assert (0 <= 0xFFFF < 65536) as Hinit by lia.
  by destruct (crc_fold_agrees (slice data len) 0xFFFF Hs Hinit) as [-> _].
Qed.

Lemma crc16_implementations_agree_witness :
  DABStreamParser.crc16 [0x41; 0x46; 0; 1; 2; 0xFF] 6
  = EdiParser.crc16 [0x41; 0x46; 0; 1; 2; 0xFF] 6.
Proof.
  apply crc16_implementations_agree. apply bytes_check. reflexivity.
Defined.

Section assembled_frame.
Import DABStreamParser EDI_Builder.

(** The frame control word as [parse_fc] reads it back. *)
Lemma fc_read_back fct (f : bool) nst fp mid F :
  0 <= fct < 256 -> 0 <= nst < 128 -> 0 <= fp < 8 -> 0 <= mid < 4 ->
  0 <= F < 2048 ->
  let w := u16 ((fp ≪ 13) .| (mid ≪ 11) .| u16 F) in
  let b5 := u8 ((if f then 0x80 else 0) .| nst) in
  u32 ((fct ≪ 24) .| (b5 ≪ 16) .| ((w ≫ 8) ≪ 8) .| (w .& 0xFF))
  = fct * 16777216 + (if f then 8388608 else 0) + nst * 65536
    + fp * 8192 + mid * 2048 + F.
Proof.
  intros Hfct Hnst Hfp Hmid HF w b5.
  assert (b5 = (if f then 128 else 0) + nst) as Hb5.
  { subst b5. destruct f; cbv iota.
    - change 0x80 with (1 ≪ 7).
      rewrite lor_shiftl_add by (change (2 ^ 7) with 128; lia).
      change (2 ^ 7) with 128. change (1 ≪ 7) with 128. unfold u8. rewrite Z.mod_small by lia. lia.
    - rewrite Z.lor_0_l. unfold u8. rewrite Z.mod_small by lia. lia. }
  assert (0 <= b5 < 256) as Hb5r by (destruct f; lia).
  clearbody b5.
  assert (u16 F = F) as HuF by (unfold u16; apply Z.mod_small; lia).
  assert (w = fp * 8192 + mid * 2048 + F) as Hw.
  { unfold w. rewrite HuF, <- Z.lor_assoc.
    rewrite (lor_shiftl_add F mid 11) by (change (2 ^ 11) with 2048; lia).
    rewrite lor_shiftl_add
      by (change (2 ^ 11) with 2048; change (2 ^ 13) with 8192; lia).
    change (2 ^ 11) with 2048; change (2 ^ 13) with 8192.
    unfold u16. rewrite Z.mod_small by lia. lia. }
  assert (((w ≫ 8) ≪ 8) .| (w .& 0xFF) = w) as Hrec.
  { change 0xFF with (Z.ones 8). rewrite Z.land_ones, Z.shiftr_div_pow2 by lia.
    rewrite lor_shiftl_add by (change (2 ^ 8) with 256; divmod_lia).
    change (2 ^ 8) with 256. divmod_lia. }
  rewrite <- !Z.lor_assoc, Hrec.
  rewrite (lor_shiftl_add w b5 16) by (change (2 ^ 16) with 65536; lia).
  rewrite lor_shiftl_add
    by (change (2 ^ 16) with 65536; change (2 ^ 24) with 16777216; lia).
  change (2 ^ 16) with 65536; change (2 ^ 24) with 16777216.
  unfold u32. rewrite Z.mod_small by lia. destruct f; lia.
Qed.

Lemma parse_fc_fields val fct (f : bool) nst fp mid F :
  0 <= fct < 256 -> 0 <= nst < 128 -> 0 <= fp < 8 -> 0 <= mid < 4 ->
  0 <= F < 2048 ->
  val = fct * 16777216 + (if f then 8388608 else 0) + nst * 65536
        + fp * 8192 + mid * 2048 + F ->
  (val ≫ 24) .& 0xFF = fct /\ (val ≫ 23) .& 0x01 = (if f then 1 else 0)
  /\ (val ≫ 16) .& 0x7F = nst
  /\ (val ≫ 13) .& 0x07 = fp /\ (val ≫ 11) .& 0x03 = mid /\ val .& 0x7FF = F.
Proof.
  intros Hfct Hnst Hfp Hmid HF ->.
  assert (forall x k m, m = Z.ones k -> 0 <= k -> x .& m = x mod 2 ^ k) as Hland.
  { intros x k m -> Hk. by apply Z.land_ones. }
  rewrite (Hland _ 8 0xFF), (Hland _ 1 0x01), (Hland _ 7 0x7F), (Hland _ 3 0x07),
    (Hland _ 2 0x03), (Hland _ 11 0x7FF) by done.
  rewrite !Z.shiftr_div_pow2 by lia.
  change (2 ^ 24) with 16777216. change (2 ^ 23) with 8388608.
  change (2 ^ 16) with 65536. change (2 ^ 13) with 8192.
  change (2 ^ 11) with 2048. change (2 ^ 8) with 256. change (2 ^ 7) with 128.
  change (2 ^ 3) with 8. change (2 ^ 2) with 4. change (2 ^ 1) with 2.
  destruct f; repeat split; divmod_lia.
Qed.

Lemma frame_wanted_fic_length edi :
  frame_wanted edi = true ->
  fic_length edi = (if EDI_FC.mid (m_fc edi) =? 3 then 32 else 24) * 4.
Proof.
  unfold frame_wanted. intros Hw.
  destruct (EDI_FC.mid (m_fc edi) =? 3);
    destruct (Z.eqb_spec (fic_length edi) (32 * 4));
    destruct (Z.eqb_spec (fic_length edi) (24 * 4));
    rewrite ?andb_false_r in Hw; try done; lia.
Qed.

(** The head of an assembled frame: sync word, frame control, stream
    characterisation and end of header, which end at byte [12 + 4 * nst],
    followed by the FIC. *)
Lemma frame_body_layout edi streams :
  Z.of_nat (length streams) = EDI_FC.nst (m_fc edi) ->
  len_ (slice (fic edi) (fic_length edi)) = fic_length edi ->
  exists sync3 eoh tail,
    frame_body edi streams
    = ([0xFF] ++ sync3
       ++ (let F :=
             EDI_FC.nst (m_fc edi) + 1 + fic_length edi / 4
             + sum_Z (map (fun stc => len_ (EDI_STC.mst stc) / 4) streams) in
           let w :=
             u16 ((EDI_FC.fp (m_fc edi) ≪ 13) .| (EDI_FC.mid (m_fc edi) ≪ 11)
                  .| u16 F) in
           [u8 (EDI_FC.dflc (m_fc edi) mod 250);
            u8 ((if EDI_FC.ficf (m_fc edi) then 0x80 else 0) .| EDI_FC.nst (m_fc edi));
            w ≫ 8; w .& 0xFF])
       ++ eoh)
      ++ slice (fic edi) (fic_length edi) ++ tail
    /\ (sync3 = [0xF8; 0xC5; 0x49] \/ sync3 = [0x07; 0x3A; 0xB6])
    /\ len_ eoh = 4 * EDI_FC.nst (m_fc edi) + 4
    /\ len_ (slice (fic edi) (fic_length edi) ++ tail)
       = fic_length edi + sum_Z (map (fun stc => len_ (EDI_STC.mst stc)) streams) + 8.
Proof.
  intros Hlen Hfic. unfold frame_body, frame_header. cbv zeta.
  set (sync3 := if u8 (EDI_FC.dflc (m_fc edi) mod 250) mod 2 =? 1
                then [0xF8; 0xC5; 0x49] else [0x07; 0x3A; 0xB6]).
  set (stcs := concat (map frame_stc streams)).
  set (msts := concat (map EDI_STC.mst streams)).
  match goal with
  | |- context [(?head ++ [?m1; ?m2]) ++ [?c1; ?c2]] =>
      generalize c1, c2; intros c1' c2'
  end.
  match goal with
  | |- context [?a :: ?b :: m_rfu edi ≫ 8 :: ?rest] =>
      generalize a, b; intros a' b'
  end.
  eexists sync3, (stcs ++ [_; _; c1'; c2']), (msts ++ _).
  split; [|split; [|split]].
  - rewrite <- !app_assoc. reflexivity.
  - subst sync3. destruct (_ =? 1); [by left|by right].
  - rewrite len_app. subst stcs. rewrite len_concat_map.
    change (fun x => len_ (frame_stc x)) with (fun _ : EDI_STC.t => 4).
    rewrite (sum_Z_const streams 4). change (len_ [_; _; _; _]) with 4. lia.
  - rewrite !len_app, Hfic. subst msts. rewrite len_concat_map.
    change (len_ [_; _; _; _; _; _; _; _]) with 8. lia.
Qed.

Lemma read_32b_sync sync3 rest :
  sync3 = [0xF8; 0xC5; 0x49] \/ sync3 = [0x07; 0x3A; 0xB6] ->
  (read_32b (([0xFF] ++ sync3 ++ rest)) =? ETI_NI_FSYNC0)
  || (read_32b (([0xFF] ++ sync3 ++ rest)) =? ETI_NI_FSYNC1) = true.
Proof. intros [-> | ->]; reflexivity. Qed.

Lemma parse_fc_bytes e s1 s2 s3 fct b5 hi lo rest :
  parse_fc (advance (e :: s1 :: s2 :: s3 :: fct :: b5 :: hi :: lo :: rest) 4)
  = let val := u32 ((fct ≪ 24) .| (b5 ≪ 16) .| (hi ≪ 8) .| lo) in
    ETI_FC.mk ((val ≫ 24) .& 0xFF) ((val ≫ 23) .& 0x01) ((val ≫ 16) .& 0x7F)
      ((val ≫ 13) .& 0x07) ((val ≫ 11) .& 0x03) (val .& 0x7FF).
Proof. reflexivity. Qed.

Lemma len_replicate n (x : Z) : 0 <= n -> len_ (replicate (Z.to_nat n) x) = n.
Proof. intros Hn. unfold len_. rewrite length_replicate. lia. Qed.

(** What the guards of [process_eti_frame] and [parse_fc] find in an
    assembled frame. *)
Lemma assembled_frame_layout edi eti :
  builder_in_range edi -> builder_arrays edi ->
  frame_wanted edi = true ->
  eti_frame_bytes edi = Some eti ->
  let fc := parse_fc (advance eti 4) in
  len_ eti = ETI_NI_RAW_SIZE
  /\ (read_32b eti =? ETI_NI_FSYNC0) || (read_32b eti =? ETI_NI_FSYNC1) = true
  /\ ETI_FC.fct fc = u8 (EDI_FC.dflc (m_fc edi) mod 250)
  /\ ETI_FC.ficf fc = (if EDI_FC.ficf (m_fc edi) then 1 else 0)
  /\ ETI_FC.nst fc = EDI_FC.nst (m_fc edi)
  /\ ETI_FC.fp fc = EDI_FC.fp (m_fc edi)
  /\ ETI_FC.mid fc = EDI_FC.mid (m_fc edi)
  /\ 0 <= EDI_FC.nst (m_fc edi) <= 64
  /\ exists tail,
       advance eti (8 + EDI_FC.nst (m_fc edi) * 4 + 4)
       = slice (fic edi) (fic_length edi) ++ tail
       /\ len_ (slice (fic edi) (fic_length edi)) = fic_length edi.
Proof.
  intros (Hnst & Hfp & Hmid) [Hstc Hficlen] Hw Hf fc.
  pose proof (frame_wanted_fic_length edi Hw) as Hfl.
  assert (fic_length edi = 96 \/ fic_length edi = 128) as Hfic
    by (destruct (EDI_FC.mid (m_fc edi) =? 3); lia).
  unfold eti_frame_bytes, first_streams in Hf.
  destruct (Z.ltb_spec (Z.of_nat (length (m_stc edi))) (EDI_FC.nst (m_fc edi)));
    [done|].
  cbn [mbind option_bind] in Hf.
  set (streams := take (Z.to_nat (EDI_FC.nst (m_fc edi))) (m_stc edi)) in *.
  assert (Z.of_nat (length streams) = EDI_FC.nst (m_fc edi)) as Hlen
    by (subst streams; rewrite length_take; lia).
  assert (len_ (slice (fic edi) (fic_length edi)) = fic_length edi) as Hslice.
  { unfold len_, slice. rewrite length_take. lia. }
  destruct (frame_body_layout edi streams Hlen Hslice)
    as (sync3 & eoh & tail & Hbody & Hsync & Heoh & Htail).
  cbv zeta in Hbody.
  set (lens := map (fun stc => len_ (EDI_STC.mst stc)) streams) in *.
  assert (Forall (fun x => 0 <= x) lens) as Hpos.
  { subst lens. rewrite Forall_map. apply Forall_forall. intros. apply len_nonneg. }
  destruct (sum_quarters lens Hpos) as (Hq0 & Hq1 & _).
  subst lens. rewrite map_map in Hq0, Hq1.
  set (F := EDI_FC.nst (m_fc edi) + 1 + fic_length edi / 4
            + sum_Z (map (fun stc => len_ (EDI_STC.mst stc) / 4) streams)) in *.
  set (fct := u8 (EDI_FC.dflc (m_fc edi) mod 250)) in *.
  pose proof (u8_range (EDI_FC.dflc (m_fc edi) mod 250)) as Hfct. fold fct in Hfct.
  assert (len_ (frame_body edi streams)
          = 8 + len_ eoh + len_ (slice (fic edi) (fic_length edi) ++ tail)) as Hlb.
  { rewrite Hbody, !len_app.
    destruct Hsync as [-> | ->]; change (len_ [_; _; _; _]) with 4;
      change (len_ [_; _; _]) with 3; change (len_ [_]) with 1; lia. }
  unfold ETI_NI_RAW_SIZE in *.
  destruct (Z.ltb_spec 6144 (len_ (frame_body edi streams))) as [|Hfit]; [done|].
  clearbody fct streams.
  assert (0 <= F < 2048) as HF.
  { subst F. rewrite Hlb, Heoh, Htail in Hfit. clear -Hfit Hq0 Hq1 Hfic Hnst.
    destruct Hfic as [Hv | Hv]; rewrite Hv in *;
      [change (96 / 4) with 24|change (128 / 4) with 32]; lia. }
  assert (0 <= EDI_FC.nst (m_fc edi) <= 64) as Hnst64 by lia.
  assert (0 <= EDI_FC.nst (m_fc edi) < 128) as Hnst7 by lia.
  pose proof (fc_read_back fct (EDI_FC.ficf (m_fc edi)) _ _ _ F
                Hfct Hnst7 Hfp Hmid HF) as Hval.
  cbv zeta in Hval.
  pose proof (parse_fc_fields _ fct (EDI_FC.ficf (m_fc edi)) _ _ _ F
                Hfct Hnst7 Hfp Hmid HF Hval) as Hfields.
  clear Hval.
  apply (inj Some) in Hf. subst eti.
  split; [rewrite len_app, len_replicate by lia; lia|].
  subst fc. rewrite Hbody.
  split; [|split; [|split; [|split; [|split; [|split; [|split; [done|]]]]]]].
  - rewrite <- !app_assoc. by apply read_32b_sync.
  - destruct Hsync as [-> | ->]; cbn [app]; rewrite parse_fc_bytes; apply Hfields.
  - destruct Hsync as [-> | ->]; cbn [app]; rewrite parse_fc_bytes; apply Hfields.
  - destruct Hsync as [-> | ->]; cbn [app]; rewrite parse_fc_bytes; apply Hfields.
  - destruct Hsync as [-> | ->]; cbn [app]; rewrite parse_fc_bytes; apply Hfields.
  - destruct Hsync as [-> | ->]; cbn [app]; rewrite parse_fc_bytes; apply Hfields.
  - eexists (tail ++ _). split; [|done].
    rewrite <- (app_assoc _ (_ ++ tail)), <- (app_assoc _ tail).
    apply advance_app_length. rewrite !len_app.
    destruct Hsync as [-> | ->]; change (len_ [_; _; _; _]) with 4;
      change (len_ [_; _; _]) with 3; change (len_ [_]) with 1; lia.
Qed.
End assembled_frame.

(** X11.  A frame assembled by [assemble_eti_frame] is 6144 bytes long and
    is read back consistently by the FIC parser it is fed to: [parse_fc]
    finds the stream count and the mode of the builder, and the builder's
    FIC bytes start right after the header, at byte [12 + 4 * nst].  As
    long as the parser is not complete and the DETI tag had FICF set, the
    parser runs [process_fic] on exactly that position with the builder's
    FIC length; once the parser is complete, or with FICF clear, the frame
    leaves the FIC tables alone. *)
Theorem assembled_frame_feeds_fic
    (s s' : DABStreamParser.t) (eti : bytes) (dflc : Z) :
  let edi := DABStreamParser.edi_ s in
  let nst := EDI_FC.nst (EDI_Builder.m_fc edi) in
  let fic_bytes := slice (EDI_Builder.fic edi) (EDI_Builder.fic_length edi) in
  builder_in_range edi -> builder_arrays edi ->
  DABStreamParser.assemble_eti_frame s = Some (s', [(eti, dflc)]) ->
  len_ eti = ETI_NI_RAW_SIZE
  /\ dflc = EDI_FC.dflc (EDI_Builder.m_fc edi)
  /\ ETI_FC.nst (parse_fc (advance eti 4)) = nst
  /\ ETI_FC.mid (parse_fc (advance eti 4)) = EDI_FC.mid (EDI_Builder.m_fc edi)
  /\ len_ fic_bytes = EDI_Builder.fic_length edi
  /\ exists tail,
       advance eti (12 + 4 * nst) = fic_bytes ++ tail
       /\ DABParser.fig (DABStreamParser.fic_parser_ s')
          = if DABStreamParser.is_complete s
            then DABParser.fig (DABStreamParser.fic_parser_ s)
            else if EDI_FC.ficf (EDI_Builder.m_fc edi)
            then DABParser.process_fic (DABParser.fig (DABStreamParser.fic_parser_ s))
                   (fic_bytes ++ tail) (EDI_Builder.fic_length edi)
            else DABParser.fig (DABStreamParser.fic_parser_ s).
Proof.
  intros edi nst fic_bytes Hrange Harrays Ha.
  unfold DABStreamParser.assemble_eti_frame in Ha. fold edi in Ha.
  destruct (DABStreamParser.frame_wanted edi) eqn:Hw; [|done].
  cbn [negb] in Ha.
  destruct (DABStreamParser.eti_frame_bytes edi) as [frame|] eqn:Hf; [|done].
  cbn [mbind option_bind] in Ha.
  apply (inj Some) in Ha.
  assert (frame = eti /\ EDI_FC.dflc (EDI_Builder.m_fc edi) = dflc) as [-> Hd].
  { apply (f_equal snd) in Ha. cbn [snd] in Ha. by injection Ha. }
  apply (f_equal (fun r => DABParser.fig (DABStreamParser.fic_parser_ (fst r)))) in Ha.
  cbn [fst DABStreamParser.fic_parser_] in Ha. rewrite <- Ha. clear Ha s'.
  pose proof (frame_wanted_fic_length edi Hw) as Hfl.
  destruct (assembled_frame_layout edi eti Hrange Harrays Hw Hf)
    as (Hlen & Hsync & _ & Hficf & Hnst & _ & Hmid & Hn64 & tail & Hadv & Hslice).
  fold nst in Hnst, Hn64, Hadv.
  replace (8 + nst * 4 + 4) with (12 + 4 * nst) in Hadv by lia.
  split; [done|]. split; [done|]. split; [done|]. split; [done|]. split; [done|].
  exists tail. split; [done|].
  unfold DABStreamParser.is_complete, DABParser.is_complete.
  unfold DABParser.process_eti_frame.
  destruct (DABParser.labelled_ (DABStreamParser.fic_parser_ s)); [done|].
  cbv zeta.
  rewrite Hficf, Hnst, Hmid.
  replace (8 + nst * 4 + 4) with (12 + 4 * nst) by lia.
  rewrite Hadv, <- Hfl.
  set (T := DABParser.process_fic _ _ _). clearbody T.
  unfold ETI_NI_RAW_SIZE. change (6144 <? 8) with false. cbv iota.
  destruct (read_32b eti =? ETI_NI_FSYNC0), (read_32b eti =? ETI_NI_FSYNC1);
    try done; cbn [negb andb].
  all: destruct (EDI_FC.ficf (EDI_Builder.m_fc edi)); [|done].
  all: change (1 =? 0) with false; cbv iota.
  all: destruct (Z.ltb_spec 6144 (12 + 4 * nst + EDI_Builder.fic_length edi));
    [destruct (EDI_FC.mid (EDI_Builder.m_fc edi) =? 3); lia|].
  all: destruct (DABParser.track_basic_ready _ T) as [[br lb] bs].
  all: by destruct (DABParser.track_completion _ T) as [[lab lc] sf].
Qed.

Lemma assembled_frame_feeds_fic_witness :
  let s := dab_state_after edi_packet_service_in_5 in
  let fic :=
    fib_of (fig_subchannels ++ fig_service) ++ fib_of fig_service_label
      ++ fib_of fig_ensemble_label in
  exists s' eti tail,
    DABStreamParser.assemble_eti_frame s = Some (s', [(eti, 0)])
    /\ len_ eti = 6144
    /\ advance eti 16 = fic ++ tail
    /\ DABParser.fig (DABStreamParser.fic_parser_ s')
       = DABParser.process_fic (DABParser.fig DABParser.init) (fic ++ tail) 96
    /\ is_Some (DABParser.service_map_ (DABParser.fig (DABStreamParser.fic_parser_ s'))
                  !! 0x1234)
    /\ is_Some (DABParser.subchannels_ (DABParser.fig (DABStreamParser.fic_parser_ s'))
                  !! 5).
Proof.
  intros s fic.
  assert ((fun r : DABStreamParser.t * list (bytes * Z) =>
             let T := DABParser.fig (DABStreamParser.fic_parser_ r.1) in
             bool_decide (is_Some (DABParser.service_map_ T !! 0x1234))
             && bool_decide (is_Some (DABParser.subchannels_ T !! 5)))
          <$> DABStreamParser.assemble_eti_frame s = Some true) as Htables
    by (vm_compute; reflexivity).
  destruct (DABStreamParser.assemble_eti_frame s)
    as [[s' [|[eti dflc] [|]]]|] eqn:E; try (by vm_compute in E).
  assert (dflc = 0) as -> by (vm_compute in E; congruence).
  cbn [fmap option_fmap option_map fst] in Htables. apply (inj Some) in Htables.
  apply andb_true_iff in Htables as [Hsvc Hsub].
  apply bool_decide_eq_true in Hsvc, Hsub.
  destruct (assembled_frame_feeds_fic s s' eti 0)
    as (Hlen & _ & _ & _ & _ & tail & Hadv & Hfig).
  - vm_compute. intuition congruence.
  - by vm_compute.
  - exact E.
  - exists s', eti, tail. split; [done|]. split; [exact Hlen|]. split; [exact Hadv|].
    split; [exact Hfig|]. split; [exact Hsvc|exact Hsub].
Defined.

Section gse_round_trip.
Import GseParser.

Lemma below_16 (P : Z -> bool) :
  forallb P (seqZ 0 16) = true -> forall k, 0 <= k < 16 -> P k = true.
Proof.
  intros H k Hk. rewrite forallb_forall in H. apply H.
  apply list_elem_of_In, elem_of_seqZ. lia.
Qed.

(** What [processGsePacket] reads in the two header bytes of [gse_packet]. *)
Lemma gse_header_fields flags n :
  flags = 0xA0 \/ flags = 0x20 \/ flags = 0x60 ->
  0 <= n < 4096 ->
  let hdr := flags + n / 256 in
  u16 (((hdr .& 0x0f) ≪ 8) .| (n mod 256)) = n
  /\ (hdr .& 0xf0 =? 0) = false
  /\ ((hdr ≫ 7) .& 1 =? 1) = (flags =? 0xA0)
  /\ ((hdr ≫ 6) .& 1 =? 1) = (flags =? 0x60)
  /\ (hdr ≫ 4) .& 3 = 2.
Proof.
  intros Hflags Hn hdr.
  assert (0 <= n / 256 < 16) as Hhi by divmod_lia.
  assert (hdr .& 0x0f = n / 256
          /\ (hdr .& 0xf0 =? 0) = false
          /\ ((hdr ≫ 7) .& 1 =? 1) = (flags =? 0xA0)
          /\ ((hdr ≫ 6) .& 1 =? 1) = (flags =? 0x60)
          /\ (hdr ≫ 4) .& 3 = 2) as (H1 & H2 & H3 & H4 & H5).
  { subst hdr. generalize dependent (n / 256). intros hi Hhi.
    pose proof (below_16
      (fun hi => forallb (fun flags =>
         ((flags + hi) .& 0x0f =? hi)
         && negb ((flags + hi) .& 0xf0 =? 0)
         && Bool.eqb (((flags + hi) ≫ 7) .& 1 =? 1) (flags =? 0xA0)
         && Bool.eqb (((flags + hi) ≫ 6) .& 1 =? 1) (flags =? 0x60)
         && (((flags + hi) ≫ 4) .& 3 =? 2)) [0xA0; 0x20; 0x60]) eq_refl hi Hhi) as Hall.
    cbv beta in Hall. rewrite forallb_forall in Hall.
    assert (In flags [0xA0; 0x20; 0x60]) as Hin by (cbn; intuition).
    apply Hall in Hin.
    repeat (apply andb_true_iff in Hin as [Hin ?]).
    repeat split.
    - by apply Z.eqb_eq.
    - by apply negb_true_iff.
    - by apply Bool.eqb_prop.
    - by apply Bool.eqb_prop.
    - by apply Z.eqb_eq. }
  rewrite H1. repeat split; try done.
  rewrite lor_shiftl_add by (change (2 ^ 8) with 256; divmod_lia).
  change (2 ^ 8) with 256. unfold u16. rewrite Z.mod_small; divmod_lia.
Qed.

Lemma at_app_l (p q : bytes) i : 0 <= i < len_ p -> at_ (p ++ q) i = at_ p i.
Proof.
  unfold at_, len_. intros Hi. destruct (Z.ltb_spec i 0); [lia|].
  apply app_nth1. lia.
Qed.

Lemma length_fragments_step st p len :
  length (fragments_ (processGsePacket st p len).1.1) = length (fragments_ st).
Proof.
  unfold processGsePacket. cbv zeta.
  repeat case_match; cbn [fst fragments_ bump_packets bump_fragments set_frag];
    by rewrite ?length_insert.
Qed.

Lemma length_fragments_run packets : forall st,
  length (fragments_ (process_packets st packets).1) = length (fragments_ st).
Proof.
  induction packets as [|p rest IH]; intros st; [done|].
  cbn [process_packets].
  pose proof (length_fragments_step st p (len_ p)) as H1.
  destruct (processGsePacket st p (len_ p)) as [[st1 r] out]. cbn [fst] in H1.
  specialize (IH st1). destruct (process_packets st1 rest). cbn [fst] in *. congruence.
Qed.

Lemma frag_set_frag st frag_id f :
  0 <= frag_id -> (Z.to_nat frag_id < length (fragments_ st))%nat ->
  frag (bump_fragments (set_frag st frag_id f)) frag_id = f.
Proof.
  intros H0 Hlt. unfold frag, bump_fragments, set_frag. cbn [fragments_].
  by rewrite list_lookup_insert_eq.
Qed.

(** The payload of an IPv4 PDU held in a buffer after the protocol type. *)
Lemma handle_complete_ipv4 (q ip : bytes) n :
  ipv4_datagram ip -> n = 2 + len_ ip -> len_ ip < 65536 ->
  slice q n = [0x08; 0x00] ++ ip ->
  handleCompleteGsePayload q n = [ip].
Proof.
  intros (Hbytes & Hlen & Hver & Htotal) -> Hmax Hq.
  assert (q = (8 :: 0 :: ip) ++ drop (Z.to_nat (2 + len_ ip)) q) as ->.
  { rewrite <- (take_drop (Z.to_nat (2 + len_ ip)) q) at 1. f_equal. exact Hq. }
  set (rest := drop _ _). clearbody rest. clear Hq.
  assert (is_byte (at_ ip 0)) as Hb0 by by apply is_byte_at.
  assert ((at_ ip 0 .& 0xF0 =? 0x40) = true) as Hnib.
  { pose proof (below_256 (fun b => negb (b ≫ 4 =? 4) || (b .& 0xF0 =? 0x40))
                  eq_refl (at_ ip 0) Hb0) as H.
    cbv beta in H. rewrite Hver in H. exact H. }
  unfold handleCompleteGsePayload.
  destruct (Z.ltb_spec (2 + len_ ip) 4); [lia|].
  change (at_ ((8 :: 0 :: ip) ++ rest) 0) with 8.
  change (at_ ((8 :: 0 :: ip) ++ rest) 1) with 0.
  change (u16 ((8 ≪ 8) .| 0)) with 0x0800. cbn [Z.eqb Pos.eqb negb].
  cbn [try_labels]. cbv zeta.
  destruct (Z.ltb_spec (2 + len_ ip) (2 + 0 + 20)); [lia|].
  change (advance ((8 :: 0 :: ip) ++ rest) (2 + 0)) with (ip ++ rest).
  rewrite at_app_l by lia. rewrite Hnib.
  unfold emitIpv4Packet.
  replace (2 + len_ ip - 2 - 0) with (len_ ip) by lia.
  destruct (Z.ltb_spec (len_ ip) 20); [lia|].
  rewrite at_app_l by lia. rewrite Hver. cbn [Z.eqb Pos.eqb negb].
  rewrite !at_app_l by lia. rewrite Htotal.
  assert (u16 (len_ ip) = len_ ip) as -> by (unfold u16; apply Z.mod_small; lia).
  rewrite Z.ltb_irrefl. f_equal.
  unfold slice, len_. rewrite Nat2Z.id. by rewrite take_app_length.
Qed.

Lemma len_cons (x : Z) (l : bytes) : len_ (x :: l) = 1 + len_ l.
Proof. unfold len_. cbn [length]. lia. Qed.

(** Appending [m] to a collecting slot. *)
Lemma collecting_append f total acc (m rest : bytes) :
  collecting f total acc ->
  4 + len_ acc + len_ m <= total + 2 ->
  let f' := append_fragment f (m ++ rest) (len_ m) in
  collecting f' total (acc ++ m)
  /\ GseFragment.total_length f' = GseFragment.total_length f.
Proof.
  intros (Hact & Hlen & Hpos & Hdata) Hfit f'.
  subst f'. unfold append_fragment. rewrite Hpos, Hlen.
  destruct (Z.leb_spec (4 + len_ acc + len_ m) (total + 2)); [|lia].
  split; [|done]. unfold collecting.
  cbn [GseFragment.active GseFragment.data GseFragment.current_pos].
  pose proof (len_nonneg acc). pose proof (len_nonneg m). pose proof (len_nonneg rest).
  assert (len_ (memcpy_at (GseFragment.data f) (4 + len_ acc) (m ++ rest) (len_ m))
          = total + 2) as Hlen'.
  { rewrite len_memcpy_at; rewrite ?len_app; lia. }
  split; [done|]. split; [done|]. split; [rewrite len_app; lia|].
  unfold memcpy_at. rewrite slice_app_length by done.
  assert (take (Z.to_nat (4 + len_ acc)) (GseFragment.data f)
          = take 2 (GseFragment.data f) ++ [8; 0] ++ acc) as ->.
  { rewrite <- Hdata. unfold slice, advance.
    replace (Z.to_nat (4 + len_ acc)) with (2 + Z.to_nat (2 + len_ acc))%nat by lia.
    change (Z.to_nat 2) with 2%nat.
    rewrite <- (take_drop 2 (GseFragment.data f)) at 1.
    rewrite take_app_add'; [done|]. rewrite length_take. unfold len_ in Hlen. lia. }
  unfold advance. change (Z.to_nat 2) with 2%nat.
  rewrite <- !app_assoc.
  rewrite drop_app_length'
    by (rewrite length_take; unfold len_ in Hlen; lia).
  rewrite !app_assoc. apply slice_app_length.
  rewrite !len_app. change (len_ [8; 0]) with 2. lia.
Qed.

Lemma at_0 x (l : bytes) : at_ (x :: l) 0 = x.
Proof. reflexivity. Qed.
Lemma at_1 x0 x (l : bytes) : at_ (x0 :: x :: l) 1 = x.
Proof. reflexivity. Qed.
Lemma at_2 x0 x1 x (l : bytes) : at_ (x0 :: x1 :: x :: l) 2 = x.
Proof. reflexivity. Qed.
Lemma at_3 x0 x1 x2 x (l : bytes) : at_ (x0 :: x1 :: x2 :: x :: l) 3 = x.
Proof. reflexivity. Qed.
Lemma at_4 x0 x1 x2 x3 x (l : bytes) : at_ (x0 :: x1 :: x2 :: x3 :: x :: l) 4 = x.
Proof. reflexivity. Qed.
Lemma at_5 x0 x1 x2 x3 x4 x (l : bytes) :
  at_ (x0 :: x1 :: x2 :: x3 :: x4 :: x :: l) 5 = x.
Proof. reflexivity. Qed.
Lemma at_6 x0 x1 x2 x3 x4 x5 x (l : bytes) :
  at_ (x0 :: x1 :: x2 :: x3 :: x4 :: x5 :: x :: l) 6 = x.
Proof. reflexivity. Qed.

Lemma first_fragment_step st frag_id total a :
  length (fragments_ st) = 256%nat -> is_byte frag_id ->
  28 <= total <= 2000 -> 2 <= len_ a -> 4 + len_ a <= total + 2 ->
  let p := gse_first_of frag_id total a in
  exists st',
    processGsePacket st p (len_ p) = (st', Some (len_ p), [])
    /\ length (fragments_ st') = 256%nat
    /\ collecting (frag st' frag_id) total a.
Proof.
  intros Hslots Hid Htotal Ha Hfit p. subst p.
  unfold gse_first_of, gse_packet. cbn [app].
  set (n := len_ (frag_id :: total / 256 :: total mod 256 :: 8 :: 0 :: a)).
  assert (n = 5 + len_ a) as Hn by (subst n; unfold len_; cbn [length]; lia).
  assert (0 <= n < 4096) as Hn4 by lia.
  destruct (gse_header_fields 0xA0 n (or_introl eq_refl) Hn4)
    as (Hlen & Hpad & Hstart & Hstop & Hlt).
  set (hdr := 0xA0 + n / 256) in *.
  set (lo := n mod 256) in *.
  assert (len_ (hdr :: lo :: frag_id :: total / 256 :: total mod 256 :: 8 :: 0 :: a)
          = n + 2) as Hp by (rewrite !len_cons; lia).
  clearbody hdr lo n.
  unfold processGsePacket. rewrite Hp, at_0, at_1, at_2, at_3, at_4, Hlen, Hpad, Hstart, Hstop, Hlt.
  cbv zeta. cbn [andb negb Z.eqb Pos.eqb].
  destruct (Z.ltb_spec (n + 2) 2); [lia|].
  destruct (Z.ltb_spec (n + 2) (n + 2)); [lia|].
  destruct (Z.ltb_spec n 7); [lia|].
  destruct (Z.ltb_spec (n + 2) (5 + 0 + 2)); [lia|].
  change (5 + 0) with 5. change (5 + 1) with 6. rewrite at_5, at_6.
  change (u16 ((8 ≪ 8) .| 0)) with 0x0800. cbn [Z.eqb Pos.eqb negb].
  assert (u16 (((total / 256) ≪ 8) .| (total mod 256)) = total) as ->.
  { rewrite lor_shiftl_add by (change (2 ^ 8) with 256; divmod_lia).
    change (2 ^ 8) with 256. unfold u16. rewrite Z.mod_small; divmod_lia. }
  destruct (Z.ltb_spec 2000 total); [lia|].
  destruct (Z.ltb_spec total 28); [lia|]. cbn [orb].
  set (d2 := <[1%nat := lo]> (<[0%nat := _]> (resize _ (total + 2)))).
  assert (len_ d2 = total + 2) as Hd2
    by (subst d2; rewrite !len_insert, len_resize; lia).
  clearbody d2.
  destruct (Z.leb_spec (2 + (n - 3)) (len_ d2)); [|lia].
  eexists. split; [reflexivity|].
  split; [cbn [bump_fragments set_frag fragments_]; by rewrite length_insert|].
  destruct Hid as [Hid0 Hid1].
  rewrite frag_set_frag by lia.
  change (advance (hdr :: lo :: frag_id :: total / 256 :: total mod 256 :: 8 :: 0 :: a) 5)
    with ([8; 0] ++ a).
  pose proof (len_nonneg a).
  unfold collecting.
  cbn [GseFragment.active GseFragment.data GseFragment.current_pos].
  split; [done|].
  split; [rewrite len_memcpy_at; rewrite ?len_app; change (len_ [8; 0]) with 2; lia|].
  split; [lia|].
  unfold memcpy_at. replace (n - 3) with (2 + len_ a) by lia.
  assert (slice ([8; 0] ++ a) (2 + len_ a) = [8; 0] ++ a) as ->.
  { rewrite <- (app_nil_r ([8; 0] ++ a)) at 1. apply slice_app_length.
    rewrite len_app. change (len_ [8; 0]) with 2. lia. }
  unfold advance. change (Z.to_nat 2) with 2%nat.
  rewrite drop_app_length' by (rewrite length_take; unfold len_ in Hd2; lia).
  apply slice_app_length. rewrite len_app. change (len_ [8; 0]) with 2. lia.
Qed.

Lemma middle_fragment_step st frag_id total acc m :
  length (fragments_ st) = 256%nat -> is_byte frag_id -> total <= 2000 ->
  collecting (frag st frag_id) total acc ->
  4 + len_ acc + len_ m <= total + 2 ->
  let p := gse_middle_of frag_id m in
  exists st',
    processGsePacket st p (len_ p) = (st', Some (len_ p), [])
    /\ length (fragments_ st') = 256%nat
    /\ collecting (frag st' frag_id) total (acc ++ m).
Proof.
  intros Hslots Hid Htotal Hcoll Hfit p. subst p.
  unfold gse_middle_of, gse_packet. cbn [app].
  pose proof (len_nonneg acc). pose proof (len_nonneg m).
  set (n := len_ (frag_id :: m)).
  assert (n = 1 + len_ m) as Hn by (subst n; apply len_cons).
  assert (0 <= n < 4096) as Hn4 by lia.
  destruct (gse_header_fields 0x20 n (or_intror (or_introl eq_refl)) Hn4)
    as (Hlen & Hpad & Hstart & Hstop & _).
  set (hdr := 0x20 + n / 256) in *.
  set (lo := n mod 256) in *.
  assert (len_ (hdr :: lo :: frag_id :: m) = n + 2) as Hp by (rewrite !len_cons; lia).
  clearbody hdr lo n.
  destruct (collecting_append _ _ _ m [] Hcoll Hfit) as [Hnew _].
  rewrite app_nil_r in Hnew.
  unfold processGsePacket. rewrite Hp, at_0, at_1, at_2, Hlen, Hpad, Hstart, Hstop.
  cbv zeta. cbn [andb negb Z.eqb Pos.eqb].
  destruct (Z.ltb_spec (n + 2) 2); [lia|].
  destruct (Z.ltb_spec (n + 2) (n + 2)); [lia|].
  destruct (Z.ltb_spec n 1); [lia|].
  destruct Hcoll as (Hact & _). rewrite Hact. cbn [negb].
  change (advance (hdr :: lo :: frag_id :: m) 3) with m.
  replace (n - 1) with (len_ m) by lia.
  fold (append_fragment (frag st frag_id) m (len_ m)).
  eexists. split; [reflexivity|].
  split; [cbn [bump_fragments set_frag fragments_]; by rewrite length_insert|].
  destruct Hid as [Hid0 Hid1]. by rewrite frag_set_frag by lia.
Qed.

Lemma last_fragment_step st frag_id total acc b crc :
  length (fragments_ st) = 256%nat -> is_byte frag_id -> total <= 2000 ->
  collecting (frag st frag_id) total acc ->
  4 + len_ acc + len_ b <= total + 2 ->
  len_ crc = 4 ->
  ipv4_datagram (acc ++ b) ->
  let p := gse_last_of frag_id b crc in
  exists st',
    processGsePacket st p (len_ p) = (st', Some (len_ p), [acc ++ b])
    /\ length (fragments_ st') = 256%nat.
Proof.
  intros Hslots Hid Htotal Hcoll Hfit Hcrc Hip p. subst p.
  unfold gse_last_of, gse_packet. cbn [app].
  pose proof (len_nonneg acc). pose proof (len_nonneg b).
  set (n := len_ (frag_id :: b ++ crc)).
  assert (n = 5 + len_ b) as Hn by (subst n; rewrite len_cons, len_app; lia).
  assert (0 <= n < 4096) as Hn4 by lia.
  destruct (gse_header_fields 0x60 n (or_intror (or_intror eq_refl)) Hn4)
    as (Hlen & Hpad & Hstart & Hstop & _).
  set (hdr := 0x60 + n / 256) in *.
  set (lo := n mod 256) in *.
  assert (len_ (hdr :: lo :: frag_id :: b ++ crc) = n + 2) as Hp
    by (rewrite !len_cons, len_app; lia).
  clearbody hdr lo n.
  destruct (collecting_append _ _ _ b crc Hcoll Hfit) as [Hnew _].
  unfold processGsePacket. rewrite Hp, at_0, at_1, at_2, Hlen, Hpad, Hstart, Hstop.
  cbv zeta. cbn [andb negb Z.eqb Pos.eqb].
  destruct (Z.ltb_spec (n + 2) 2); [lia|].
  destruct (Z.ltb_spec (n + 2) (n + 2)); [lia|].
  destruct (Z.ltb_spec n 5); [lia|].
  destruct Hcoll as (Hact & _). rewrite Hact. cbn [negb].
  change (advance (hdr :: lo :: frag_id :: b ++ crc) 3) with (b ++ crc).
  replace (n - 5) with (len_ b) by lia.
  fold (append_fragment (frag st frag_id) (b ++ crc) (len_ b)).
  set (f := append_fragment (frag st frag_id) (b ++ crc) (len_ b)) in *.
  destruct Hnew as (_ & _ & Hpos & Hdata). clearbody f.
  cbn [GseFragment.data GseFragment.current_pos].
  eexists. split.
  - f_equal. rewrite Hpos.
    apply handle_complete_ipv4; [done|lia| |].
    + rewrite len_app. lia.
    + rewrite <- Hdata. f_equal. lia.
  - cbn [bump_fragments bump_packets set_frag fragments_]. by rewrite length_insert.
Qed.

Lemma middles_then_last frag_id total b crc : forall ms st acc,
  length (fragments_ st) = 256%nat -> is_byte frag_id -> total <= 2000 ->
  collecting (frag st frag_id) total acc ->
  4 + len_ acc + len_ (concat ms) + len_ b <= total + 2 ->
  len_ crc = 4 ->
  ipv4_datagram (acc ++ concat ms ++ b) ->
  (process_packets st (map (gse_middle_of frag_id) ms ++ [gse_last_of frag_id b crc])).2
  = [acc ++ concat ms ++ b].
Proof.
  induction ms as [|m ms IH]; intros st acc Hslots Hid Htotal Hcoll Hfit Hcrc Hip.
  - cbn [map app concat process_packets] in *. change (len_ []) with 0 in Hfit.
    assert (4 + len_ acc + len_ b <= total + 2) as Hfit' by lia.
    by destruct (last_fragment_step st frag_id total acc b crc
                   Hslots Hid Htotal Hcoll Hfit' Hcrc Hip) as (st' & -> & _).
  - cbn [map app concat process_packets] in *. rewrite len_app in Hfit.
    pose proof (len_nonneg (concat ms)). pose proof (len_nonneg b).
    assert (4 + len_ acc + len_ m <= total + 2) as Hfit' by lia.
    destruct (middle_fragment_step st frag_id total acc m
                Hslots Hid Htotal Hcoll Hfit') as (st' & -> & Hslots' & Hcoll').
    specialize (IH st' (acc ++ m) Hslots' Hid Htotal Hcoll').
    rewrite len_app, <- !app_assoc in IH.
    destruct (process_packets st' _) as [st2 outs]. cbn [snd] in *.
    rewrite <- app_assoc in Hip. rewrite <- app_assoc. cbn [app].
    apply IH; [lia|done|done].
Qed.
End gse_round_trip.

(** X12.  GSE reassembly delivers the datagram.  Whatever packets came
    before, the fragments of an IPv4 datagram of 26 to 1998 bytes, sent
    without label under one fragment id as a first fragment with at least
    two payload bytes, any number of middle fragments and a last fragment,
    make the parser emit exactly that datagram, once, on the last
    fragment. *)
Theorem gse_reassembly_round_trip (earlier : list bytes) (frag_id : Z)
    (a : bytes) (ms : list bytes) (b crc : bytes) :
  let st := (GseParser.process_packets GseParser.init earlier).1 in
  let ip := a ++ concat ms ++ b in
  is_byte frag_id ->
  ipv4_datagram ip ->
  26 <= len_ ip <= 1998 ->
  2 <= len_ a ->
  len_ crc = 4 ->
  (GseParser.process_packets st
     (gse_first_of frag_id (len_ ip + 2) a
      :: map (gse_middle_of frag_id) ms ++ [gse_last_of frag_id b crc])).2
  = [ip].
Proof.
  intros st ip Hid Hip Hlen Ha Hcrc.
  assert (length (GseParser.fragments_ st) = 256%nat) as Hslots
    by (subst st; by rewrite length_fragments_run).
  assert (len_ ip = len_ a + len_ (concat ms) + len_ b) as Hsplit
    by (subst ip; rewrite !len_app; lia).
  pose proof (len_nonneg (concat ms)). pose proof (len_nonneg b).
  cbn [GseParser.process_packets].
  destruct (first_fragment_step st frag_id (len_ ip + 2) a)
    as (st' & -> & Hslots' & Hcoll); try done; try lia.
  pose proof (middles_then_last frag_id (len_ ip + 2) b crc ms st' a
                Hslots' Hid) as Hrun.
  destruct (GseParser.process_packets st' _) as [st2 outs]. cbn [snd] in *.
  cbn [app]. apply Hrun; try done; lia.
Qed.

Lemma gse_reassembly_round_trip_witness :
  let a := [0x45; 0; 0; 28; 0; 0; 0; 0; 64; 17] in
  let ms := [[0; 0; 10; 0]; [0; 1; 239; 199]] in
  let b := [2; 1; 4; 210; 4; 210; 0; 8; 0; 0] in
  (GseParser.process_packets
     (GseParser.process_packets GseParser.init [gse_first_fragment]).1
     (gse_first_of 1 30 a :: map (gse_middle_of 1) ms ++ [gse_last_of 1 b [0; 0; 0; 0]])).2
  = [a ++ concat ms ++ b].
Proof.
  intros a ms b.
  apply (gse_reassembly_round_trip [gse_first_fragment] 1 a ms b [0; 0; 0; 0]).
  - by vm_compute.
  - split; [apply bytes_check; reflexivity|]. by vm_compute.
  - by vm_compute.
  - by vm_compute.
  - reflexivity.
Defined.

Section gse_feed.
Import GseParser GseParserFeed.

Lemma at_advance p n i : 0 <= n -> 0 <= i -> at_ (advance p n) i = at_ p (n + i).
Proof.
  intros Hn Hi. unfold at_, advance.
  destruct (Z.ltb_spec i 0); [lia|]. destruct (Z.ltb_spec (n + i) 0); [lia|].
  rewrite <- (take_drop (Z.to_nat n) p) at 2.
  destruct (decide (Z.to_nat n <= length p)%nat) as [Hle|Hgt].
  - rewrite app_nth2 by (rewrite length_take; lia).
    rewrite length_take. f_equal. lia.
  - rewrite drop_ge by lia. rewrite take_ge by lia. rewrite app_nil_r.
    rewrite (nth_overflow p) by lia. by destruct (Z.to_nat i).
Qed.

Lemma advance_app_le (p q : bytes) n :
  0 <= n <= len_ p -> advance (p ++ q) n = advance p n ++ q.
Proof. unfold advance, len_. intros H. rewrite drop_app_le; [done|lia]. Qed.

Lemma slice_app_le (p q : bytes) n : n <= len_ p -> slice (p ++ q) n = slice p n.
Proof. unfold slice, len_. intros H. rewrite take_app_le; [done|lia]. Qed.

Lemma emitIpv4Packet_prefix (q rest : bytes) n :
  n <= len_ q -> emitIpv4Packet (q ++ rest) n = emitIpv4Packet q n.
Proof.
  intros Hn. unfold emitIpv4Packet.
  destruct (Z.ltb_spec n 20); [done|].
  rewrite !at_app_l by lia.
  destruct (negb _); [done|]. cbv zeta.
  set (w := u16 _). pose proof (u16_nonneg ((at_ q 2 ≪ 8) .| at_ q 3)) as Hw.
  fold w in Hw. clearbody w.
  f_equal. apply slice_app_le.
  destruct (Z.ltb_spec n w); [|lia].
  unfold u16. pose proof (Z.mod_le n 65536). pose proof (Z.mod_pos_bound n 65536). lia.
Qed.

Lemma try_labels_prefix (q rest : bytes) n labels :
  n <= len_ q -> Forall (fun l => 0 <= l) labels ->
  try_labels (q ++ rest) n labels = try_labels q n labels.
Proof.
  intros Hn Hl. induction Hl as [|l labels H0 Hl IH]; [done|].
  cbn [try_labels]. cbv zeta.
  destruct (Z.ltb_spec n (2 + l + 20)); [done|].
  rewrite advance_app_le by lia.
  rewrite at_app_l by (rewrite len_advance; lia).
  rewrite IH. destruct (_ =? 0x40); [|done].
  apply emitIpv4Packet_prefix. rewrite len_advance; lia.
Qed.

Lemma handleCompleteGsePayload_prefix (q rest : bytes) n :
  n <= len_ q ->
  handleCompleteGsePayload (q ++ rest) n = handleCompleteGsePayload q n.
Proof.
  intros Hn. unfold handleCompleteGsePayload.
  destruct (Z.ltb_spec n 4); [done|].
  rewrite !at_app_l by lia. destruct (negb _); [done|].
  apply try_labels_prefix; [done|]. repeat constructor; lia.
Qed.

Lemma memcpy_at_prefix dst pos (src rest : bytes) n :
  n <= len_ src -> memcpy_at dst pos (src ++ rest) n = memcpy_at dst pos src n.
Proof. intros Hn. unfold memcpy_at. by rewrite slice_app_le. Qed.

(** [processGsePacket] reads nothing beyond the [len] bytes it is given. *)
Lemma processGsePacket_prefix st (p rest : bytes) len :
  len <= len_ p ->
  processGsePacket st (p ++ rest) len = processGsePacket st p len.
Proof.
  intros Hlen. unfold processGsePacket.
  destruct (Z.ltb_spec len 2); [done|].
  rewrite !(at_app_l p rest 0), !(at_app_l p rest 1) by lia.
  set (hdr := at_ p 0). set (gse_len := u16 _).
  pose proof (u16_nonneg (((hdr .& 15) ≪ 8) .| at_ p 1)) as Hg. fold gse_len in Hg.
  clearbody gse_len. cbv zeta.
  destruct (hdr .& 240 =? 0); [done|].
  destruct (Z.ltb_spec len (gse_len + 2)); [done|].
  destruct ((hdr ≫ 7) .& 1 =? 1), ((hdr ≫ 6) .& 1 =? 1); cbn [andb negb].
  - rewrite advance_app_le by lia.
    rewrite handleCompleteGsePayload_prefix; [done|]. rewrite len_advance; lia.
  - destruct (Z.ltb_spec gse_len 7); [done|].
    set (label_len := if (hdr ≫ 4) .& 3 =? 0 then 6 else if (hdr ≫ 4) .& 3 =? 1 then 3 else 0).
    assert (0 <= label_len <= 6) as Hll
      by (subst label_len; repeat case_match; lia).
    clearbody label_len.
    destruct (Z.ltb_spec (gse_len + 2) (5 + label_len + 2)); [done|].
    rewrite !(at_app_l p rest) by lia.
    destruct (negb _); [done|]. destruct (_ || _); [done|].
    rewrite advance_app_le by lia.
    rewrite memcpy_at_prefix; [done|]. rewrite len_advance; lia.
  - destruct (Z.ltb_spec gse_len 5); [done|].
    rewrite !(at_app_l p rest) by lia.
    destruct (negb _); [done|].
    rewrite advance_app_le by lia.
    rewrite memcpy_at_prefix; [done|]. rewrite len_advance; lia.
  - destruct (Z.ltb_spec gse_len 1); [done|].
    rewrite !(at_app_l p rest) by lia.
    destruct (negb _); [done|].
    rewrite advance_app_le by lia.
    rewrite memcpy_at_prefix; [done|]. rewrite len_advance; lia.
Qed.

Lemma at_app_r (p q : bytes) i : 0 <= i -> at_ (p ++ q) (len_ p + i) = at_ q i.
Proof.
  intros Hi. rewrite <- (at_advance (p ++ q) (len_ p) i) by (pose proof (len_nonneg p); lia).
  by rewrite advance_app_length.
Qed.

Lemma at_app_len (p q : bytes) : at_ (p ++ q) (len_ p) = at_ q 0.
Proof. rewrite <- (at_app_r p q 0) by lia. f_equal. lia. Qed.

Lemma add_packets_0 st : add_packets st 0 = st.
Proof. destruct st. unfold add_packets. cbn. f_equal. lia. Qed.

Lemma add_packets_add st j k : add_packets (add_packets st j) k = add_packets st (j + k).
Proof. unfold add_packets. cbn. f_equal. lia. Qed.

Lemma bump_add_packets st k :
  bump_packets (add_packets st k) = add_packets (bump_packets st) k.
Proof. unfold add_packets, bump_packets. cbn. f_equal. lia. Qed.

(** The packet counter has no influence on what [processGsePacket] does. *)
Lemma processGsePacket_add_packets st k p len :
  processGsePacket (add_packets st k) p len
  = let '(st', r, out) := processGsePacket st p len in (add_packets st' k, r, out).
Proof.
  unfold processGsePacket.
  change (frag (add_packets st k)) with (frag st).
  cbv zeta.
  repeat case_match; try done; simplify_eq; try done.
  all: try (by rewrite bump_add_packets).
Qed.

Lemma process_packets_add_packets packets : forall st k,
  process_packets (add_packets st k) packets
  = let '(st', outs) := process_packets st packets in (add_packets st' k, outs).
Proof.
  induction packets as [|p packets IH]; intros st k; [done|].
  cbn [process_packets]. rewrite processGsePacket_add_packets.
  destruct (processGsePacket st p (len_ p)) as [[st1 r] out].
  rewrite IH. by destruct (process_packets st1 packets).
Qed.

Lemma gse_len_of_range p : Forall is_byte p -> 0 <= gse_len_of p < 4096.
Proof.
  intros Hp. unfold gse_len_of.
  pose proof (is_byte_at p 1 Hp) as Hlo. unfold is_byte in Hlo.
  assert (0 <= at_ p 0 .& 0x0f < 16) as Hhi.
  { change 0x0f with (Z.ones 4). rewrite Z.land_ones by lia. apply Z.mod_pos_bound. lia. }
  rewrite lor_shiftl_add by (change (2 ^ 8) with 256; lia).
  change (2 ^ 8) with 256. unfold u16. rewrite Z.mod_small; lia.
Qed.

(** A whole packet is consumed entirely. *)
Lemma processGsePacket_consumed st p :
  (at_ p 0 .& 0xf0 =? 0) = false -> len_ p = gse_len_of p + 2 -> 0 <= gse_len_of p ->
  (processGsePacket st p (len_ p)).1.2 = Some (len_ p).
Proof.
  intros Hpad Hlen Hg. unfold processGsePacket. fold (gse_len_of p).
  rewrite Hpad, Hlen. cbv zeta.
  destruct (Z.ltb_spec (gse_len_of p + 2) 2); [lia|].
  destruct (Z.ltb_spec (gse_len_of p + 2) (gse_len_of p + 2)); [lia|].
  repeat case_match; done.
Qed.

Lemma processGsePacket_consumed_min st p len c :
  (processGsePacket st p len).1.2 = Some c -> 2 <= c.
Proof.
  unfold processGsePacket. cbv zeta.
  pose proof (u16_nonneg (((at_ p 0 .& 15) ≪ 8) .| at_ p 1)) as Hg.
  set (gse_len := u16 _) in *. clearbody gse_len.
  repeat case_match; cbn [fst snd]; intros [= <-]; lia.
Qed.

(** The loop of [feedSynced] never needs more than [len - pos] turns. *)
Lemma feedSynced_loop_fuel data len : forall fuel1 fuel2 st pos,
  (Z.to_nat (len - pos) <= fuel1)%nat -> (Z.to_nat (len - pos) <= fuel2)%nat ->
  feedSynced_loop fuel1 st data len pos = feedSynced_loop fuel2 st data len pos.
Proof.
  induction fuel1 as [|fuel1 IH]; intros fuel2 st pos H1 H2.
  - destruct fuel2 as [|fuel2]; [done|]. cbn [feedSynced_loop].
    destruct (Z.ltb_spec len (pos + 2)); [done|lia].
  - destruct fuel2 as [|fuel2].
    { cbn [feedSynced_loop]. destruct (Z.ltb_spec len (pos + 2)); [done|lia]. }
    cbn [feedSynced_loop].
    destruct (Z.ltb_spec len (pos + 2)); [done|]. cbv zeta.
    destruct (_ || _); [done|]. destruct (8192 <? _); [done|].
    destruct (_ <? _); [done|].
    pose proof (processGsePacket_consumed_min st (advance data pos)
                  (u16 (((at_ data pos .& 15) ≪ 8) .| at_ data (pos + 1)) + 2)) as Hc.
    destruct (processGsePacket _ _ _) as [[st1 [c|]] out]; cbn [fst snd] in Hc.
    + specialize (Hc c eq_refl). by rewrite (IH fuel2) by lia.
    + apply IH; lia.
Qed.

Lemma feedSynced_loop_packets rest :
  gse_feed_stops rest ->
  forall packets st pre fuel,
    Forall gse_whole_packet packets ->
    (length packets < fuel)%nat \/ packets = [] ->
    let data := pre ++ concat packets ++ rest in
    feedSynced_loop fuel st data (len_ data) (len_ pre)
    = let '(st', outs) := process_packets st packets in
      (add_packets st' (Z.of_nat (length packets)), outs).
Proof.
  intros Hstop.
  induction packets as [|p packets IH]; intros st pre fuel Hwf Hfuel data.
  - subst data. cbn [concat app process_packets length].
    rewrite add_packets_0. destruct fuel as [|fuel]; [done|].
    cbn [feedSynced_loop]. rewrite len_app.
    pose proof (len_nonneg pre) as Hpre.
    destruct (Z.ltb_spec (len_ pre + len_ rest) (len_ pre + 2)); [done|].
    rewrite !at_app_len, !at_app_r by lia. cbv zeta.
    destruct Hstop as [Hs|[Hs|Hs]]; [lia|by rewrite Hs|].
    destruct (_ || _); [done|].
    fold (gse_len_of rest).
    destruct (8192 <? _); [done|].
    destruct (Z.ltb_spec (len_ pre + len_ rest) (len_ pre + (gse_len_of rest + 2)));
      [done|lia].
  - destruct Hfuel as [Hfuel|?]; [|done].
    destruct fuel as [|fuel]; [cbn in Hfuel; lia|]. cbn [length] in Hfuel.
    apply Forall_cons in Hwf as [(Hbytes & Hpad & Hff & Hlen) Hwf].
    pose proof (gse_len_of_range p Hbytes) as Hg.
    pose proof (len_nonneg pre) as Hpre.
    pose proof (len_nonneg (concat packets ++ rest)) as Htail.
    subst data. cbn [concat]. rewrite <- !app_assoc.
    cbn [feedSynced_loop]. rewrite !len_app.
    rewrite len_app in Htail.
    destruct (Z.ltb_spec (len_ pre + (len_ p + (len_ (concat packets) + len_ rest)))
                (len_ pre + 2)); [lia|].
    rewrite !at_app_len, !at_app_r by lia.
    rewrite (at_app_l p), (at_app_l p) by lia.
    rewrite Hpad, Hff. cbn [orb]. cbv zeta. fold (gse_len_of p). rewrite <- Hlen.
    destruct (Z.ltb_spec 8192 (len_ p)); [lia|].
    destruct (Z.ltb_spec (len_ pre + (len_ p + (len_ (concat packets) + len_ rest)))
                (len_ pre + len_ p)); [lia|].
    rewrite advance_app_length by lia.
    rewrite processGsePacket_prefix by lia.
    pose proof (processGsePacket_consumed st p Hpad Hlen (proj1 Hg)) as Hcons.
    cbn [process_packets].
    destruct (processGsePacket st p (len_ p)) as [[st1 r] out]. cbn [fst snd] in Hcons.
    subst r.
    replace (len_ pre + len_ p) with (len_ (pre ++ p)) by (rewrite len_app; lia).
    specialize (IH (bump_packets st1) (pre ++ p) fuel Hwf).
    cbv zeta in IH. rewrite <- !app_assoc, !len_app in IH.
    rewrite len_app.
    rewrite IH by (destruct packets; [by right|left; cbn [length] in *; lia]).
    change (bump_packets st1) with (bump_packets st1).
    assert (bump_packets st1 = add_packets st1 1) as -> by done.
    rewrite process_packets_add_packets.
    destruct (process_packets st1 packets) as [st2 outs].
    rewrite add_packets_add. do 2 f_equal. cbn [length]. lia.
Qed.
End gse_feed.

(** X13.  [feedSynced] on a buffer that holds whole GSE packets one after
    the other, followed by padding, by fewer than two bytes or by a packet
    cut short, hands each packet in turn to [processGsePacket], which reads
    nothing beyond the packet: the datagrams emitted and the fragment
    buffers are those of processing the packets one by one, and the packet
    counter is advanced once more per packet. *)
Theorem feedSynced_processes_each_packet (st : GseParser.t)
    (packets : list bytes) (rest : bytes) :
  let data := concat packets ++ rest in
  Forall gse_whole_packet packets ->
  gse_feed_stops rest ->
  GseParserFeed.feedSynced st data (len_ data)
  = let '(st', outs) := GseParser.process_packets st packets in
    (add_packets st' (Z.of_nat (length packets)), outs).
Proof.
  intros data Hwf Hstop. unfold GseParserFeed.feedSynced.
  apply (feedSynced_loop_packets rest Hstop packets st [] _ Hwf).
  destruct packets as [|p packets]; [by right|left].
  subst data. unfold len_. rewrite Nat2Z.id. cbn [concat].
  rewrite !length_app.
  assert (forall ps, Forall gse_whole_packet ps ->
                     (2 * length ps <= length (concat ps))%nat) as Hcount.
  { intros ps Hps. induction Hps as [|q ps (Hb & _ & _ & Hl) Hps IH]; [done|].
    cbn [length concat]. rewrite length_app.
    pose proof (gse_len_of_range q Hb). unfold len_ in Hl. lia. }
  apply Forall_cons in Hwf as [(Hb & _ & _ & Hl) Hwf].
  pose proof (gse_len_of_range p Hb). specialize (Hcount packets Hwf).
  unfold len_ in Hl. cbn [length]. lia.
Qed.

Lemma feedSynced_processes_each_packet_witness :
  let packets := [gse_first_fragment; gse_last_fragment] in
  GseParserFeed.feedSynced GseParser.init (concat packets ++ [0; 0; 0]) 37
  = let '(st', outs) := GseParser.process_packets GseParser.init packets in
    (add_packets st' 2, outs).
Proof.
  intros packets.
  apply (feedSynced_processes_each_packet GseParser.init packets [0; 0; 0]).
  - apply Forall_cons. split; [split; [apply bytes_check; reflexivity|by vm_compute]|].
    apply Forall_cons. split; [split; [apply bytes_check; reflexivity|by vm_compute]|].
    by apply Forall_nil.
  - right. by left.
Defined.

Section assemblers.
Import DABStreamParser EDI_Builder.

Lemma copy_mst_fits streams : forall idx,
  idx + sum_Z (map (fun stc => len_ (SubchannelData.mst stc)) streams) <= 6136 ->
  EdiParser.copy_mst idx streams = Some (concat (map SubchannelData.mst streams)).
Proof.
  induction streams as [|stc streams IH]; intros idx Hfit; [done|].
  cbn [EdiParser.copy_mst map concat sum_Z foldr] in *.
  fold (sum_Z (map (fun stc => len_ (SubchannelData.mst stc)) streams)) in Hfit.
  assert (0 <= sum_Z (map (fun stc => len_ (SubchannelData.mst stc)) streams)) as Hpos.
  { clear. induction streams as [|x l IH]; cbn [map sum_Z foldr]; [done|].
    fold (sum_Z (map (fun stc => len_ (SubchannelData.mst stc)) l)).
    pose proof (len_nonneg (SubchannelData.mst x)). lia. }
  cbv zeta.
  destruct (Z.ltb_spec (6144 - 8) (idx + len_ (SubchannelData.mst stc))); [lia|].
  rewrite IH by lia. done.
Qed.

Lemma streams_agree_map {A} (f : SubchannelData.t -> A) (g : EDI_STC.t -> A) es ds :
  (forall a b, stream_agrees a b -> f a = g b) ->
  Forall2 stream_agrees es ds -> map f es = map g ds.
Proof.
  intros Hfg H. induction H as [|a b es ds Hab H IH]; [done|].
  cbn [map]. f_equal; [by apply Hfg|done].
Qed.

Lemma frame_wanted_agrees eb db :
  builders_agree eb db ->
  EdiParser.frame_wanted eb = frame_wanted db.
Proof.
  intros (H1 & H2 & _ & _ & _ & Hmid & _ & _ & _ & _ & Hlen & _).
  unfold EdiParser.frame_wanted, frame_wanted. rewrite H1, H2, Hmid, Hlen.
  assert (bool_decide (EtiBuilder.fic eb = []) = (fic_length db =? 0)) as ->.
  { rewrite <- Hlen. destruct (EtiBuilder.fic eb); [done|].
    rewrite bool_decide_eq_false_2 by done. symmetry. apply Z.eqb_neq.
    unfold len_. cbn [length]. lia. }
  destruct (is_eti db), (m_fc_valid db); cbn [andb]; try done.
  destruct (Z.eqb_spec (fic_length db) 0) as [->|]; cbn [negb andb].
  { by destruct (EDI_FC.mid (m_fc db) =? 3). }
  destruct (EDI_FC.mid (m_fc db) =? 3); cbn [negb andb];
    change (32 * 4) with 128; change (24 * 4) with 96;
    by repeat destruct (fic_length db =? _).
Qed.

Lemma frame_stc_agrees a b :
  stream_agrees a b -> EdiParser.frame_stc a = frame_stc b.
Proof.
  intros (H1 & H2 & H3 & H4). unfold EdiParser.frame_stc, frame_stc.
  by rewrite H1, H2, H3, H4.
Qed.

Lemma frame_stc_bytes b : Forall is_byte (frame_stc b).
Proof.
  unfold frame_stc. cbv zeta.
  assert (forall x, is_byte (x .& 0xFF)) as Hland.
  { intros x. unfold is_byte. change 0xFF with (Z.ones 8).
    rewrite Z.land_ones by lia. apply Z.mod_pos_bound. lia. }
  repeat constructor; try apply u8_range; apply Hland.
Qed.

Lemma concat_bytes (ls : list bytes) :
  Forall (Forall is_byte) ls -> Forall is_byte (concat ls).
Proof.
  induction 1 as [|l ls Hl Hls IH]; [constructor|].
  cbn [concat]. by apply Forall_app.
Qed.

Lemma u16_shiftr_byte x : is_byte (u16 x ≫ 8).
Proof.
  pose proof (u16_nonneg x). unfold is_byte.
  rewrite Z.shiftr_div_pow2 by lia. change (2 ^ 8) with 256. divmod_lia.
Qed.

Lemma land_byte x : is_byte (x .& 0xFF).
Proof.
  unfold is_byte. change 0xFF with (Z.ones 8).
  rewrite Z.land_ones by lia. apply Z.mod_pos_bound. lia.
Qed.

Lemma sum_Z_u16 (lens : list Z) :
  Forall (fun x => 0 <= x) lens -> sum_Z lens <= 6144 ->
  map (fun x => u16 (x / 4)) lens = map (fun x => x / 4) lens.
Proof.
  induction 1 as [|x lens Hx Hl IH]; intros Hsum; [done|].
  cbn [map sum_Z foldr] in *. fold (sum_Z lens) in Hsum.
  assert (0 <= sum_Z lens) as Hpos.
  { clear -Hl. induction Hl as [|y l Hy Hl IH]; cbn [sum_Z foldr]; [done|].
    fold (sum_Z l). lia. }
  f_equal; [|apply IH; lia].
  unfold u16. apply Z.mod_small. divmod_lia.
Qed.
Lemma headers_agree eb db es ds :
  FrameControl.ficf (EtiBuilder.fc eb) = EDI_FC.ficf (m_fc db) ->
  FrameControl.mid (EtiBuilder.fc eb) = EDI_FC.mid (m_fc db) ->
  FrameControl.fp (EtiBuilder.fc eb) = EDI_FC.fp (m_fc db) ->
  FrameControl.dflc (EtiBuilder.fc eb) = EDI_FC.dflc (m_fc db) ->
  FrameControl.nst (EtiBuilder.fc eb) = EDI_FC.nst (m_fc db) ->
  len_ (EtiBuilder.fic eb) = fic_length db ->
  0 <= EDI_FC.fp (m_fc db) < 8 -> 0 <= EDI_FC.mid (m_fc db) < 4 ->
  0 <= fic_length db <= 128 ->
  Forall2 stream_agrees es ds ->
  sum_Z (map (fun stc => len_ (EDI_STC.mst stc)) ds) <= 6144 ->
  exists h1 h2 h3 fc,
    EdiParser.frame_header eb es = EtiBuilder.err eb :: h1 :: h2 :: h3 :: fc
    /\ frame_header db ds = 0xFF :: h1 :: h2 :: h3 :: fc
    /\ Forall is_byte fc /\ len_ fc = 4.
Proof.
  intros Eficf Emid Efp Edflc Enst Elen Hfp Hmid Hfic Hsd Hsum.
  unfold EdiParser.frame_header, frame_header. cbv zeta.
  rewrite Eficf, Emid, Efp, Edflc, Enst, Elen.
  assert (u16 (EDI_FC.fp (m_fc db)) = EDI_FC.fp (m_fc db)) as ->
    by (unfold u16; apply Z.mod_small; lia).
  assert (u16 (EDI_FC.mid (m_fc db)) = EDI_FC.mid (m_fc db)) as ->
    by (unfold u16; apply Z.mod_small; lia).
  assert (u16 (fic_length db / 4) = fic_length db / 4) as ->
    by (unfold u16; apply Z.mod_small; divmod_lia).
  assert (map (fun stc => u16 (len_ (SubchannelData.mst stc) / 4)) es
          = map (fun stc => len_ (EDI_STC.mst stc) / 4) ds) as ->.
  { rewrite (streams_agree_map (fun stc => u16 (len_ (SubchannelData.mst stc) / 4))
               (fun stc => u16 (len_ (EDI_STC.mst stc) / 4)) es ds); [|
      by intros a b (_ & _ & _ & ->) | done].
    pose proof (sum_Z_u16 (map (fun stc => len_ (EDI_STC.mst stc)) ds)) as Hu.
    rewrite !map_map in Hu. apply Hu; [|done].
    rewrite Forall_map. apply Forall_forall. intros. apply len_nonneg. }
  destruct (_ =? 1); cbn [app]; eexists _, _, _, _;
    (split; [reflexivity|split; [reflexivity|split; [|reflexivity]]]);
    repeat constructor; try apply u8_range; try apply u16_shiftr_byte;
    apply land_byte.
Qed.

End assemblers.

(** X14.  The two ETI assemblers build the same frame.  When the builder
    of [EdiParser] and the builder of [DABStreamParser] hold the same
    decoded frame, whatever [assemble_eti_frame] emits, [assembleEtiFrame]
    emits too, with the same DFLC and the same 6144 bytes except for byte
    0, the ERR byte, which [EdiParser] takes from the DETI tag and
    [DABStreamParser] sets to 0xFF; when one emits nothing, so does the
    other. *)
Theorem assemblers_agree (eb : EtiBuilder.t) (s s' : DABStreamParser.t)
    (frames : list (bytes * Z)) :
  let db := DABStreamParser.edi_ s in
  builders_agree eb db -> builder_in_range db -> builder_arrays db ->
  builder_bytes db ->
  DABStreamParser.assemble_eti_frame s = Some (s', frames) ->
  EdiParser.assembleEtiFrame eb
  = Some (map (fun '(frame, dflc) => (with_err (EtiBuilder.err eb) frame, dflc)) frames).
Proof.
  intros db Hagree (Hnst & Hfp & Hmid) [Hstc Hficlen] (Hmnsc & Hficb & Hmstb) Ha.
  pose proof (frame_wanted_agrees eb db Hagree) as Hwanted.
  unfold DABStreamParser.assemble_eti_frame in Ha. fold db in Ha.
  unfold EdiParser.assembleEtiFrame. rewrite Hwanted.
  destruct (DABStreamParser.frame_wanted db) eqn:Hw; cbn [negb] in *.
  2: { by injection Ha as <- <-. }
  destruct (DABStreamParser.eti_frame_bytes db) as [frame|] eqn:Hf; [|done].
  cbn [mbind option_bind] in Ha. injection Ha as _ <-. cbn [map].
  pose proof (frame_wanted_fic_length db Hw) as Hfl.
  destruct Hagree as (_ & _ & Emnsc & Erfu & Eficf & Emid & Efp & Edflc & Etsta
                      & Enst & Elen & Efic & Estreams).
  unfold DABStreamParser.eti_frame_bytes, first_streams in Hf.
  unfold EdiParser.first_subchannels.
  rewrite (Forall2_length _ _ _ Estreams), Enst.
  destruct (Z.ltb_spec (Z.of_nat (length (EDI_Builder.m_stc db)))
              (EDI_FC.nst (EDI_Builder.m_fc db))) as [|Hn]; [done|].
  cbn [mbind option_bind] in *.
  set (ds := take (Z.to_nat (EDI_FC.nst (EDI_Builder.m_fc db))) (EDI_Builder.m_stc db)) in *.
  set (es := take (Z.to_nat (EDI_FC.nst (EDI_Builder.m_fc db))) (EtiBuilder.subchannels eb)).
  assert (Forall2 stream_agrees es ds) as Hsd by by apply Forall2_take.
  assert (Z.of_nat (length ds) = EDI_FC.nst (EDI_Builder.m_fc db)) as Hlen
    by (subst ds; rewrite length_take; lia).
  assert (0 <= EDI_Builder.fic_length db <= 128) as Hfic
    by (destruct (EDI_FC.mid (EDI_Builder.m_fc db) =? 3); lia).
  pose proof (len_frame_body db ds) as Hbody.
  unfold ETI_NI_RAW_SIZE in Hf.
  destruct (Z.ltb_spec 6144 (len_ (DABStreamParser.frame_body db ds))) as [|Hfit];
    [done|].
  apply (inj Some) in Hf. subst frame.
  remember (sum_Z (map (fun stc => len_ (EDI_STC.mst stc)) ds)) as lens eqn:Hlens.
  assert (lens <= 6144) as Hsum by lia.
  rewrite Hlens in Hsum.
  destruct (headers_agree eb db es ds Eficf Emid Efp Edflc Enst Elen Hfp Hmid Hfic
              Hsd Hsum) as (h1 & h2 & h3 & fc & He & Hd & Hfcb & Hfcl).
  assert (forall a b, stream_agrees a b -> SubchannelData.mst a = EDI_STC.mst b)
    as Hmst by by intros a b (_ & _ & _ & ?).
  assert (Forall is_byte (concat (map EDI_STC.mst ds))) as Hmsts.
  { apply concat_bytes. rewrite Forall_map. subst ds. by apply Forall_take. }
  assert (Forall is_byte (slice (EDI_Builder.fic db) (EDI_Builder.fic_length db)))
    as Hficbytes by by apply Forall_take.
  assert (Forall is_byte (concat (map DABStreamParser.frame_stc ds))) as Hstcs.
  { apply concat_bytes. rewrite Forall_map. apply Forall_forall. intros.
    apply frame_stc_bytes. }
  assert (len_ (concat (map DABStreamParser.frame_stc ds))
          = 4 * EDI_FC.nst (EDI_Builder.m_fc db)) as Hstcl.
  { rewrite len_concat_map.
    change (fun x => len_ (DABStreamParser.frame_stc x)) with (fun _ : EDI_STC.t => 4).
    rewrite (sum_Z_const ds 4). lia. }
  assert (len_ (slice (EDI_Builder.fic db) (EDI_Builder.fic_length db))
          = EDI_Builder.fic_length db) as Hsl by (by rewrite <- Efic).
  assert (12 + 4 * EDI_FC.nst (EDI_Builder.m_fc db) + EDI_Builder.fic_length db
          + lens + 8 <= 6144) as Hroom.
  { unfold DABStreamParser.frame_body in Hfit. cbv zeta in Hfit.
    rewrite Hd in Hfit. rewrite !len_app, !len_cons in Hfit.
    rewrite Hfcl, Hstcl, Hsl, len_concat_map, <- Hlens in Hfit.
    change (len_ []) with 0 in Hfit. lia. }
  clear Hfit Hbody.
  unfold DABStreamParser.frame_body. cbv zeta.
  rewrite He, Hd.
  rewrite (streams_agree_map EdiParser.frame_stc DABStreamParser.frame_stc es ds
             frame_stc_agrees Hsd).
  rewrite Emnsc, Erfu, Etsta, Edflc, Efic.
  set (stcs := concat (map DABStreamParser.frame_stc ds)) in *.
  set (mnsc_bytes := [EDI_Builder.m_mnsc db ≫ 8; EDI_Builder.m_mnsc db .& 255]).
  assert (Forall is_byte mnsc_bytes) as Hmb.
  { subst mnsc_bytes.
    apply Forall_cons_2; [|apply Forall_cons_2; [apply land_byte|apply Forall_nil_2]].
    unfold is_byte. rewrite Z.shiftr_div_pow2 by lia. change (2 ^ 8) with 256.
    divmod_lia. }
  assert (len_ mnsc_bytes = 2) as Hml by done.
  clearbody mnsc_bytes stcs.
  cbn [app].
  change (advance (?x :: h1 :: h2 :: h3 :: ?l) 4) with l.
  assert (forall X n, Forall is_byte X ->
                      EdiParser.crc16 X n = DABStreamParser.crc16 X n) as Hcrc.
  { intros X n HX.
    unfold DABStreamParser.crc16, crc16_table_driven, EdiParser.crc16. f_equal.
    assert (Forall is_byte (slice X n)) as Hs by by apply Forall_take.
    by destruct (crc_fold_agrees (slice X n) 0xFFFF Hs ltac:(lia)) as [-> _]. }
  rewrite !(Hcrc ((fc ++ stcs) ++ mnsc_bytes)) by (repeat apply Forall_app_2; done).
  set (crc1 := DABStreamParser.crc16 ((fc ++ stcs) ++ mnsc_bytes) _).
  rewrite !len_cons, !len_app, Hfcl, Hstcl, Hml.
  change (len_ [_; _]) with 2.
  rewrite Hsl.
  rewrite copy_mst_fits; cycle 1.
  { rewrite (streams_agree_map (fun stc => len_ (SubchannelData.mst stc))
               (fun stc => len_ (EDI_STC.mst stc)) es ds); [| |done].
    - rewrite <- Hlens. lia.
    - by intros a b (_ & _ & _ & ->). }
  rewrite (streams_agree_map SubchannelData.mst EDI_STC.mst es ds Hmst Hsd).
  rewrite !(Hcrc (slice (EDI_Builder.fic db) (EDI_Builder.fic_length db)
                  ++ concat (map EDI_STC.mst ds))) by (by apply Forall_app_2).
  unfold with_err.
  change (advance (255 :: ?l) 1) with l.
  rewrite !len_app, !len_cons, !len_app, Hfcl, Hstcl, Hml, Hsl.
  reflexivity.
Qed.

Lemma assemblers_agree_witness :
  let mst := [1; 2; 3; 4; 5; 6; 7; 8] in
  exists s' frame,
    DABStreamParser.assemble_eti_frame (dab_state_of mst) = Some (s', [(frame, 0)])
    /\ EdiParser.assembleEtiFrame (eti_builder_of mst)
       = Some [(with_err 0xFF frame, 0)].
Proof.
  intros mst.
  destruct (DABStreamParser.assemble_eti_frame (dab_state_of mst))
    as [[s' [|[frame dflc] [|]]]|] eqn:E; try (by vm_compute in E).
  assert (dflc = 0) as -> by (vm_compute in E; congruence).
  exists s', frame. split; [done|].
  apply (assemblers_agree (eti_builder_of mst) (dab_state_of mst) s' [(frame, 0)]);
    [| | | |exact E].
  - remember (DABStreamParser.edi_ (dab_state_of mst)) as db eqn:Hdb.
    vm_compute in Hdb. subst db. unfold builders_agree. cbn.
    repeat split. repeat (constructor; [by repeat split|]). constructor.
  - vm_compute. intuition congruence.
  - by vm_compute.
  - remember (DABStreamParser.edi_ (dab_state_of mst)) as db eqn:Hdb.
    vm_compute in Hdb. subst db.
    unfold builder_bytes. cbn [EDI_Builder.m_mnsc EDI_Builder.fic EDI_Builder.m_stc].
    split; [lia|]. split; [apply bytes_check; reflexivity|].
    repeat (apply Forall_cons_2; [apply bytes_check; reflexivity|]). apply Forall_nil_2.
Defined.

Section labels.

Lemma utf8_two_bytes c :
  0x80 <= c < 256 ->
  let b1 := u8 (0xC0 .| (c ≫ 6)) in
  let b2 := u8 (0x80 .| (c .& 0x3F)) in
  ((0 <=? b1) && (b1 <? 0x80)) = false
  /\ ((b1 =? 0xC2) || (b1 =? 0xC3)) = true
  /\ (b2 .& 0xC0 =? 0x80) = true
  /\ ((b1 .& 0x1F) ≪ 6) .| (b2 .& 0x3F) = c.
Proof.
  intros Hc.
  pose proof (below_256
    (fun c => (c <? 0x80)
              || (negb ((0 <=? u8 (0xC0 .| (c ≫ 6))) && (u8 (0xC0 .| (c ≫ 6)) <? 0x80))
                  && ((u8 (0xC0 .| (c ≫ 6)) =? 0xC2) || (u8 (0xC0 .| (c ≫ 6)) =? 0xC3))
                  && (u8 (0x80 .| (c .& 0x3F)) .& 0xC0 =? 0x80)
                  && ((((u8 (0xC0 .| (c ≫ 6)) .& 0x1F) ≪ 6)
                       .| (u8 (0x80 .| (c .& 0x3F)) .& 0x3F)) =? c)))
    eq_refl c ltac:(lia)) as H.
  cbv beta in H.
  destruct (Z.ltb_spec c 0x80); [lia|]. cbn [orb] in H.
  repeat (apply andb_true_iff in H as [H ?]).
  cbv zeta. repeat split; try done.
  - by apply negb_true_iff.
  - by apply Z.eqb_eq.
Qed.

Lemma latin1_decodes src :
  Forall is_byte src -> utf8_decode_latin1 (latin1_to_utf8 src) = Some (until_nul src).
Proof.
  induction 1 as [|c rest Hc Hrest IH]; [done|].
  cbn [latin1_to_utf8 until_nul]. unfold is_byte in Hc.
  destruct (Z.eqb_spec c 0); [done|].
  destruct (Z.ltb_spec c 0x80).
  - cbn [utf8_decode_latin1].
    destruct (Z.leb_spec 0 c); [|lia]. destruct (Z.ltb_spec c 0x80); [|lia].
    cbn [andb]. by rewrite IH.
  - destruct (utf8_two_bytes c ltac:(lia)) as (H1 & H2 & H3 & H4). cbv zeta in *.
    cbn [utf8_decode_latin1]. rewrite H1, H2, H3, IH. cbn [mbind option_bind].
    by rewrite H4.
Qed.

Lemma until_nul_zeros (l : bytes) k : until_nul (l ++ replicate k 0) = until_nul l.
Proof.
  induction l as [|c l IH]; cbn [app until_nul].
  - by destruct k.
  - destruct (c =? 0); [done|]. by rewrite IH.
Qed.

Lemma blank_tail_zeros r :
  exists k, blank_tail r = replicate k 0 ++ drop_blanks r.
Proof.
  induction r as [|c r [k IH]]; [by exists 0%nat|].
  cbn [blank_tail drop_blanks]. destruct ((c =? 32) || (c =? 0)).
  - exists (S k). by rewrite IH.
  - by exists 0%nat.
Qed.

Lemma until_nul_blank_tail r :
  until_nul (rev (blank_tail r)) = until_nul (rev (drop_blanks r)).
Proof.
  destruct (blank_tail_zeros r) as [k ->].
  rewrite rev_app_distr.
  assert (rev (replicate k 0) = replicate k 0) as ->.
  { induction k as [|k IH]; [done|]. cbn [replicate rev]. rewrite IH.
    clear. induction k as [|k IH]; [done|]. cbn [replicate app]. by rewrite IH. }
  apply until_nul_zeros.
Qed.

Lemma len_latin1 src : len_ (latin1_to_utf8 src) <= 2 * len_ src.
Proof.
  induction src as [|c rest IH]; [done|].
  cbn [latin1_to_utf8]. pose proof (len_nonneg rest).
  repeat case_match; rewrite ?len_cons; change (len_ []) with 0; lia.
Qed.

Lemma blank_tail_bytes r : Forall is_byte r -> Forall is_byte (blank_tail r).
Proof.
  induction 1 as [|c r Hc Hr IH]; [done|].
  cbn [blank_tail]. destruct (_ || _); [|by constructor].
  constructor; [unfold is_byte; lia|done].
Qed.

Lemma length_blank_tail r : length (blank_tail r) = length r.
Proof.
  induction r as [|c r IH]; [done|].
  cbn [blank_tail]. destruct (_ || _); [|done]. cbn [length]. by rewrite IH.
Qed.
End labels.

(** X15.  Labels are converted to well-formed UTF-8 that reads back as the
    label.  On bytes, the output of [latin1_to_utf8] decodes to the input up
    to its first NUL; the label stored for an ensemble or a service decodes
    to the sixteen characters of the FIG without their trailing spaces and
    NULs, cut at the first NUL, and is at most 32 bytes long. *)
Theorem labels_read_back (data : bytes) :
  Forall is_byte data ->
  utf8_decode_latin1 (latin1_to_utf8 data) = Some (until_nul data)
  /\ utf8_decode_latin1 (label_to_utf8 data) = Some (label_text data)
  /\ len_ (label_to_utf8 data) <= 32.
Proof.
  intros Hdata. split; [by apply latin1_decodes|].
  unfold label_to_utf8, label_text.
  assert (Forall is_byte (rev (blank_tail (rev (slice data 16))))) as Hb.
  { apply Forall_rev, blank_tail_bytes, Forall_rev. by apply Forall_take. }
  split.
  - rewrite latin1_decodes by done. f_equal. apply until_nul_blank_tail.
  - pose proof (len_latin1 (rev (blank_tail (rev (slice data 16))))) as Hl.
    unfold len_ in *. rewrite length_rev, length_blank_tail, length_rev in Hl.
    unfold slice in *. rewrite length_take in Hl.
    change (Z.to_nat 16) with 16%nat in *. lia.
Qed.

Lemma labels_read_back_witness :
  let data := [82; 65; 68; 73; 79; 32; 0xE9; 32; 32; 32; 32; 32; 32; 32; 32; 32; 0xFF] in
  utf8_decode_latin1 (latin1_to_utf8 data) = Some (until_nul data)
  /\ utf8_decode_latin1 (label_to_utf8 data) = Some [82; 65; 68; 73; 79; 32; 0xE9]
  /\ len_ (label_to_utf8 data) <= 32.
Proof.
  intros data. apply (labels_read_back data). apply bytes_check. reflexivity.
Defined.

Section deinterleaving.
Import EtinaDeint.

Lemma foldM_seqZ_inv {A} (f : A -> Z -> option A) (P : Z -> A -> Prop) (m : Z) :
  (forall i a, 0 <= i < m -> P i a -> exists a', f a i = Some a' /\ P (i + 1) a') ->
  forall a, 0 <= m -> P 0 a -> exists a', foldM f a (seqZ 0 m) = Some a' /\ P m a'.
Proof.
  intros Hstep.
  assert (forall (k : nat) s a, 0 <= s -> s + Z.of_nat k = m -> P s a ->
            exists a', foldM f a (seqZ s (Z.of_nat k)) = Some a' /\ P m a') as H.
  { induction k as [|k IH]; intros s a Hs Hk HP.
    - exists a. split; [done|]. by replace m with s by lia.
    - rewrite seqZ_cons by lia. cbn [foldM].
      destruct (Hstep s a ltac:(lia) HP) as (a' & -> & HP').
      cbn [mbind option_bind].
      replace (Z.pred (Z.of_nat (S k))) with (Z.of_nat k) by lia.
      apply IH; [lia|lia|]. by replace (Z.succ s) with (s + 1) by lia. }
  intros a Hm HP. specialize (H (Z.to_nat m) 0 a).
  rewrite Z2Nat.id in H by lia. apply H; [lia|lia|done].
Qed.

Lemma at_map (f : Z -> Z) (l : bytes) i :
  0 <= i < len_ l -> at_ (map f l) i = f (at_ l i).
Proof.
  unfold at_, len_. intros Hi. destruct (Z.ltb_spec i 0); [lia|].
  rewrite <- (map_nth f). apply nth_indep. rewrite length_map. lia.
Qed.

Lemma len_map (f : Z -> Z) (l : bytes) : len_ (map f l) = len_ l.
Proof. unfold len_. by rewrite length_map. Qed.

Lemma advance_map f (p : bytes) n : advance (map f p) n = map f (advance p n).
Proof. unfold advance. symmetry. apply fmap_drop. Qed.

Lemma bytes_as_map (p : bytes) : p = map (at_ p) (seqZ 0 (len_ p)).
Proof.
  apply list_eq. intros i. rewrite list_lookup_fmap.
  destruct (p !! i) as [x|] eqn:E.
  - pose proof (lookup_lt_Some _ _ _ E) as Hi.
    rewrite lookup_seqZ_lt by (unfold len_; lia).
    cbn [fmap option_fmap option_map]. f_equal.
    unfold at_. destruct (Z.ltb_spec (0 + Z.of_nat i) 0); [lia|].
    replace (Z.to_nat (0 + Z.of_nat i)) with i by lia.
    symmetry. by apply nth_lookup_Some with (d := 0) in E.
  - apply lookup_ge_None in E.
    by rewrite lookup_seqZ_ge by (unfold len_; lia).
Qed.

Lemma deint_source_range i : 0 <= i < 5760 -> 0 <= deint_source_of i < 6144.
Proof. intros Hi. unfold deint_source_of, deint_source. cbv zeta. divmod_lia. Qed.

Lemma len_seqZ n : 0 <= n -> len_ (seqZ 0 n) = n.
Proof. intros Hn. unfold len_. rewrite length_seqZ. lia. Qed.

Lemma len_deinterleaved mf : len_ (deinterleaved mf) = 5760.
Proof. unfold deinterleaved. by rewrite len_map, len_seqZ. Qed.

Lemma at_insert (d : bytes) o v j :
  0 <= o < len_ d -> 0 <= j ->
  at_ (<[Z.to_nat o := v]> d) j = if j =? o then v else at_ d j.
Proof.
  intros Ho Hj. unfold at_, len_ in *. destruct (Z.ltb_spec j 0); [lia|].
  rewrite !nth_lookup.
  destruct (Z.eqb_spec j o) as [->|Hne].
  - by rewrite list_lookup_insert_eq by lia.
  - by rewrite list_lookup_insert_ne by lia.
Qed.

(** One pass of the innermost loop writes the next cell. *)
Lemma deint_cell_step (sbk d0 : bytes) base col row st :
  2048 <= len_ sbk -> 0 <= base -> base + 1920 <= len_ d0 ->
  0 <= col < 240 -> 0 <= row < 8 ->
  deint_written sbk d0 base (col * 8 + row) st ->
  exists st', deint_cell sbk base col st row = Some st'
              /\ deint_written sbk d0 base (col * 8 + row + 1) st'.
Proof.
  intros Hsbk Hbase Hd0 Hcol Hrow (Hp & Hl & Hat). destruct st as [in_ptr d].
  cbn [fst snd] in *.
  remember (col * 8 + row) as n eqn:Hn.
  assert (0 <= n < 1920) as Hn' by lia.
  unfold deint_cell, INTERLEAVE_COLS. cbv zeta.
  assert ((if in_ptr mod 16 =? 0 then in_ptr + 1 else in_ptr) = n + n / 15 + 1) as ->.
  { subst in_ptr. clear -Hn'.
    destruct (Z.eqb_spec ((n + (n + 14) / 15) mod 16) 0); divmod_lia. }
  assert (0 <= n + n / 15 + 1 < 2048) as Hrd by (clear -Hn'; divmod_lia).
  unfold rd_at. destruct (Z.leb_spec 0 (n + n / 15 + 1)); [|lia].
  destruct (Z.ltb_spec (n + n / 15 + 1) (len_ sbk)); [|lia].
  cbn [andb mbind option_bind].
  destruct (Z.leb_spec 0 (base + (col + row * 240))); [|lia].
  destruct (Z.ltb_spec (base + (col + row * 240)) (len_ d)); [|lia]. cbn [andb].
  eexists. split; [reflexivity|].
  split; [|split]; cbn [fst snd].
  - clear -Hn'. divmod_lia.
  - by rewrite len_insert.
  - intros j Hj. rewrite at_insert by lia. rewrite Hat by done.
    unfold deint_step_of.
    destruct (Z.eqb_spec j (base + (col + row * 240))) as [->|Hne].
    + replace (base + (col + row * 240) - base) with (col + row * 240) by lia.
      assert ((col + row * 240) mod 240 = col) as -> by (clear -Hcol Hrow; divmod_lia).
      assert ((col + row * 240) / 240 = row) as -> by (clear -Hcol Hrow; divmod_lia).
      rewrite <- Hn.
      destruct (Z.leb_spec base (base + (col + row * 240))); [|lia].
      destruct (Z.ltb_spec (base + (col + row * 240)) (base + 1920)); [|lia].
      destruct (Z.ltb_spec n (n + 1)); [|lia]. done.
    + destruct (Z.leb_spec base j); [|done].
      destruct (Z.ltb_spec j (base + 1920)); [|done]. cbn [andb].
      assert (0 <= j - base < 1920) as Hj' by lia.
      assert (j - base <> col + row * 240) as Hne' by lia.
      set (j' := j - base) in *. clearbody j'.
      destruct (Z.ltb_spec (j' mod 240 * 8 + j' / 240) (n + 1)) as [Hlt|Hge];
        destruct (Z.ltb_spec (j' mod 240 * 8 + j' / 240) n) as [Hlt'|Hge'];
        try done; try lia.
      exfalso. clear -Hj' Hne' Hn Hcol Hrow Hlt Hge'. divmod_lia.
Qed.

(** One pass of the loop over the rows writes a column. *)
Lemma deint_col_step (sbk d0 : bytes) base col st :
  2048 <= len_ sbk -> 0 <= base -> base + 1920 <= len_ d0 ->
  0 <= col < 240 ->
  deint_written sbk d0 base (col * 8) st ->
  exists st', deint_col sbk base st col = Some st'
              /\ deint_written sbk d0 base ((col + 1) * 8) st'.
Proof.
  intros Hsbk Hbase Hd0 Hcol Hst. unfold deint_col, INTERLEAVE_ROWS.
  destruct (foldM_seqZ_inv (deint_cell sbk base col)
              (fun r => deint_written sbk d0 base (col * 8 + r)) 8) with (a := st)
    as (st' & E & H').
  - intros row a Hrow Ha.
    replace (col * 8 + (row + 1)) with (col * 8 + row + 1) by lia.
    by apply deint_cell_step.
  - lia.
  - by replace (col * 8 + 0) with (col * 8) by lia.
  - exists st'. split; [done|]. by replace ((col + 1) * 8) with (col * 8 + 8) by lia.
Qed.

(** One pass of the outer loop de-interleaves a superblock. *)
Lemma deint_superblock_step (mf d0 d : bytes) sb :
  6144 <= len_ mf -> 0 <= sb < 3 ->
  deint_done mf d0 sb d ->
  exists d', deint_superblock mf d sb = Some d' /\ deint_done mf d0 (sb + 1) d'.
Proof.
  intros Hmf Hsb (Hl & Hat).
  unfold deint_superblock, FRAMES_IN_BLOCK, BLOCKS_IN_SUPERBLOCK, E1_FRAME_SIZE,
    INTERLEAVE_ROWS, INTERLEAVE_COLS.
  cbv zeta. change (8 * 8 * 32) with 2048. change (8 * 240) with 1920.
  set (sbk := advance mf (sb * 2048)).
  assert (2048 <= len_ sbk) as Hsbk by (subst sbk; rewrite len_advance; lia).
  destruct (foldM_seqZ_inv (deint_col sbk (sb * 1920))
              (fun c => deint_written sbk d (sb * 1920) (c * 8)) 240) with (a := (0, d))
    as ([in_ptr d'] & -> & (_ & Hl' & Hat')).
  - intros col a Hcol Ha. apply deint_col_step; (lia || done).
  - lia.
  - split; [done|]. split; [done|]. intros j Hj. cbn [fst snd].
    unfold deint_step_of.
    destruct (Z.leb_spec (sb * 1920) j); [|done].
    destruct (Z.ltb_spec j (sb * 1920 + 1920)); [|done]. cbn [andb].
    destruct (Z.ltb_spec ((j - sb * 1920) mod 240 * 8 + (j - sb * 1920) / 240) (0 * 8));
      [exfalso; divmod_lia|done].
  - cbn [mbind option_bind fst snd] in *. exists d'. split; [done|].
    split; [lia|]. intros j Hj. rewrite Hat' by lia.
    destruct (Z.leb_spec (sb * 1920) j); destruct (Z.ltb_spec j (sb * 1920 + 1920));
      destruct (Z.ltb_spec j ((sb + 1) * 1920)); try lia; cbn [andb].
    + assert (deint_step_of (j - sb * 1920) < 240 * 8) as Hstep
        by (unfold deint_step_of; divmod_lia).
      destruct (Z.ltb_spec (deint_step_of (j - sb * 1920)) (240 * 8)); [|lia].
      assert (0 <= deint_step_of (j - sb * 1920)) as Hstep0
        by (unfold deint_step_of; divmod_lia).
      subst sbk. rewrite at_advance by (clear -Hstep0 Hsb; divmod_lia). f_equal.
      unfold deint_source_of, deint_source, deint_step_of. cbv zeta.
      assert (j / 1920 = sb) as -> by divmod_lia.
      assert ((j - sb * 1920) mod 240 = j mod 240) as -> by divmod_lia.
      assert ((j - sb * 1920) / 240 = j mod 1920 / 240) as -> by divmod_lia.
      lia.
    + rewrite Hat by done. destruct (Z.ltb_spec j (sb * 1920)); [lia|done].
    + rewrite Hat by done. destruct (Z.ltb_spec j (sb * 1920)); [done|lia].
Qed.

(** Step 1 in closed form. *)
Lemma deinterleave_closed_form (mf : bytes) :
  6144 <= len_ mf ->
  deinterleave mf (replicate (Z.to_nat 5760) 0) = Some (deinterleaved mf).
Proof.
  intros Hlen. unfold deinterleave, SUPERBLOCKS_IN_MULTIFRAME.
  set (d0 := replicate (Z.to_nat 5760) 0).
  destruct (foldM_seqZ_inv (deint_superblock mf) (deint_done mf d0) 3) with (a := d0)
    as (d & -> & Hl & Hat).
  - intros sb d Hsb Hd. by apply deint_superblock_step.
  - lia.
  - split; [subst d0; by rewrite len_replicate|].
    intros j Hj. by destruct (Z.ltb_spec j (0 * 1920)); [lia|].
  - f_equal. etransitivity; [apply bytes_as_map|]. rewrite Hl. unfold deinterleaved.
    apply map_ext_in. intros j Hj. apply list_elem_of_In, elem_of_seqZ in Hj.
    rewrite Hat by lia. destruct (Z.ltb_spec j (3 * 1920)); [done|lia].
Qed.

Lemma rd_bytes_map f (p : bytes) n : rd_bytes (map f p) n = map f <$> rd_bytes p n.
Proof.
  unfold rd_bytes. rewrite len_map. destruct (_ <? _); [done|].
  cbn [fmap option_fmap option_map]. f_equal. unfold slice. symmetry. apply fmap_take.
Qed.

Lemma row_segments_natural f (row_data : bytes) max_read : forall fuel read_ptr,
  row_segments fuel (map f row_data) max_read read_ptr
  = map f <$> row_segments fuel row_data max_read read_ptr.
Proof.
  induction fuel as [|fuel IH]; intros read_ptr; [done|].
  cbn [row_segments]. destruct (_ <? _); [|done]. cbv zeta.
  rewrite advance_map, rd_bytes_map, IH.
  destruct (rd_bytes _ _) as [seg|]; [|done].
  cbn [fmap option_fmap option_map mbind option_bind].
  destruct (row_segments _ _ _ _) as [tail|]; [|done].
  cbn [fmap option_fmap option_map mbind option_bind]. by rewrite map_app.
Qed.

Lemma copy_rows_natural f (d : bytes) max_read rows :
  copy_rows (map f d) max_read rows = map f <$> copy_rows d max_read rows.
Proof.
  induction rows as [|row rows IH]; [done|].
  cbn [copy_rows]. rewrite IH. unfold copy_row. cbv zeta.
  rewrite advance_map, row_segments_natural, rd_bytes_map.
  destruct (_ <? 2).
  - destruct (row_segments _ _ _ _) as [r|]; [|done].
    cbn [fmap option_fmap option_map mbind option_bind].
    destruct (copy_rows d max_read rows) as [rs|]; [|done].
    cbn [fmap option_fmap option_map mbind option_bind]. by rewrite map_app.
  - destruct (rd_bytes _ _) as [r|]; [|done].
    cbn [fmap option_fmap option_map mbind option_bind].
    destruct (copy_rows d max_read rows) as [rs|]; [|done].
    cbn [fmap option_fmap option_map mbind option_bind]. by rewrite map_app.
Qed.

Lemma zrange_seqZ n : forall s, zrange s n = seqZ s (Z.of_nat n).
Proof.
  induction n as [|n IH]; intros s; [done|].
  rewrite seqZ_cons by lia. cbn [zrange]. f_equal. rewrite IH. f_equal; lia.
Qed.

Lemma positions_zrange : seqZ 0 5760 = zrange 0 (Z.to_nat 5760).
Proof. rewrite zrange_seqZ. f_equal. Qed.

(** Step 3, computed once on the positions in the vector. *)
Lemma copy_rows_positions max_read :
  max_read = 235 \/ max_read = 226 ->
  copy_rows (seqZ 0 5760) max_read (seqZ 0 24)
  = Some (List.filter (deint_kept max_read) (seqZ 0 5760)).
Proof. rewrite positions_zrange. intros [-> | ->]; vm_compute; reflexivity. Qed.

Lemma length_kept max_read :
  max_read = 235 \/ max_read = 226 ->
  len_ (List.filter (deint_kept max_read) (seqZ 0 5760))
  = (if max_read =? 235 then 5592 else 5376).
Proof. rewrite positions_zrange. intros [-> | ->]; vm_compute; reflexivity. Qed.

Lemma copy_rows_closed_form mf max_read :
  max_read = 235 \/ max_read = 226 ->
  copy_rows (deinterleaved mf) max_read (seqZ 0 24) = Some (eti_na_payload mf max_read).
Proof.
  intros Hmax. unfold deinterleaved, eti_na_payload.
  by rewrite copy_rows_natural, (copy_rows_positions _ Hmax).
Qed.

Lemma rd_at_deinterleaved mf i :
  0 <= i < 5760 -> rd_at (deinterleaved mf) i = Some (at_ mf (deint_source_of i)).
Proof.
  intros Hi. unfold rd_at. rewrite len_deinterleaved.
  destruct (Z.leb_spec 0 i); [|lia]. destruct (Z.ltb_spec i 5760); [|lia].
  cbn [andb]. unfold deinterleaved.
  rewrite (at_map (fun i => at_ mf (deint_source_of i)) (seqZ 0 5760) i)
    by (rewrite len_seqZ; lia).
  do 3 f_equal. unfold at_. destruct (Z.ltb_spec i 0); [lia|].
  rewrite <- (Z2Nat.id i) at 2 by lia.
  apply (nth_lookup_Some _ _ 0). rewrite lookup_seqZ_lt by lia. f_equal; lia.
Qed.
End deinterleaving.

(** X16.  De-interleaving a multiframe, in closed form.  On a buffer of at
    least 6144 bytes the de-interleaver reads and writes within its buffers
    and returns a frame of 6144 bytes: the sync word, which alternates from
    call to call and is one that [process_eti_frame] accepts; then the bytes
    of the multiframe picked by a fixed selection of positions, namely, row
    by row of the de-interleaved superblocks, the first 235 columns (226
    when the type bit of the first management byte is set) without the
    management byte that heads every run of thirty in rows 0 and 1; then
    0x55 padding. *)
Theorem etina_deinterleave_closed_form (state : EtinaDeintState.t) (mf : bytes) :
  6144 <= len_ mf ->
  let even := EtinaDeintState.even_frame state in
  let type_bit := (at_ mf (deint_source_of 30) ≫ 1) .& 0x01 in
  let max_read := if type_bit =? 0 then 235 else 226 in
  let payload := eti_na_payload mf max_read in
  let out :=
    EtinaDeint.sync_bytes even ++ payload
      ++ replicate (Z.to_nat (6140 - len_ payload)) 0x55 in
  EtinaDeint.etina_deinterleave_to_eti state mf
  = Some (EtinaDeintState.mk (negb even), out)
  /\ len_ payload = (if type_bit =? 0 then 5592 else 5376)
  /\ len_ out = 6144
  /\ read_32b out = (if even then ETI_NI_FSYNC1 else ETI_NI_FSYNC0).
Proof.
  intros Hlen even type_bit max_read payload out.
  assert (max_read = 235 \/ max_read = 226) as Hmax
    by (subst max_read; destruct (type_bit =? 0); [by left|by right]).
  assert (len_ payload = if type_bit =? 0 then 5592 else 5376) as Hpay.
  { subst payload. unfold eti_na_payload. rewrite len_map, (length_kept _ Hmax).
    subst max_read. by destruct (type_bit =? 0). }
  assert (len_ (EtinaDeint.sync_bytes even) = 4) as Hsync by reflexivity.
  assert (EtinaDeint.etina_deinterleave_to_eti state mf
          = Some (EtinaDeintState.mk (negb even), out)) as Hrun.
  { unfold EtinaDeint.etina_deinterleave_to_eti.
    unfold INTERLEAVE_ROWS, INTERLEAVE_COLS, SUPERBLOCKS_IN_MULTIFRAME, ETI_NI_FRAME_SIZE.
    change (8 * 240 * 3) with 5760. change (8 * 3) with 24.
    rewrite deinterleave_closed_form by done. cbn [mbind option_bind].
    rewrite rd_at_deinterleaved by lia. cbn [mbind option_bind].
    change ((at_ mf (deint_source_of 30) ≫ 1) .& 1) with type_bit.
    change (if type_bit =? 0 then 235 else 226) with max_read.
    rewrite (copy_rows_closed_form mf max_read Hmax). cbn [mbind option_bind].
    change (eti_na_payload mf max_read) with payload.
    change (EtinaDeintState.even_frame state) with even.
    subst out. clearbody payload type_bit.
    rewrite len_app, Hsync.
    destruct (Z.ltb_spec 6144 (4 + len_ payload));
      [destruct (type_bit =? 0); lia|].
    replace (6144 - (4 + len_ payload)) with (6140 - len_ payload) by lia.
    by rewrite <- app_assoc. }
  split; [done|]. split; [done|].
  subst out. clearbody payload type_bit. split.
  - rewrite !len_app, len_replicate, Hsync; destruct (type_bit =? 0); lia.
  - by destruct even.
Qed.

Lemma etina_deinterleave_closed_form_witness :
  let mf := replicate (Z.to_nat 6400) 0x1B in
  exists out,
    EtinaDeint.etina_deinterleave_to_eti EtinaDeintState.init mf
    = Some (EtinaDeintState.mk false, out)
    /\ len_ out = 6144 /\ read_32b out = ETI_NI_FSYNC1.
Proof.
  intros mf.
  destruct (etina_deinterleave_closed_form EtinaDeintState.init mf)
    as (H & _ & Hl & Hs); [by vm_compute|].
  eexists. split; [exact H|]. split; [exact Hl|exact Hs].
Defined.

Section ts_sections.
Import MPESectionAccumulator.

Lemma len_slice (p : bytes) n : 0 <= n -> len_ (slice p n) = Z.min n (len_ p).
Proof. intros Hn. unfold len_, slice. rewrite length_take. lia. Qed.

Lemma at_slice (p : bytes) n i : i < n -> at_ (slice p n) i = at_ p i.
Proof.
  intros Hi. unfold at_, slice. destruct (Z.ltb_spec i 0); [done|].
  rewrite !nth_lookup. by rewrite lookup_take_lt by lia.
Qed.

Lemma slice_0 (p : bytes) : slice p 0 = [].
Proof. done. Qed.

Lemma advance_0 (p : bytes) : advance p 0 = p.
Proof. done. Qed.

Lemma slice_slice (p : bytes) n m : 0 <= n <= m -> slice (slice p m) n = slice p n.
Proof. intros H. unfold slice. rewrite take_take. f_equal. lia. Qed.

Lemma slice_add (p : bytes) n m :
  0 <= n -> 0 <= m -> slice p n ++ slice (advance p n) m = slice p (n + m).
Proof.
  intros Hn Hm. unfold slice, advance. rewrite take_take_drop. f_equal. lia.
Qed.

Lemma slice_ge (p : bytes) n : len_ p <= n -> slice p n = p.
Proof. intros H. unfold slice, len_ in *. apply take_ge. lia. Qed.

Lemma advance_ge (p : bytes) n : len_ p <= n -> advance p n = [].
Proof. intros H. unfold advance, len_ in *. apply drop_ge. lia. Qed.

(** Copying the next bytes of a section behind those already taken. *)
Lemma memcpy_section (b0 sec src : bytes) skip n :
  0 <= skip -> 0 <= n -> skip + n <= len_ sec -> len_ sec <= len_ b0 ->
  slice src n = slice (advance sec skip) n ->
  memcpy_at (slice sec skip ++ advance b0 skip) skip src n
  = slice sec (skip + n) ++ advance b0 (skip + n).
Proof.
  intros Hs Hn Hfit Hb Hsrc. unfold memcpy_at. rewrite Hsrc.
  assert (length (slice sec skip) = Z.to_nat skip) as Hl.
  { unfold slice, len_ in *. rewrite length_take. lia. }
  rewrite take_app_length' by done.
  rewrite app_assoc, slice_add by lia. f_equal.
  replace (Z.to_nat (skip + n)) with (length (slice sec skip) + Z.to_nat n)%nat by lia.
  rewrite drop_app_add'  by done.
  unfold advance. rewrite drop_drop. f_equal. lia.
Qed.

Lemma len_section_buffer (b0 sec : bytes) skip :
  0 <= skip <= len_ sec -> len_ sec <= len_ b0 ->
  len_ (slice sec skip ++ advance b0 skip) = len_ b0.
Proof.
  intros Hs Hb. rewrite len_app, len_slice, len_advance by lia. lia.
Qed.

Lemma below_32 (P : Z -> bool) :
  forallb P (seqZ 0 32) = true -> forall k, 0 <= k < 32 -> P k = true.
Proof.
  intros H k Hk. rewrite forallb_forall in H. apply H.
  apply list_elem_of_In, elem_of_seqZ. lia.
Qed.

(** What the accumulator and [process_ts_data] read in the header. *)
Lemma ts_header_fields start pid cc (body : bytes) :
  0 <= pid < 8192 -> 0 <= cc < 16 ->
  let ts := ts_header start pid cc ++ body in
  ts_is_sync ts = true /\ ts_get_pid ts = pid /\ ts_get_payload ts = Some 4
  /\ ts_get_cc ts = cc /\ ts_is_payload_start ts = start.
Proof.
  intros Hpid Hcc. unfold ts_header. cbn [app]. cbv zeta.
  unfold ts_is_sync, ts_get_pid, ts_get_payload, ts_get_cc, ts_is_payload_start,
    ts_has_payload, ts_has_af.
  rewrite ?at_0, ?at_1, ?at_2, ?at_3.
  pose proof (below_16
    (fun c => negb ((16 + c) .& 16 =? 0) && ((16 + c) .& 32 =? 0)
              && (u8 ((16 + c) .& 15) =? c)) eq_refl cc Hcc) as Hc.
  cbv beta in Hc. apply andb_true_iff in Hc as [Hc Hc3].
  apply andb_true_iff in Hc as [Hc1 Hc2].
  apply Z.eqb_eq in Hc3. rewrite Hc2, Hc3. rewrite Hc1.
  assert (0 <= pid / 256 < 32) as Hh by divmod_lia.
  pose proof (below_32
    (fun h => negb ((64 + h) .& 64 =? 0) && (h .& 64 =? 0)
              && ((64 + h) .& 31 =? h) && (h .& 31 =? h)) eq_refl _ Hh) as Hp.
  cbv beta in Hp. apply andb_true_iff in Hp as [Hp Hp4].
  apply andb_true_iff in Hp as [Hp Hp3]. apply andb_true_iff in Hp as [Hp1 Hp2].
  apply Z.eqb_eq in Hp3, Hp4.
  split; [done|]. split; [|split; [done|split; [done|]]].
  - assert (((if start then 64 else 0) + pid / 256) .& 31 = pid / 256) as ->
      by (destruct start; [done|by rewrite Z.add_0_l]).
    rewrite (lor_shiftl_add (pid mod 256) (pid / 256) 8) by divmod_lia.
    unfold u16. change (2 ^ 8) with 256. rewrite Z.mod_small; divmod_lia.
  - cbn [negb andb]. destruct start; [by rewrite Hp1|].
    rewrite Z.add_0_l. by rewrite Hp2.
Qed.

Lemma psi_size_field sec :
  psi_section sec -> 3 + (((at_ sec 1 .& 0x0F) ≪ 8) .| at_ sec 2) = len_ sec.
Proof.
  intros (Hb & _ & -> & _).
  pose proof (is_byte_at sec 1 Hb) as H1. pose proof (is_byte_at sec 2 Hb) as H2.
  unfold is_byte in *.
  change 15 with (Z.ones 4). rewrite Z.land_ones by lia. change (2 ^ 4) with 16.
  rewrite (lor_shiftl_add (at_ sec 2) (at_ sec 1 mod 16) 8) by lia.
  change (2 ^ 8) with 256. lia.
Qed.

Lemma at_past_5 x0 x1 x2 x3 x4 (l : bytes) i :
  0 <= i -> at_ (x0 :: x1 :: x2 :: x3 :: x4 :: l) (5 + i) = at_ l i.
Proof. intros Hi. apply (at_app_r [x0; x1; x2; x3; x4] l i Hi). Qed.

Lemma at_stuffed_section (sec rest : bytes) n i :
  0 <= i < n -> i < len_ sec ->
  at_ (ts_stuffed n (slice sec n) ++ rest) i = at_ sec i.
Proof.
  intros Hi Hl. unfold ts_stuffed.
  set (stuffing := replicate _ _). pose proof (len_nonneg stuffing).
  rewrite at_app_l by (rewrite len_app, len_slice by lia; lia).
  rewrite at_app_l by (rewrite len_slice by lia; lia).
  apply at_slice. lia.
Qed.

Lemma at_stuffing (sec rest : bytes) n i :
  len_ sec <= i < n ->
  at_ (ts_stuffed n (slice sec n) ++ rest) i = 0xFF.
Proof.
  intros Hi. pose proof (len_nonneg sec) as Hs. unfold ts_stuffed.
  rewrite slice_ge by lia.
  rewrite <- app_assoc.
  replace i with (len_ sec + (i - len_ sec)) by lia.
  rewrite at_app_r by lia.
  rewrite at_app_l by (rewrite len_replicate by lia; lia).
  unfold at_. destruct (Z.ltb_spec (i - len_ sec) 0); [lia|].
  rewrite nth_lookup, lookup_replicate_2 by lia. done.
Qed.

Lemma slice_stuffed (sec rest : bytes) n m :
  0 <= m <= n -> m <= len_ sec ->
  slice (ts_stuffed n (slice sec n) ++ rest) m = slice sec m.
Proof.
  intros Hm Hl. unfold ts_stuffed. rewrite <- app_assoc.
  rewrite slice_app_le by (rewrite len_slice by lia; lia).
  apply slice_slice. lia.
Qed.

Lemma len_stuffed (p : bytes) n : len_ p <= n -> len_ (ts_stuffed n p) = n.
Proof.
  intros H. unfold ts_stuffed. rewrite len_app, len_replicate by lia. lia.
Qed.

Lemma parse_sections_eq fuel ts a payload :
  parse_sections (S fuel) ts a payload
  = if (payload <? TS_PACKET_SIZE) && negb (at_ ts payload =? 0xFF) then
      let remain := TS_PACKET_SIZE - payload in
      if remain <? 3 then
        buf ← memcpy_into (buffer_ a) 0 (advance ts payload) remain;
        Some (with_buffer a buf 0 (u16 remain))
      else
        let psi_size :=
          3 + (((at_ ts (payload + 1) .& 0x0F) ≪ 8) .| at_ ts (payload + 2)) in
        if (psi_size <=? 3) || (PSI_MAX_SIZE <? psi_size) then Some a
        else if remain <? psi_size then
          buf ← memcpy_into (buffer_ a) 0 (advance ts payload) remain;
          Some (with_buffer a buf (u16 psi_size) (u16 remain))
        else
          buf ← memcpy_into (buffer_ a) 0 (advance ts payload) psi_size;
          parse_sections fuel ts
            (emit_section (with_buffer a buf (u16 psi_size) (u16 psi_size)))
            (payload + psi_size)
    else Some a.
Proof. done. Qed.

(** The loop over the sections of the packet in which [sec] starts. *)
Lemma parse_first_section fuel a x0 x1 x2 x3 x4 sec rest :
  psi_section sec -> len_ (buffer_ a) = 4096 ->
  parse_sections (S (S fuel))
    (x0 :: x1 :: x2 :: x3 :: x4 :: ts_stuffed 183 (slice sec 183) ++ rest) a 5
  = Some (section_state a sec 183 (cc_ a)).
Proof.
  intros Hsec Hbuf.
  pose proof (psi_size_field sec Hsec) as Hsize.
  destruct Hsec as (Hbytes & Hlen & _ & Hff). unfold PSI_MAX_SIZE in Hlen.
  set (body := ts_stuffed 183 (slice sec 183) ++ rest).
  assert (183 <= len_ body) as Hsrc.
  { subst body. rewrite len_app, len_stuffed by (rewrite len_slice; lia).
    pose proof (len_nonneg rest). lia. }
  assert (advance (x0 :: x1 :: x2 :: x3 :: x4 :: body) 5 = body) as Hadv by done.
  assert (forall i, 0 <= i -> at_ (x0 :: x1 :: x2 :: x3 :: x4 :: body) (5 + i) = at_ body i)
    as Hat by (intros i Hi; by apply at_past_5).
  set (ts := x0 :: x1 :: x2 :: x3 :: x4 :: body) in *. clearbody ts.
  rewrite parse_sections_eq. unfold TS_PACKET_SIZE, PSI_MAX_SIZE. cbv zeta.
  rewrite (Hat 1), (Hat 2) by lia. rewrite <- (Z.add_0_r 5) at 2. rewrite (Hat 0) by lia.
  rewrite Hadv. subst body. rewrite !at_stuffed_section by lia. rewrite Hsize.
  apply Z.eqb_neq in Hff. rewrite Hff.
  change (5 <? 188) with true. change (188 - 5) with 183. change (183 <? 3) with false.
  cbn [negb andb].
  destruct (Z.leb_spec (len_ sec) 3); [lia|].
  destruct (Z.ltb_spec 4096 (len_ sec)); [lia|]. cbn [orb].
  rewrite <- (advance_0 (buffer_ a)).
  rewrite <- (app_nil_l (advance (buffer_ a) 0)), <- (slice_0 sec).
  unfold section_state, memcpy_into.
  rewrite len_section_buffer by lia. rewrite Hbuf.
  set (body := ts_stuffed 183 (slice sec 183) ++ rest) in *.
  destruct (Z.ltb_spec 183 (len_ sec)); destruct (Z.leb_spec (len_ sec) 183); try lia.
  - destruct (Z.ltb_spec 4096 (0 + 183)); [lia|].
    destruct (Z.ltb_spec (len_ body) 183); [lia|].
    cbn [orb mbind option_bind].
    rewrite memcpy_section; [|lia|lia|lia|lia|].
    2:{ rewrite advance_0. apply slice_stuffed; lia. }
    unfold with_buffer. unfold u16. rewrite !Z.mod_small by lia. done.
  - destruct (Z.ltb_spec 4096 (0 + len_ sec)); [lia|].
    destruct (Z.ltb_spec (len_ body) (len_ sec)); [lia|].
    cbn [orb mbind option_bind].
    rewrite memcpy_section; [|lia|lia|lia|lia|].
    2:{ rewrite advance_0. apply slice_stuffed; lia. }
    rewrite Z.add_0_l, slice_all.
    unfold emit_section, with_buffer. cbn [cc_ buffer_ buffer_size_
      buffer_skip_ completed_sections_ completed_section_sizes_].
    unfold u16. rewrite !Z.mod_small by lia.
    destruct (Z.ltb_spec 0 (len_ sec)); [|lia].
    destruct (Z.leb_spec (len_ sec) (len_ sec)); [|lia]. cbn [andb].
    rewrite parse_sections_eq. unfold TS_PACKET_SIZE.
    destruct (Z.ltb_spec (5 + len_ sec) 188); cbn [andb]; [|done].
    rewrite Hat by lia. subst body. rewrite at_stuffing by lia. done.
Qed.

Lemma with_cc_section_state a sec skip c cc :
  with_cc (section_state a sec skip c) cc = section_state a sec skip cc.
Proof. unfold section_state. by destruct (_ <=? _). Qed.

(** The packet in which the section starts. *)
Lemma first_packet_step a pid cc sec rest :
  psi_section sec -> len_ (buffer_ a) = 4096 ->
  0 <= pid < 8192 -> 0 <= cc < 16 ->
  process_ts_packet a (ts_first pid cc sec ++ rest)
  = Some (section_state a sec 183 cc).
Proof.
  intros Hsec Hbuf Hpid Hcc.
  unfold process_ts_packet, ts_first. rewrite <- !app_assoc.
  destruct (ts_header_fields true pid cc
              ([0] ++ ts_stuffed 183 (slice sec 183) ++ rest) Hpid Hcc)
    as (_ & _ & -> & -> & ->).
  unfold payload_start, ts_header. cbn [app]. rewrite at_4. cbv zeta.
  cbn [Z.ltb Z.compare andb mbind option_bind].
  change (4 + 1 + 0) with 5.
  change (Z.to_nat TS_PACKET_SIZE) with (S (S (Z.to_nat 186))).
  rewrite parse_first_section by done. cbn [mbind option_bind].
  by rewrite with_cc_section_state.
Qed.

(** A packet that continues the section. *)
Lemma next_packet_step a pid c sec skip rest :
  psi_section sec -> len_ (buffer_ a) = 4096 ->
  0 <= pid < 8192 -> 0 < skip < len_ sec ->
  process_ts_packet (section_state a sec skip c)
    ((ts_header false pid ((c + 1) mod 16)
        ++ ts_stuffed 184 (slice (advance sec skip) 184)) ++ rest)
  = Some (section_state a sec (skip + 184) ((c + 1) mod 16)).
Proof.
  intros (Hbytes & Hlen & _ & _) Hbuf Hpid Hskip. unfold PSI_MAX_SIZE in Hlen.
  assert (0 <= (c + 1) mod 16 < 16) as Hcc by (apply Z.mod_pos_bound; lia).
  unfold process_ts_packet. rewrite <- !app_assoc.
  set (body := ts_stuffed 184 (slice (advance sec skip) 184) ++ rest).
  destruct (ts_header_fields false pid ((c + 1) mod 16) body Hpid Hcc)
    as (_ & _ & -> & -> & ->).
  assert (advance (ts_header false pid ((c + 1) mod 16) ++ body) 4 = body) as Hadv
    by (by apply advance_app_length).
  assert (section_state a sec skip c
          = mk c (slice sec skip ++ advance (buffer_ a) skip) (len_ sec) skip
              (completed_sections_ a) (completed_section_sizes_ a)) as ->.
  { unfold section_state. by destruct (Z.leb_spec (len_ sec) skip); [lia|]. }
  unfold continuation.
  cbn [cc_ buffer_ buffer_size_ buffer_skip_].
  destruct (Z.ltb_spec 0 skip); [|lia].
  change 15 with (Z.ones 4). rewrite Z.land_ones by lia. change (2 ^ 4) with 16.
  rewrite Z.eqb_refl. cbn [negb].
  destruct (Z.eqb_spec (len_ sec) 0); [lia|]. cbn [andb mbind option_bind].
  cbn [cc_ buffer_ buffer_size_ buffer_skip_].
  unfold TS_PACKET_SIZE. change (188 - 4) with 184. rewrite Hadv.
  assert (usize (len_ sec - skip) = len_ sec - skip) as ->.
  { unfold usize. apply Z.mod_small. change (2 ^ 64) with 18446744073709551616. lia. }
  assert (len_ (advance sec skip) = len_ sec - skip) as Hrest
    by (rewrite len_advance; lia).
  assert (184 <= len_ body) as Hbody.
  { subst body. rewrite len_app, len_stuffed by (rewrite len_slice; lia).
    pose proof (len_nonneg rest). lia. }
  set (to_copy := Z.min 184 (len_ sec - skip)).
  assert (0 < to_copy <= 184 /\ to_copy <= len_ sec - skip) as Hcopy by (subst to_copy; lia).
  unfold memcpy_into. rewrite len_section_buffer by lia. rewrite Hbuf.
  destruct (Z.ltb_spec 4096 (skip + to_copy)); [lia|].
  destruct (Z.ltb_spec (len_ body) to_copy); [lia|]. cbn [orb mbind option_bind].
  rewrite memcpy_section; [|lia|lia|lia|lia|].
  2:{ subst body. apply slice_stuffed; lia. }
  unfold emit_if_full, with_buffer. cbn [cc_ buffer_ buffer_size_ buffer_skip_
    completed_sections_ completed_section_sizes_].
  unfold u16. rewrite !Z.mod_small by lia.
  destruct (Z.ltb_spec 0 (len_ sec)); [|lia]. cbn [andb].
  unfold section_state.
  destruct (Z.leb_spec (len_ sec) (skip + to_copy));
    destruct (Z.leb_spec (len_ sec) (skip + 184)); try lia.
  - replace (skip + to_copy) with (len_ sec) by lia. rewrite slice_all.
    unfold emit_section, with_cc. cbn [cc_ buffer_ buffer_size_ buffer_skip_
      completed_sections_ completed_section_sizes_].
    destruct (Z.ltb_spec 0 (len_ sec)); [|lia].
    destruct (Z.leb_spec (len_ sec) (len_ sec)); [|lia]. done.
  - replace to_copy with 184 by lia. done.
Qed.

(** The packets that continue the section, one after the other. *)
Lemma continued_packets a pid sec : forall fuel skip c,
  psi_section sec -> len_ (buffer_ a) = 4096 -> 0 <= pid < 8192 ->
  0 <= c < 16 -> 0 < skip < len_ sec + 184 -> len_ sec - skip <= Z.of_nat fuel ->
  foldM process_ts_packet (section_state a sec skip c)
    (ts_continued fuel pid ((c + 1) mod 16) (advance sec skip))
  = Some (section_state a sec (len_ sec)
            ((c + (len_ sec - skip + 183) / 184) mod 16)).
Proof.
  assert (forall skip c, 0 <= c < 16 -> len_ sec <= skip < len_ sec + 184 ->
            section_state a sec skip c
            = section_state a sec (len_ sec)
                ((c + (len_ sec - skip + 183) / 184) mod 16)) as Hdone.
  { intros skip c Hc Hskip.
    replace ((len_ sec - skip + 183) / 184) with 0 by divmod_lia.
    rewrite Z.add_0_r, Z.mod_small by lia. unfold section_state.
    destruct (Z.leb_spec (len_ sec) skip); [|lia].
    by destruct (Z.leb_spec (len_ sec) (len_ sec)); [|lia]. }
  induction fuel as [|fuel IH]; intros skip c Hsec Hbuf Hpid Hc Hskip Hfuel.
  - cbn [ts_continued foldM]. f_equal. apply Hdone; [done|lia].
  - cbn [ts_continued].
    destruct (Z.leb_spec (len_ (advance sec skip)) 0) as [Hend|Hmore].
    + cbn [foldM]. f_equal. apply Hdone; [done|].
      destruct (Z.le_gt_cases (len_ sec) skip); [lia|].
      rewrite len_advance in Hend; lia.
    + assert (skip < len_ sec) as Hlt.
      { destruct (Z.le_gt_cases (len_ sec) skip); [|lia].
        rewrite advance_ge in Hmore by done. done. }
      cbn [foldM].
      rewrite <- (app_nil_r (_ ++ ts_stuffed 184 _)).
      rewrite next_packet_step by (done || lia). cbn [mbind option_bind].
      rewrite advance_advance by lia.
      assert (0 <= (c + 1) mod 16 < 16) as Hc' by (apply Z.mod_pos_bound; lia).
      rewrite IH by (done || lia). do 2 f_equal.
      rewrite Zplus_mod_idemp_l.
      replace (len_ sec - skip + 183) with (len_ sec - (skip + 184) + 183 + 1 * 184)
        by lia.
      rewrite Z.div_add by lia. f_equal. lia.
Qed.
End ts_sections.

Section ts_data.
Import MPESectionAccumulator DABStreamParserTs.

Lemma handle_mpe_section_with_accum s a section len :
  handle_mpe_section (with_accum s a) section len
  = '(s1, frames) ← handle_mpe_section s section len; Some (with_accum s1 a, frames).
Proof.
  unfold handle_mpe_section. cbv zeta.
  cbn [with_accum target_ip_ target_port_ stream_].
  repeat (match goal with |- context [if ?b then _ else _] => destruct b end;
          try done).
  all: destruct (DABStreamParser.handle_edi_packet _ _ _) as [[p frames]|]; done.
Qed.

Lemma with_accum_twice s a b : with_accum (with_accum s a) b = with_accum s b.
Proof. done. Qed.

Lemma target_pid_with_accum s a : target_pid_ (with_accum s a) = target_pid_ s.
Proof. done. Qed.

Lemma mpe_accum_with_accum s a : mpe_accum_ (with_accum s a) = a.
Proof. done. Qed.

Lemma is_complete_with_accum s a : is_complete (with_accum s a) = is_complete s.
Proof. done. Qed.

(** One pass of the loop for a packet with the sync byte and the PID. *)
Lemma own_packet_pass fuel s (pre rest : bytes) len start cc body :
  0 <= target_pid_ s < 8192 -> 0 <= cc < 16 ->
  len_ (ts_header start (target_pid_ s) cc ++ body) = 188 ->
  len_ pre + 188 <= len < 2 ^ 64 ->
  let ts := (ts_header start (target_pid_ s) cc ++ body) ++ rest in
  process_ts_packets (S fuel) s (pre ++ ts) len (len_ pre)
  = a ← MPESectionAccumulator.process_ts_packet (mpe_accum_ s) ts;
    '(s1, returned, frames) ←
      handle_sections (S (length (completed_sections_ a))) (with_accum s a);
    if (returned : bool) then Some (s1, true, frames)
    else
      '(s2, result, frames') ←
        process_ts_packets fuel s1 (pre ++ ts) len (len_ pre + 188);
      Some (s2, result, frames ++ frames').
Proof.
  intros Hpid Hcc Hp Hlen ts. pose proof (len_nonneg pre) as Hpre.
  change (2 ^ 64) with 18446744073709551616 in Hlen.
  cbn [process_ts_packets]. unfold TS_PACKET_SIZE.
  assert (usize (len_ pre + 188) = len_ pre + 188) as ->.
  { unfold usize. apply Z.mod_small. change (2 ^ 64) with 18446744073709551616. lia. }
  destruct (Z.leb_spec (len_ pre + 188) len); [|lia].
  rewrite advance_app_length by done.
  subst ts. rewrite <- app_assoc.
  destruct (ts_header_fields start (target_pid_ s) cc (body ++ rest) Hpid Hcc)
    as (-> & -> & _).
  rewrite Z.eqb_refl. done.
Qed.

(** After the data the loop ends. *)
Lemma packets_end fuel s (data : bytes) :
  len_ data + 188 < 2 ^ 64 ->
  process_ts_packets (S fuel) s data (len_ data) (len_ data) = Some (s, is_complete s, []).
Proof.
  intros Hlen. pose proof (len_nonneg data).
  change (2 ^ 64) with 18446744073709551616 in Hlen.
  cbn [process_ts_packets]. unfold TS_PACKET_SIZE.
  destruct (Z.leb_spec (usize (len_ data + 188)) (len_ data)) as [Hle|]; [|done].
  unfold usize in Hle. change (2 ^ 64) with 18446744073709551616 in Hle.
  exfalso. divmod_lia.
Qed.
Lemma section_state_done a sec skip c :
  len_ sec <= skip -> section_state a sec skip c = section_state a sec (len_ sec) c.
Proof.
  intros H. unfold section_state.
  destruct (Z.leb_spec (len_ sec) skip); [|lia].
  by destruct (Z.leb_spec (len_ sec) (len_ sec)); [|lia].
Qed.

(** Once the section is queued it is handled, and the loop ends with the
    data. *)
Lemma drained_tail s0 sec c fuel (data : bytes) :
  completed_sections_ (mpe_accum_ s0) = [] ->
  completed_section_sizes_ (mpe_accum_ s0) = [] ->
  len_ data + 188 < 2 ^ 64 ->
  let a := section_state (mpe_accum_ s0) sec (len_ sec) c in
  ('(s1, returned, frames) ←
     handle_sections (S (length (completed_sections_ a))) (with_accum s0 a);
   if (returned : bool) then Some (s1, true, frames)
   else
     '(s2, result, frames') ← process_ts_packets (S fuel) s1 data (len_ data) (len_ data);
     Some (s2, result, frames ++ frames'))
  = section_handled s0 (sec ++ advance (buffer_ (mpe_accum_ s0)) (len_ sec)) (len_ sec) c.
Proof.
  intros Hq Hsz Hlen a. subst a. unfold section_state.
  destruct (Z.leb_spec (len_ sec) (len_ sec)); [|lia].
  rewrite Hq, Hsz. cbn [app completed_sections_ length].
  set (buf := sec ++ advance (buffer_ (mpe_accum_ s0)) (len_ sec)).
  cbn [handle_sections]. cbn [with_accum mpe_accum_].
  unfold has_section, get_section, get_section_size.
  cbn [completed_sections_ completed_section_sizes_ hd].
  rewrite handle_mpe_section_with_accum.
  unfold section_handled.
  destruct (handle_mpe_section s0 buf (len_ sec)) as [[s1 frames]|]; [|done].
  cbn [mbind option_bind with_accum mpe_accum_].
  unfold pop_section. cbn [completed_sections_ completed_section_sizes_ tl cc_ buffer_
    buffer_size_ buffer_skip_].
  rewrite with_accum_twice, is_complete_with_accum.
  destruct (is_complete s1) eqn:Hc; [done|].
  cbn [mbind option_bind].
  rewrite packets_end by done. cbn [mbind option_bind].
  rewrite is_complete_with_accum, Hc. by rewrite !app_nil_r.
Qed.

Lemma ts_continued_nil fuel pid c : ts_continued fuel pid c [] = [].
Proof. by destruct fuel. Qed.

Lemma len_ts_header start pid cc : len_ (ts_header start pid cc) = 4.
Proof. done. Qed.

Lemma len_next_packet pid cc (rest : bytes) :
  len_ (ts_header false pid cc ++ ts_stuffed 184 (slice rest 184)) = 188.
Proof.
  rewrite len_app, len_ts_header, len_stuffed by (rewrite len_slice; lia). done.
Qed.

Lemma ts_continued_lengths pid : forall fuel c rest,
  len_ (concat (ts_continued fuel pid c rest))
  = 188 * Z.of_nat (length (ts_continued fuel pid c rest))
  /\ (length (ts_continued fuel pid c rest) <= fuel)%nat.
Proof.
  induction fuel as [|fuel IH]; intros c rest; [done|].
  cbn [ts_continued]. destruct (len_ rest <=? 0); [split; [done|cbn; lia]|].
  cbn [concat length]. destruct (IH ((c + 1) mod 16) (advance rest 184)) as [Hl Hn].
  rewrite len_app, len_next_packet, Hl. lia.
Qed.

(** The loop over the packets that continue the section. *)
Lemma data_continued s0 pid sec : forall fuel_c skip c (pre : bytes) fuel,
  psi_section sec -> len_ (buffer_ (mpe_accum_ s0)) = 4096 ->
  completed_sections_ (mpe_accum_ s0) = [] ->
  completed_section_sizes_ (mpe_accum_ s0) = [] ->
  target_pid_ s0 = pid -> 0 <= pid < 8192 -> 0 <= c < 16 ->
  0 < skip < len_ sec -> len_ sec - skip <= Z.of_nat fuel_c ->
  let pkts := ts_continued fuel_c pid ((c + 1) mod 16) (advance sec skip) in
  let data := pre ++ concat pkts in
  (length pkts < fuel)%nat -> len_ data + 188 < 2 ^ 64 ->
  process_ts_packets fuel (with_accum s0 (section_state (mpe_accum_ s0) sec skip c))
    data (len_ data) (len_ pre)
  = section_handled s0 (sec ++ advance (buffer_ (mpe_accum_ s0)) (len_ sec)) (len_ sec)
      ((c + (len_ sec - skip + 183) / 184) mod 16).
Proof.
  induction fuel_c as [|fuel_c IH];
    intros skip c pre fuel Hsec Hbuf Hq Hsz Htarget Hpid Hc Hskip Hfuel pkts data Hn Hlen;
    [lia|].
  subst data pkts. cbn [ts_continued] in *.
  assert (len_ (advance sec skip) = len_ sec - skip) as Hrest by (rewrite len_advance; lia).
  destruct (Z.leb_spec (len_ (advance sec skip)) 0); [lia|].
  cbn [concat length] in *.
  destruct fuel as [|fuel]; [lia|].
  set (c' := (c + 1) mod 16) in *.
  assert (0 <= c' < 16) as Hc' by (apply Z.mod_pos_bound; lia).
  set (rest := concat (ts_continued fuel_c pid ((c' + 1) mod 16)
                         (advance (advance sec skip) 184))) in *.
  set (st := section_state (mpe_accum_ s0) sec skip c).
  pose proof (own_packet_pass fuel (with_accum s0 st) pre rest
                (len_ (pre ++ (ts_header false pid c'
                                 ++ ts_stuffed 184 (slice (advance sec skip) 184)) ++ rest))
                false c' (ts_stuffed 184 (slice (advance sec skip) 184))) as Hpass.
  cbv zeta in Hpass.
  rewrite !target_pid_with_accum in Hpass. rewrite Htarget in Hpass.
  rewrite mpe_accum_with_accum in Hpass.
  rewrite Hpass; clear Hpass; [|done|done|apply len_next_packet|].
  2:{ rewrite (len_app pre), (len_app _ rest), len_next_packet in *.
      pose proof (len_nonneg rest). pose proof (len_nonneg pre). lia. }
  subst st. rewrite next_packet_step by done. cbn [mbind option_bind].
  rewrite with_accum_twice. fold c'.
  destruct (Z.le_gt_cases (len_ sec) (skip + 184)) as [Hlast|Hmore].
  - rewrite (section_state_done _ _ (skip + 184)) by done.
    assert (rest = []) as Hnil.
    { subst rest. rewrite advance_advance, advance_ge by lia.
      by rewrite ts_continued_nil. }
    rewrite Hnil in *. cbn [length] in Hn. destruct fuel as [|fuel]; [lia|].
    rewrite app_nil_r in *.
    set (data := pre ++ _) in *.
    replace (len_ pre + 188) with (len_ data)
      by (subst data; rewrite len_app, len_next_packet; lia).
    rewrite drained_tail by done. do 2 f_equal.
    subst c'. f_equal. replace ((len_ sec - skip + 183) / 184) with 1 by divmod_lia. done.
  - assert (completed_sections_ (section_state (mpe_accum_ s0) sec (skip + 184) c') = [])
      as Hpending.
    { unfold section_state. by destruct (Z.leb_spec (len_ sec) (skip + 184)); [lia|]. }
    rewrite Hpending. cbn [length handle_sections]. unfold has_section.
    rewrite mpe_accum_with_accum, Hpending. cbn [mbind option_bind].
    rewrite (app_assoc pre).
    set (pre' := pre ++ _).
    replace (len_ pre + 188) with (len_ pre')
      by (subst pre'; rewrite len_app, len_next_packet; lia).
    subst rest. rewrite advance_advance by lia.
    rewrite (IH (skip + 184) c' pre' fuel); try done; try lia.
    + replace ((c' + (len_ sec - (skip + 184) + 183) / 184) mod 16)
        with ((c + (len_ sec - skip + 183) / 184) mod 16).
      { by destruct (section_handled _ _ _ _) as [[[s2 r] fr]|]. }
      subst c'. rewrite Zplus_mod_idemp_l.
      replace (len_ sec - skip + 183) with (len_ sec - (skip + 184) + 183 + 1 * 184)
        by lia.
      rewrite Z.div_add by lia. f_equal. lia.
    + rewrite <- advance_advance by lia. lia.
    + subst pre'. rewrite <- app_assoc. rewrite <- advance_advance by lia. done.
Qed.
Lemma len_ts_first pid cc sec : len_ (ts_first pid cc sec) = 188.
Proof.
  unfold ts_first.
  rewrite !len_app, len_ts_header, len_stuffed by (rewrite len_slice; lia). done.
Qed.

(** The loop over all the packets of the section. *)
Lemma data_section s pid cc sec :
  psi_section sec -> len_ (buffer_ (mpe_accum_ s)) = 4096 ->
  completed_sections_ (mpe_accum_ s) = [] ->
  completed_section_sizes_ (mpe_accum_ s) = [] ->
  target_pid_ s = pid -> 0 <= pid < 8192 -> 0 <= cc < 16 ->
  let data := concat (ts_section pid cc sec) in
  process_ts_data s data (len_ data)
  = section_handled s (sec ++ advance (buffer_ (mpe_accum_ s)) (len_ sec)) (len_ sec)
      ((cc + len_ sec / 184) mod 16).
Proof.
  intros Hsec Hbuf Hq Hsz Htarget Hpid Hcc data.
  pose proof Hsec as (_ & Hlen & _). unfold PSI_MAX_SIZE in Hlen.
  subst data. unfold process_ts_data, ts_section, TS_PACKET_SIZE. cbn [concat].
  set (pkts := ts_continued (length sec) pid ((cc + 1) mod 16) (advance sec 183)).
  destruct (ts_continued_lengths pid (length sec) ((cc + 1) mod 16) (advance sec 183))
    as [Hl Hn].
  fold pkts in Hl, Hn.
  assert (len_ (ts_first pid cc sec ++ concat pkts)
          = 188 * (1 + Z.of_nat (length pkts))) as Hdata
    by (rewrite len_app, len_ts_first, Hl; lia).
  assert (len_ (ts_first pid cc sec ++ concat pkts) + 188 < 2 ^ 64) as Hsmall.
  { rewrite Hdata. change (2 ^ 64) with 18446744073709551616. unfold len_ in Hlen. lia. }
  replace (Z.to_nat (len_ (ts_first pid cc sec ++ concat pkts) / 188))
    with (S (length pkts)).
  2:{ rewrite Hdata. rewrite Z.mul_comm, Z.div_mul by lia. lia. }
  pose proof (own_packet_pass (S (length pkts)) s [] (concat pkts)
                (len_ (ts_first pid cc sec ++ concat pkts)) true cc
                ([0] ++ ts_stuffed 183 (slice sec 183))) as Hpass.
  cbv zeta in Hpass. rewrite Htarget in Hpass.
  change (ts_header true pid cc ++ [0] ++ ts_stuffed 183 (slice sec 183))
    with (ts_first pid cc sec) in Hpass.
  change ([] ++ ts_first pid cc sec ++ concat pkts)
    with (ts_first pid cc sec ++ concat pkts) in Hpass.
  change (len_ []) with 0 in Hpass.
  rewrite Hpass; clear Hpass; [|done|done|apply len_ts_first|].
  2:{ change (2 ^ 64) with 18446744073709551616 in *. lia. }
  rewrite first_packet_step by done. cbn [mbind option_bind].
  destruct (Z.le_gt_cases (len_ sec) 183) as [Hone|Hmore].
  - rewrite section_state_done by done.
    assert (pkts = []) as Hnil.
    { subst pkts. rewrite advance_ge by done. by rewrite ts_continued_nil. }
    rewrite Hnil in *. cbn [concat length] in *. rewrite app_nil_r in *.
    replace (0 + 188) with (len_ (ts_first pid cc sec)) by (by rewrite len_ts_first).
    rewrite drained_tail by done. do 2 f_equal.
    replace (len_ sec / 184) with 0 by divmod_lia.
    rewrite Z.add_0_r. symmetry. apply Z.mod_small. lia.
  - assert (completed_sections_ (section_state (mpe_accum_ s) sec 183 cc) = [])
      as Hpending.
    { unfold section_state. by destruct (Z.leb_spec (len_ sec) 183); [lia|]. }
    rewrite Hpending. cbn [length handle_sections]. unfold has_section.
    rewrite mpe_accum_with_accum, Hpending. cbn [mbind option_bind].
    replace (0 + 188) with (len_ (ts_first pid cc sec)) by (by rewrite len_ts_first).
    subst pkts.
    rewrite (data_continued s pid sec (length sec) 183 cc (ts_first pid cc sec));
      try done; try lia.
    + replace (len_ sec - 183 + 183) with (len_ sec) by lia.
      by destruct (section_handled _ _ _ _) as [[[s2 r] fr]|].
    + unfold len_. lia.
Qed.
End ts_data.

Lemma psi_section_check sec :
  forallb (fun b => (0 <=? b) && (b <? 256)) sec
  && (3 <? len_ sec) && (len_ sec <=? PSI_MAX_SIZE)
  && (len_ sec =? 3 + (at_ sec 1 mod 16 * 256 + at_ sec 2))
  && negb (at_ sec 0 =? 0xFF) = true ->
  psi_section sec.
Proof.
  intros H. repeat (apply andb_true_iff in H as [H ?]).
  split; [by apply bytes_check|].
  split; [lia|]. split; [lia|]. by apply Z.eqb_neq, negb_true_iff.
Qed.

(** X17.  A section that arrives in TS packets is put together again.  When
    the packet in which a section of at most 4096 bytes starts (pointer
    field zero, no adaptation field, stuffed with 0xFF) and the packets that
    continue it, with consecutive continuity counters, are given to
    [process_ts_packet] one after the other, then whatever the accumulator
    held before, it ends with nothing pending and with exactly one more
    queued section: a copy of the buffer that starts with the bytes of the
    section, with the section's length as its size. *)
Theorem section_reassembled (a : MPESectionAccumulator.t) (pid cc : Z) (sec : bytes) :
  psi_section sec ->
  len_ (MPESectionAccumulator.buffer_ a) = PSI_MAX_SIZE ->
  0 <= pid < 8192 -> 0 <= cc < 16 ->
  let buf := sec ++ advance (MPESectionAccumulator.buffer_ a) (len_ sec) in
  foldM MPESectionAccumulator.process_ts_packet a (ts_section pid cc sec)
  = Some (MPESectionAccumulator.mk ((cc + len_ sec / 184) mod 16) buf 0 0
            (MPESectionAccumulator.completed_sections_ a ++ [buf])
            (MPESectionAccumulator.completed_section_sizes_ a ++ [len_ sec])).
Proof.
  intros Hsec Hbuf Hpid Hcc buf.
  pose proof Hsec as (_ & Hlen & _).
  unfold ts_section. cbn [foldM].
  rewrite <- (app_nil_r (ts_first pid cc sec)).
  rewrite first_packet_step by done. cbn [mbind option_bind].
  rewrite continued_packets by (done || unfold len_; lia).
  replace (len_ sec - 183 + 183) with (len_ sec) by lia.
  unfold section_state. by destruct (Z.leb_spec (len_ sec) (len_ sec)); [|lia].
Qed.

Lemma section_reassembled_witness :
  let sec := [0x3E; 0x00; 197] ++ replicate 197 0x11 in
  foldM MPESectionAccumulator.process_ts_packet MPESectionAccumulator.init
    (ts_section 0x100 15 sec)
  = Some (MPESectionAccumulator.mk 0
            (sec ++ replicate (Z.to_nat 3896) 0) 0 0
            [sec ++ replicate (Z.to_nat 3896) 0] [200]).
Proof.
  intros sec.
  pose proof (section_reassembled MPESectionAccumulator.init 0x100 15 sec) as H.
  apply H.
  - apply psi_section_check. vm_compute. reflexivity.
  - reflexivity.
  - lia.
  - lia.
Defined.

(** X18.  On the TS path a section reaches [handle_mpe_section] whole.
    For data that consists of the TS packets of one section, with the sync
    byte and the target PID, and a parser with no section queued,
    [process_ts_data] does what [handle_mpe_section] does on the copy of the
    accumulator's buffer that starts with the section, with the section's
    length; it leaves nothing queued or pending, and it returns whether the
    FIC parser is complete. *)
Theorem process_ts_data_section (s : DABStreamParserTs.t) (pid cc : Z) (sec : bytes) :
  let a := DABStreamParserTs.mpe_accum_ s in
  psi_section sec ->
  len_ (MPESectionAccumulator.buffer_ a) = PSI_MAX_SIZE ->
  MPESectionAccumulator.completed_sections_ a = [] ->
  MPESectionAccumulator.completed_section_sizes_ a = [] ->
  DABStreamParserTs.target_pid_ s = pid -> 0 <= pid < 8192 -> 0 <= cc < 16 ->
  let data := concat (ts_section pid cc sec) in
  let buf := sec ++ advance (MPESectionAccumulator.buffer_ a) (len_ sec) in
  DABStreamParserTs.process_ts_data s data (len_ data)
  = '(s1, frames) ← DABStreamParserTs.handle_mpe_section s buf (len_ sec);
    Some (DABStreamParserTs.with_accum s1
            (MPESectionAccumulator.mk ((cc + len_ sec / 184) mod 16) buf 0 0 [] []),
          DABStreamParserTs.is_complete s1, frames).
Proof.
  intros a Hsec Hbuf Hq Hsz Htarget Hpid Hcc data buf.
  by apply data_section.
Qed.

Lemma process_ts_data_section_witness :
  let sec := [0x3E; 0x00; 197] ++ replicate 197 0x11 in
  let s := DABStreamParserTs.init 0x100 0xEFC70201 1234 in
  let buf := sec ++ replicate (Z.to_nat 3896) 0 in
  DABStreamParserTs.process_ts_data s (concat (ts_section 0x100 15 sec)) 376
  = '(s1, frames) ← DABStreamParserTs.handle_mpe_section s buf 200;
    Some (DABStreamParserTs.with_accum s1 (MPESectionAccumulator.mk 0 buf 0 0 [] []),
          DABStreamParserTs.is_complete s1, frames).
Proof.
  intros sec s buf.
  pose proof (process_ts_data_section s 0x100 15 sec) as H.
  apply H.
  - apply psi_section_check. vm_compute. reflexivity.
  - reflexivity.
  - reflexivity.
  - reflexivity.
  - reflexivity.
  - lia.
  - lia.
Defined.

(** X19.  [handle_mpe_section] is [process_mpe_section] behind a filter.
    On a section without LLC/SNAP header, [handle_mpe_section] changes the
    stream parser and hands out frames exactly as [process_mpe_section]
    does when the datagram's destination address and port are the target's;
    for another destination it does nothing. *)
Theorem handle_mpe_section_filters (s : DABStreamParserTs.t) (section : bytes) (len : Z) :
  at_ section 1 .& 0x08 = 0 ->
  0 <= len < 2 ^ 64 ->
  DABStreamParserTs.handle_mpe_section s section len
  = if (mpe_destination section).1 =? DABStreamParserTs.target_ip_ s then
      if (mpe_destination section).2 =? DABStreamParserTs.target_port_ s then
        '(p, _, frames) ←
          DABStreamParserInput.process_mpe_section (DABStreamParserTs.stream_ s) section len;
        Some (DABStreamParserTs.with_stream s p, frames)
      else Some (s, [])
    else Some (s, []).
Proof.
  intros Hllc Hlen. change (2 ^ 64) with 18446744073709551616 in Hlen.
  assert (DABStreamParserTs.with_stream s (DABStreamParserTs.stream_ s) = s) as Hs
    by (by destruct s).
  unfold DABStreamParserTs.handle_mpe_section, DABStreamParserInput.process_mpe_section,
    DABStreamParserInput.unchanged, mpe_destination.
  rewrite Hllc. cbn [Z.eqb negb fst snd]. cbv zeta.
  set (dst_ip := u32 _). set (dst_port := u16 ((at_ _ 2 ≪ 8) .| _)).
  set (udp_len := u16 ((at_ _ 4 ≪ 8) .| _)).
  assert (0 <= udp_len < 65536) as Hudp by (subst udp_len; apply u16_nonneg).
  clearbody dst_ip dst_port udp_len.
  destruct (dst_ip =? DABStreamParserTs.target_ip_ s);
    destruct (dst_port =? DABStreamParserTs.target_port_ s); cbn [negb orb];
    destruct (Z.ltb_spec len 40); destruct (Z.ltb_spec len (12 + 28)); try lia;
    cbn [mbind option_bind]; rewrite ?Hs; try done;
    destruct (negb (at_ section 0 =? 62)); cbn [mbind option_bind]; rewrite ?Hs;
    try done;
    destruct (negb (at_ (advance section 12) 0 ≫ 4 =? 4)); cbn [mbind option_bind];
    rewrite ?Hs; try done;
    destruct (negb (at_ (advance section 12) 9 =? 17)); cbn [mbind option_bind];
    rewrite ?Hs; try done.
  assert (usize (len - 40) = len - 40) as ->
    by (unfold usize; apply Z.mod_small; change (2 ^ 64) with 18446744073709551616; lia).
  replace (len - 12 - 28) with (len - 40) by lia.
  destruct ((0 <? usize (udp_len - 8)) && (usize (udp_len - 8) <=? len - 40));
    cbn [mbind option_bind]; rewrite ?Hs; [|done].
  by destruct (DABStreamParser.handle_edi_packet _ _ _) as [[p frames]|].
Qed.

Lemma handle_mpe_section_filters_witness :
  let section :=
    [0x3E; 0xB0; 43; 0; 0; 0xC1; 0; 0; 0; 0; 0; 0]
      ++ [0x45;0;0;30; 0;0;0;0; 64;17;0;0; 10;0;0;1; 239;199;2;1]
      ++ [4;210; 4;210; 0;10; 0;0] ++ [0x50;0x46] ++ [0; 0; 0; 0] in
  let s := DABStreamParserTs.init 0x100 0xEFC70201 1234 in
  DABStreamParserTs.handle_mpe_section s section 46
  = '(p, _, frames) ←
      DABStreamParserInput.process_mpe_section (DABStreamParserTs.stream_ s) section 46;
    Some (DABStreamParserTs.with_stream s p, frames).
Proof.
  intros section s.
  pose proof (handle_mpe_section_filters s section 46) as H.
  apply H.
  - reflexivity.
  - by vm_compute.
Defined.
